(* ===== verification/_CoqProject ===== *)
-Q . S2P
Prelude.v
PyStr.v
Json.v
PyFloat.v
Sha256.v
Frozen.v
PyRepr.v
RunnerTask.v
Contracts.v
Leases.v
Ledger.v
Adapters.v
Environment.v
Routing.v
Pep.v
ControlPlane.v
ExecutionGate.v
Execution.v
Authority.v
Dispatch.v
RunnerLeases.v
Lifecycle.v
Reconciliation.v
Recovery.v
Shadow.v
Loop.v
LoopStore.v
LoopEngine.v
LoopAdapter.v
LoopRecovery.v
Cutover.v
CutoverBridge.v
Schedule.v
ScheduleStore.v
ControlRecovery.v
SharedDispatch.v
ScheduleEngine.v
