(* ===== verification/Prelude.v ===== *)
(** * Skeleton: the runner's control plane, its bounded loops and its schedules

    Skeleton lets language-model agents work on a repository through a runner.
    This development models the part of it that decides and records what the
    runner may do: the "vNext" control plane ([src/core/runner_vnext_*.py]), the
    controller of bounded loops ([src/core/loop_*.py]), the scheduler that starts
    work when it is due ([src/core/scheduler_*.py]) and the recovery from known
    failures of all this ([src/core/control_recovery.py]).  Every definition is
    executable and translated from the source; names are the source's wherever Rocq
    allows them.

    ** The program

    A task reaches the runner as a JSON envelope, which [RunnerTask] checks and
    freezes.  [Authority] binds it, or an operator's request, to the typed
    operation of its route, identified by a hash; [Dispatch] takes one bound
    operation from the attestation of its node through everything below to the
    mechanical backend and the receipt, or replays what the ledger already holds.

    A task reaches the control plane as a typed operation.  [Contracts] classifies
    it GREEN, YELLOW or RED; only GREEN operations run unattended.  [Adapters]
    turns task and decision into a dry-run envelope, [Environment] computes the
    environment of the child process, [Routing] selects the node.  Two SQLite
    stores hold what must survive a crash: [Leases] gives a lane of a scope to one
    owner at a time, with increasing fence tokens; [Ledger] is the append-only log
    of reserved, started and finished operations.  [Pep] authorizes an envelope
    that the ledger holds a reservation of.  [ControlPlane] ([prepare]) drives all
    of this and undoes it on failure; [ExecutionGate] ([grant]) reads every fact
    again just before execution; [Execution] ([begin], [run], [finalize]) marks the
    start, runs the injected executor and closes the operation.  [Lifecycle] is the
    composition.  When the outcome of a started operation is unknown,
    [Reconciliation] closes it from evidence, and [Recovery] runs one of a closed
    set of bounded commands.  While the legacy runner still executes, [Shadow]
    compares its classes with the control plane's, [Cutover] weighs the collected
    evidence and [CutoverBridge] tells the legacy runner whether it may go on.
    The legacy runner's own attempts are kept in [RunnerLeases].

    Long-running work is a loop: [Loop] is its state machine and the registered
    limits, [LoopStore] persists runs and events with optimistic versions,
    [LoopEngine] composes the two, [LoopAdapter] answers the runner's packets with
    public-safe receipts and [LoopRecovery] reads the packets that recover a loop.

    Work that recurs is a [Schedule]: a cron expression or one time in a time zone,
    a route and a payload.  [ScheduleStore] keeps versions, occurrences, claims and
    receipts; a tick of [ScheduleEngine] recovers stale claims, turns due times into
    occurrences and dispatches the pending ones through [SharedDispatch], whose
    loop route is the packet adapter of [LoopAdapter] and whose recovery route is
    [ControlRecovery]: a failure that is classified gets a fixed plan of registered
    actions and canaries, attempted with a backoff until it is recovered or an
    operator is told, once.

    ** Files

    - [Prelude]: exceptions, the error monad [result] and the state-and-error monad
      [M], transactions, sorting, automation.  [PyStr], [Json], [PyFloat],
      [Sha256]: what the program uses of Python's [str], [json], [float] and
      [hashlib].  [Frozen]: the bounded, frozen JSON values of tasks and schedules;
      [PyRepr]: [str] of JSON values and their membership in sets.
    - [Contracts] (runner_vnext_contracts), [Leases] (runner_vnext_leases and
      runner_vnext_scheduler), [Ledger] (runner_vnext_ledger), [Adapters],
      [Environment], [Routing], [Pep], [ControlPlane], [ExecutionGate], [Execution],
      [Reconciliation], [Recovery], [Authority], [Dispatch]
      (runner_vnext_authoritative_dispatch; the others are the modules of these
      names), [RunnerTask] (runner_task), [RunnerLeases] (runner_lease_store), [Shadow]
      (runner_vnext_compat and runner_vnext_shadow), [Cutover], [CutoverBridge];
      [Lifecycle] models no file of its own.
    - [Loop] (loop_controller and loop_policy_registry), [LoopStore]
      (loop_state_store), [LoopEngine], [LoopAdapter] (loop_runner_adapter),
      [LoopRecovery] (loop_recovery_packet).
    - [Schedule] (scheduler_models), [ScheduleStore] (scheduler_store),
      [ControlRecovery] (control_recovery), [SharedDispatch] (shared_dispatch),
      [ScheduleEngine] (scheduler_engine).

    ** State and effects

    A Python method is a Definition in [result] (it reads and may raise) or in
    [M S] (it also changes a state [S]; an exception leaves the state reached so
    far, unless a [transaction] rolls it back).  [LaneLeaseStore],
    [OperationLedger] and [LoopStateStore] are the SQLite tables: maps on the
    primary key, or rows in rowid order, with the CHECK and UNIQUE constraints of
    the schema as raising guards; [World] is the pair of lease store and ledger.
    One [BEGIN IMMEDIATE] transaction is one atomic step, so an interleaving of
    processes is a sequence of operations; [Execution.begin_check_mark_race] is
    stated on one.  Injected callables (executor, probe, verifier, recovery
    handlers, domain event graph, the clock as a stream of readings) are
    parameters, as computations on the state where the source lets them change it.
    While a dispatch of the scheduler runs, the heartbeat thread renews its claim and
    other processes use the store: what they commit, in its order, is a parameter of
    the engine ([during]).  That the tables stay consistent and occurrences only go
    forward holds for every such list ([tick_keeps_promises]); what a round of
    dispatches does with each occurrence ([dispatch_settles]) and that a tick with a
    dispatcher handles each due time once ([tick_exactly_once]) are stated for
    dispatches during which only the heartbeats write.

    ** What the theorems show

    - The stores: [Leases] refines one fenced lock per lane and scope, tokens
      increase, live leases are exclusive; [Ledger] refines a three-phase
      specification per idempotency key, phases only advance, finished operations
      are frozen; [LoopStore] refines an abstract store of logs, its codec is exact,
      and of two writers at a version one wins; [RunnerLeases] refines a ledger of
      attempts per key whose history is append-only, whose leases are exclusive
      until their deadline and whose completed tasks are final.
    - The GREEN path: [prepare] is sound and leaves nothing behind when it fails;
      [grant] answers exactly when everything still holds; [begin] starts once;
      [run] never loses the evidence of a start; [finalize] is exact; the whole path
      completes while the lease lives; at most one grant executes a key (up to
      SHA-256 collisions, which are stated as an alternative, never assumed away).
    - The dispatch: an effect happens at most once, GREEN or privileged - after a
      call that reached its backend every later call answers from the ledger
      alone; replays repeat the first receipt; a privileged effect has fresh
      operator evidence and a target verified twice; a privileged reservation
      that lost its fence is stuck.
    - Tasks and bindings: a task survives its text, a runner task is only ever bound to a GREEN
      operation, and equal idempotency keys mean equal bindings up to SHA-256
      collisions.
    - Decisions: when classification answers GREEN, what a planned envelope, a
      route, a child environment, an authorization, a shadow receipt, a cutover
      verdict and a bridge decision are, on every branch, errors included.
    - Recovery: reconciliation closes from verified evidence only, and can always
      close from good evidence; the recovery kernel runs a handler exactly for
      admissible requests.
    - Loops: a step is exactly the transition relation, runs are bounded, work
      terminates, every loop persisted through any sequence of engine calls is a
      bounded run of the controller from the context it was created with, adapter
      receipts tell what this packet did, recovery packets survive their mapping.
    - Schedules: a schedule survives its mapping and equal hashes mean equal
      schedules up to SHA-256 collisions; the scan finds exactly the minutes whose
      local time the cron fields name in the Gregorian calendar.  In the store an
      occurrence moves only along the allowed transitions, no two claims share an
      idempotency key, a claim holds until its deadline unless the occurrence itself
      is moved on (which any engine can do: transitions check no owner) and the
      tables stay consistent over any run.  A tick fills every slot it finds due
      exactly once; a round of dispatches settles what it claims as the dispatcher
      answered, with a receipt.  The typed dispatcher blocks every malformed request
      before a handler runs, and says done of a loop only for the step it took.
    - Recovery of the control plane: recovered means that every step of a registered
      plan was called and succeeded, an operator is told of a failure once whatever
      processes recover it, and the attempts and calls at a failure are bounded.
    Theorems that show a defect of the code say so in their comments
    ([begin_check_mark_race], [privileged_retry_stuck], [recovery_bounds_checked_late],
    [adapter_overflow_escapes], [expired_lease_never_runs], [bridge_exact],
    [every_other_day_is_daily], [surplus_times_lost], [running_claim_exclusive],
    [nothing_done_recovers], [raising_reads_verified], [attempt_race],
    [recovered_overwritten], [attempt_is_no_clock]).

    ** Model choices and bounds

    - A time or a duration is an integer number of microseconds.  Floats hold these
      exactly below 2^33 seconds; the JSON text of a float is modelled on that range.
      Where the code computes with floats ([RunnerLeases]) they are IEEE binary64
      numbers, rounding, infinities and NaN included.
    - A string is a sequence of code points below 256 (the literals are ASCII); the
      character classes and case mappings are CPython's on this range.
    - Integers are unbounded, as in Python; binding one to SQLite outside 64 signed
      bits raises [OverflowError]; where a loop context is written or read, so does
      the limit of 4300 digits of [int] conversions.
    - [json.loads] is a recursive-descent parser with fuel: the length of the text
      plus one, which every nesting consumes, so that it never runs out (the round
      trip of [Json] shows that every dumped text is read back).
    - A time zone is a parameter that gives the offset from UTC at every instant; the
      civil calendar is computed.  A scan visits one minute per unit of fuel, and its
      fuel is the number of minutes of the interval.
    - The tables of a store are there: the [initialize] call that creates them, with
      which a tick of the scheduler, a recovery and the loop handler begin, is left out.
    - What heartbeats and other processes commit during a dispatch runs before the
      dispatcher, which has a state of its own; between the transactions with which a
      tick prepares, other processes write nothing.
    - Types that Python's dataclasses declare and nobody checks at run time are
      taken as declared, except where a component receives arbitrary values (loop
      packets, bridge metadata), which are JSON values.

    ** Not modelled

    Opening, locking and migrating SQLite files, exhaustion of AUTOINCREMENT and
    recursion limits, SQLite's limit on bound variables and the columns the schedule
    store adds to older files; the resolution of the SQLite paths and the opening of the
    stores in runner_vnext_authority; the code generation backend
    (runner_vnext_live_codegen), which is a parameter of the dispatch; the executors of
    recovery actions and canaries, parameters of [ControlRecovery]; the queue and the
    retry policy.  The
    remaining subsystems of the repository (memory, Cognee, Telegram, mail, survey
    geometry, family documents, home edge, credentials, model registry,
    pages, governance checks, gateways, pollers and scripts) are separate programs
    around external services and files, and are left aside. *)

From stdpp Require Export base gmap sets list strings fin_maps.
From Stdlib Require Export ZArith Lia Sorted Ascii.

#[global] Open Scope Z_scope.

(** ** Python exceptions

    One constructor per exception class of the program; the payload is the
    [reason_code] the class carries (or the message of a built-in error). *)
Inductive exn : Type :=
  | LeaseError (reason_code : string)
  | LedgerError (reason_code : string)
  | AdapterContractError (reason_code : string)
  | EnvironmentContractError (reason_code : string)
  | RoutingError (reason_code : string)
  | PEPError (reason_code : string)
  | ControlPlaneError (reason_code : string)
  | ExecutionGateError (reason_code : string)
  | GreenExecutionError (reason_code : string)
  | ReconciliationError (reason_code : string)
  | RecoveryError (reason_code : string)
  | CompatError (reason_code : string)
  | CutoverReadinessError (reason_code : string)
  | VNextCutoverBridgeError (reason_code : string)
  | LoopPolicyProfileError (reason_code message : string)
  | LoopRecoveryPacketError (reason_code message : string)
  | LoopRunnerAdapterError (reason_code : string)
  | LoopStateStoreError (message : string)
  | LoopStateConflictError (message : string)
  | LoopStateCorruptionError (message : string)
  | DomainEventGraphError (message : string)
  | RunnerTaskValidationError (reason_code : string)
  | RunnerVNextAuthorityError (reason_code : string)
  | RunnerVNextDispatchError (reason_code : string)
  | RunnerVNextLiveCodegenError (reason_code : string)
  | RunnerLeaseStoreError (reason_code : string)
  | SchedulerValidationError (reason_code : string)
  | SchedulerStoreError (message : string)
  | SharedDispatchError (reason_code : string)
  | JSONDecodeError (message : string)
  | ValueError (message : string)
  | TypeError (message : string)
  | KeyError (message : string)
  | AttributeError (message : string)
  | RuntimeError (message : string)
  | OverflowError (message : string)
  | OSError (message : string)
  | IntegrityError (message : string)
  | CallbackError (message : string).

#[global] Instance exn_eq_dec : EqDecision exn.
Proof. solve_decision. Defined.

(** The [reason_code] attribute of the program's own exception classes; the
    built-in classes have none. *)
Definition reason_code (e : exn) : option string :=
  match e with
  | LeaseError r | LedgerError r | AdapterContractError r
  | EnvironmentContractError r | RoutingError r | PEPError r
  | ControlPlaneError r | ExecutionGateError r | GreenExecutionError r
  | ReconciliationError r | RecoveryError r | CompatError r
  | CutoverReadinessError r | VNextCutoverBridgeError r
  | RunnerTaskValidationError r | RunnerVNextAuthorityError r
  | RunnerVNextDispatchError r | RunnerVNextLiveCodegenError r | RunnerLeaseStoreError r
  | SchedulerValidationError r | SharedDispatchError r
  | LoopPolicyProfileError r _ | LoopRecoveryPacketError r _ | LoopRunnerAdapterError r => Some r
  | _ => None
  end.

(** ** Fallible computations *)
Inductive result (A : Type) : Type :=
  | Ok (a : A)
  | Raise (e : exn).
Arguments Ok {A} a.
Arguments Raise {A} e.

#[global] Instance result_ret : MRet result := λ A, Ok.
#[global] Instance result_bind : MBind result := λ A B f m,
  match m with Ok a => f a | Raise e => Raise e end.

#[global] Instance result_eq_dec `{EqDecision A} : EqDecision (result A).
Proof. solve_decision. Defined.

Definition is_ok {A} (r : result A) : bool :=
  match r with Ok _ => true | Raise _ => false end.

(** [if b: raise e] *)
Definition raise_if (b : bool) (e : exn) : result unit :=
  if b then Raise e else Ok tt.

(** [for x in l: f(x)], stopping at the first exception. *)
Fixpoint each {A} (f : A → result unit) (l : list A) : result unit :=
  match l with
  | [] => Ok tt
  | x :: l => f x ;; each f l
  end.

(** [tuple(f(x) for x in l)] *)
Fixpoint collect {A B} (f : A → result B) (l : list A) : result (list B) :=
  match l with
  | [] => Ok []
  | x :: l => y ← f x; ys ← collect f l; Ok (y :: ys)
  end.

(** [opt is None -> raise] *)
Definition some_or {A} (o : option A) (e : exn) : result A :=
  match o with Some a => Ok a | None => Raise e end.

(** ** Stateful fallible computations

    A call returns or raises, and in both cases leaves a state behind. *)
Definition M (S A : Type) : Type := S → result A * S.

#[global] Instance M_ret S : MRet (M S) := λ A a s, (Ok a, s).
#[global] Instance M_bind S : MBind (M S) := λ A B f m s,
  match m s with
  | (Ok a, s') => f a s'
  | (Raise e, s') => (Raise e, s')
  end.

Definition lift {S A} (r : result A) : M S A := λ s, (r, s).
Definition raise {S A} (e : exn) : M S A := λ s, (Raise e, s).
Definition gets {S A} (f : S → A) : M S A := λ s, (Ok (f s), s).
(** A read of the state that may raise. *)
Definition query {S A} (f : S → result A) : M S A := λ s, (f s, s).
Definition modify {S} (f : S → S) : M S unit := λ s, (Ok tt, f s).

(** [try: m except ...: h]: the handler starts from the state the exception
    left. *)
Definition catch {S A} (m : M S A) (h : exn → M S A) : M S A := λ s,
  match m s with
  | (Ok a, s') => (Ok a, s')
  | (Raise e, s') => h e s'
  end.

(** [with self._transaction():] - commit on return, roll back on exception. *)
Definition transaction {S A} (body : M S A) : M S A := λ s,
  match body s with
  | (Ok a, s') => (Ok a, s')
  | (Raise e, _) => (Raise e, s)
  end.

(** Run a computation on one component of a larger state. *)
Definition zoom {W S A} (get : W → S) (put : S → W → W) (m : M S A) : M W A := λ w,
  let '(r, s') := m (get w) in (r, put s' w).

(** ** SQLite integers *)

(** A Python integer bound to an SQLite parameter must fit 64 signed bits. *)
Definition sqlite_int (z : Z) : result Z :=
  raise_if ((z <? - 2 ^ 63) || (2 ^ 63 - 1 <? z))
    (OverflowError "Python int too large to convert to SQLite INTEGER");;
  Ok z.

(** ** Notations *)
Declare Scope py_scope.
Delimit Scope py_scope with py.
Notation "a == b" := (bool_decide (a = b)) (at level 70, no associativity) : py_scope.
Notation "a != b" := (negb (bool_decide (a = b))) (at level 70, no associativity) : py_scope.
Notation "a ∈? l" := (bool_decide (a ∈ l)) (at level 70, no associativity) : py_scope.
Notation "a ∉? l" := (negb (bool_decide (a ∈ l))) (at level 70, no associativity) : py_scope.
#[global] Open Scope py_scope.

(** [not s] for a string and for an optional string. *)
Definition falsy (s : string) : bool := s == "".
Definition truthy (s : string) : bool := negb (falsy s).
Definition opt_falsy (o : option string) : bool :=
  match o with None => true | Some s => falsy s end.

(** [bool(l)] for a tuple or list. *)
Definition is_empty {A} (l : list A) : bool :=
  match l with [] => true | _ => false end.

(** [len(set(l)) != len(l)] *)
Definition has_dup `{EqDecision A} (l : list A) : bool := negb (bool_decide (NoDup l)).

(** ** Stable sorting

    [sorted(l, key=...)]: insertion that puts an element before the first
    element it is not greater than, folded from the right, is stable. *)
Section sort.
Context {A : Type} (leb : A → A → bool).

Fixpoint insert_sorted (x : A) (l : list A) : list A :=
  match l with
  | [] => [x]
  | y :: l => if leb x y then x :: y :: l else y :: insert_sorted x l
  end.

Definition sort_by (l : list A) : list A := foldr insert_sorted [] l.
End sort.

(** ** Lemmas on the monads *)
Lemma result_bind_ok {A B} (m : result A) (f : A → result B) b :
  m ≫= f = Ok b ↔ ∃ a, m = Ok a ∧ f a = Ok b.
Proof. destruct m; unfold mbind; simpl; naive_solver. Qed.

Lemma M_bind_ok {S A B} (m : M S A) (f : A → M S B) s s' b :
  (m ≫= f) s = (Ok b, s') ↔ ∃ a s1, m s = (Ok a, s1) ∧ f a s1 = (Ok b, s').
Proof. unfold mbind, M_bind. destruct (m s) as [[a|e] s1]; naive_solver. Qed.

Lemma M_bind_raise {S A B} (m : M S A) (f : A → M S B) s s' e :
  (m ≫= f) s = (Raise e, s') ↔
  m s = (Raise e, s') ∨ ∃ a s1, m s = (Ok a, s1) ∧ f a s1 = (Raise e, s').
Proof. unfold mbind, M_bind. destruct (m s) as [[a|e'] s1]; naive_solver. Qed.

(** Associativity, pointwise. *)
Lemma assoc_bind {S A B C} (m : M S A) (f : A → M S B) (g : B → M S C) s :
  (x ← m; f x ≫= g) s = ((m ≫= f) ≫= g) s.
Proof. unfold mbind, M_bind. by destruct (m s) as [[a|e] s1]. Qed.

Lemma lift_run {S A} (r : result A) (s : S) : lift r s = (r, s).
Proof. done. Qed.

Lemma lift_ok {S A} (r : result A) (s s' : S) a :
  lift r s = (Ok a, s') ↔ r = Ok a ∧ s' = s.
Proof. unfold lift. naive_solver. Qed.

Lemma query_ok {S A} (f : S → result A) (s s' : S) a :
  query f s = (Ok a, s') ↔ f s = Ok a ∧ s' = s.
Proof. unfold query. split; [by intros [= -> ->]|by intros [-> ->]]. Qed.

Lemma raise_if_ok b e u : raise_if b e = Ok u ↔ b = false.
Proof. destruct b, u; naive_solver. Qed.

Lemma raise_if_raise b e e' : raise_if b e = Raise e' ↔ b = true ∧ e' = e.
Proof. destruct b; naive_solver. Qed.

Lemma some_or_ok {A} (o : option A) e a : some_or o e = Ok a ↔ o = Some a.
Proof. destruct o; naive_solver. Qed.

Lemma each_ok {A} (f : A → result unit) l u :
  each f l = Ok u ↔ Forall (λ x, f x = Ok tt) l.
Proof.
  destruct u. induction l as [|x l IH]; simpl; [by rewrite Forall_nil|].
  rewrite Forall_cons, <-IH. unfold mbind, result_bind.
  destruct (f x) as [[]|]; naive_solver.
Qed.

Lemma collect_ok {A B} (f : A → result B) l ys :
  collect f l = Ok ys ↔ Forall2 (λ x y, f x = Ok y) l ys.
Proof.
  revert ys. induction l as [|x l IH]; intros ys; simpl.
  { split; [intros [= <-]; constructor|intros H; by inversion H]. }
  setoid_rewrite result_bind_ok. setoid_rewrite result_bind_ok.
  split.
  - intros (y & Hy & ys' & Hys & [= <-]). constructor; [done|]. by apply IH.
  - intros H. inversion H as [|? y ? ys' Hy Hys]; subst. apply IH in Hys. eauto.
Qed.

(** Guards read as conjunctions, in both directions. *)
Lemma seq_ok {B} (m : result unit) (k : result B) y :
  (m ;; k) = Ok y ↔ m = Ok tt ∧ k = Ok y.
Proof. destruct m as [[]|]; naive_solver. Qed.

Lemma some_bind_ok {A B} (o : option A) e (k : A → result B) y :
  (x ← some_or o e; k x) = Ok y ↔ ∃ x, o = Some x ∧ k x = Ok y.
Proof. destruct o; naive_solver. Qed.

Lemma each_raise_ok {A} (p : A → bool) e l :
  each (λ x, raise_if (p x) e) l = Ok tt ↔ ∀ x, x ∈ l → p x = false.
Proof.
  rewrite each_ok, Forall_forall. by setoid_rewrite raise_if_ok.
Qed.

Lemma each_check_ok {A} (p : A → bool) e l :
  each (λ x, raise_if (negb (p x)) e) l = Ok tt ↔ ∀ x, x ∈ l → p x = true.
Proof. rewrite each_raise_ok. by setoid_rewrite negb_false_iff. Qed.

Lemma forallb_elem {A} (p : A → bool) l :
  forallb p l = true ↔ ∀ x, x ∈ l → p x = true.
Proof. rewrite forallb_forall. by setoid_rewrite list_elem_of_In. Qed.

Lemma forallb_mem `{EqDecision A} (X l : list A) :
  forallb (λ x, x ∈? X) l = true ↔ ∀ x, x ∈ l → x ∈ X.
Proof. rewrite forallb_elem. by setoid_rewrite bool_decide_eq_true. Qed.

Lemma existsb_elem {A} (p : A → bool) l :
  existsb p l = true ↔ ∃ x, x ∈ l ∧ p x = true.
Proof. rewrite existsb_exists. by setoid_rewrite list_elem_of_In. Qed.

Lemma existsb_false {A} (p : A → bool) l :
  existsb p l = false ↔ ∀ x, x ∈ l → p x = false.
Proof.
  rewrite <-not_true_iff_false, existsb_elem. setoid_rewrite <-not_true_iff_false. naive_solver.
Qed.

Lemma filter_elem {A} (p : A → bool) l x : x ∈ List.filter p l ↔ x ∈ l ∧ p x = true.
Proof. rewrite !list_elem_of_In. apply filter_In. Qed.

Lemma Ok_inj {A} (a b : A) : Ok a = Ok b ↔ a = b.
Proof. naive_solver. Qed.

Lemma catch_ok {S A} (m : M S A) h s s' a :
  catch m h s = (Ok a, s') ↔
  m s = (Ok a, s') ∨ ∃ e s1, m s = (Raise e, s1) ∧ h e s1 = (Ok a, s').
Proof. unfold catch. destruct (m s) as [[x|e] s1]; naive_solver. Qed.

Lemma transaction_ok {S A} (m : M S A) s s' a :
  transaction m s = (Ok a, s') ↔ m s = (Ok a, s').
Proof. unfold transaction. destruct (m s) as [[x|e] s1]; naive_solver. Qed.

(** A raising transaction leaves the store as it was. *)
Lemma transaction_raise {S A} (m : M S A) s s' e :
  transaction m s = (Raise e, s') ↔ s' = s ∧ ∃ s1, m s = (Raise e, s1).
Proof. unfold transaction. destruct (m s) as [[x|e'] s1]; naive_solver. Qed.

Lemma zoom_ok {W S A} (get : W → S) put (m : M S A) w w' r :
  zoom get put m w = (r, w') ↔ ∃ s', m (get w) = (r, s') ∧ w' = put s' w.
Proof. unfold zoom. destruct (m (get w)) as [r' s'] eqn:E; naive_solver. Qed.

(** ** Lemmas on sorting *)
Section sort_lemmas.
Context {A : Type} (leb : A → A → bool).

Lemma insert_sorted_perm x l : insert_sorted leb x l ≡ₚ x :: l.
Proof.
  induction l as [|y l IH]; simpl; [done|].
  destruct (leb x y); [done|]. rewrite IH. by constructor.
Qed.

Lemma sort_by_perm l : sort_by leb l ≡ₚ l.
Proof.
  unfold sort_by. induction l as [|x l IH]; simpl; [done|].
  by rewrite insert_sorted_perm, IH.
Qed.

Context (leb_total : ∀ x y, leb x y = false → leb y x = true)
        (leb_trans : ∀ x y z, leb x y = true → leb y z = true → leb x z = true).

Lemma insert_sorted_sorted x l :
  StronglySorted (λ a b, leb a b = true) l →
  StronglySorted (λ a b, leb a b = true) (insert_sorted leb x l).
Proof.
  induction 1 as [|y l Hl IH Hy]; simpl; [by repeat constructor|].
  destruct (leb x y) eqn:E.
  - constructor; [by constructor|]. constructor; [done|].
    eapply Forall_impl; [exact Hy|]. eauto.
  - constructor; [done|]. rewrite insert_sorted_perm. constructor; eauto.
Qed.

Lemma sort_by_sorted l : StronglySorted (λ a b, leb a b = true) (sort_by leb l).
Proof.
  unfold sort_by. induction l; simpl; [constructor|]. by apply insert_sorted_sorted.
Qed.
End sort_lemmas.

(** A sorted list is left alone. *)
Lemma insert_sorted_least {A} (leb : A → A → bool) x l :
  (∀ y, y ∈ l → leb x y = true) → insert_sorted leb x l = x :: l.
Proof. destruct l as [|y l]; [done|]. intros H. cbn. by rewrite (H y) by left. Qed.

Lemma sort_by_id {A} (leb : A → A → bool) l :
  StronglySorted (λ x y, leb x y = true) l → sort_by leb l = l.
Proof.
  induction 1 as [|x l Hl IH Hx]; [done|]. cbn. change (foldr _ [] l) with (sort_by leb l).
  rewrite IH. apply insert_sorted_least. by apply Forall_forall.
Qed.

(** ** Which exceptions a computation can raise *)
Definition only_raises (P : exn → Prop) {A} (r : result A) : Prop :=
  match r with Ok _ => True | Raise e => P e end.

Section only_raises.
Context (P : exn → Prop).

Lemma only_raises_ok {A} (a : A) : only_raises P (Ok a).
Proof. done. Qed.

Lemma only_raises_raise {A} e : P e → only_raises (A:=A) P (Raise e).
Proof. done. Qed.

Lemma only_raises_if b e : P e → only_raises P (raise_if b e).
Proof. by destruct b. Qed.

Lemma only_raises_some_or {A} (o : option A) e : P e → only_raises P (some_or o e).
Proof. by destruct o. Qed.

Lemma only_raises_bind {A B} (m : result A) (f : A → result B) :
  only_raises P m → (∀ a, only_raises P (f a)) → only_raises P (m ≫= f).
Proof. destruct m; simpl; eauto. Qed.

Lemma only_raises_each {A} (f : A → result unit) l :
  (∀ a, only_raises P (f a)) → only_raises P (each f l).
Proof. intros Hf. induction l; simpl; [done|]. by apply only_raises_bind. Qed.

Lemma only_raises_elim {A} (r : result A) e : only_raises P r → r = Raise e → P e.
Proof. by intros H ->. Qed.
End only_raises.

(** ** Truthiness *)
Lemma falsy_spec s : falsy s = true ↔ s = "".
Proof. apply bool_decide_eq_true. Qed.

Lemma truthy_spec s : truthy s = true ↔ s ≠ "".
Proof. unfold truthy, falsy. rewrite negb_true_iff. apply bool_decide_eq_false. Qed.

Lemma is_empty_false {A} (l : list A) : is_empty l = false ↔ l ≠ [].
Proof. destruct l; naive_solver. Qed.

Lemma is_empty_true {A} (l : list A) : is_empty l = true ↔ l = [].
Proof. destruct l; naive_solver. Qed.

Lemma has_dup_false `{EqDecision A} (l : list A) : has_dup l = false ↔ NoDup l.
Proof. unfold has_dup. rewrite negb_false_iff. apply bool_decide_eq_true. Qed.

Lemma is_some_None {A} (d : Decision (is_Some (@None A))) :
  @bool_decide (is_Some (@None A)) d = false.
Proof. apply bool_decide_eq_false. by intros [? ?]. Qed.

Lemma is_some_Some {A} (a : A) (d : Decision (is_Some (Some a))) :
  @bool_decide (is_Some (Some a)) d = true.
Proof. by apply bool_decide_eq_true. Qed.

(** ** Automation

    [inv_ok] reads a hypothesis that a monadic body returned as the list of
    facts its guards established. *)
Ltac bool_facts :=
  repeat match goal with
  | H : negb _ = false |- _ => apply negb_false_iff in H
  | H : negb _ = true |- _ => apply negb_true_iff in H
  | H : orb _ _ = false |- _ => apply orb_false_iff in H; destruct H
  | H : andb _ _ = true |- _ => apply andb_true_iff in H; destruct H
  | H : bool_decide _ = true |- _ => apply bool_decide_eq_true in H
  | H : bool_decide _ = false |- _ => apply bool_decide_eq_false in H
  | H : falsy _ = true |- _ => apply falsy_spec in H
  | H : truthy _ = true |- _ => apply truthy_spec in H
  | H : is_empty _ = false |- _ => apply is_empty_false in H
  | H : is_empty _ = true |- _ => apply is_empty_true in H
  | H : has_dup _ = false |- _ => apply has_dup_false in H
  | H : (_ <? _) = true |- _ => apply Z.ltb_lt in H
  | H : (_ <? _) = false |- _ => apply Z.ltb_ge in H
  | H : (_ <=? _) = true |- _ => apply Z.leb_le in H
  | H : (_ <=? _) = false |- _ => apply Z.leb_gt in H
  end.

Ltac inv_ok :=
  repeat match goal with
  | H : _ ≫= _ = Ok _ |- _ =>
      apply result_bind_ok in H; let a := fresh "a" in let Ha := fresh "Hr" in
      destruct H as (a & Ha & H)
  | H : (_ ≫= _) _ = (Ok _, _) |- _ =>
      apply M_bind_ok in H; let a := fresh "a" in let s := fresh "s" in
      let Ha := fresh "Hr" in destruct H as (a & s & Ha & H)
  | H : raise_if _ _ = Ok ?u |- _ => apply raise_if_ok in H; try clear u
  | H : lift _ _ = (Ok _, _) |- _ => apply lift_ok in H; destruct H as [H ->]
  | H : query _ _ = (Ok _, _) |- _ => apply query_ok in H; destruct H as [H ->]
  | H : lift _ _ = (Raise _, _) |- _ => unfold lift in H; simplify_eq H
  | H : some_or _ _ = Ok _ |- _ => apply some_or_ok in H
  | H : each _ _ = Ok _ |- _ => apply each_ok in H
  | H : transaction _ _ = (Ok _, _) |- _ => apply transaction_ok in H
  | H : Ok _ = Ok _ |- _ => injection H as H
  | H : Raise _ = Ok _ |- _ => discriminate H
  | H : Ok _ = Raise _ |- _ => discriminate H
  | u : unit |- _ => destruct u
  end; bool_facts.

(** Expose the control flow of a monadic body as matches. *)
Ltac m_run :=
  cbv beta iota zeta delta [mbind M_bind result_bind mret M_ret result_ret lift gets query
    modify raise transaction catch].

(** ** Computations that keep a relation between states

    [relates R m]: whatever state [m] starts from, the one it leaves - returning or
    raising - is related to it. *)
Definition relates {S A} (R : S → S → Prop) (m : M S A) : Prop := ∀ s, R s (m s).2.

Lemma reads_bind {S A B} (m : M S A) (k : A → M S B) s :
  (m s).2 = s → (∀ a, (k a s).2 = s) → ((m ≫= k) s).2 = s.
Proof.
  intros Hm Hk. unfold mbind, M_bind. destruct (m s) as [[a|e] s1]; cbn in *; subst; auto.
Qed.

Section relates.
Context {S : Type} (R : S → S → Prop) `{!Reflexive R}.

Lemma relates_ret {A} (a : A) : relates R (mret a).
Proof. intros s. cbn. reflexivity. Qed.

Lemma relates_lift {A} (r : result A) : relates R (lift r).
Proof. intros s. cbn. reflexivity. Qed.

Lemma relates_gets {A} (f : S → A) : relates R (gets f).
Proof. intros s. cbn. reflexivity. Qed.

Lemma relates_query {A} (f : S → result A) : relates R (query f).
Proof. intros s. cbn. reflexivity. Qed.

Lemma relates_raise {A} e : relates R (raise (A:=A) e).
Proof. intros s. cbn. reflexivity. Qed.

Lemma relates_modify f : (∀ s, R s (f s)) → relates R (modify f).
Proof. intros H s. apply H. Qed.

(** The body of one state: the read is remembered. *)
Lemma relates_gets_bind {A B} (f : S → A) (k : A → M S B) :
  (∀ s, R s (k (f s) s).2) → relates R (gets f ≫= k).
Proof. intros Hk s. apply Hk. Qed.

(** A guard: the rest runs when it passed. *)
Lemma relates_lift_bind {A B} (r : result A) (k : A → M S B) :
  (∀ a, r = Ok a → relates R (k a)) → relates R (lift r ≫= k).
Proof.
  intros Hk s. unfold mbind, M_bind, lift. destruct r as [a|e]; [by apply Hk|reflexivity].
Qed.

Lemma lift_bind_related {A B} (r : result A) (k : A → M S B) s :
  (∀ a, r = Ok a → R s (k a s).2) → R s ((lift r ≫= k) s).2.
Proof.
  intros Hk. unfold mbind, M_bind, lift. destruct r as [a|e]; [by apply Hk|reflexivity].
Qed.

(** A write, then reads. *)
Lemma relates_write {A B} (m : M S A) (k : A → M S B) :
  relates R m → (∀ a s, (k a s).2 = s) → relates R (m ≫= k).
Proof.
  intros Hm Hk s. unfold mbind, M_bind. specialize (Hm s).
  destruct (m s) as [[a|e] s1]; cbn in *; [by rewrite Hk|done].
Qed.

Lemma relates_transaction {A} (m : M S A) : relates R m → relates R (transaction m).
Proof.
  intros Hm s. unfold transaction. specialize (Hm s).
  destruct (m s) as [[a|e] s1]; cbn in *; [done|reflexivity].
Qed.

Lemma relates_bind `{!Transitive R} {A B} (m : M S A) (k : A → M S B) :
  relates R m → (∀ a, relates R (k a)) → relates R (m ≫= k).
Proof.
  intros Hm Hk s. unfold mbind, M_bind. specialize (Hm s).
  destruct (m s) as [[a|e] s1]; cbn in *; [|done]. etransitivity; [exact Hm|apply Hk].
Qed.

Lemma relates_catch `{!Transitive R} {A} (m : M S A) h :
  relates R m → (∀ e, relates R (h e)) → relates R (catch m h).
Proof.
  intros Hm Hh s. unfold catch. specialize (Hm s).
  destruct (m s) as [[a|e] s1]; cbn in *; [done|]. etransitivity; [exact Hm|apply Hh].
Qed.
End relates.

Lemma relates_mono {S A} (R R' : S → S → Prop) (m : M S A) :
  (∀ s s', R s s' → R' s s') → relates R m → relates R' m.
Proof. intros H Hm s. apply H, Hm. Qed.

Lemma relates_zoom {W S A} (R : S → S → Prop) (R' : W → W → Prop) (get : W → S) put (m : M S A) :
  (∀ w s', R (get w) s' → R' w (put s' w)) → relates R m → relates R' (zoom get put m).
Proof.
  intros H Hm w. unfold zoom. specialize (Hm (get w)). destruct (m (get w)) as [r s'] eqn:E.
  by apply H.
Qed.

(** Walk through a body statement by statement. *)
Ltac relates_step :=
  match goal with
  | |- relates _ (mret _) => apply relates_ret; apply _
  | |- relates _ (lift _) => apply relates_lift; apply _
  | |- relates _ (gets _) => apply relates_gets; apply _
  | |- relates _ (query _) => apply relates_query; apply _
  | |- relates _ (raise _) => apply relates_raise; apply _
  | |- relates _ (modify _) => apply relates_modify; intros; solve [reflexivity | by split]
  | |- relates _ (transaction _) => apply relates_transaction; [apply _|]
  | |- relates _ (let '(_, _) := ?x in _) => destruct x
  | |- relates _ (match ?x with _ => _ end) => destruct x
  | |- relates _ (_ ≫= _) => apply relates_bind; [apply _| |intros ?]
  end.

(** Skip a guard, remembering that it passed. *)
Ltac pass := apply relates_lift_bind; [apply _|intros ? ?].

(** ** SQLite integers *)
Lemma sqlite_int_in z : - 2 ^ 63 ≤ z < 2 ^ 63 → sqlite_int z = Ok z.
Proof.
  intros H. unfold sqlite_int.
  replace ((z <? - 2 ^ 63) || (2 ^ 63 - 1 <? z)) with false; [done|].
  symmetry. apply orb_false_iff. rewrite !Z.ltb_ge. lia.
Qed.

Lemma sqlite_int_out z : 2 ^ 63 ≤ z →
  sqlite_int z = Raise (OverflowError "Python int too large to convert to SQLite INTEGER").
Proof.
  intros H. unfold sqlite_int.
  replace ((z <? - 2 ^ 63) || (2 ^ 63 - 1 <? z)) with true; [done|].
  symmetry. apply orb_true_iff. right. apply Z.ltb_lt. lia.
Qed.

Lemma sqlite_int_ok f f' : sqlite_int f = Ok f' → f < 2 ^ 63 ∧ f' = f.
Proof.
  intros H. destruct (decide (f < 2 ^ 63)) as [Hlt|Hge].
  - split; [done|]. unfold sqlite_int in H. by inv_ok.
  - rewrite sqlite_int_out in H by lia. done.
Qed.

(** [ok_facts] turns "this body returned [Ok]" in the goal into the conjunction
    of its guards; [bool_facts_goal] reads boolean tests as propositions. *)
#[export] Hint Rewrite @seq_ok @some_bind_ok raise_if_ok @each_check_ok @Ok_inj : py_ok.
#[export] Hint Rewrite negb_false_iff negb_true_iff orb_false_iff andb_true_iff
  bool_decide_eq_true bool_decide_eq_false Z.ltb_ge Z.leb_gt Z.ltb_lt Z.leb_le
  @is_empty_false @is_empty_true falsy_spec truthy_spec @has_dup_false
  @forallb_mem : py_bool.

Create HintDb py discriminated.
#[export] Hint Resolve only_raises_ok only_raises_raise only_raises_if only_raises_some_or
  only_raises_bind only_raises_each : py.

(** Reduce "this body raises only such exceptions" to its raise statements. *)
Ltac raises :=
  repeat lazymatch goal with
  | |- only_raises _ (Ok _) => apply only_raises_ok
  | |- only_raises _ (raise_if _ _) => apply only_raises_if
  | |- only_raises _ (some_or _ _) => apply only_raises_some_or
  | |- only_raises _ (Raise _) => apply only_raises_raise
  | |- only_raises _ (_ ≫= _) => apply only_raises_bind; [|intros]
  | |- only_raises _ (each _ _) => apply only_raises_each; intros
  | |- only_raises _ (let '(_, _) := ?x in _) => destruct x
  | |- only_raises _ (if ?b then _ else _) => destruct b
  | |- only_raises _ (match ?x with _ => _ end) => destruct x
  end.
#[export] Hint Resolve sort_by_perm insert_sorted_perm : py.

(** A closed decidable fact, by evaluation. *)
Ltac by_decide := refine (bool_decide_unpack _ _); vm_compute; exact I.
