(* ===== verification/PyStr.v ===== *)
(** * Python strings

    A Python [str] is a sequence of code points.  The model covers the code
    points 0..255: a [string] whose characters are read as code points (the
    programs' own literals are ASCII).  The character classes are CPython's on
    this range; [upper] leaves the two characters whose upper case lies outside
    it ([U+00B5] and [U+00FF]) unchanged. *)

From S2P Require Import Prelude.

(** ** Character classes *)
Definition ord (c : ascii) : Z := Z.of_N (N_of_ascii c).

Definition in_range (lo hi : Z) (c : ascii) : bool :=
  (lo <=? ord c) && (ord c <=? hi).

Definition isspace (c : ascii) : bool :=
  in_range 9 13 c || in_range 28 32 c || (ord c == 133) || (ord c == 160).

Definition isupper (c : ascii) : bool :=
  in_range 65 90 c || (in_range 192 222 c && (ord c != 215)).

Definition islower (c : ascii) : bool :=
  in_range 97 122 c || (ord c == 170) || (ord c == 181) || (ord c == 186)
  || (in_range 223 255 c && (ord c != 247)).

Definition isalpha (c : ascii) : bool := isupper c || islower c.

Definition isdigit (c : ascii) : bool :=
  in_range 48 57 c || in_range 178 179 c || (ord c == 185).

Definition isalnum (c : ascii) : bool :=
  isalpha c || isdigit c || in_range 188 190 c.

(** ** Lists of characters *)
Fixpoint chars (s : string) : list ascii :=
  match s with
  | EmptyString => []
  | String c s => c :: chars s
  end.

Fixpoint unchars (l : list ascii) : string :=
  match l with
  | [] => EmptyString
  | c :: l => String c (unchars l)
  end.

(** [all(p(ch) for ch in s)] and [any(p(ch) for ch in s)] *)
Definition all_chars (p : ascii → bool) (s : string) : bool := forallb p (chars s).
Definition any_char (p : ascii → bool) (s : string) : bool := existsb p (chars s).

(** [ch in alphabet] for a one-character string. *)
Definition char_in (alphabet : string) (c : ascii) : bool := c ∈? chars alphabet.

(** ** Searching *)
Definition startswith (p s : string) : bool := String.prefix p s.
Definition startswith_any (ps : list string) (s : string) : bool :=
  existsb (λ p, startswith p s) ps.

(** [sub in s] *)
Fixpoint contains (sub s : string) : bool :=
  startswith sub s ||
  match s with
  | EmptyString => false
  | String _ s => contains sub s
  end.

(** [s.partition(sep)] for a one-character separator: the part before the
    first separator, whether it was found, the part after it. *)
Fixpoint partition (sep : ascii) (s : string) : string * bool * string :=
  match s with
  | EmptyString => ("", false, "")
  | String c s' =>
      if decide (c = sep) then ("", true, s')
      else let '(h, f, t) := partition sep s' in (String c h, f, t)
  end.

Fixpoint string_drop (n : nat) (s : string) : string :=
  match n, s with
  | S n, String _ s => string_drop n s
  | _, _ => s
  end.

(** [s.endswith(suffix)] *)
Definition endswith (suffix s : string) : bool :=
  let n := length (chars suffix) in let m := length (chars s) in
  (n <=? m)%nat && (drop (m - n) (chars s) == chars suffix).

(** [s.split(sep)] for a one-character separator. *)
Fixpoint split_chars (sep : ascii) (l : list ascii) : list (list ascii) :=
  match l with
  | [] => [[]]
  | c :: l =>
      if decide (c = sep) then [] :: split_chars sep l
      else match split_chars sep l with
           | [] => [[c]]
           | p :: ps => (c :: p) :: ps
           end
  end.

Definition split_on (sep : ascii) (s : string) : list string :=
  map unchars (split_chars sep (chars s)).

(** [sep.join(l)] *)
Fixpoint join_with (sep : string) (l : list string) : string :=
  match l with
  | [] => ""
  | [s] => s
  | s :: l => s +:+ sep +:+ join_with sep l
  end.

(** ** Tokens *)
Definition UPPER : string := "ABCDEFGHIJKLMNOPQRSTUVWXYZ".
Definition LOWER : string := "abcdefghijklmnopqrstuvwxyz".
Definition DIGITS : string := "0123456789".
Definition ALNUM : string := UPPER +:+ LOWER +:+ DIGITS.

(** A full match of [^[first][rest]{0,bound}$]. *)
Definition bounded_token (first rest : string) (bound : nat) (s : string) : bool :=
  match chars s with
  | [] => false
  | c :: cs => char_in first c && forallb (char_in rest) cs && (length cs <=? bound)%nat
  end.

(** ** Case conversion and trimming *)
Definition chr (n : Z) : ascii := ascii_of_N (Z.to_N n).

Definition lower_char (c : ascii) : ascii :=
  if isupper c then chr (ord c + 32) else c.

Definition upper_char (c : ascii) : list ascii :=
  if ord c == 223 then ["S"; "S"]%char
  else if in_range 97 122 c || (in_range 224 254 c && (ord c != 247))
  then [chr (ord c - 32)] else [c].

Definition lower (s : string) : string := unchars (map lower_char (chars s)).
Definition upper (s : string) : string :=
  unchars (concat (map upper_char (chars s))).

Fixpoint drop_while (p : ascii → bool) (l : list ascii) : list ascii :=
  match l with
  | [] => []
  | c :: l' => if p c then drop_while p l' else l
  end.

(** [s.strip()] and [s.strip(alphabet)] *)
Definition strip_by (p : ascii → bool) (s : string) : string :=
  unchars (rev (drop_while p (rev (drop_while p (chars s))))).
Definition strip (s : string) : string := strip_by isspace s.

(** ** Ordering

    Strings compare by code point, shorter prefixes first. *)
Definition str_leb (a b : string) : bool :=
  match String.compare a b with Gt => false | _ => true end.

(** [sorted(l)] and [sorted(set(l))] on strings. *)
Definition sort_strs (l : list string) : list string := sort_by str_leb l.
Definition sorted_set (l : list string) : list string := sort_strs (remove_dups l).

Lemma str_leb_refl s : str_leb s s = true.
Proof.
  unfold str_leb. induction s as [|c s IH]; simpl; [done|].
  unfold Ascii.compare. by rewrite N.compare_refl.
Qed.

Lemma str_leb_total s t : str_leb s t = false → str_leb t s = true.
Proof.
  unfold str_leb. rewrite (String.compare_antisym s t).
  by destruct (String.compare t s).
Qed.

Lemma str_leb_antisym s t : str_leb s t = true → str_leb t s = true → s = t.
Proof.
  unfold str_leb. rewrite (String.compare_antisym t s).
  destruct (String.compare s t) eqn:E; simpl; try done. by intros; apply String.compare_eq_iff.
Qed.

Lemma str_leb_trans s t u : str_leb s t = true → str_leb t u = true → str_leb s u = true.
Proof.
  unfold str_leb. revert t u. induction s as [|a s IH]; intros [|b t] [|c u]; simpl; try done.
  unfold Ascii.compare.
  destruct (N.compare_spec (N_of_ascii a) (N_of_ascii b)) as [Hab|Hab|Hab]; try done;
    destruct (N.compare_spec (N_of_ascii b) (N_of_ascii c)) as [Hbc|Hbc|Hbc]; try done;
    destruct (N.compare_spec (N_of_ascii a) (N_of_ascii c)) as [Hac|Hac|Hac]; try done; try lia.
  apply IH.
Qed.

Lemma sorted_set_elem l k : k ∈ sorted_set l ↔ k ∈ l.
Proof. unfold sorted_set, sort_strs. by rewrite sort_by_perm, elem_of_remove_dups. Qed.

Lemma sorted_set_nodup l : NoDup (sorted_set l).
Proof. unfold sorted_set, sort_strs. rewrite sort_by_perm. apply NoDup_remove_dups. Qed.

(** ** [fnmatch.fnmatch]

    On POSIX, [fnmatch] leaves the case alone and matches the whole name
    against the translated pattern: [*], [?], [[seq]] and [[!seq]]. *)

(** The end of a bracket expression whose text starts at [l] (just after the
    opening bracket): the text before the closing bracket and the rest. *)
Fixpoint split_at_char (sep : ascii) (l : list ascii) : option (list ascii * list ascii) :=
  match l with
  | [] => None
  | c :: l' =>
      if decide (c = sep) then Some ([], l')
      else '(a, b) ← split_at_char sep l'; Some (c :: a, b)
  end.

Definition bracket_text (l : list ascii) : option (list ascii * list ascii) :=
  let '(pre, l) := match l with "!"%char :: l' => (["!"%char], l') | _ => ([], l) end in
  let '(pre, l) := match l with "]"%char :: l' => (pre ++ ["]"%char], l') | _ => (pre, l) end in
  '(a, b) ← split_at_char "]"%char l; Some (pre ++ a, b).

(** The hyphens [pat.find('-', k, j)] cuts at, with [k] jumping three places
    after each cut: [skip] counts the characters not yet eligible. *)
Fixpoint hyphen_chunks (skip : nat) (cur : list ascii) (l : list ascii) : list (list ascii) :=
  match l with
  | [] => [rev cur]
  | c :: l' =>
      match skip with
      | O => if decide (c = "-"%char) then rev cur :: hyphen_chunks 2 [] l'
             else hyphen_chunks O (c :: cur) l'
      | S n => hyphen_chunks n (c :: cur) l'
      end
  end.

(** A trailing hyphen belongs to the chunk before it. *)
Definition close_chunks (cs : list (list ascii)) : list (list ascii) :=
  match rev cs with
  | [] :: c :: cs' => rev ((c ++ ["-"%char]) :: cs')
  | _ => cs
  end.

(** Empty ranges are removed, from the last chunk backwards. *)
Definition merge_chunk (c : list ascii) (cs : list (list ascii)) : list (list ascii) :=
  match rev c, cs with
  | x :: c', (y :: d) :: cs' =>
      if ord y <? ord x then (rev c' ++ d) :: cs' else c :: cs
  | _, _ => c :: cs
  end.

Definition merge_chunks (cs : list (list ascii)) : list (list ascii) :=
  foldr merge_chunk [] cs.

(** The character set of chunks joined by [-]: their own characters, and the
    range between two neighbours. *)
Fixpoint chunks_match (cs : list (list ascii)) (c : ascii) : bool :=
  match cs with
  | [] => false
  | d :: cs' =>
      (c ∈? d) || chunks_match cs' c ||
      match rev d, cs' with
      | lo :: _, (hi :: _) :: _ => in_range (ord lo) (ord hi) c
      | _, _ => false
      end
  end.

Definition bracket_match (text : list ascii) (c : ascii) : bool :=
  let neg := match text with "!"%char :: _ => true | _ => false end in
  let chunks :=
    if "-"%char ∈? text
    then merge_chunks (close_chunks (hyphen_chunks (if neg then 2 else 1) [] text))
    else [text] in
  match chunks with
  | ("!"%char :: d) :: cs => negb (chunks_match (d :: cs) c)
  | _ => chunks_match chunks c
  end.

Inductive glob_atom : Type :=
  | GStar
  | GAny
  | GChar (c : ascii)
  | GSet (text : list ascii).

(** [fuel] bounds the number of pattern characters: each step consumes one. *)
Fixpoint glob_parse (fuel : nat) (p : list ascii) : list glob_atom :=
  match fuel, p with
  | O, _ | _, [] => []
  | S n, "*"%char :: p => GStar :: glob_parse n p
  | S n, "?"%char :: p => GAny :: glob_parse n p
  | S n, "["%char :: p =>
      match bracket_text p with
      | Some (text, rest) => GSet text :: glob_parse n rest
      | None => GChar "["%char :: glob_parse n p
      end
  | S n, c :: p => GChar c :: glob_parse n p
  end.

Fixpoint glob_match (p : list glob_atom) (s : list ascii) : bool :=
  match p with
  | [] => is_empty s
  | GStar :: p' =>
      (fix star (s : list ascii) : bool :=
         glob_match p' s || match s with [] => false | _ :: s' => star s' end) s
  | GAny :: p' => match s with [] => false | _ :: s' => glob_match p' s' end
  | GChar c :: p' =>
      match s with [] => false | d :: s' => (c == d) && glob_match p' s' end
  | GSet t :: p' =>
      match s with [] => false | d :: s' => bracket_match t d && glob_match p' s' end
  end.

Definition fnmatch (name pat : string) : bool :=
  glob_match (glob_parse (String.length pat) (chars pat)) (chars name).
