(* ===== verification/Json.v ===== *)
(** * JSON text

    [json.dumps] and [json.loads] of the Python standard library on the values
    the control plane serializes: [dumps_canonical] is
    [json.dumps(x, sort_keys=True, separators=(",", ":"))], [dumps_compact] the
    same without sorting, [dumps_default] is [json.dumps(x)].  All of these
    escape every character outside printable ASCII, so encoding the text as
    UTF-8 is the identity; [dumps_unicode] is [dumps_canonical] with
    [ensure_ascii=False].

    A float is a number of seconds, held exactly in microseconds; its text is
    Python's shortest representation for magnitudes below 2^33 seconds. *)

From S2P Require Import Prelude.
From S2P Require Import PyStr.
From Stdlib Require Import Permutation.
From Stdlib Require DecimalFacts DecimalPos DecimalN DecimalZ.

#[local] Open Scope list_scope.

(** ** Values *)
#[local] Unset Elimination Schemes.
Inductive json : Type :=
  | JNull
  | JBool (b : bool)
  | JInt (z : Z)
  | JFloat (micros : Z)
  | JStr (s : string)
  | JArr (items : list json)
  | JObj (fields : list (string * json)).
#[local] Set Elimination Schemes.

Section json_ind.
Context (P : json → Prop)
  (Hnull : P JNull) (Hbool : ∀ b, P (JBool b)) (Hint : ∀ z, P (JInt z))
  (Hfloat : ∀ t, P (JFloat t)) (Hstr : ∀ s, P (JStr s))
  (Harr : ∀ l, Forall P l → P (JArr l))
  (Hobj : ∀ l, Forall (λ f, P f.2) l → P (JObj l)).

Fixpoint json_ind (j : json) : P j :=
  match j with
  | JNull => Hnull
  | JBool b => Hbool b
  | JInt z => Hint z
  | JFloat t => Hfloat t
  | JStr s => Hstr s
  | JArr l => Harr l ((fix go l : Forall P l :=
      match l with
      | [] => Forall_nil_2 _
      | j :: l => Forall_cons_2 _ _ _ (json_ind j) (go l)
      end) l)
  | JObj l => Hobj l ((fix go l : Forall (λ f, P f.2) l :=
      match l with
      | [] => Forall_nil_2 _
      | f :: l => Forall_cons_2 _ _ _ (json_ind f.2) (go l)
      end) l)
  end.
End json_ind.

Definition jstrs (l : list string) : json := JArr (map JStr l).
Definition jopt (o : option string) : json :=
  match o with None => JNull | Some s => JStr s end.

(** [sort_keys=True], at every depth. *)
Fixpoint sort_keys (j : json) : json :=
  match j with
  | JArr l => JArr (map sort_keys l)
  | JObj l => JObj (sort_by (λ a b, str_leb a.1 b.1) (map (λ f, (f.1, sort_keys f.2)) l))
  | j => j
  end.

(** ** Strings *)
Definition dquote : ascii := ascii_of_N 34.
Definition bslash : ascii := ascii_of_N 92.

Definition hex_digit (n : Z) : ascii :=
  if n <? 10 then chr (48 + n) else chr (87 + n).

Definition hex_value (c : ascii) : option Z :=
  if in_range 48 57 c then Some (ord c - 48)
  else if in_range 97 102 c then Some (ord c - 87)
  else if in_range 65 70 c then Some (ord c - 55)
  else None.

Definition escape_char (ensure_ascii : bool) (c : ascii) : list ascii :=
  if c == dquote then [bslash; dquote]
  else if c == bslash then [bslash; bslash]
  else if ord c == 10 then [bslash; "n"%char]
  else if ord c == 13 then [bslash; "r"%char]
  else if ord c == 9 then [bslash; "t"%char]
  else if ord c == 12 then [bslash; "f"%char]
  else if ord c == 8 then [bslash; "b"%char]
  else if in_range 32 126 c || negb ensure_ascii && (127 <=? ord c) then [c]
  else [bslash; "u"%char; "0"%char; "0"%char; hex_digit (ord c / 16); hex_digit (ord c mod 16)].

Definition string_chars (ensure_ascii : bool) (s : string) : list ascii :=
  dquote :: concat (map (escape_char ensure_ascii) (chars s)) ++ [dquote].

Definition unescape (c : ascii) : option ascii :=
  if c == dquote then Some dquote
  else if c == bslash then Some bslash
  else match c with
  | "/"%char => Some "/"%char
  | "n"%char => Some (chr 10)
  | "r"%char => Some (chr 13)
  | "t"%char => Some (chr 9)
  | "f"%char => Some (chr 12)
  | "b"%char => Some (chr 8)
  | _ => None
  end.

(** The text of a string after its opening quote.  A [\u] escape above the
    code points the model covers is refused. *)
Fixpoint parse_string (l : list ascii) : option (list ascii * list ascii) :=
  match l with
  | [] => None
  | c :: l =>
      if decide (c = dquote) then Some ([], l)
      else if decide (c = bslash) then
        match l with
        | "u"%char :: a :: b :: c :: d :: l =>
            a ← hex_value a; b ← hex_value b; c ← hex_value c; d ← hex_value d;
            if decide (a = 0 ∧ b = 0)
            then '(s, r) ← parse_string l; Some (chr (16 * c + d) :: s, r)
            else None
        | e :: l => e ← unescape e; '(s, r) ← parse_string l; Some (e :: s, r)
        | [] => None
        end
      else if decide (ord c < 32) then None
      else '(s, r) ← parse_string l; Some (c :: s, r)
  end.

(** ** Numbers *)
Fixpoint uint_chars (d : Decimal.uint) : list ascii :=
  match d with
  | Decimal.Nil => []
  | Decimal.D0 d => "0"%char :: uint_chars d
  | Decimal.D1 d => "1"%char :: uint_chars d
  | Decimal.D2 d => "2"%char :: uint_chars d
  | Decimal.D3 d => "3"%char :: uint_chars d
  | Decimal.D4 d => "4"%char :: uint_chars d
  | Decimal.D5 d => "5"%char :: uint_chars d
  | Decimal.D6 d => "6"%char :: uint_chars d
  | Decimal.D7 d => "7"%char :: uint_chars d
  | Decimal.D8 d => "8"%char :: uint_chars d
  | Decimal.D9 d => "9"%char :: uint_chars d
  end.

Definition nat_chars (n : Z) : list ascii := uint_chars (N.to_uint (Z.to_N n)).

Definition int_chars (z : Z) : list ascii :=
  if z <? 0 then "-"%char :: nat_chars (- z) else nat_chars z.

(** The six decimals of a fraction of a second, without trailing zeros but
    with at least one digit. *)
Definition frac_digits (f : Z) : list Z :=
  [f / 100000; f / 10000 mod 10; f / 1000 mod 10; f / 100 mod 10; f / 10 mod 10; f mod 10].

Fixpoint strip_zeros (l : list Z) : list Z :=
  match l with
  | [] => []
  | d :: l => match strip_zeros l with
              | [] => if d =? 0 then [] else [d]
              | l' => d :: l'
              end
  end.

Definition frac_text (f : Z) : list Z :=
  match strip_zeros (frac_digits f) with [] => [0] | l => l end.

Definition digit_char (d : Z) : ascii := chr (48 + d).

(** [repr] of a positive float below 1e-4 uses an exponent. *)
Definition tiny_chars (t : Z) : list ascii :=
  let mant := if t <? 10 then [digit_char t]
              else if t mod 10 =? 0 then [digit_char (t / 10)]
              else [digit_char (t / 10); "."%char; digit_char (t mod 10)] in
  mant ++ ["e"%char; "-"%char; "0"%char; if t <? 10 then "6"%char else "5"%char].

Definition ufloat_chars (t : Z) : list ascii :=
  if (0 <? t) && (t <? 100) then tiny_chars t
  else nat_chars (t / 1000000) ++ "."%char :: map digit_char (frac_text (t mod 1000000)).

Definition float_chars (t : Z) : list ascii :=
  if t <? 0 then "-"%char :: ufloat_chars (- t) else ufloat_chars t.

(** ** [json.dumps] *)
Definition join_chars (sep : list ascii) (l : list (list ascii)) : list ascii :=
  match l with
  | [] => []
  | x :: l => x ++ concat (map (λ y, sep ++ y) l)
  end.

Section dumps.
Context (ensure_ascii : bool) (item_sep key_sep : list ascii).

Fixpoint enc (j : json) : list ascii :=
  match j with
  | JNull => chars "null"
  | JBool b => chars (if b then "true" else "false")
  | JInt z => int_chars z
  | JFloat t => float_chars t
  | JStr s => string_chars ensure_ascii s
  | JArr l => "["%char :: join_chars item_sep (map enc l) ++ ["]"%char]
  | JObj l =>
      "{"%char :: join_chars item_sep
        (map (λ f, string_chars ensure_ascii f.1 ++ key_sep ++ enc f.2) l) ++ ["}"%char]
  end.
End dumps.

Definition dumps_compact (j : json) : string := unchars (enc true [","%char] [":"%char] j).
Definition dumps_canonical (j : json) : string := dumps_compact (sort_keys j).
Definition dumps_default (j : json) : string :=
  unchars (enc true [","%char; " "%char] [":"%char; " "%char] j).
Definition dumps_unicode (j : json) : string :=
  unchars (enc false [","%char] [":"%char] (sort_keys j)).

(** ** [json.loads] *)
Definition is_ws (c : ascii) : bool :=
  (ord c == 32) || (ord c == 9) || (ord c == 10) || (ord c == 13).

Definition digit_value (c : ascii) : option Z :=
  if in_range 48 57 c then Some (ord c - 48) else None.

Fixpoint take_digits (l : list ascii) : list Z * list ascii :=
  match l with
  | [] => ([], [])
  | c :: l' =>
      match digit_value c with
      | Some d => let '(ds, r) := take_digits l' in (d :: ds, r)
      | None => ([], l)
      end
  end.

Definition digits_value (l : list Z) : Z := foldl (λ acc d, 10 * acc + d) 0 l.

Definition split_sign (l : list ascii) : Z * list ascii :=
  match l with "-"%char :: l' => (-1, l') | _ => (1, l) end.

(** Decimals beyond the sixth and exponents are outside the values the model
    covers and are refused. *)
Definition parse_number (l : list ascii) : option (json * list ascii) :=
  let '(sign, l) := split_sign l in
  let '(ds, r) := take_digits l in
  if is_empty ds then None
  else if (1 <? Z.of_nat (length ds)) && (hd 0 ds =? 0) then None
  else match r with
  | "."%char :: r' =>
      let '(fs, r'') := take_digits r' in
      if is_empty fs || (6 <? Z.of_nat (length fs)) then None
      else match r'' with
      | "e"%char :: _ | "E"%char :: _ => None
      | _ => Some (JFloat (sign * (digits_value ds * 1000000
                     + digits_value (fs ++ replicate (6 - length fs) 0))), r'')
      end
  | "e"%char :: _ | "E"%char :: _ => None
  | _ => Some (JInt (sign * digits_value ds), r)
  end.

Definition strip_text (p l : list ascii) : option (list ascii) :=
  if decide (take (length p) l = p) then Some (drop (length p) l) else None.

(** [n] bounds the depth of calls; a call's text is shorter than its caller's,
    so the length of the text is enough. *)
Fixpoint parse_value (n : nat) (l : list ascii) : option (json * list ascii) :=
  match n with
  | O => None
  | S n =>
      match drop_while is_ws l with
      | [] => None
      | c :: l =>
          if decide (c = dquote) then
            '(s, r) ← parse_string l; Some (JStr (unchars s), r)
          else match c with
          | "["%char =>
              let items := '(xs, r) ← parse_items n l; Some (JArr xs, r) in
              match drop_while is_ws l with
              | c :: r => if decide (c = "]"%char) then Some (JArr [], r) else items
              | [] => items
              end
          | "{"%char =>
              let fields := '(xs, r) ← parse_fields n l; Some (JObj xs, r) in
              match drop_while is_ws l with
              | c :: r => if decide (c = "}"%char) then Some (JObj [], r) else fields
              | [] => fields
              end
          | "n"%char => r ← strip_text (chars "ull") l; Some (JNull, r)
          | "t"%char => r ← strip_text (chars "rue") l; Some (JBool true, r)
          | "f"%char => r ← strip_text (chars "alse") l; Some (JBool false, r)
          | _ => parse_number (c :: l)
          end
      end
  end
with parse_items (n : nat) (l : list ascii) : option (list json * list ascii) :=
  match n with
  | O => None
  | S n =>
      '(x, r) ← parse_value n l;
      match drop_while is_ws r with
      | "]"%char :: r => Some ([x], r)
      | ","%char :: r => '(xs, r) ← parse_items n r; Some (x :: xs, r)
      | _ => None
      end
  end
with parse_fields (n : nat) (l : list ascii) : option (list (string * json) * list ascii) :=
  match n with
  | O => None
  | S n =>
      match drop_while is_ws l with
      | c :: l =>
          if decide (c = dquote) then
            '(k, r) ← parse_string l;
            match drop_while is_ws r with
            | ":"%char :: r =>
                '(x, r) ← parse_value n r;
                match drop_while is_ws r with
                | "}"%char :: r => Some ([(unchars k, x)], r)
                | ","%char :: r =>
                    '(xs, r) ← parse_fields n r; Some ((unchars k, x) :: xs, r)
                | _ => None
                end
            | _ => None
            end
          else None
      | [] => None
      end
  end.

Definition loads (s : string) : option json :=
  let l := chars s in
  '(j, r) ← parse_value (S (length l)) l;
  if is_empty (drop_while is_ws r) then Some j else None.

(** ** The text determines the value *)

(** Floats the model gives an exact text to. *)
Fixpoint json_wf (j : json) : Prop :=
  match j with
  | JFloat t => t = 0 ∨ 100 ≤ Z.abs t
  | JArr l => (fix go l := match l with [] => True | j :: l => json_wf j ∧ go l end) l
  | JObj l => (fix go l := match l with [] => True | f :: l => json_wf f.2 ∧ go l end) l
  | _ => True
  end.

Lemma json_wf_arr l : json_wf (JArr l) ↔ Forall json_wf l.
Proof. induction l as [|j l IH]; [done|]. rewrite Forall_cons, <-IH. done. Qed.

Lemma json_wf_obj l : json_wf (JObj l) ↔ Forall (λ f, json_wf f.2) l.
Proof. induction l as [|j l IH]; [done|]. rewrite Forall_cons, <-IH. done. Qed.

Lemma chars_unchars l : chars (unchars l) = l.
Proof. induction l; simpl; congruence. Qed.

Lemma unchars_chars s : unchars (chars s) = s.
Proof. induction s; simpl; congruence. Qed.

Lemma length_chars s : length (chars s) = String.length s.
Proof. induction s; simpl; congruence. Qed.

(** *** Strings *)
Lemma parse_string_char b c l :
  parse_string (escape_char b c ++ l) = '(s, r) ← parse_string l; Some (c :: s, r).
Proof. destruct b, c as [[] [] [] [] [] [] [] []]; reflexivity. Qed.

Lemma parse_string_chars b s rest :
  parse_string (concat (map (escape_char b) (chars s)) ++ dquote :: rest) = Some (chars s, rest).
Proof.
  induction s as [|c s IH]; [done|]. simpl.
  by rewrite <-app_assoc, parse_string_char, IH.
Qed.

(** *** Integers *)
Fixpoint uint_digits (d : Decimal.uint) : list Z :=
  match d with
  | Decimal.Nil => []
  | Decimal.D0 d => 0 :: uint_digits d
  | Decimal.D1 d => 1 :: uint_digits d
  | Decimal.D2 d => 2 :: uint_digits d
  | Decimal.D3 d => 3 :: uint_digits d
  | Decimal.D4 d => 4 :: uint_digits d
  | Decimal.D5 d => 5 :: uint_digits d
  | Decimal.D6 d => 6 :: uint_digits d
  | Decimal.D7 d => 7 :: uint_digits d
  | Decimal.D8 d => 8 :: uint_digits d
  | Decimal.D9 d => 9 :: uint_digits d
  end.

(** Text that cannot continue a number. *)
Definition delim (l : list ascii) : Prop :=
  match l with
  | [] => True
  | c :: _ => char_in "0123456789.eE" c = false
  end.

Lemma delim_digit l : delim l → take_digits l = ([], l).
Proof.
  destruct l as [|c l]; [done|]. intros H. simpl.
  enough (digit_value c = None) as -> by done.
  revert H. destruct c as [[] [] [] [] [] [] [] []]; by vm_compute.
Qed.

Lemma take_uint_chars d l :
  take_digits l = ([], l) → take_digits (uint_chars d ++ l) = (uint_digits d, l).
Proof. intros Hl. induction d; simpl; rewrite ?IHd; done. Qed.

Lemma digits_value_acc d acc :
  foldl (λ acc d, 10 * acc + d) (Z.pos acc) (uint_digits d) = Z.pos (Pos.of_uint_acc d acc).
Proof.
  revert acc.
  induction d as [|d IH|d IH|d IH|d IH|d IH|d IH|d IH|d IH|d IH|d IH]; intros acc;
    cbn [uint_digits foldl Pos.of_uint_acc]; [done|..]; rewrite <-IH; f_equal; lia.
Qed.

Lemma digits_value_uint d : digits_value (uint_digits d) = Z.of_N (N.of_uint d).
Proof.
  unfold digits_value, N.of_uint.
  induction d as [|d IH|d IH|d IH|d IH|d IH|d IH|d IH|d IH|d IH|d IH]; [done|exact IH|..];
    cbn [uint_digits foldl Pos.of_uint]; simpl Z.of_N; exact (digits_value_acc _ _).
Qed.

Lemma to_uint_leading n :
  ∃ d ds, uint_digits (N.to_uint n) = d :: ds ∧ (d = 0 → ds = []).
Proof.
  assert (Hnorm : N.to_uint n = Decimal.unorm (N.to_uint n)).
  { by rewrite <-DecimalN.Unsigned.to_of, DecimalN.Unsigned.of_to. }
  revert Hnorm. generalize (N.to_uint n). intros u Hu.
  destruct u as [|u|u|u|u|u|u|u|u|u|u];
    [discriminate Hu| |cbn; do 2 eexists; (split; [done|discriminate])..].
  rewrite Hu. unfold Decimal.unorm. cbn [Decimal.nzhead].
  pose proof (DecimalFacts.nzhead_nonzero u) as Hz.
  destruct (Decimal.nzhead u) as [|v|v|v|v|v|v|v|v|v|v];
    cbn; do 2 eexists; (split; [done|]); try discriminate; [done|].
  intros _. by destruct (Hz v).
Qed.

Lemma take_nat_chars n l :
  0 ≤ n → take_digits l = ([], l) →
  ∃ d ds, take_digits (nat_chars n ++ l) = (d :: ds, l) ∧
    (d = 0 → ds = []) ∧ digits_value (d :: ds) = n.
Proof.
  intros Hn Hl. unfold nat_chars. rewrite take_uint_chars by done.
  destruct (to_uint_leading (Z.to_N n)) as (d & ds & E & H0).
  exists d, ds. rewrite <-E, digits_value_uint, DecimalN.Unsigned.of_to. naive_solver lia.
Qed.

Lemma nat_chars_cons n : 0 ≤ n →
  ∃ c l, nat_chars n = c :: l ∧ char_in "0123456789" c = true.
Proof.
  intros Hn. unfold nat_chars.
  destruct (to_uint_leading (Z.to_N n)) as (d & ds & E & _).
  destruct (N.to_uint (Z.to_N n)); [done|..]; simpl; eauto.
Qed.

(** The text of a number with sign [sg]. *)
Definition signed (neg : bool) (l : list ascii) : list ascii :=
  if neg then "-"%char :: l else l.

Lemma signed_cons neg n l : 0 ≤ n →
  ∃ c r, signed neg (nat_chars n ++ l) = c :: r ∧ char_in "-0123456789" c = true.
Proof.
  intros Hn. destruct neg; [by do 2 eexists|].
  destruct (nat_chars_cons n Hn) as (c & r & -> & Hc). do 2 eexists; split; [done|].
  revert Hc. unfold char_in. rewrite !bool_decide_eq_true. simpl. set_solver.
Qed.

Lemma strip_sign neg n l : 0 ≤ n →
  split_sign (signed neg (nat_chars n ++ l)) = ((if neg then -1 else 1), nat_chars n ++ l).
Proof.
  intros Hn. destruct neg; [done|]. cbn [signed].
  destruct (nat_chars_cons n Hn) as (c & r & -> & Hc). simpl.
  revert Hc. destruct c as [[] [] [] [] [] [] [] []]; by vm_compute.
Qed.

Lemma leading_zero_ok d ds :
  (d = 0 → ds = []) → (1 <? Z.of_nat (length (d :: ds))) && (d =? 0) = false.
Proof.
  intros H. destruct (Z.eqb_spec d 0) as [E|E]; [|by rewrite andb_false_r].
  rewrite H by done. done.
Qed.

Lemma parse_int neg n rest : 0 ≤ n → delim rest →
  parse_number (signed neg (nat_chars n) ++ rest)
  = Some (JInt ((if neg then -1 else 1) * n), rest).
Proof.
  intros Hn Hd. unfold parse_number.
  replace (signed neg (nat_chars n) ++ rest) with (signed neg (nat_chars n ++ rest))
    by by destruct neg.
  rewrite strip_sign by done.
  destruct (take_nat_chars n rest Hn (delim_digit _ Hd)) as (d & ds & -> & H0 & <-).
  cbn [is_empty hd]. rewrite leading_zero_ok by done.
  destruct rest as [|c rest]; [done|].
  revert Hd. unfold delim.
  destruct c as [[] [] [] [] [] [] [] []]; try done; by vm_compute.
Qed.

(** *** Floats *)
Lemma strip_zeros_app l :
  strip_zeros l ++ replicate (length l - length (strip_zeros l)) 0 = l.
Proof.
  induction l as [|d l IH]; [done|]. cbn [strip_zeros].
  destruct (strip_zeros l) as [|e l'] eqn:E.
  - simpl in IH. rewrite Nat.sub_0_r in IH.
    destruct (Z.eqb_spec d 0) as [->|]; simpl; rewrite ?Nat.sub_0_r; congruence.
  - simpl in *. congruence.
Qed.

Lemma strip_zeros_sub l : strip_zeros l ⊆ l.
Proof. rewrite <-(strip_zeros_app l) at 2. set_solver. Qed.

Lemma frac_text_spec f : 0 ≤ f < 1000000 →
  let l := frac_text f in
  l ≠ [] ∧ (length l ≤ 6)%nat ∧ Forall (λ d, 0 ≤ d < 10) l ∧
  digits_value (l ++ replicate (6 - length l) 0) = f.
Proof.
  intros Hf. unfold frac_text.
  assert (Hr : Forall (λ d, 0 ≤ d < 10) (frac_digits f)).
  { unfold frac_digits. repeat constructor; Z.to_euclidean_division_equations; lia. }
  assert (Hv : digits_value (frac_digits f) = f).
  { unfold digits_value, frac_digits. simpl. Z.to_euclidean_division_equations; lia. }
  pose proof (strip_zeros_app (frac_digits f)) as Happ.
  assert (Hlen : length (frac_digits f) = 6%nat) by done. rewrite Hlen in Happ.
  destruct (strip_zeros (frac_digits f)) as [|e l] eqn:E.
  - simpl in Happ. rewrite <-Happ in Hv. simpl.
    split_and!; [done|lia|repeat constructor; lia|by rewrite <-Hv].
  - rewrite Happ. split_and!; [done| |  |done].
    + rewrite <-Hlen, <-Happ, length_app. lia.
    + rewrite <-Happ in Hr. by apply Forall_app in Hr as [? _].
Qed.

Lemma take_digit_chars l rest :
  Forall (λ d, 0 ≤ d < 10) l → delim rest →
  take_digits (map digit_char l ++ rest) = (l, rest).
Proof.
  intros Hl Hd. induction Hl as [|d l Hd' _ IH]; simpl; [by apply delim_digit|].
  assert (digit_value (digit_char d) = Some d) as ->; [|by rewrite IH].
  assert (d = 0 ∨ d = 1 ∨ d = 2 ∨ d = 3 ∨ d = 4 ∨ d = 5 ∨ d = 6 ∨ d = 7 ∨ d = 8 ∨ d = 9)
    as Hc by lia.
  by repeat destruct Hc as [->|Hc]; [..|subst].
Qed.

Lemma parse_float neg n rest : 0 ≤ n → (n = 0 ∨ 100 ≤ n) → delim rest →
  parse_number (signed neg (ufloat_chars n) ++ rest)
  = Some (JFloat ((if neg then -1 else 1) * n), rest).
Proof.
  intros Hn Hwf Hd. unfold ufloat_chars.
  replace ((0 <? n) && (n <? 100)) with false
    by (symmetry; apply andb_false_iff; rewrite !Z.ltb_ge; lia).
  set (l := map digit_char _).
  replace (signed neg (nat_chars (n / 1000000) ++ "."%char :: l) ++ rest)
    with (signed neg (nat_chars (n / 1000000) ++ ("."%char :: l) ++ rest))
    by (destruct neg; simpl; by rewrite <-app_assoc).
  unfold parse_number. rewrite strip_sign by (apply Z.div_pos; lia).
  edestruct (take_nat_chars (n / 1000000) (("."%char :: l) ++ rest))
    as (d & ds & -> & H0 & Hv); [apply Z.div_pos; lia|done|].
  cbn [is_empty hd]. rewrite leading_zero_ok by done. simpl app.
  destruct (frac_text_spec (n mod 1000000)) as (Hne & Hlen & Hrng & Hf);
    [apply Z.mod_pos_bound; lia|].
  unfold l. rewrite take_digit_chars by done.
  replace (is_empty _ || _) with false.
  2:{ symmetry. apply orb_false_iff. rewrite is_empty_false, Z.ltb_ge. split; [done|lia]. }
  rewrite Hv, Hf.
  assert (n / 1000000 * 1000000 + n mod 1000000 = n) as -> by
    (pose proof (Z.div_mod n 1000000); lia).
  destruct rest as [|c rest]; [done|].
  revert Hd. unfold delim.
  destruct c as [[] [] [] [] [] [] [] []]; try done; by vm_compute.
Qed.

(** *** Values *)
Section roundtrip.
Context (esc : bool) (w1 w2 : list ascii) (Hw1 : forallb is_ws w1 = true) (Hw2 : forallb is_ws w2 = true).
Notation item_sep := (","%char :: w1).
Notation key_sep := (":"%char :: w2).
Notation enc := (enc esc item_sep key_sep).

Lemma drop_ws w l : forallb is_ws w = true → drop_while is_ws (w ++ l) = drop_while is_ws l.
Proof. induction w as [|c w IH]; [done|]. simpl. by intros [-> ?]%andb_true_iff; auto. Qed.

(** A number starts with none of the characters of the other values. *)
Lemma parse_value_number n w c l :
  forallb is_ws w = true → char_in "-0123456789" c = true →
  parse_value (S n) (w ++ c :: l) = parse_number (c :: l).
Proof.
  intros Hw Hc. cbn [parse_value]. rewrite drop_ws by done.
  revert Hc. destruct c as [[] [] [] [] [] [] [] []]; try done; by vm_compute.
Qed.

Lemma int_chars_signed z :
  int_chars z = signed (z <? 0) (nat_chars (Z.abs z)).
Proof.
  unfold int_chars. destruct (Z.ltb_spec z 0); simpl.
  - by rewrite Z.abs_neq by lia.
  - by rewrite Z.abs_eq by lia.
Qed.

Lemma float_chars_signed t :
  float_chars t = signed (t <? 0) (ufloat_chars (Z.abs t)).
Proof.
  unfold float_chars. destruct (Z.ltb_spec t 0); simpl.
  - by rewrite Z.abs_neq by lia.
  - by rewrite Z.abs_eq by lia.
Qed.

Lemma ufloat_chars_cons t : 0 ≤ t → (t = 0 ∨ 100 ≤ t) →
  ufloat_chars t = nat_chars (t / 1000000)
    ++ "."%char :: map digit_char (frac_text (t mod 1000000)).
Proof.
  intros ? ?. unfold ufloat_chars.
  replace ((0 <? t) && (t <? 100)) with false; [done|].
  symmetry; apply andb_false_iff; rewrite !Z.ltb_ge; lia.
Qed.

Lemma sign_abs z : (if z <? 0 then -1 else 1) * Z.abs z = z.
Proof. destruct (Z.ltb_spec z 0); lia. Qed.

(** No value starts with a closing bracket or with white space. *)
Definition opens (l : list ascii) : Prop :=
  ∃ c r, l = c :: r ∧ (c = dquote ∨ char_in "-0123456789[{ntf" c = true).

Lemma enc_opens j : json_wf j → opens (enc j).
Proof.
  assert (Hnum : ∀ c, char_in "-0123456789" c = true → char_in "-0123456789[{ntf" c = true).
  { unfold char_in. intros c. rewrite !bool_decide_eq_true. simpl. set_solver. }
  destruct j as [|b|z|t|s|l|l]; intros Hwf;
    try (do 2 eexists; split; [done|by auto]).
  - destruct b; do 2 eexists; (split; [done|by right]).
  - cbn [Json.enc]. rewrite int_chars_signed.
    destruct (signed_cons (z <? 0) (Z.abs z) [] ltac:(lia)) as (c & r & E & Hc).
    rewrite app_nil_r in E. exists c, r. auto.
  - cbn [Json.enc]. rewrite float_chars_signed, ufloat_chars_cons by (simpl in Hwf; lia).
    edestruct signed_cons as (c & r & E & Hc); [|exists c, r; split; [exact E|auto]].
    apply Z.div_pos; lia.
Qed.

Lemma opens_not_close {A} close l (a : list ascii → A) (b : A) :
  opens l → close = "]"%char ∨ close = "}"%char →
  match drop_while is_ws l with
  | c :: r => if decide (c = close) then a r else b
  | [] => b
  end = b.
Proof.
  intros (c & r & -> & Hc) Hclose.
  assert (is_ws c = false ∧ c ≠ close) as [Hws Hne].
  { destruct Hc as [->|Hc]; [by destruct Hclose as [->| ->]|].
    revert Hc. destruct Hclose as [->| ->];
      destruct c as [[] [] [] [] [] [] [] []]; try done; by vm_compute. }
  simpl. rewrite Hws. by destruct (decide (c = close)).
Qed.

Definition parses (j : json) : Prop := ∀ n w rest,
  (length (enc j) < n)%nat → forallb is_ws w = true → delim rest →
  parse_value n (w ++ enc j ++ rest) = Some (j, rest).

Lemma parse_items_enc l :
  Forall parses l → l ≠ [] → ∀ n w rest,
  (length (join_chars item_sep (map enc l)) + 1 < n)%nat → forallb is_ws w = true →
  parse_items n (w ++ join_chars item_sep (map enc l) ++ "]"%char :: rest) = Some (l, rest).
Proof.
  induction 1 as [|j l Hj Hl IH]; [done|]. intros _ [|n] w rest Hn Hw; [lia|].
  cbn [map join_chars parse_items] in *. rewrite <-app_assoc.
  assert (Hd : ∀ r, delim (concat (map (app item_sep) (map enc l)) ++ "]"%char :: r))
    by (by destruct l).
  rewrite length_app in Hn. rewrite Hj by (done || lia). simpl mbind.
  destruct l as [|j' l]; [done|].
  cbn [map concat app] in *. rewrite <-!app_assoc.
  change (drop_while is_ws (","%char :: ?r)) with (","%char :: r).
  cbn [drop_while is_ws]. change (is_ws ","%char) with false. cbn [option_bind].
  specialize (IH ltac:(done) n w1 rest). cbn [map join_chars app] in IH.
  rewrite <-app_assoc in IH. rewrite IH; [done| |done].
  cbn [length] in Hn. rewrite !length_app in *. simpl in *. lia.
Qed.

Definition enc_field (f : string * json) : list ascii := string_chars esc f.1 ++ key_sep ++ enc f.2.

Lemma parse_fields_enc l :
  Forall (λ f, parses f.2) l → l ≠ [] → ∀ n w rest,
  (length (join_chars item_sep (map enc_field l)) + 1 < n)%nat → forallb is_ws w = true →
  parse_fields n (w ++ join_chars item_sep (map enc_field l) ++ "}"%char :: rest)
  = Some (l, rest).
Proof.
  induction 1 as [|[k j] l Hj Hl IH]; [done|]. intros _ [|n] w rest Hn Hw; [lia|].
  cbn [map join_chars parse_fields] in *. rewrite drop_ws by done.
  assert (Hd : ∀ r, delim (concat (map (app item_sep) (map enc_field l)) ++ "}"%char :: r))
    by (by destruct l).
  unfold enc_field at 1, string_chars. cbn [fst snd] in *.
  cbn [app drop_while]. change (is_ws dquote) with false. cbn iota.
  destruct (decide (dquote = dquote)); [|done].
  rewrite <-!app_assoc. cbn [app]. rewrite parse_string_chars. simpl mbind.
  change (is_ws ":"%char) with false. cbn iota. rewrite <-app_assoc.
  rewrite length_app in Hn. unfold enc_field in Hn at 1. cbn [fst snd] in Hn.
  rewrite !length_app in Hn. simpl length in Hn. rewrite length_app in Hn.
  rewrite Hj by (done || lia). simpl mbind. rewrite unchars_chars.
  destruct l as [|f l]; [done|].
  cbn [map concat app drop_while] in *. change (is_ws ","%char) with false. cbn iota.
  rewrite <-!app_assoc.
  specialize (IH ltac:(done) n w1 rest). cbn [map join_chars app] in IH.
  rewrite <-app_assoc in IH. rewrite IH; [done| |done].
  cbn [length] in Hn. rewrite !length_app in *. simpl in *. lia.
Qed.

Lemma join_opens j l rest :
  json_wf j → opens (join_chars item_sep (map enc (j :: l)) ++ rest).
Proof.
  intros Hj. destruct (enc_opens j Hj) as (c & r & E & Hc).
  exists c. simpl. rewrite E. eauto.
Qed.

Lemma parse_enc j : json_wf j → parses j.
Proof.
  induction j as [|b|z|t|s|l IH|l IH]; intros Hwf [|n] w rest Hn Hw Hd;
    try (simpl in Hn; lia).
  - simpl. by rewrite drop_ws.
  - destruct b; simpl; by rewrite drop_ws.
  - cbn [Json.enc]. rewrite int_chars_signed.
    destruct (signed_cons (z <? 0) (Z.abs z) [] ltac:(lia)) as (c & r & E & Hc).
    rewrite app_nil_r in E. rewrite E. cbn [app].
    rewrite parse_value_number by done.
    change (c :: r ++ rest) with ((c :: r) ++ rest). rewrite <-E, parse_int by (done || lia).
    by rewrite sign_abs.
  - cbn [Json.enc]. rewrite float_chars_signed.
    assert (Hwf' : Z.abs t = 0 ∨ 100 ≤ Z.abs t) by (simpl in Hwf; lia).
    destruct (signed_cons (t <? 0) (Z.abs t / 1000000)
      ("."%char :: map digit_char (frac_text (Z.abs t mod 1000000)))
      ltac:(apply Z.div_pos; lia)) as (c & r & E & Hc).
    rewrite <-ufloat_chars_cons in E by (done || lia). rewrite E. cbn [app].
    rewrite parse_value_number by done.
    change (c :: r ++ rest) with ((c :: r) ++ rest). rewrite <-E, parse_float by (done || lia).
    by rewrite sign_abs.
  - cbn [Json.enc parse_value]. rewrite drop_ws by done. unfold string_chars.
    cbn [app drop_while]. change (is_ws dquote) with false. cbn iota.
    destruct (decide (dquote = dquote)); [|done].
    rewrite <-app_assoc. cbn [app]. rewrite parse_string_chars. simpl.
    by rewrite unchars_chars.
  - apply json_wf_arr in Hwf.
    assert (Hall : Forall parses l) 
      by (rewrite Forall_forall in *; intros; by apply IH, Hwf).
    cbn [Json.enc parse_value]. rewrite drop_ws by done. cbn [app drop_while].
    change (is_ws "["%char) with false. cbn iota.
    destruct (decide ("["%char = dquote)); [done|].
    rewrite <-app_assoc. cbn [app].
    destruct l as [|j l]; [done|].
    rewrite opens_not_close; [|by apply join_opens, (Forall_inv Hwf)|by left].
    assert (Hn' : (length (join_chars item_sep (map enc (j :: l))) + 1 < n)%nat).
    { cbn [Json.enc] in Hn. cbn [length] in Hn. rewrite length_app in Hn. simpl in *. lia. }
    pose proof (parse_items_enc (j :: l) Hall ltac:(done) n [] rest Hn' ltac:(done)) as Hp.
    rewrite app_nil_l in Hp. by rewrite Hp.
  - apply json_wf_obj in Hwf.
    assert (Hall : Forall (λ f, parses f.2) l)
      by (rewrite Forall_forall in *; intros; by apply IH, Hwf).
    change (enc (JObj l))
      with ("{"%char :: join_chars item_sep (map enc_field l) ++ ["}"%char]) in *.
    cbn [parse_value]. rewrite drop_ws by done. cbn [app drop_while].
    change (is_ws "{"%char) with false. cbn iota.
    destruct (decide ("{"%char = dquote)); [done|].
    rewrite <-app_assoc. cbn [app].
    destruct l as [|f l]; [done|].
    rewrite opens_not_close; [|by do 2 eexists; split; [|left]|by right].
    assert (Hn' : (length (join_chars item_sep (map enc_field (f :: l))) + 1 < n)%nat).
    { cbn [length] in Hn. rewrite length_app in Hn. cbn [length] in Hn. lia. }
    pose proof (parse_fields_enc (f :: l) Hall ltac:(done) n [] rest Hn' ltac:(done)) as Hp.
    rewrite app_nil_l in Hp. by rewrite Hp.
Qed.

Lemma loads_enc j : json_wf j → loads (unchars (enc j)) = Some j.
Proof.
  intros Hwf. unfold loads. rewrite chars_unchars.
  pose proof (parse_enc j Hwf (S (length (enc j))) [] [] ltac:(lia) ltac:(done) I) as Hp.
  rewrite app_nil_l, app_nil_r in Hp. by rewrite Hp.
Qed.
End roundtrip.

Lemma json_wf_sort_keys j : json_wf j → json_wf (sort_keys j).
Proof.
  induction j as [|b|z|t|s|l IH|l IH]; intros Hwf; try exact Hwf.
  - apply json_wf_arr in Hwf. simpl. apply json_wf_arr, Forall_map.
    rewrite Forall_forall in *. naive_solver.
  - apply json_wf_obj in Hwf. cbn [sort_keys]. apply json_wf_obj.
    rewrite sort_by_perm. apply Forall_map. rewrite Forall_forall in *. naive_solver.
Qed.

Lemma json_wf_jstrs l : json_wf (jstrs l).
Proof. apply json_wf_arr, Forall_map, Forall_true. done. Qed.

(** Reading back what [json.dumps] wrote. *)
Lemma loads_dumps_default j : json_wf j → loads (dumps_default j) = Some j.
Proof. by apply (loads_enc true [" "%char] [" "%char]). Qed.

Lemma loads_dumps_compact j : json_wf j → loads (dumps_compact j) = Some j.
Proof. by apply (loads_enc true [] []). Qed.

Lemma loads_dumps_unicode j : json_wf j → loads (dumps_unicode j) = Some (sort_keys j).
Proof. intros Hj. by apply (loads_enc false [] []), json_wf_sort_keys. Qed.

Lemma dumps_compact_inj j1 j2 :
  json_wf j1 → json_wf j2 → dumps_compact j1 = dumps_compact j2 → j1 = j2.
Proof.
  intros H1%loads_dumps_compact H2%loads_dumps_compact E.
  rewrite E in H1. congruence.
Qed.

Lemma dumps_canonical_inj j1 j2 :
  json_wf j1 → json_wf j2 →
  dumps_canonical j1 = dumps_canonical j2 → sort_keys j1 = sort_keys j2.
Proof. intros ??. by apply dumps_compact_inj; apply json_wf_sort_keys. Qed.

(** [tuple(json.loads(text))] for a text holding a list of strings. *)
Definition json_string (j : json) : option string :=
  match j with JStr s => Some s | _ => None end.

Definition load_strs (text : string) : option (list string) :=
  j ← loads text; match j with JArr l => mapM json_string l | _ => None end.

Lemma load_strs_dumps l : load_strs (dumps_default (jstrs l)) = Some l.
Proof.
  unfold load_strs. rewrite loads_dumps_default by apply json_wf_jstrs. simpl.
  induction l as [|s l IH]; [done|]. simpl. by rewrite IH.
Qed.

Lemma jstrs_inj l1 l2 : jstrs l1 = jstrs l2 → l1 = l2.
Proof.
  unfold jstrs. intros [= E]. revert l2 E.
  induction l1; intros [|]; simpl; intros; simplify_eq; f_equal; auto.
Qed.

Lemma jopt_inj o1 o2 : jopt o1 = jopt o2 → o1 = o2.
Proof. destruct o1, o2; simpl; congruence. Qed.

(** ** Equal canonical objects have equal fields *)
Lemma sort_keys_jstrs l : sort_keys (jstrs l) = jstrs l.
Proof. unfold jstrs. simpl. rewrite map_map. done. Qed.

Lemma sort_keys_jopt o : sort_keys (jopt o) = jopt o.
Proof. by destruct o. Qed.

Lemma perm_same_keys {A} (l1 l2 : list (string * A)) :
  NoDup l1.*1 → l1.*1 = l2.*1 → l1 ≡ₚ l2 → l1 = l2.
Proof.
  intros Hnd Hk Hp.
  assert (Hm : ∀ k v w, (k, v) ∈ l1 → (k, w) ∈ l2 → v = w).
  { intros k v w Hv Hw. rewrite Hp in Hv. rewrite Hk in Hnd.
    eapply elem_of_list_to_map_1 in Hv, Hw; [|done..]. congruence. }
  apply list_eq. intros i. assert (Hi : l1.*1 !! i = l2.*1 !! i) by (by rewrite Hk).
  rewrite !list_lookup_fmap in Hi.
  destruct (l1 !! i) as [[k v]|] eqn:E1, (l2 !! i) as [[k' w]|] eqn:E2; simplify_eq/=; [|done].
  f_equal. f_equal. eapply Hm; by eapply list_elem_of_lookup_2.
Qed.

(** Two objects with the same, distinct keys in the same order. *)
Lemma sort_keys_obj_inj l1 l2 :
  NoDup (map fst l1) → map fst l1 = map fst l2 →
  sort_keys (JObj l1) = sort_keys (JObj l2) →
  map (λ f, sort_keys f.2) l1 = map (λ f, sort_keys f.2) l2.
Proof.
  set (g := λ f : string * json, (f.1, sort_keys f.2)).
  assert (Hfst : ∀ l, (map g l).*1 = map fst l).
  { intros l. induction l; [done|]. simpl. by f_equal. }
  assert (Hsnd : ∀ l, (map g l).*2 = map (λ f, sort_keys f.2) l).
  { intros l. induction l; [done|]. simpl. by f_equal. }
  intros Hnd Hk [= Hs]. rewrite <-!Hsnd. f_equal. apply perm_same_keys.
  - by rewrite Hfst.
  - by rewrite !Hfst.
  - rewrite <-(sort_by_perm (λ a b, str_leb a.1 b.1) (map g l1)). unfold g at 1. rewrite Hs.
    by rewrite sort_by_perm.
Qed.

Lemma map_JStr_inj l1 l2 : map JStr l1 = map JStr l2 → l1 = l2.
Proof. intros H. apply jstrs_inj. unfold jstrs. by rewrite H. Qed.

(** [payload_inj H] reads an equation between two sorted payload objects with
    the same literal keys as equations between their fields. *)
Ltac payload_inj H :=
  apply sort_keys_obj_inj in H;
  [cbn [map sort_keys fst snd] in H; rewrite ?sort_keys_jstrs, ?sort_keys_jopt in H;
   injection H; clear H; intros;
   repeat match goal with
   | E : map JStr _ = map JStr _ |- _ => apply map_JStr_inj in E
   | E : jopt _ = jopt _ |- _ => apply jopt_inj in E
   end
  |apply (bool_decide_unpack _); vm_compute; exact I|reflexivity].

(** ** Dicts *)

(** The value of a key of a dict; in the text of an object the last one counts. *)
Definition dict_get (d : list (string * json)) (k : string) : option json :=
  (list_to_map (rev d) : gmap string json) !! k.
Definition has_key (d : list (string * json)) (k : string) : bool := k ∈? d.*1.

Lemma dict_get_nodup d k v : NoDup d.*1 → (k, v) ∈ d → dict_get d k = Some v.
Proof.
  intros Hnd Hin. apply elem_of_list_to_map_1.
  - by rewrite <-Permutation_rev.
  - by rewrite <-Permutation_rev.
Qed.

(** [v == b]: a number equals a boolean when it is 0 or 1. *)
Definition py_eq_bool (v : json) (b : bool) : bool :=
  match v with
  | JBool b' => Bool.eqb b' b
  | JInt z => z =? Z.b2z b
  | JFloat t => t =? 1000000 * Z.b2z b
  | _ => false
  end.

(** [v == s] *)
Definition py_eq_str (v : option json) (s : string) : bool :=
  match v with Some (JStr s') => s' == s | _ => false end.

(** [v is True] *)
Definition is_true (v : option json) : bool := match v with Some (JBool true) => true | _ => false end.

(** A mapping equal to a dict of booleans. *)
Definition eq_bool_dict (v : option json) (expected : list (string * bool)) : bool :=
  match v with
  | Some (JObj d) =>
      (list_to_set d.*1 == (list_to_set expected.*1 : gset string))
      && forallb (λ f, match dict_get d f.1 with Some x => py_eq_bool x f.2 | None => false end) expected
  | _ => false
  end.

Definition fields_of (d : list (string * json)) : gset string := list_to_set d.*1.

(** Python converts no integer of more than 4300 digits from or to text. *)
Definition too_long (z : Z) : bool := 4300 <? Z.of_nat (length (nat_chars (Z.abs z))).

(** The integers of a value. *)
Fixpoint json_ints (j : json) : list Z :=
  match j with
  | JInt z => [z]
  | JArr l => concat (map json_ints l)
  | JObj l => concat (map (λ f, json_ints f.2) l)
  | _ => []
  end.

(** [d[k] = v] on a dict: a known key keeps its place. *)
Fixpoint dict_set (d : list (string * json)) (k : string) (v : json) : list (string * json) :=
  match d with
  | [] => [(k, v)]
  | f :: d => if f.1 == k then (k, v) :: d else f :: dict_set d k v
  end.

(** The dicts that the objects of a text become. *)
Fixpoint to_dicts (j : json) : json :=
  match j with
  | JArr l => JArr (map to_dicts l)
  | JObj l => JObj (foldl (λ d f, dict_set d f.1 f.2) [] (map (λ f, (f.1, to_dicts f.2)) l))
  | j => j
  end.

(** ** Values that are dicts *)

(** A Python value: the keys of a dict are distinct. *)
Fixpoint dicts_ok (j : json) : Prop :=
  match j with
  | JArr l => (fix go l := match l with [] => True | j :: l => dicts_ok j ∧ go l end) l
  | JObj l => NoDup l.*1 ∧
      (fix go l := match l with [] => True | f :: l => dicts_ok f.2 ∧ go l end) l
  | _ => True
  end.

Lemma dicts_ok_arr l : dicts_ok (JArr l) ↔ Forall dicts_ok l.
Proof. induction l as [|j l IH]; [done|]. rewrite Forall_cons, <-IH. done. Qed.

Lemma dicts_ok_obj l : dicts_ok (JObj l) ↔ NoDup l.*1 ∧ Forall (λ f, dicts_ok f.2) l.
Proof.
  simpl. apply and_iff_compat_l. induction l as [|f l IH]; [done|]. by rewrite Forall_cons, <-IH.
Qed.

Lemma dict_set_new d k v : k ∉ d.*1 → dict_set d k v = d ++ [(k, v)].
Proof.
  induction d as [|f d IH]; [done|]. cbn. rewrite not_elem_of_cons. intros [Hk Hd].
  rewrite bool_decide_eq_false_2 by congruence. by rewrite IH.
Qed.

Lemma dict_of_nodup l d : NoDup (d ++ l).*1 →
  foldl (λ d f, dict_set d f.1 f.2) d l = d ++ l.
Proof.
  revert d. induction l as [|[k v] l IH]; intros d H; cbn; [by rewrite app_nil_r|].
  assert (k ∉ d.*1) as Hk.
  { rewrite fmap_app, NoDup_app in H. destruct H as (_ & H & _). intros Hd. apply (H k Hd). left. }
  rewrite dict_set_new by done. rewrite IH; rewrite <-app_assoc; done.
Qed.

Lemma to_dicts_id j : dicts_ok j → to_dicts j = j.
Proof.
  induction j as [| | | | |l IH|l IH] using json_ind; try done; intros Hj.
  - apply dicts_ok_arr in Hj. cbn. f_equal. rewrite <-(map_id l) at 2. apply map_ext_in.
    intros x Hx. rewrite Forall_forall in IH, Hj. apply list_elem_of_In in Hx. auto.
  - apply dicts_ok_obj in Hj as [Hnd Hj]. cbn.
    assert (map (λ f, (f.1, to_dicts f.2)) l = l) as ->.
    { rewrite <-(map_id l) at 2. apply map_ext_in. intros [k x] Hx. cbn. f_equal.
      rewrite Forall_forall in IH, Hj. apply list_elem_of_In in Hx.
      apply (IH _ Hx). apply (Hj _ Hx). }
    by rewrite dict_of_nodup.
Qed.

Lemma dicts_ok_sort_keys j : dicts_ok j → dicts_ok (sort_keys j).
Proof.
  induction j as [| | | | |l IH|l IH] using json_ind; try done; intros Hj.
  - apply dicts_ok_arr in Hj. cbn [sort_keys]. apply dicts_ok_arr, Forall_map.
    rewrite Forall_forall in *. naive_solver.
  - apply dicts_ok_obj in Hj as [Hnd Hj]. cbn [sort_keys]. apply dicts_ok_obj.
    rewrite sort_by_perm. split.
    + assert ((map (λ f, (f.1, sort_keys f.2)) l).*1 = l.*1) as ->; [|done].
      clear. induction l; cbn; congruence.
    + apply Forall_map. rewrite Forall_forall in *. naive_solver.
Qed.

(** Sorting keys keeps the integers. *)
Lemma json_ints_sort_keys j z : z ∈ json_ints (sort_keys j) ↔ z ∈ json_ints j.
Proof.
  induction j as [| | | | |l IH|l IH] using json_ind; try done; cbn [sort_keys json_ints];
    rewrite !list_elem_of_In, !in_concat; setoid_rewrite <-list_elem_of_In;
    rewrite Forall_forall in IH.
  - setoid_rewrite list_elem_of_fmap. setoid_rewrite list_elem_of_fmap. naive_solver.
  - setoid_rewrite list_elem_of_fmap. setoid_rewrite sort_by_perm.
    setoid_rewrite list_elem_of_fmap. naive_solver.
Qed.

(** [str(z)] *)
Definition int_text (z : Z) : result string :=
  raise_if (too_long z)
    (ValueError "Exceeds the limit (4300 digits) for integer string conversion");;
  Ok (unchars (int_chars z)).
