(* ===== verification/PyFloat.v ===== *)
(** * Python floats and numbers

    A Python [float] is an IEEE 754 binary64 number, here the Standard Library's
    [spec_float] at precision 53 and exponent bound 1024, which rounds to nearest
    even as the hardware does.  A value that a caller hands over where a number
    is declared is a [number]: [bool] is a subclass of [int] in Python, and the
    code tells them apart. *)

From S2P Require Import Prelude.
From Stdlib Require Import SpecFloat.

#[global] Instance spec_float_eq_dec : EqDecision spec_float.
Proof. solve_decision. Defined.

(** ** Operations *)
Definition f64_add : spec_float → spec_float → spec_float := SFadd 53 1024.
Definition f64_of_int (z : Z) : spec_float := binary_normalize 53 1024 z 0 false.
Definition f64_zero : spec_float := S754_zero false.

(** [math.isfinite(f)] *)
Definition isfinite (f : spec_float) : bool :=
  match f with S754_zero _ | S754_finite _ _ _ => true | _ => false end.

Definition isnan (f : spec_float) : bool := match f with S754_nan => true | _ => false end.

Inductive number :=
  | PyInt (z : Z)
  | PyFloat (f : spec_float)
  | PyBool (b : bool)
  | PyOther.

(** [float(v)] for an [int] or a [float]; an integer that rounds beyond the
    largest float overflows. *)
Definition to_float (v : number) : result spec_float :=
  match v with
  | PyInt z =>
      raise_if (negb (isfinite (f64_of_int z))) (OverflowError "int too large to convert to float");;
      Ok (f64_of_int z)
  | PyFloat f => Ok f
  | PyBool b => Ok (f64_of_int (Z.b2z b))
  | PyOther => Raise (TypeError "float() argument must be a string or a real number")
  end.

(** A REAL NOT NULL column: SQLite stores NaN as NULL, which the constraint
    refuses, and loses the sign of zero. *)
Definition sqlite_real (f : spec_float) : result spec_float :=
  match f with
  | S754_nan => Raise (IntegrityError "NOT NULL constraint failed")
  | S754_zero _ => Ok f64_zero
  | f => Ok f
  end.

(** ** Comparisons of numbers *)
Lemma sf_compare_antisym a b : SFcompare b a = CompOpp <$> SFcompare a b.
Proof.
  destruct a as [[]|[]| |[] m e], b as [[]|[]| |[] m' e']; try done; cbn; f_equal;
    change (PosDef.Pos.compare_cont Eq ?p ?q) with (p ?= q)%positive;
    rewrite (Z.compare_antisym e e'), (Pos.compare_antisym m m');
    destruct (e ?= e'); done.
Qed.

(** Between numbers, [b <= a] is the negation of [a < b]. *)
Lemma fleb_fltb a b : isnan a = false → isnan b = false → SFleb b a = negb (SFltb a b).
Proof.
  intros Ha Hb. unfold SFleb, SFltb. rewrite (sf_compare_antisym a b).
  assert (is_Some (SFcompare a b)) as [c ->] by (destruct a, b; done || by eexists).
  by destruct c.
Qed.

Lemma fltb_nan a b : SFltb a b = true → isnan a = false ∧ isnan b = false.
Proof. destruct a, b; done. Qed.

Lemma finite_not_nan f : isfinite f = true → isnan f = false.
Proof. by destruct f. Qed.

(** What a REAL column gives back of a number. *)
Definition stored (f : spec_float) : spec_float :=
  match f with S754_zero _ => f64_zero | f => f end.

Lemma sqlite_real_number f : isnan f = false → sqlite_real f = Ok (stored f).
Proof. by destruct f. Qed.

Lemma stored_number f : isnan f = false → isnan (stored f) = false.
Proof. by destruct f. Qed.

Lemma stored_fltb f x : SFltb x (stored f) = SFltb x f.
Proof. destruct f as [[]| | |], x as [[]| | |]; done. Qed.

(** ** A sum of finite numbers is a number *)
Definition nonneg_m (r : shr_record) : Prop := 0 ≤ shr_m r.

Lemma shr_1_nonneg r : nonneg_m r → nonneg_m (shr_1 r).
Proof. destruct r as [[|[p|p|]|p] b c]; unfold nonneg_m; cbn; lia. Qed.

Lemma iter_nonneg p r : nonneg_m r → nonneg_m (iter_pos shr_1 p r).
Proof.
  revert r. induction p as [p IH|p IH|]; intros r H; cbn; auto using shr_1_nonneg.
Qed.

Lemma shr_fexp_nonneg m e l : 0 ≤ m → nonneg_m (shr_fexp 53 1024 m e l).1.
Proof.
  intros Hm. unfold shr_fexp, shr.
  assert (nonneg_m (shr_record_of_loc m l)) as H by (by destruct l as [|[]]).
  destruct (_ - _); [done| |done]. by apply iter_nonneg.
Qed.

Lemma round_nearest_nonneg m l : 0 ≤ m → 0 ≤ round_nearest_even m l.
Proof. destruct l as [|[]]; cbn; try destruct (Z.even m); lia. Qed.

Lemma binary_round_number s m e : isnan (binary_round 53 1024 s m e) = false.
Proof.
  unfold binary_round. destruct (shl_align _ _ _) as [mz ez]. unfold binary_round_aux.
  pose proof (shr_fexp_nonneg (Zpos mz) ez loc_Exact ltac:(lia)) as H1.
  destruct (shr_fexp 53 1024 (Zpos mz) ez loc_Exact) as [r1 e1].
  pose proof (shr_fexp_nonneg _ e1 loc_Exact (round_nearest_nonneg _ (loc_of_shr_record r1) H1)) as H2.
  destruct (shr_fexp 53 1024 _ e1 loc_Exact) as [r2 e2]. unfold nonneg_m in H2. cbn [fst] in H2.
  destruct (shr_m r2); [done| |lia]. by destruct (_ <=? _).
Qed.

Lemma f64_add_number a b : isfinite a = true → isfinite b = true → isnan (f64_add a b) = false.
Proof.
  destruct a as [s|?| |s m e], b as [s'|?| |s' m' e']; try done; intros _ _; [by destruct s, s'|].
  unfold f64_add, SFadd, binary_normalize. destruct (_ + _); [done|apply binary_round_number..].
Qed.
