(* ===== verification/Sha256.v ===== *)
(** * SHA-256

    [hashlib.sha256(data).hexdigest()] as FIPS 180-4 defines it, on a message
    given as a list of bytes; words are integers below 2^32. *)

From S2P Require Import Prelude.
From S2P Require Import PyStr.
From S2P Require Import Json.

#[local] Open Scope list_scope.

Definition w32 (x : Z) : Z := x mod 2 ^ 32.
Definition add32 (x y : Z) : Z := w32 (x + y).
Definition rotr (n x : Z) : Z := Z.lor (Z.shiftr x n) (w32 (Z.shiftl x (32 - n))).
Definition xor3 (x y z : Z) : Z := Z.lxor x (Z.lxor y z).

Definition ch32 (x y z : Z) : Z := Z.lxor (Z.land x y) (Z.land (2 ^ 32 - 1 - x) z).
Definition maj32 (x y z : Z) : Z := xor3 (Z.land x y) (Z.land x z) (Z.land y z).
Definition bsig0 (x : Z) : Z := xor3 (rotr 2 x) (rotr 13 x) (rotr 22 x).
Definition bsig1 (x : Z) : Z := xor3 (rotr 6 x) (rotr 11 x) (rotr 25 x).
Definition ssig0 (x : Z) : Z := xor3 (rotr 7 x) (rotr 18 x) (Z.shiftr x 3).
Definition ssig1 (x : Z) : Z := xor3 (rotr 17 x) (rotr 19 x) (Z.shiftr x 10).

(** The constants, from their definition: the first 32 bits of the fractional
    parts of the cube roots (round constants) and square roots (initial state)
    of the first primes. *)
Definition is_prime (n : Z) : bool :=
  (1 <? n) && forallb (λ d, negb (n mod d =? 0)) (seqZ 2 (n - 2)).

Definition primes (n : nat) : list Z := take n (List.filter is_prime (seqZ 2 400)).

(** The integer [k]-th root of [x], bit by bit. *)
Fixpoint root_from (bits : nat) (k x r : Z) : Z :=
  match bits with
  | O => r
  | S b => let r' := r + 2 ^ Z.of_nat b in root_from b k x (if r' ^ k <=? x then r' else r)
  end.

Definition fraction_bits (k p : Z) : Z := w32 (root_from 40 k (p * 2 ^ (32 * k)) 0).

Definition round_constants : list Z := Eval vm_compute in map (fraction_bits 3) (primes 64).

Record hash_state := HashState {
  ha : Z; hb : Z; hc : Z; hd_ : Z; he : Z; hf : Z; hg : Z; hh : Z
}.

Definition initial_words : list Z := Eval vm_compute in map (fraction_bits 2) (primes 8).

Definition state_of_words (w : list Z) : hash_state :=
  match w with
  | [a; b; c; d; e; f; g; h] => HashState a b c d e f g h
  | _ => HashState 0 0 0 0 0 0 0 0
  end.

Definition initial_state : hash_state := Eval cbv in state_of_words initial_words.

(** The message schedule, the most recent word first. *)
Fixpoint extend_schedule (n : nat) (w : list Z) : list Z :=
  match n with
  | O => w
  | S n =>
      let at_ i := nth i w 0 in
      extend_schedule n
        (w32 (ssig1 (at_ 1%nat) + at_ 6%nat + ssig0 (at_ 14%nat) + at_ 15%nat) :: w)
  end.

Definition schedule (block : list Z) : list Z := rev (extend_schedule 48 (rev block)).

Definition round (s : hash_state) (kw : Z * Z) : hash_state :=
  let t1 := hh s + bsig1 (he s) + ch32 (he s) (hf s) (hg s) + kw.1 + kw.2 in
  let t2 := bsig0 (ha s) + maj32 (ha s) (hb s) (hc s) in
  HashState (w32 (t1 + t2)) (ha s) (hb s) (hc s) (add32 (hd_ s) t1) (he s) (hf s) (hg s).

Definition compress (s : hash_state) (block : list Z) : hash_state :=
  let r := foldl round s (zip round_constants (schedule block)) in
  HashState (add32 (ha s) (ha r)) (add32 (hb s) (hb r)) (add32 (hc s) (hc r))
            (add32 (hd_ s) (hd_ r)) (add32 (he s) (he r)) (add32 (hf s) (hf r))
            (add32 (hg s) (hg r)) (add32 (hh s) (hh r)).

(** ** Padding and blocks *)
Fixpoint be_bytes (n : nat) (x : Z) : list Z :=
  match n with
  | O => []
  | S n => be_bytes n (x / 256) ++ [x mod 256]
  end.

Definition pad (msg : list Z) : list Z :=
  let l := Z.of_nat (length msg) in
  msg ++ [128] ++ replicate (Z.to_nat ((55 - l) mod 64)) 0 ++ be_bytes 8 (8 * l).

Fixpoint words (l : list Z) : list Z :=
  match l with
  | a :: b :: c :: d :: l => (((a * 256 + b) * 256 + c) * 256 + d) :: words l
  | _ => []
  end.

Fixpoint blocks (fuel : nat) (w : list Z) : list (list Z) :=
  match fuel, w with
  | S n, _ :: _ => take 16 w :: blocks n (drop 16 w)
  | _, _ => []
  end.

Definition state_words (s : hash_state) : list Z :=
  [ha s; hb s; hc s; hd_ s; he s; hf s; hg s; hh s].

Definition sha256_words (msg : list Z) : list Z :=
  let w := words (pad msg) in
  state_words (foldl compress initial_state (blocks (length w) w)).

(** ** Hexadecimal text *)
Fixpoint hex_word (n : nat) (x : Z) : list ascii :=
  match n with
  | O => []
  | S n => hex_word n (x / 16) ++ [hex_digit (x mod 16)]
  end.

Definition sha256_hex (msg : list Z) : string :=
  unchars (concat (map (hex_word 8) (sha256_words msg))).

(** [s.encode("utf-8")] for code points below 256. *)
Definition utf8_char (c : ascii) : list Z :=
  let n := ord c in if n <? 128 then [n] else [192 + n / 64; 128 + n mod 64].

Definition utf8 (s : string) : list Z := concat (map utf8_char (chars s)).

(** [hashlib.sha256(s.encode("utf-8")).hexdigest()] *)
Definition text_hash (s : string) : string := sha256_hex (utf8 s).

(** The fingerprint of a payload: the hash of its canonical JSON text. *)
Definition json_hash (j : json) : string := text_hash (dumps_canonical j).

(** ** The digest is 64 lower-case hexadecimal digits *)
Definition is_hex (c : ascii) : bool := char_in "0123456789abcdef" c.

Lemma hex_digit_is_hex n : 0 ≤ n < 16 → is_hex (hex_digit n) = true.
Proof.
  intros Hn.
  assert (Hd : ∃ k : nat, (k < 16)%nat ∧ n = Z.of_nat k) by (exists (Z.to_nat n); lia).
  destruct Hd as (k & Hk & ->).
  do 16 (destruct k as [|k]; [by vm_compute|]). lia.
Qed.

Lemma hex_word_spec n x :
  length (hex_word n x) = n ∧ forallb is_hex (hex_word n x) = true.
Proof.
  revert x. induction n as [|n IH]; intros x; simpl; [done|].
  destruct (IH (x / 16)) as [Hl Hf]. rewrite length_app, forallb_app, Hf, Hl. simpl.
  rewrite hex_digit_is_hex by (apply Z.mod_pos_bound; lia). split; [lia|done].
Qed.

Lemma sha256_hex_spec msg :
  String.length (sha256_hex msg) = 64%nat ∧ all_chars is_hex (sha256_hex msg) = true.
Proof.
  unfold sha256_hex, all_chars. rewrite <-length_chars, chars_unchars.
  unfold sha256_words, state_words. cbn [map concat].
  rewrite !length_app, !forallb_app.
  repeat match goal with |- context [hex_word 8 ?x] =>
    let H := fresh in pose proof (hex_word_spec 8 x) as H; revert H;
    generalize (hex_word 8 x); intros ? [-> ->]
  end. done.
Qed.

(** Two messages witness a collision when their digests agree. *)
Definition sha256_collision (m1 m2 : string) : Prop :=
  m1 ≠ m2 ∧ text_hash m1 = text_hash m2.

(** Equal fingerprints come from equal payloads, unless the two texts are a
    SHA-256 collision. *)
Lemma json_hash_binding j1 j2 :
  json_wf j1 → json_wf j2 → json_hash j1 = json_hash j2 →
  sort_keys j1 = sort_keys j2 ∨ sha256_collision (dumps_canonical j1) (dumps_canonical j2).
Proof.
  intros H1 H2 E. destruct (decide (dumps_canonical j1 = dumps_canonical j2)) as [Ed|Ed].
  - left. by apply dumps_canonical_inj.
  - by right.
Qed.

Lemma text_hash_spec s :
  String.length (text_hash s) = 64%nat ∧ all_chars is_hex (text_hash s) = true.
Proof. apply sha256_hex_spec. Qed.

(** Unification must not run the hash; [vm_compute] still does. *)
#[global] Opaque text_hash.
