(* ===== verification/Frozen.v ===== *)
(** * Bounded JSON values

    Task envelopes and schedules carry a payload that is checked and frozen when
    it is read: a JSON object of bounded depth, sizes and keys, whose mappings
    are rebuilt in the order of their keys.  [limits] are the bounds and errors of
    one module; lists and tuples alike are [JArr], frozen and thawed mappings
    alike [JObj]. *)

From S2P Require Import Prelude.
From S2P Require Import PyStr.
From S2P Require Import Json.

(** [len(s) > n] *)
Definition longer (n : nat) (s : string) : bool := (n <? length (chars s))%nat.
Definition more {A} (n : nat) (l : list A) : bool := (n <? length l)%nat.

(** [isinstance(value, str) and p(value)], or [e]. *)
Definition string_with (p : string → bool) (e : exn) (value : json) : result string :=
  match value with
  | JStr s => raise_if (negb (p s)) e;; Ok s
  | _ => Raise e
  end.

(** [json.dumps(value, sort_keys=True, separators=(",", ":"))], which writes no
    integer of more than 4300 digits. *)
Definition canonical_json (value : json) : result string :=
  raise_if (existsb too_long (json_ints value))
    (ValueError "Exceeds the limit (4300 digits) for integer string conversion");;
  Ok (dumps_canonical value).

(** [json.loads]: the objects of a text become dicts, and an integer of more than
    4300 digits is refused. *)
Definition json_loads (text : string) : result json :=
  value ← some_or (loads text) (JSONDecodeError "invalid JSON");
  raise_if (existsb too_long (json_ints value))
    (ValueError "Exceeds the limit (4300 digits) for integer string conversion");;
  Ok (to_dicts value).

(** [value.get(key)] *)
Definition field (d : list (string * json)) (k : string) : json := default JNull (dict_get d k).

Record limits := {
  max_depth : nat;
  max_items : nat;
  max_string : nat;
  max_bytes : N;
  safe_key : string → bool;
  too_deep : exn;
  string_too_long : exn;
  too_large : exn;
  invalid_key : exn;
  not_object : exn
}.

Lemma string_with_ok p e v s : string_with p e v = Ok s ↔ v = JStr s ∧ p s = true.
Proof.
  destruct v; try (split; [discriminate|intros [? _]; discriminate]). cbn.
  rewrite seq_ok, raise_if_ok, negb_false_iff. naive_solver.
Qed.

Lemma string_with_str p e s : p s = true → string_with p e (JStr s) = Ok s.
Proof. intros H. by apply string_with_ok. Qed.

(** An array of texts read through [f], which only accepts texts and leaves its
    own results alone. *)
Lemma collect_map {A B C} (f : B → result C) (g : A → B) (h : A → C) l :
  (∀ x, x ∈ l → f (g x) = Ok (h x)) → collect f (map g l) = Ok (map h l).
Proof.
  induction l as [|x l IH]; intros H; [done|]. cbn.
  rewrite (H x) by left. cbn. rewrite IH by (intros y Hy; apply H; by right). done.
Qed.

Lemma collect_id {B C} (f : B → result C) (g : C → B) l :
  Forall (λ x, f (g x) = Ok x) l → collect f (map g l) = Ok l.
Proof.
  rewrite Forall_forall. intros H. rewrite <-(map_id l) at 2. by apply collect_map.
Qed.

Lemma collect_strings p e items l :
  collect (string_with p e) items = Ok l ↔ items = map JStr l ∧ Forall (λ s, p s = true) l.
Proof.
  rewrite collect_ok. split.
  - induction 1 as [|v s items l Hv _ IH]; [done|]. apply string_with_ok in Hv as [-> Hs].
    destruct IH as [-> IH]. split; [done|]. by constructor.
  - intros [-> H]. induction H as [|s l Hs _ IH]; cbn; constructor; [|done].
    by apply string_with_str.
Qed.

Lemma more_ok {A} n (l : list A) : more n l = false ↔ (length l ≤ n)%nat.
Proof. unfold more. apply Nat.ltb_ge. Qed.

Lemma longer_ok n s : longer n s = false ↔ (length (chars s) ≤ n)%nat.
Proof. unfold longer. apply Nat.ltb_ge. Qed.

Lemma field_dicts d k : dicts_ok (JObj d) → dicts_ok (field d k).
Proof.
  intros Hd. apply dicts_ok_obj in Hd as [_ Hd]. unfold field, dict_get.
  destruct (_ !! k) as [v|] eqn:E; [|done]. cbn.
  apply elem_of_list_to_map_2 in E. apply list_elem_of_In, in_rev, list_elem_of_In in E.
  rewrite Forall_forall in Hd. by apply (Hd _ E).
Qed.

(** ** Sorted lists of texts *)
Definition str_sorted (l : list string) : Prop := StronglySorted (λ a b, str_leb a b = true) l.

Lemma sort_strs_sorted l : str_sorted (sort_strs l).
Proof. apply sort_by_sorted; [apply str_leb_total|apply str_leb_trans]. Qed.

Lemma sort_strs_id l : str_sorted l → sort_strs l = l.
Proof. apply sort_by_id. Qed.

Lemma sort_strs_perm l : sort_strs l ≡ₚ l.
Proof. apply sort_by_perm. Qed.


(** ** Frozen payloads *)
Section freeze.
Context (L : limits).

(** [_freeze_json(value, depth)] with [n = max_depth + 1 - depth]. *)
Fixpoint freeze (n : nat) (value : json) : result json :=
  match n with
  | O => Raise (too_deep L)
  | S n =>
      match value with
      | JNull | JBool _ | JInt _ | JFloat _ => Ok value
      | JStr s => raise_if (longer (max_string L) s) (string_too_long L);; Ok value
      | JObj d =>
          raise_if (more (max_items L) d) (too_large L);;
          raise_if (existsb (λ f, negb (safe_key L f.1)) d) (invalid_key L);;
          fields ← collect (λ f, x ← freeze n f.2; Ok (f.1, x))
                     (sort_by (λ a b, str_leb a.1 b.1) d);
          Ok (JObj fields)
      | JArr l =>
          raise_if (more (max_items L) l) (too_large L);;
          items ← collect (freeze n) l;
          Ok (JArr items)
      end
  end.

Definition bounded_payload (value : json) : result json :=
  match value with
  | JObj _ =>
      frozen ← freeze (S (max_depth L)) value;
      serialized ← canonical_json frozen;
      raise_if (max_bytes L <? N.of_nat (length (chars serialized)))%N (too_large L);;
      Ok frozen
  | _ => Raise (not_object L)
  end.

Fixpoint frozen (n : nat) (j : json) : Prop :=
  match n with
  | O => False
  | S n =>
      match j with
      | JStr s => (length (chars s) ≤ (max_string L))%nat
      | JArr l => (length l ≤ (max_items L))%nat ∧ Forall (frozen n) l
      | JObj d => (length d ≤ (max_items L))%nat ∧ NoDup d.*1 ∧
          StronglySorted (λ a b, str_leb a.1 b.1 = true) d ∧
          Forall (λ f, safe_key L f.1 = true ∧ frozen n f.2) d
      | _ => True
      end
  end.

Lemma bad_keys_ok (d : list (string * json)) :
  existsb (λ f, negb (safe_key L f.1)) d = false ↔ Forall (λ f, safe_key L f.1 = true) d.
Proof.
  rewrite existsb_false, Forall_forall. by setoid_rewrite negb_false_iff.
Qed.

Lemma freeze_id n j : frozen n j → freeze n j = Ok j.
Proof.
  revert j. induction n as [|n IH]; intros j H; [done|].
  destruct j as [|b|z|t|s|l|d]; try done; cbn [freeze frozen] in *.
  - by rewrite (proj2 (longer_ok _ _) H).
  - destruct H as [Hl H]. rewrite (proj2 (more_ok _ _) Hl). cbn.
    replace l with (map id l) at 1 by apply map_id. rewrite collect_id; [done|].
    eapply Forall_impl; [exact H|]. intros x. apply IH.
  - destruct H as (Hl & _ & Hs & H). rewrite (proj2 (more_ok _ _) Hl).
    rewrite (proj2 (bad_keys_ok d)) by (eapply Forall_impl; [exact H|by intros ? []]). cbn.
    rewrite sort_by_id by done. replace d with (map id d) at 1 by apply map_id.
    rewrite collect_id; [done|]. eapply Forall_impl; [exact H|].
    intros [k x] [_ Hx]. cbn in Hx |- *. by rewrite (IH _ Hx).
Qed.

(** What [collect] does to the fields of a dict. *)
Lemma collect_fields (f : json → result json) (d fields : list (string * json)) :
  collect (λ x, y ← f x.2; Ok (x.1, y)) d = Ok fields ↔
  Forall2 (λ a b, b.1 = a.1 ∧ f a.2 = Ok b.2) d fields.
Proof.
  rewrite collect_ok.
  split; (intros H; eapply Forall2_impl; [exact H|]); intros [k x] [k' y]; cbn;
    destruct (f x); cbn; naive_solver.
Qed.

Lemma sorted_keys (d fields : list (string * json)) : d.*1 = fields.*1 →
  StronglySorted (λ a b : string * json, str_leb a.1 b.1 = true) d →
  StronglySorted (λ a b : string * json, str_leb a.1 b.1 = true) fields.
Proof.
  revert fields. induction d as [|[k x] d IH]; intros [|[k' y] fields]; try done.
  intros [= <- Hk] Hs. change (d.*1 = fields.*1) in Hk. inversion Hs as [|? ? Hd Hall]; subst. constructor; [by apply IH|].
  rewrite Forall_forall in Hall |- *. intros [k' z] Hz. cbn.
  assert (k' ∈ d.*1) as Hin by (rewrite Hk; apply (list_elem_of_fmap_2 fst _ _ Hz)).
  apply list_elem_of_fmap_1 in Hin as ([k'' z'] & E & Hin). cbn in E. subst. by apply Hall in Hin.
Qed.

Lemma fields_keys (P : json → json → Prop) (d fields : list (string * json)) :
  Forall2 (λ a b, b.1 = a.1 ∧ P a.2 b.2) d fields → d.*1 = fields.*1.
Proof. induction 1 as [|a b d fields [E _] _ IH]; [done|]. cbn. by rewrite E, IH. Qed.

Lemma freeze_frozen n v j : dicts_ok v → freeze n v = Ok j → frozen n j.
Proof.
  revert v j. induction n as [|n IH]; intros v j Hd H; [done|].
  destruct v as [|b|z|t|s|l|d]; cbn [freeze] in H; try (injection H as <-; done).
  - rewrite seq_ok, raise_if_ok, longer_ok in H. by destruct H as [Hs [= <-]].
  - rewrite seq_ok, raise_if_ok, more_ok, result_bind_ok in H.
    destruct H as (Hl & items & Hc & [= <-]). apply collect_ok in Hc. apply dicts_ok_arr in Hd.
    cbn. split; [by rewrite <-(Forall2_length _ _ _ Hc)|].
    clear Hl. induction Hc as [|x y l items Hx _ IHl]; constructor.
    + apply (IH x); [|done]. by inversion Hd.
    + apply IHl. by inversion Hd.
  - rewrite !seq_ok, !raise_if_ok, more_ok, bad_keys_ok, result_bind_ok in H.
    destruct H as (Hl & Hkeys & fields & Hc & [= <-]). apply collect_fields in Hc.
    apply dicts_ok_obj in Hd as [Hnd Hd].
    set (ds := sort_by _ d) in Hc. assert (ds ≡ₚ d) as Hp by apply sort_by_perm.
    assert (ds.*1 = fields.*1) as Hk by (by apply (fields_keys (λ a b, freeze n a = Ok b))).
    cbn. split; [by rewrite <-(Forall2_length _ _ _ Hc), Hp|]. split; [by rewrite <-Hk, Hp|].
    split.
    + apply (sorted_keys ds); [done|].
      apply (sort_by_sorted (λ a b : string * json, str_leb a.1 b.1)
               (λ x y, str_leb_total x.1 y.1) (λ x y z, str_leb_trans x.1 y.1 z.1)).
    + rewrite <-Hp in Hkeys, Hd. clear -IH Hc Hkeys Hd.
      induction Hc as [|a b ds fields [E Hb] _ IHl]; constructor.
      * rewrite E. split; [by inversion Hkeys|]. apply (IH a.2); [|done]. by inversion Hd.
      * apply IHl; [by inversion Hd|by inversion Hkeys].
Qed.

Lemma frozen_dicts n j : frozen n j → dicts_ok j.
Proof.
  revert j. induction n as [|n IH]; intros j H; [done|].
  destruct j as [|b|z|t|s|l|d]; try done; cbn [frozen] in H.
  - apply dicts_ok_arr. eapply Forall_impl; [apply H|]. apply IH.
  - apply dicts_ok_obj. split; [apply H|]. eapply Forall_impl; [apply H|].
    intros f [_ Hf]. by apply IH.
Qed.

Lemma map_same {A} (f : A → A) l : Forall (λ x, f x = x) l → map f l = l.
Proof. induction 1 as [|x l Hx _ IH]; [done|]. cbn. by rewrite Hx, IH. Qed.

Lemma frozen_sorted n j : frozen n j → sort_keys j = j.
Proof.
  revert j. induction n as [|n IH]; intros j H; [done|].
  destruct j as [|b|z|t|s|l|d]; try done; cbn [frozen] in H; cbn [sort_keys].
  - f_equal. apply map_same. eapply Forall_impl; [apply H|]. apply IH.
  - destruct H as (_ & _ & Hs & H). rewrite map_same; [by rewrite sort_by_id|].
    eapply Forall_impl; [exact H|]. intros [k x] [_ Hx]. cbn in Hx |- *. f_equal. by apply IH.
Qed.

Record payload_ok (p : json) : Prop := {
  po_object : ∃ d, p = JObj d;
  po_frozen : frozen (S (max_depth L)) p;
  po_ints : existsb too_long (json_ints p) = false;
  po_size : (N.of_nat (length (chars (dumps_canonical p))) <= (max_bytes L))%N
}.

Lemma payload_result v p : dicts_ok v → bounded_payload v = Ok p → payload_ok p.
Proof.
  intros Hd H. destruct v as [| | | | | |d]; try discriminate. unfold bounded_payload in H.
  rewrite result_bind_ok in H. destruct H as (frozen & Hf & H).
  unfold canonical_json in H. rewrite result_bind_ok in H. destruct H as (s & Hs & H).
  rewrite seq_ok, raise_if_ok in Hs. destruct Hs as [Hi [= <-]].
  rewrite seq_ok, raise_if_ok in H. destruct H as [Hn [= <-]].
  split.
  - cbn [freeze] in Hf. rewrite !seq_ok, result_bind_ok in Hf.
    destruct Hf as (_ & _ & fields & _ & [= <-]). by eexists.
  - by eapply freeze_frozen.
  - done.
  - by apply N.ltb_ge.
Qed.

Lemma payload_id p : payload_ok p → bounded_payload p = Ok p.
Proof.
  intros [[d ->] Hf Hi Hn]. unfold bounded_payload, canonical_json. rewrite (freeze_id _ _ Hf).
  cbn [mbind result_bind]. rewrite Hi. cbn [raise_if mbind result_bind].
  by rewrite (proj2 (N.ltb_ge _ _) Hn).
Qed.
End freeze.
