(* ===== verification/PyRepr.v ===== *)
(** * [str] and truth of JSON values

    What the program uses of Python on values it got from JSON: [str(value)], the
    truth of a value and its membership in a set of texts. *)

From S2P Require Import Prelude.
From S2P Require Import PyStr.
From S2P Require Import Json.

(** ** [str(value)] of a JSON value *)
Definition hex_escape (c : ascii) : list ascii :=
  [ascii_of_N 92; "x"%char; hex_digit (ord c / 16); hex_digit (ord c mod 16)].

Definition repr_char (quote c : ascii) : list ascii :=
  if decide (c = quote ∨ ord c = 92) then [ascii_of_N 92; c]
  else if ord c =? 9 then [ascii_of_N 92; "t"%char]
  else if ord c =? 10 then [ascii_of_N 92; "n"%char]
  else if ord c =? 13 then [ascii_of_N 92; "r"%char]
  else if (ord c <? 32) || ((127 <=? ord c) && (ord c <=? 160)) || (ord c =? 173) then hex_escape c
  else [c].

Definition str_repr (s : string) : string :=
  let l := chars s in
  let apostrophe := ascii_of_N 39 in let double := ascii_of_N 34 in
  let quote := if (apostrophe ∈? l) && (double ∉? l) then double else apostrophe in
  unchars ([quote] ++ concat (map (repr_char quote) l) ++ [quote]).

Fixpoint py_repr (value : json) : string :=
  match value with
  | JNull => "None"
  | JBool b => if b then "True" else "False"
  | JInt z => unchars (int_chars z)
  | JFloat t => unchars (float_chars t)
  | JStr s => str_repr s
  | JArr l => "[" +:+ join_with ", " (map py_repr l) +:+ "]"
  | JObj d => "{" +:+ join_with ", " (map (λ f, str_repr f.1 +:+ ": " +:+ py_repr f.2) d) +:+ "}"
  end.

Definition py_str (value : json) : result string :=
  raise_if (existsb too_long (json_ints value))
    (ValueError "Exceeds the limit (4300 digits) for integer string conversion");;
  Ok (match value with JStr s => s | _ => py_repr value end).

(** [value or ""] *)
Definition or_empty (value : json) : json :=
  match value with
  | JNull | JBool false | JArr [] | JObj [] => JStr ""
  | JInt z => if z =? 0 then JStr "" else value
  | JFloat t => if t =? 0 then JStr "" else value
  | _ => value
  end.

(** [value in {...}] for a set of texts: membership hashes the value. *)
Definition in_set (value : json) (words : list string) : result bool :=
  match value with
  | JStr s => Ok (s ∈? words)
  | JArr _ => Raise (TypeError "unhashable type: 'list'")
  | JObj _ => Raise (TypeError "unhashable type: 'dict'")
  | _ => Ok false
  end.
