(* ===== verification/RunnerTask.v ===== *)
(** * Runner tasks

    [src/core/runner_task.py]: the envelope of a task for the runner, validated
    from a Python value ([from_mapping]) or a text ([from_json]) and written back
    as canonical JSON, whose hash identifies the task.  A Python value is a JSON
    value, lists and tuples alike [JArr], frozen and thawed mappings alike [JObj];
    the messages of the errors are not modelled. *)

From S2P Require Import Prelude.
From S2P Require Import PyStr.
From S2P Require Import Json.
From S2P Require Import Frozen.

Definition RUNNER_TASK_SCHEMA : string := "skeleton.runner_task.v1".
Definition TASK_KINDS : list string :=
  ["code_edit"; "repository_maintenance"; "private_memory"; "diagnostic"; "loop_control"; "publish"].
Definition REQUESTED_CAPABILITIES : list string :=
  ["repository_read"; "repository_write_allowlisted"; "test_execution"; "subprocess_isolated";
   "memory_gateway_read"; "memory_gateway_write"; "diagnostic_read"; "repository_maintenance";
   "loop_control"; "publish_pull_request"].
Definition PRIVACY_BOUNDARIES : list string :=
  ["PUBLIC_SAFE_REPOSITORY_ONLY"; "PUBLIC_SAFE_AGGREGATE_ONLY"; "LOCAL_PRIVATE"; "PRIVATE_LOCAL"].
Definition MIN_VALIDATION_TIMEOUT_SECONDS : Z := 1.
Definition MAX_VALIDATION_TIMEOUT_SECONDS : Z := 3600.

(** ** Texts *)

(** One side of [_REPOSITORY_RE]; no side contains a slash. *)
Definition repository_part : string → bool := bounded_token ALNUM (ALNUM +:+ "_.-") 99.
Definition _REPOSITORY_RE (s : string) : bool :=
  match partition "/" s with
  | (owner, true, name) => repository_part owner && repository_part name
  | _ => false
  end.

Definition HEX : string := DIGITS +:+ "abcdefABCDEF".
Definition _SHA_RE (s : string) : bool :=
  (length (chars s) =? 40)%nat && all_chars (char_in HEX) s.
Definition _BRANCH_RE : string → bool := bounded_token ALNUM (ALNUM +:+ "._/-") 254.
Definition _TOKEN_RE : string → bool := bounded_token ALNUM (ALNUM +:+ "_.:-") 127.
Definition _PAYLOAD_KEY_RE : string → bool := bounded_token ALNUM (ALNUM +:+ "_.:-") 127.
Definition _SAFE_PATH_RE : string → bool :=
  bounded_token (ALNUM +:+ "._-") (ALNUM +:+ "._/@+-") 511.

Definition _REQUIRED_FIELDS : list string :=
  ["schema"; "repo"; "branch"; "base_sha"; "task_kind"; "payload"; "requested_capabilities";
   "allowed_files"; "forbidden_actions"; "validation_commands"; "validation_timeout_seconds";
   "expected_output"; "privacy_boundary"; "approval_reference"; "idempotency_key"].

Definition _MAX_PAYLOAD_DEPTH : nat := 16.
Definition _MAX_PAYLOAD_ITEMS : nat := 256.
Definition _MAX_PAYLOAD_STRING_LENGTH : nat := 4096.
Definition _MAX_PAYLOAD_BYTES : N := 65536.
Definition _MAX_COMMANDS : nat := 16.
Definition _MAX_COMMAND_ARGUMENTS : nat := 64.
Definition _MAX_ARGUMENT_LENGTH : nat := 2048.
Definition _MAX_TEXT_ITEMS : nat := 64.
Definition _MAX_TEXT_LENGTH : nat := 512.

Definition terr (code : string) : exn := RunnerTaskValidationError code.
(** [f"INVALID_{field.upper()}"] and the like. *)
Definition field_code (prefix field : string) : exn := terr (prefix +:+ "_" +:+ upper field).

Record RunnerTask := {
  rt_schema : string;
  rt_repo : string;
  rt_branch : string;
  rt_base_sha : string;
  rt_task_kind : string;
  rt_payload : json;
  rt_requested_capabilities : list string;
  rt_allowed_files : list string;
  rt_forbidden_actions : list string;
  rt_validation_commands : list (list string);
  rt_validation_timeout_seconds : Z;
  rt_expected_output : list string;
  rt_privacy_boundary : string;
  rt_approval_reference : string;
  rt_idempotency_key : string
}.

(** ** The fields *)
Definition _exact_string (value : json) (field expected : string) : result string :=
  match value with
  | JStr s => raise_if (s != expected) (terr "INVALID_TASK_SCHEMA");; Ok expected
  | _ => Raise (terr "INVALID_TASK_SCHEMA")
  end.

Definition _repository : json → result string := string_with _REPOSITORY_RE (terr "INVALID_REPOSITORY").

(** A segment no path may have. *)
Definition bad_segment (s : string) : bool := s ∈? [""; "."; ".."].

Definition safe_branch (s : string) : bool :=
  negb (endswith "/" s || endswith "." s || endswith ".lock" s || contains ".." s
        || contains "@{" s || contains "//" s || existsb bad_segment (split_on "/" s)).
Definition _branch : json → result string :=
  string_with (λ s, _BRANCH_RE s && safe_branch s) (terr "INVALID_BRANCH").

Definition _base_sha (value : json) : result string :=
  s ← string_with _SHA_RE (terr "INVALID_BASE_SHA") value; Ok (lower s).

Definition _enum_string (value : json) (field : string) (allowed : list string) : result string :=
  string_with (λ s, s ∈? allowed) (field_code "INVALID" field) value.

Definition _safe_token (value : json) (field : string) : result string :=
  string_with _TOKEN_RE (field_code "INVALID" field) value.

(** ** The payload *)
Definition task_limits : limits :=
  {| max_depth := _MAX_PAYLOAD_DEPTH; max_items := _MAX_PAYLOAD_ITEMS;
     max_string := _MAX_PAYLOAD_STRING_LENGTH; max_bytes := _MAX_PAYLOAD_BYTES;
     safe_key := _PAYLOAD_KEY_RE; too_deep := terr "ROUTE_PAYLOAD_TOO_DEEP";
     string_too_long := terr "ROUTE_PAYLOAD_STRING_TOO_LONG";
     too_large := terr "ROUTE_PAYLOAD_TOO_LARGE"; invalid_key := terr "INVALID_ROUTE_PAYLOAD_KEY";
     not_object := terr "INVALID_ROUTE_PAYLOAD" |}.

Definition _freeze_json : nat → json → result json := freeze task_limits.

Definition _payload : json → result json := bounded_payload task_limits.

(** ** Arrays *)
Definition _sequence (value : json) (field : string) : result (list json) :=
  match value with
  | JArr items => raise_if (is_empty items) (field_code "EMPTY" field);; Ok items
  | _ => Raise (field_code "INVALID" field)
  end.

Definition _reject_duplicates `{EqDecision A} (values : list A) (field : string) : result unit :=
  raise_if (has_dup values) (field_code "DUPLICATE" field).

Definition _capabilities (value : json) : result (list string) :=
  items ← _sequence value "requested_capabilities";
  normalized ← collect (string_with (λ s, s ∈? REQUESTED_CAPABILITIES)
                          (terr "INVALID_REQUESTED_CAPABILITY")) items;
  _reject_duplicates normalized "requested_capabilities";;
  Ok (sort_strs normalized).

Definition safe_path (s : string) : bool :=
  negb (startswith "/" s || endswith "/" s || contains "\" s || contains "//" s
        || existsb bad_segment (split_on "/" s)).
Definition _repository_path : json → result string :=
  string_with (λ s, _SAFE_PATH_RE s && safe_path s) (terr "INVALID_ALLOWED_FILE").

Definition _allowed_files (value : json) : result (list string) :=
  items ← _sequence value "allowed_files";
  normalized ← collect _repository_path items;
  _reject_duplicates normalized "allowed_files";;
  Ok (sort_strs normalized).

Definition _bounded_text_items (value : json) (field : string) (sort_items : bool)
    : result (list string) :=
  items ← _sequence value field;
  raise_if (more _MAX_TEXT_ITEMS items) (field_code "TOO_MANY" field);;
  normalized ← collect (λ item,
    s ← string_with (λ s, truthy (strip s) && negb (longer _MAX_TEXT_LENGTH s))
          (field_code "INVALID" field) item;
    Ok (strip s)) items;
  _reject_duplicates normalized field;;
  Ok (if sort_items then sort_strs normalized else normalized).

Definition argument_ok (s : string) : bool :=
  truthy s && negb (any_char (λ c, ord c == 0) s) && negb (longer _MAX_ARGUMENT_LENGTH s).
Definition command_argument : json → result string :=
  string_with argument_ok (terr "INVALID_VALIDATION_COMMAND").

Definition validation_command (command : json) : result (list string) :=
  argv ← _sequence command "validation_command";
  raise_if (more _MAX_COMMAND_ARGUMENTS argv) (terr "VALIDATION_COMMAND_TOO_LONG");;
  collect command_argument argv.

Definition _validation_commands (value : json) : result (list (list string)) :=
  commands ← _sequence value "validation_commands";
  raise_if (more _MAX_COMMANDS commands) (terr "TOO_MANY_VALIDATION_COMMANDS");;
  normalized ← collect validation_command commands;
  _reject_duplicates normalized "validation_commands";;
  Ok normalized.

Definition _validation_timeout (value : json) : result Z :=
  match value with
  | JInt z =>
      raise_if ((z <? MIN_VALIDATION_TIMEOUT_SECONDS) || (MAX_VALIDATION_TIMEOUT_SECONDS <? z))
        (terr "INVALID_VALIDATION_TIMEOUT");;
      Ok z
  | _ => Raise (terr "INVALID_VALIDATION_TIMEOUT")
  end.

(** ** The envelope *)
Definition check_fields (d : list (string * json)) : result unit :=
  raise_if (existsb (λ k, k ∉? _REQUIRED_FIELDS) d.*1) (terr "UNKNOWN_TASK_FIELD");;
  raise_if (existsb (λ k, k ∉? d.*1) _REQUIRED_FIELDS) (terr "MISSING_TASK_FIELD").

Definition from_mapping (value : json) : result RunnerTask :=
  match value with
  | JObj d =>
      check_fields d;;
      schema ← _exact_string (field d "schema") "schema" RUNNER_TASK_SCHEMA;
      repo ← _repository (field d "repo");
      branch ← _branch (field d "branch");
      base_sha ← _base_sha (field d "base_sha");
      task_kind ← _enum_string (field d "task_kind") "task_kind" TASK_KINDS;
      payload ← _payload (field d "payload");
      requested_capabilities ← _capabilities (field d "requested_capabilities");
      allowed_files ← _allowed_files (field d "allowed_files");
      forbidden_actions ← _bounded_text_items (field d "forbidden_actions") "forbidden_actions" true;
      validation_commands ← _validation_commands (field d "validation_commands");
      validation_timeout_seconds ← _validation_timeout (field d "validation_timeout_seconds");
      expected_output ← _bounded_text_items (field d "expected_output") "expected_output" true;
      privacy_boundary ← _enum_string (field d "privacy_boundary") "privacy_boundary"
                           PRIVACY_BOUNDARIES;
      approval_reference ← _safe_token (field d "approval_reference") "approval_reference";
      idempotency_key ← _safe_token (field d "idempotency_key") "idempotency_key";
      Ok {| rt_schema := schema; rt_repo := repo; rt_branch := branch; rt_base_sha := base_sha;
            rt_task_kind := task_kind; rt_payload := payload;
            rt_requested_capabilities := requested_capabilities;
            rt_allowed_files := allowed_files; rt_forbidden_actions := forbidden_actions;
            rt_validation_commands := validation_commands;
            rt_validation_timeout_seconds := validation_timeout_seconds;
            rt_expected_output := expected_output; rt_privacy_boundary := privacy_boundary;
            rt_approval_reference := approval_reference; rt_idempotency_key := idempotency_key |}
  | _ => Raise (terr "INVALID_TASK_ENVELOPE")
  end.

(** [json.loads] refuses an integer of more than 4300 digits with a [ValueError],
    which [from_json] does not catch. *)
Definition from_json (value : string) : result RunnerTask :=
  match loads value with
  | None => Raise (terr "INVALID_TASK_JSON")
  | Some parsed =>
      raise_if (existsb too_long (json_ints parsed))
        (ValueError "Exceeds the limit (4300 digits) for integer string conversion");;
      from_mapping (to_dicts parsed)
  end.

Definition task_fields (t : RunnerTask) : list (string * json) :=
  [("schema", JStr (rt_schema t)); ("repo", JStr (rt_repo t)); ("branch", JStr (rt_branch t));
   ("base_sha", JStr (rt_base_sha t)); ("task_kind", JStr (rt_task_kind t));
   ("payload", rt_payload t); ("requested_capabilities", jstrs (rt_requested_capabilities t));
   ("allowed_files", jstrs (rt_allowed_files t));
   ("forbidden_actions", jstrs (rt_forbidden_actions t));
   ("validation_commands", JArr (map jstrs (rt_validation_commands t)));
   ("validation_timeout_seconds", JInt (rt_validation_timeout_seconds t));
   ("expected_output", jstrs (rt_expected_output t));
   ("privacy_boundary", JStr (rt_privacy_boundary t));
   ("approval_reference", JStr (rt_approval_reference t));
   ("idempotency_key", JStr (rt_idempotency_key t))].
Definition to_mapping (t : RunnerTask) : json := JObj (task_fields t).

Definition to_json (t : RunnerTask) : result string := canonical_json (to_mapping t).

(** ** Reading the checks *)
Abbreviation payload_ok := (Frozen.payload_ok task_limits).

Lemma sequence_ok v f l : _sequence v f = Ok l ↔ v = JArr l ∧ l ≠ [].
Proof.
  destruct v; try (split; [discriminate|intros [? _]; discriminate]). cbn.
  rewrite seq_ok, raise_if_ok, is_empty_false. naive_solver.
Qed.

Lemma sequence_arr f l : l ≠ [] → _sequence (JArr l) f = Ok l.
Proof. intros. by apply sequence_ok. Qed.

(** ** Trimmed texts *)
Section trim.
Context (p : ascii → bool).

Definition trimmed (l : list ascii) : Prop := match l with [] => True | c :: _ => p c = false end.

Lemma drop_while_id l : trimmed l → drop_while p l = l.
Proof. destruct l as [|c l]; cbn; [done|]. by intros ->. Qed.

Lemma drop_while_trimmed l : trimmed (drop_while p l).
Proof. induction l as [|c l IH]; cbn; [done|]. by destruct (p c) eqn:E. Qed.

Lemma drop_while_suffix l : ∃ k, l = k ++ drop_while p l.
Proof.
  induction l as [|c l [k IH]]; cbn; [by exists []|].
  destruct (p c); [exists (c :: k); cbn; by f_equal|by exists []].
Qed.

Lemma strip_by_idem s : strip_by p (strip_by p s) = strip_by p s.
Proof.
  unfold strip_by. rewrite chars_unchars. set (x := drop_while p (chars s)).
  set (r := drop_while p (rev x)).
  assert (trimmed (rev r)) as Hr.
  { destruct (drop_while_suffix (rev x)) as [k Hk]. fold r in Hk.
    assert (x = rev r ++ rev k) as Hx by (by rewrite <-rev_app_distr, <-Hk, rev_involutive).
    pose proof (drop_while_trimmed (chars s)) as Ht. fold x in Ht. rewrite Hx in Ht.
    by destruct (rev r). }
  rewrite (drop_while_id (rev r)) by done. rewrite rev_involutive.
  rewrite (drop_while_id r); [done|]. apply drop_while_trimmed.
Qed.

Lemma length_drop_while l : (length (drop_while p l) ≤ length l)%nat.
Proof.
  destruct (drop_while_suffix l) as [k Hk]. rewrite Hk at 2. rewrite length_app. lia.
Qed.

Lemma length_strip_by s : (length (chars (strip_by p s)) ≤ length (chars s))%nat.
Proof.
  unfold strip_by. rewrite chars_unchars, length_rev.
  pose proof (length_drop_while (rev (drop_while p (chars s)))) as H1. rewrite length_rev in H1.
  pose proof (length_drop_while (chars s)). lia.
Qed.
End trim.

(** ** Lower-case hexadecimal *)
Definition LOWER_HEX : string := DIGITS +:+ "abcdef".

Lemma lower_hex c : char_in HEX c = true →
  char_in LOWER_HEX (lower_char c) = true ∧ lower_char (lower_char c) = lower_char c.
Proof.
  destruct c as [[] [] [] [] [] [] [] []]; intros H; vm_compute in H;
    try discriminate H; by vm_compute.
Qed.

Lemma lower_hex_id c : char_in LOWER_HEX c = true → lower_char c = c ∧ char_in HEX c = true.
Proof.
  destruct c as [[] [] [] [] [] [] [] []]; intros H; vm_compute in H;
    try discriminate H; by vm_compute.
Qed.

Definition sha_ok (s : string) : Prop :=
  length (chars s) = 40%nat ∧ Forall (λ c, char_in LOWER_HEX c = true) (chars s).

Lemma sha_re s : _SHA_RE s = true ↔
  length (chars s) = 40%nat ∧ Forall (λ c, char_in HEX c = true) (chars s).
Proof.
  unfold _SHA_RE, all_chars. by rewrite andb_true_iff, Nat.eqb_eq, forallb_elem, Forall_forall.
Qed.

Lemma lower_sha s : _SHA_RE s = true → sha_ok (lower s).
Proof.
  rewrite sha_re. intros [Hl H]. unfold sha_ok, lower. rewrite chars_unchars.
  split; [by rewrite length_map|]. apply Forall_fmap. eapply Forall_impl; [exact H|].
  intros c Hc. by apply lower_hex.
Qed.

Lemma sha_ok_re s : sha_ok s → _SHA_RE s = true ∧ lower s = s.
Proof.
  intros [Hl H]. split.
  - apply sha_re. split; [done|]. eapply Forall_impl; [exact H|]. intros c Hc. by apply lower_hex_id.
  - unfold lower. rewrite map_same; [apply unchars_chars|].
    eapply Forall_impl; [exact H|]. intros c Hc. by apply lower_hex_id.
Qed.

(** ** The lists *)
Definition listed (p : string → bool) (l : list string) : Prop :=
  l ≠ [] ∧ NoDup l ∧ str_sorted l ∧ Forall (λ s, p s = true) l.

Lemma duplicates_ok `{EqDecision A} (l : list A) f : _reject_duplicates l f = Ok tt ↔ NoDup l.
Proof. unfold _reject_duplicates. by rewrite raise_if_ok, has_dup_false. Qed.

Lemma sort_strs_listed p l : l ≠ [] → NoDup l → Forall (λ s, p s = true) l → listed p (sort_strs l).
Proof.
  intros Hl Hn H. split.
  - intros E. apply Hl. apply Permutation_nil_r. by rewrite <-(sort_strs_perm l), E.
  - split; [by rewrite sort_strs_perm|]. split; [apply sort_strs_sorted|by rewrite sort_strs_perm].
Qed.

Lemma capabilities_listed v l : _capabilities v = Ok l → listed (λ s, s ∈? REQUESTED_CAPABILITIES) l.
Proof.
  unfold _capabilities. rewrite result_bind_ok. intros (items & Hi & H).
  apply sequence_ok in Hi as [-> Hi]. rewrite result_bind_ok in H. destruct H as (xs & Hx & H).
  rewrite seq_ok, duplicates_ok in H. destruct H as [Hn [= <-]].
  apply collect_strings in Hx as [-> Hx]. apply sort_strs_listed; try done. by intros ->.
Qed.

Lemma allowed_files_listed v l : _allowed_files v = Ok l →
  listed (λ s, _SAFE_PATH_RE s && safe_path s) l.
Proof.
  unfold _allowed_files. rewrite result_bind_ok. intros (items & Hi & H).
  apply sequence_ok in Hi as [-> Hi]. rewrite result_bind_ok in H. destruct H as (xs & Hx & H).
  rewrite seq_ok, duplicates_ok in H. destruct H as [Hn [= <-]].
  apply collect_strings in Hx as [-> Hx]. apply sort_strs_listed; try done. by intros ->.
Qed.

Lemma map_not_nil {A B} (f : A → B) l : l ≠ [] → map f l ≠ [].
Proof. by destruct l. Qed.

Lemma collect_listed p e l : Forall (λ s, p s = true) l →
  collect (string_with p e) (map JStr l) = Ok l.
Proof. intros. by apply collect_strings. Qed.

Lemma capabilities_id l : listed (λ s, s ∈? REQUESTED_CAPABILITIES) l → _capabilities (jstrs l) = Ok l.
Proof.
  intros (Hl & Hn & Hs & H). unfold _capabilities, jstrs.
  rewrite sequence_arr by (by apply map_not_nil). cbn [mbind result_bind].
  rewrite collect_listed by done. cbn [mbind result_bind].
  rewrite (proj2 (duplicates_ok l _) Hn). cbn. by rewrite sort_strs_id.
Qed.

Lemma allowed_files_id l : listed (λ s, _SAFE_PATH_RE s && safe_path s) l →
  _allowed_files (jstrs l) = Ok l.
Proof.
  intros (Hl & Hn & Hs & H). unfold _allowed_files, jstrs.
  rewrite sequence_arr by (by apply map_not_nil). cbn [mbind result_bind].
  unfold _repository_path. rewrite collect_listed by done. cbn [mbind result_bind].
  rewrite (proj2 (duplicates_ok l _) Hn). cbn. by rewrite sort_strs_id.
Qed.

Definition text_ok (s : string) : Prop :=
  s ≠ "" ∧ strip s = s ∧ (length (chars s) ≤ _MAX_TEXT_LENGTH)%nat.

Definition texts_ok (l : list string) : Prop :=
  l ≠ [] ∧ (length l ≤ _MAX_TEXT_ITEMS)%nat ∧ NoDup l ∧ str_sorted l ∧ Forall text_ok l.

Lemma collect_texts e items l :
  collect (λ item, s ← string_with (λ s, truthy (strip s) && negb (longer _MAX_TEXT_LENGTH s)) e item;
             Ok (strip s)) items = Ok l → length items = length l ∧ Forall text_ok l.
Proof.
  rewrite collect_ok. intros H. split; [by eapply Forall2_length|].
  induction H as [|v s items l Hv _ IH]; constructor; [|done]. clear IH.
  rewrite result_bind_ok in Hv. destruct Hv as (t & Ht & [= <-]).
  apply string_with_ok in Ht as [_ Ht]. rewrite andb_true_iff, truthy_spec, negb_true_iff, longer_ok in Ht.
  destruct Ht as [Ht Hl]. split; [done|]. split; [apply strip_by_idem|].
  pose proof (length_strip_by isspace t). unfold strip. lia.
Qed.

Lemma bounded_texts_ok v f l : _bounded_text_items v f true = Ok l → texts_ok l.
Proof.
  unfold _bounded_text_items. rewrite result_bind_ok. intros (items & Hi & H).
  apply sequence_ok in Hi as [-> Hi]. rewrite seq_ok, raise_if_ok, more_ok, result_bind_ok in H.
  destruct H as (Hm & xs & Hx & H). rewrite seq_ok, duplicates_ok in H. destruct H as [Hn [= <-]].
  apply collect_texts in Hx as [Hlen Hx]. split.
  - intros E. apply Hi. apply length_zero_iff_nil. by rewrite Hlen, <-(sort_strs_perm xs), E.
  - split; [rewrite sort_strs_perm; lia|]. split; [by rewrite sort_strs_perm|].
    split; [apply sort_strs_sorted|by rewrite sort_strs_perm].
Qed.

Lemma bounded_texts_id l f : texts_ok l → _bounded_text_items (jstrs l) f true = Ok l.
Proof.
  intros (Hl & Hm & Hn & Hs & H). unfold _bounded_text_items, jstrs.
  rewrite sequence_arr by (by apply map_not_nil). cbn [mbind result_bind].
  rewrite (proj2 (more_ok _ _)) by (by rewrite length_map). cbn [raise_if mbind result_bind].
  rewrite collect_id.
  - cbn [mbind result_bind]. rewrite (proj2 (duplicates_ok l _) Hn). cbn. by rewrite sort_strs_id.
  - eapply Forall_impl; [exact H|]. intros s (Hne & Hst & Hlen).
    rewrite string_with_str; [by cbn; rewrite Hst|].
    rewrite Hst, (proj2 (longer_ok _ _) Hlen), andb_true_iff, truthy_spec. done.
Qed.

(** ** The validation commands *)
Definition command_ok (argv : list string) : Prop :=
  argv ≠ [] ∧ (length argv ≤ _MAX_COMMAND_ARGUMENTS)%nat ∧ Forall (λ s, argument_ok s = true) argv.

Definition commands_ok (l : list (list string)) : Prop :=
  l ≠ [] ∧ (length l ≤ _MAX_COMMANDS)%nat ∧ NoDup l ∧ Forall command_ok l.

Lemma command_result v argv : validation_command v = Ok argv → command_ok argv.
Proof.
  unfold validation_command. rewrite result_bind_ok. intros (items & Hi & H).
  apply sequence_ok in Hi as [-> Hi]. rewrite seq_ok, raise_if_ok, more_ok in H.
  destruct H as [Hm H]. apply collect_strings in H as [-> H]. rewrite length_map in Hm.
  split; [by intros ->|done].
Qed.

Lemma command_id argv : command_ok argv → validation_command (jstrs argv) = Ok argv.
Proof.
  intros (Hn & Hm & H). unfold validation_command, jstrs.
  rewrite sequence_arr by (by apply map_not_nil). cbn [mbind result_bind].
  rewrite (proj2 (more_ok _ _)) by (by rewrite length_map). cbn [raise_if mbind result_bind].
  by apply collect_strings.
Qed.

Lemma commands_result v l : _validation_commands v = Ok l → commands_ok l.
Proof.
  unfold _validation_commands. rewrite result_bind_ok. intros (items & Hi & H).
  apply sequence_ok in Hi as [-> Hi]. rewrite seq_ok, raise_if_ok, more_ok, result_bind_ok in H.
  destruct H as (Hm & xs & Hx & H). rewrite seq_ok, duplicates_ok in H. destruct H as [Hn [= <-]].
  apply collect_ok in Hx.
  pose proof (Forall2_length _ _ _ Hx) as Hlen. split; [intros ->; by destruct items|].
  split; [lia|]. split; [done|]. clear -Hx.
  induction Hx as [|v argv items xs Hv _ IH]; constructor; [by eapply command_result|done].
Qed.

Lemma commands_id l : commands_ok l → _validation_commands (JArr (map jstrs l)) = Ok l.
Proof.
  intros (Hl & Hm & Hn & H). unfold _validation_commands.
  rewrite sequence_arr by (by apply map_not_nil). cbn [mbind result_bind].
  rewrite (proj2 (more_ok _ _)) by (by rewrite length_map). cbn [raise_if mbind result_bind].
  rewrite collect_id.
  - cbn [mbind result_bind]. by rewrite (proj2 (duplicates_ok l _) Hn).
  - eapply Forall_impl; [exact H|]. apply command_id.
Qed.

(** ** Well-formed tasks *)
Record task_ok (t : RunnerTask) : Prop := {
  ok_schema : rt_schema t = RUNNER_TASK_SCHEMA;
  ok_repo : _REPOSITORY_RE (rt_repo t) = true;
  ok_branch : _BRANCH_RE (rt_branch t) && safe_branch (rt_branch t) = true;
  ok_sha : sha_ok (rt_base_sha t);
  ok_kind : rt_task_kind t ∈ TASK_KINDS;
  ok_payload : payload_ok (rt_payload t);
  ok_capabilities : listed (λ s, s ∈? REQUESTED_CAPABILITIES) (rt_requested_capabilities t);
  ok_files : listed (λ s, _SAFE_PATH_RE s && safe_path s) (rt_allowed_files t);
  ok_forbidden : texts_ok (rt_forbidden_actions t);
  ok_commands : commands_ok (rt_validation_commands t);
  ok_timeout : 1 ≤ rt_validation_timeout_seconds t ≤ 3600;
  ok_output : texts_ok (rt_expected_output t);
  ok_privacy : rt_privacy_boundary t ∈ PRIVACY_BOUNDARIES;
  ok_approval : _TOKEN_RE (rt_approval_reference t) = true;
  ok_key : _TOKEN_RE (rt_idempotency_key t) = true
}.

Lemma exact_string_ok v f x s : _exact_string v f x = Ok s ↔ v = JStr x ∧ s = x.
Proof.
  destruct v; try (split; [discriminate|intros [? _]; discriminate]). cbn.
  rewrite seq_ok, raise_if_ok, negb_false_iff, bool_decide_eq_true. naive_solver.
Qed.

Lemma enum_ok v f allowed s : _enum_string v f allowed = Ok s ↔ v = JStr s ∧ s ∈ allowed.
Proof. unfold _enum_string. by rewrite string_with_ok, bool_decide_eq_true. Qed.

Lemma base_sha_ok v s : _base_sha v = Ok s → sha_ok s.
Proof.
  unfold _base_sha. rewrite result_bind_ok. intros (t & Ht & [= <-]).
  apply string_with_ok in Ht as [_ Ht]. by apply lower_sha.
Qed.

Lemma base_sha_id s : sha_ok s → _base_sha (JStr s) = Ok s.
Proof.
  intros [Hre Hid]%sha_ok_re. unfold _base_sha. rewrite string_with_str by done. cbn.
  by rewrite Hid.
Qed.

Lemma timeout_ok v z : _validation_timeout v = Ok z ↔ v = JInt z ∧ 1 ≤ z ≤ 3600.
Proof.
  destruct v as [| |w| | | |]; try (split; [discriminate|intros [? _]; discriminate]). cbn.
  rewrite seq_ok, raise_if_ok, orb_false_iff, !Z.ltb_ge.
  unfold MIN_VALIDATION_TIMEOUT_SECONDS, MAX_VALIDATION_TIMEOUT_SECONDS. naive_solver.
Qed.

Lemma from_mapping_ok v t : dicts_ok v → from_mapping v = Ok t → task_ok t.
Proof.
  intros Hd H. destruct v as [| | | | | |d]; try discriminate. unfold from_mapping in H.
  rewrite seq_ok in H. destruct H as [_ H]. inv_ok. subst t.
  repeat match goal with
  | Hr : _exact_string _ _ _ = Ok _ |- _ => apply exact_string_ok in Hr
  | Hr : _enum_string _ _ _ = Ok _ |- _ => apply enum_ok in Hr
  | Hr : _validation_timeout _ = Ok _ |- _ => apply timeout_ok in Hr
  | Hr : _safe_token _ _ = Ok _ |- _ => apply string_with_ok in Hr
  | Hr : _repository _ = Ok _ |- _ => apply string_with_ok in Hr
  | Hr : _branch _ = Ok _ |- _ => apply string_with_ok in Hr
  end.
  split; cbn [rt_schema rt_repo rt_branch rt_base_sha rt_task_kind rt_payload
    rt_requested_capabilities rt_allowed_files rt_forbidden_actions rt_validation_commands
    rt_validation_timeout_seconds rt_expected_output rt_privacy_boundary rt_approval_reference
    rt_idempotency_key]; try tauto.
  - by eapply base_sha_ok.
  - eapply payload_result; [|eassumption]. by apply field_dicts.
  - by eapply capabilities_listed.
  - by eapply allowed_files_listed.
  - by eapply bounded_texts_ok.
  - by eapply commands_result.
  - by eapply bounded_texts_ok.
Qed.

(** ** Reading a mapping back *)
Lemma task_keys t : (task_fields t).*1 = _REQUIRED_FIELDS.
Proof. done. Qed.

Lemma required_nodup : NoDup _REQUIRED_FIELDS.
Proof. by_decide. Qed.

Lemma check_fields_perm d : d.*1 ≡ₚ _REQUIRED_FIELDS → check_fields d = Ok tt.
Proof.
  intros Hp. unfold check_fields. rewrite seq_ok, !raise_if_ok, !existsb_false.
  split; intros k Hk; apply negb_false_iff, bool_decide_eq_true; [by rewrite <-Hp|by rewrite Hp].
Qed.

Lemma field_perm d t k v : d ≡ₚ task_fields t → (k, v) ∈ task_fields t → field d k = v.
Proof.
  intros Hp Hin. unfold field. rewrite (dict_get_nodup d k v); [done| |by rewrite Hp].
  rewrite Hp, task_keys. apply required_nodup.
Qed.

(** Membership in the literal list of fields. *)
Ltac task_field := solve [unfold task_fields; repeat first [left | right]].

Lemma from_mapping_perm d t : task_ok t → d ≡ₚ task_fields t → from_mapping (JObj d) = Ok t.
Proof.
  intros [] Hp. unfold from_mapping.
  rewrite check_fields_perm by (by rewrite Hp, task_keys). cbn [mbind result_bind].
  rewrite (field_perm d t "schema" (JStr (rt_schema t)) Hp) by task_field.
  rewrite (field_perm d t "repo" (JStr (rt_repo t)) Hp) by task_field.
  rewrite (field_perm d t "branch" (JStr (rt_branch t)) Hp) by task_field.
  rewrite (field_perm d t "base_sha" (JStr (rt_base_sha t)) Hp) by task_field.
  rewrite (field_perm d t "task_kind" (JStr (rt_task_kind t)) Hp) by task_field.
  rewrite (field_perm d t "payload" (rt_payload t) Hp) by task_field.
  rewrite (field_perm d t "requested_capabilities" (jstrs (rt_requested_capabilities t)) Hp)
    by task_field.
  rewrite (field_perm d t "allowed_files" (jstrs (rt_allowed_files t)) Hp) by task_field.
  rewrite (field_perm d t "forbidden_actions" (jstrs (rt_forbidden_actions t)) Hp) by task_field.
  rewrite (field_perm d t "validation_commands" (JArr (map jstrs (rt_validation_commands t))) Hp)
    by task_field.
  rewrite (field_perm d t "validation_timeout_seconds" (JInt (rt_validation_timeout_seconds t)) Hp)
    by task_field.
  rewrite (field_perm d t "expected_output" (jstrs (rt_expected_output t)) Hp) by task_field.
  rewrite (field_perm d t "privacy_boundary" (JStr (rt_privacy_boundary t)) Hp) by task_field.
  rewrite (field_perm d t "approval_reference" (JStr (rt_approval_reference t)) Hp) by task_field.
  rewrite (field_perm d t "idempotency_key" (JStr (rt_idempotency_key t)) Hp) by task_field.
  rewrite (proj2 (exact_string_ok (JStr (rt_schema t)) "schema" RUNNER_TASK_SCHEMA _))
    by (by rewrite ok_schema0).
  unfold _repository, _branch, _safe_token. rewrite !string_with_str by done.
  rewrite base_sha_id by done.
  rewrite (proj2 (enum_ok (JStr (rt_task_kind t)) "task_kind" TASK_KINDS _)) by done.
  unfold _payload. rewrite payload_id, capabilities_id, allowed_files_id, commands_id, !bounded_texts_id by done.
  rewrite (proj2 (timeout_ok (JInt (rt_validation_timeout_seconds t)) _)) by done.
  rewrite (proj2 (enum_ok (JStr (rt_privacy_boundary t)) "privacy_boundary" PRIVACY_BOUNDARIES _))
    by done.
  cbn [mbind result_bind]. f_equal. by destruct t.
Qed.

(** ** The text of a task *)
Lemma task_dicts d t : task_ok t → d ≡ₚ task_fields t → dicts_ok (JObj d).
Proof.
  intros Ht Hp. apply dicts_ok_obj. split; [rewrite Hp, task_keys; apply required_nodup|].
  rewrite Hp. assert (∀ l, dicts_ok (jstrs l)) as Hs.
  { intros l. apply dicts_ok_arr, Forall_fmap, Forall_true. exact (λ _, I). }
  repeat (apply Forall_cons; split; cbn [snd]; auto); try done.
  - eapply frozen_dicts. apply Ht.
  - apply dicts_ok_arr, Forall_fmap, Forall_true. exact Hs.
Qed.

Lemma task_sorted t : task_ok t →
  sort_keys (to_mapping t) = JObj (sort_by (λ a b, str_leb a.1 b.1) (task_fields t)).
Proof.
  intros Ht. cbn [sort_keys to_mapping]. do 2 f_equal. apply map_same.
  repeat (apply Forall_cons; split; cbn [fst snd]); try (done || by rewrite sort_keys_jstrs).
  - by rewrite (frozen_sorted _ _ _ (po_frozen _ _ (ok_payload _ Ht))).
  - f_equal. cbn [sort_keys]. f_equal. apply map_same. apply Forall_fmap. apply Forall_true.
    apply sort_keys_jstrs.
Qed.

Lemma timeout_short z : 1 ≤ z ≤ 3600 → too_long z = false.
Proof.
  intros Hz. assert (forallb (λ z, negb (too_long z)) (seqZ 1 3600) = true) as H
    by (vm_compute; reflexivity).
  rewrite forallb_elem in H. apply negb_true_iff, H, elem_of_seqZ. lia.
Qed.

Lemma ints_jstrs l : json_ints (jstrs l) = [].
Proof. unfold jstrs. cbn. by induction l. Qed.

Lemma ints_obj_perm l l' : l ≡ₚ l' → json_ints (JObj l) ≡ₚ json_ints (JObj l').
Proof. intros H. cbn. rewrite <-!flat_map_concat_map. by rewrite H. Qed.

Lemma task_ints t : task_ok t → existsb too_long (json_ints (to_mapping t)) = false.
Proof.
  intros Ht. unfold to_mapping, task_fields.
  assert (json_ints (JArr (map jstrs (rt_validation_commands t))) = []) as Hc.
  { cbn. induction (rt_validation_commands t) as [|l ls IH]; [done|]. cbn [map concat].
    by rewrite ints_jstrs, IH. }
  cbn [json_ints map concat snd]. rewrite !ints_jstrs. cbn [json_ints] in Hc. rewrite Hc.
  cbn [app]. rewrite existsb_app, (po_ints _ _ (ok_payload _ Ht)). cbn.
  by rewrite timeout_short by apply Ht.
Qed.

Lemma task_text_wf t : json_wf (rt_payload t) → json_wf (to_mapping t).
Proof.
  intros Hp. apply json_wf_obj.
  repeat (apply Forall_cons; split; cbn [fst snd]); try (done || by apply json_wf_jstrs).
  apply json_wf_arr, Forall_fmap, Forall_true. apply json_wf_jstrs.
Qed.

(** ** Properties *)

Lemma task_read t s : task_ok t → json_wf (rt_payload t) → to_json t = Ok s → from_json s = Ok t.
Proof.
  intros Ht Hp Hs. unfold to_json, canonical_json in Hs. rewrite (task_ints t Ht) in Hs.
  injection Hs as <-. unfold from_json, dumps_canonical.
  rewrite loads_dumps_compact by (by apply json_wf_sort_keys, task_text_wf).
  rewrite (task_sorted t Ht). set (d := sort_by _ _).
  assert (d ≡ₚ task_fields t) as Hd by apply sort_by_perm.
  replace (existsb too_long (json_ints (JObj d))) with false.
  - cbn [raise_if mbind result_bind]. rewrite to_dicts_id by (by eapply task_dicts).
    by apply from_mapping_perm.
  - symmetry. pose proof (task_ints t Ht) as Hi. apply existsb_false. intros z Hz.
    rewrite existsb_false in Hi. apply Hi. unfold to_mapping. by rewrite <-(ints_obj_perm _ _ Hd).
Qed.

Lemma task_written t : task_ok t → is_Some (match to_json t with Ok s => Some s | _ => None end).
Proof. intros Ht. unfold to_json, canonical_json. rewrite (task_ints t Ht). by eexists. Qed.

(** C26. A task survives its text: a well-formed task is written as canonical JSON
    that [from_json] reads as the same task, so two tasks with the same text, and
    up to collisions two tasks with the same hash, are one task.  (Its payload
    holds floats the model has a text for.) *)
Theorem task_roundtrip t :
  task_ok t → json_wf (rt_payload t) →
  ∃ s, to_json t = Ok s ∧ from_json s = Ok t ∧
    ∀ t', task_ok t' → json_wf (rt_payload t') → to_json t' = Ok s → t' = t.
Proof.
  intros Ht Hp. destruct (task_written t Ht) as [s Hs].
  destruct (to_json t) as [s'|] eqn:E; [|done]. injection Hs as ->. exists s.
  split; [done|]. assert (from_json s = Ok t) as Hr by (by apply task_read).
  split; [done|]. intros t' Ht' Hp' E'. apply task_read in E'; [|done..]. congruence.
Qed.

(** ** Witnesses *)
Definition demo_task : RunnerTask := {|
  rt_schema := RUNNER_TASK_SCHEMA; rt_repo := "alanua/Skeleton"; rt_branch := "main";
  rt_base_sha := "0123456789abcdef0123456789abcdef01234567"; rt_task_kind := "code_edit";
  rt_payload := JObj [("attempts", JInt 2); ("notes", JArr [JStr "a"; JNull])];
  rt_requested_capabilities :=
    ["repository_read"; "repository_write_allowlisted"; "test_execution"];
  rt_allowed_files := ["README.md"; "docs/a.md"]; rt_forbidden_actions := ["merge"];
  rt_validation_commands := [["pytest"; "-q"]]; rt_validation_timeout_seconds := 60;
  rt_expected_output := ["a draft"]; rt_privacy_boundary := "PUBLIC_SAFE_REPOSITORY_ONLY";
  rt_approval_reference := "approval-1"; rt_idempotency_key := "key-1" |}.

Lemma demo_task_ok : task_ok demo_task.
Proof.
  apply (from_mapping_ok (to_mapping demo_task)).
  - apply dicts_ok_obj. split; [by_decide|]. repeat constructor; by_decide.
  - vm_compute. reflexivity.
Qed.

Lemma task_roundtrip_witness :
  ∃ s, to_json demo_task = Ok s ∧ from_json s = Ok demo_task ∧
    ∀ t', task_ok t' → json_wf (rt_payload t') → to_json t' = Ok s → t' = demo_task.
Proof. apply (task_roundtrip demo_task); [exact demo_task_ok|vm_compute; tauto]. Defined.
