(* ===== verification/Contracts.v ===== *)
(** * Policy contracts

    [src/core/runner_vnext_contracts.py]: the effect, privacy and
    reversibility classes, the typed task and operation, and
    [classify_policy], the decision every later stage rests on. *)

From S2P Require Import Prelude.
From S2P Require Import PyStr.

(** ** Classes *)
Inductive EffectClass := GREEN | YELLOW | RED.
Inductive PrivacyClass := PUBLIC_SAFE | PRIVATE.
Inductive Reversibility := REVERSIBLE | BOUNDED_REVERSIBLE | IRREVERSIBLE.

#[global] Instance EffectClass_eq_dec : EqDecision EffectClass.
Proof. solve_decision. Defined.
#[global] Instance PrivacyClass_eq_dec : EqDecision PrivacyClass.
Proof. solve_decision. Defined.
#[global] Instance Reversibility_eq_dec : EqDecision Reversibility.
Proof. solve_decision. Defined.

Definition effect_value (e : EffectClass) : string :=
  match e with GREEN => "GREEN" | YELLOW => "YELLOW" | RED => "RED" end.
Definition privacy_value (p : PrivacyClass) : string :=
  match p with PUBLIC_SAFE => "PUBLIC_SAFE" | PRIVATE => "PRIVATE" end.

Lemma effect_value_inj a b : effect_value a = effect_value b → a = b.
Proof. by destruct a, b. Qed.
Lemma privacy_value_inj a b : privacy_value a = privacy_value b → a = b.
Proof. by destruct a, b. Qed.

(** ** Effects and resources *)
Definition GREEN_EFFECTS : gset string := list_to_set [
  "read"; "workspace_write"; "branch_commit_push"; "draft_pr_open"; "test";
  "validate"; "bounded_service_restart"; "artifact_transform"; "private_compute";
  "mailbox_label_sort"; "workspace_bind"].
Definition YELLOW_EFFECTS : gset string := list_to_set [
  "protected_edit"; "privileged_maintenance"; "service_configuration";
  "control_plane_change"; "external_send"].
Definition RED_EFFECTS : gset string := list_to_set [
  "protected_merge"; "deploy"; "runtime_activation"; "secret_export";
  "secret_rotation"; "firmware_flash"; "ota"; "destructive_storage";
  "destructive_account"; "financial_commitment"; "legal_commitment"].
Definition ORDINARY_OPERATION_KINDS : gset string := GREEN_EFFECTS.
Definition STATE_BOUND_MUTATION_KINDS : gset string := list_to_set [
  "workspace_write"; "branch_commit_push"; "draft_pr_open"; "bounded_service_restart";
  "artifact_transform"; "mailbox_label_sort"; "workspace_bind"].
Definition RED_RESOURCE_PREFIXES : list string :=
  ["secret:"; "deploy:"; "firmware:"; "finance:"; "legal:"].
Definition YELLOW_RESOURCE_PREFIXES : list string :=
  ["protected:"; "control:"; "service-config:"].

(** ** Tasks and operations *)
Record UniversalTask := {
  task_id : string;
  task_intent : string;
  task_domain : string;
  target_resources : list string;
  task_required_capabilities : list string;
  task_privacy : PrivacyClass;
  task_reversibility : Reversibility;
  expected_effects : list string;
  task_validation : list string;
  task_rollback : list string;
  task_idempotency_key : string;
  task_operator_boundary_evidence : list string
}.

Record OperationIR := {
  op_operation_id : string;
  op_kind : string;
  op_resources : list string;
  op_effects : list string;
  op_idempotency_key : string
}.

#[global] Instance OperationIR_eq_dec : EqDecision OperationIR.
Proof. solve_decision. Defined.

(** The constructor runs [__post_init__]. *)
Definition new_OperationIR (operation_id kind : string) (resources effects : list string)
    (idempotency_key : string) : result OperationIR :=
  raise_if (kind ∉? ORDINARY_OPERATION_KINDS)
    (ValueError "ORDINARY_OPERATION_KIND_REQUIRED");;
  Ok {| op_operation_id := operation_id; op_kind := kind; op_resources := resources;
        op_effects := effects; op_idempotency_key := idempotency_key |}.

Record PolicyInput := {
  pi_operation : OperationIR;
  pi_reversibility : Reversibility;
  pi_privacy : PrivacyClass;
  pi_target_state_ref : option string;
  pi_operator_boundary_evidence : list string
}.

Record PolicyDecision := {
  pd_effect_class : EffectClass;
  pd_reason_code : string;
  pd_separate_privileged_pep_required : bool
}.

#[global] Instance PolicyDecision_eq_dec : EqDecision PolicyDecision.
Proof. solve_decision. Defined.

Definition decision (c : EffectClass) (r : string) (pep : bool) : PolicyDecision :=
  {| pd_effect_class := c; pd_reason_code := r; pd_separate_privileged_pep_required := pep |}.

(** ** The policy decision *)
Definition any_prefixed (prefixes : list string) (resources : list string) : bool :=
  existsb (startswith_any prefixes) resources.

Definition classify_policy (policy_input : PolicyInput) : PolicyDecision :=
  let op := pi_operation policy_input in
  let effects : gset string := list_to_set (op_effects op) in
  let resources := op_resources op in
  if (effects == ∅) || (effects ∖ (GREEN_EFFECTS ∪ YELLOW_EFFECTS ∪ RED_EFFECTS) != ∅)
  then decision YELLOW "UNRECOGNIZED_EFFECT_FAIL_CLOSED" true
  else if pi_reversibility policy_input == IRREVERSIBLE
  then decision RED "IRREVERSIBLE_EFFECT_BOUNDARY" true
  else if (effects ∩ RED_EFFECTS != ∅) || any_prefixed RED_RESOURCE_PREFIXES resources
  then decision RED "RED_EFFECT_BOUNDARY" true
  else if (effects ∩ YELLOW_EFFECTS != ∅) || any_prefixed YELLOW_RESOURCE_PREFIXES resources
  then decision YELLOW "YELLOW_EFFECT_BOUNDARY" true
  else if (op_kind op ∈? STATE_BOUND_MUTATION_KINDS)
          && opt_falsy (pi_target_state_ref policy_input)
  then decision YELLOW "TARGET_STATE_EVIDENCE_REQUIRED" true
  else decision GREEN "GREEN_AUTONOMOUS_TYPED_EFFECT" false.

(** ** Lemmas *)
Lemma list_to_set_empty_iff (l : list string) :
  (list_to_set l : gset string) = ∅ ↔ l = [].
Proof.
  split; [|by intros ->]. destruct l as [|x l]; [done|]. simpl. intros H.
  assert (x ∈ (∅ : gset string)) by (rewrite <-H; set_solver). set_solver.
Qed.

Definition rank (c : EffectClass) : Z :=
  match c with GREEN => 0 | YELLOW => 1 | RED => 2 end.

Lemma list_difference_empty (l : list string) (X : gset string) :
  list_to_set l ∖ X = ∅ ↔ ∀ e, e ∈ l → e ∈ X.
Proof.
  split.
  - intros E e He. destruct (decide (e ∈ X)) as [|HX]; [done|].
    assert (e ∈ (∅ : gset string)); [|set_solver].
    rewrite <-E. apply elem_of_difference. by rewrite elem_of_list_to_set.
  - intros H. apply set_eq. intros e.
    rewrite elem_of_difference, elem_of_list_to_set. set_solver.
Qed.

Lemma list_intersection_empty (l : list string) (X : gset string) :
  list_to_set l ∩ X = ∅ ↔ ¬ ∃ e, e ∈ l ∧ e ∈ X.
Proof.
  rewrite <-disjoint_intersection_L, elem_of_disjoint.
  setoid_rewrite elem_of_list_to_set.
  split; [intros H (e & ? & ?); by apply (H e)|intros H e ??; apply H; eauto].
Qed.

(** What an operation must satisfy to be classified GREEN. *)
Definition green_conditions (p : PolicyInput) : Prop :=
  let op := pi_operation p in
  op_effects op ≠ [] ∧
  (∀ e, e ∈ op_effects op → e ∈ GREEN_EFFECTS) ∧
  pi_reversibility p ≠ IRREVERSIBLE ∧
  (∀ r, r ∈ op_resources op →
    startswith_any (RED_RESOURCE_PREFIXES ++ YELLOW_RESOURCE_PREFIXES) r = false) ∧
  (op_kind op ∈ STATE_BOUND_MUTATION_KINDS → opt_falsy (pi_target_state_ref p) = false).

Lemma any_prefixed_false ps rs :
  any_prefixed ps rs = false ↔ ∀ r, r ∈ rs → startswith_any ps r = false.
Proof.
  unfold any_prefixed. induction rs as [|r rs IH]; simpl; [set_solver|].
  rewrite orb_false_iff, IH. split; [|set_solver].
  intros [??] r' [->|?]%elem_of_cons; auto.
Qed.

Lemma startswith_any_app ps qs r :
  startswith_any (ps ++ qs) r = startswith_any ps r || startswith_any qs r.
Proof. apply existsb_app. Qed.

Lemma effect_classes_disjoint :
  GREEN_EFFECTS ## YELLOW_EFFECTS ∧ GREEN_EFFECTS ## RED_EFFECTS ∧
  YELLOW_EFFECTS ## RED_EFFECTS.
Proof. split_and!; apply disjoint_intersection_L; vm_compute; reflexivity. Qed.

#[global] Opaque GREEN_EFFECTS YELLOW_EFFECTS RED_EFFECTS STATE_BOUND_MUTATION_KINDS.

(** The tests of [classify_policy], in terms of the operation's effects. *)
Definition recognized (p : PolicyInput) : Prop :=
  ∀ e, e ∈ op_effects (pi_operation p) →
    e ∈ GREEN_EFFECTS ∪ YELLOW_EFFECTS ∪ RED_EFFECTS.

Definition has_effect (X : gset string) (p : PolicyInput) : Prop :=
  Exists (λ e, e ∈ X) (op_effects (pi_operation p)).

Lemma unrecognized_test p :
  (list_to_set (op_effects (pi_operation p)) == (∅ : gset string))
  || (list_to_set (op_effects (pi_operation p))
        ∖ (GREEN_EFFECTS ∪ YELLOW_EFFECTS ∪ RED_EFFECTS) != ∅) = false
  ↔ op_effects (pi_operation p) ≠ [] ∧ recognized p.
Proof.
  rewrite orb_false_iff, negb_false_iff, bool_decide_eq_false, bool_decide_eq_true.
  by rewrite list_to_set_empty_iff, list_difference_empty.
Qed.

Lemma effect_test X p :
  (list_to_set (op_effects (pi_operation p)) ∩ X != (∅ : gset string)) = false
  ↔ ¬ has_effect X p.
Proof.
  unfold has_effect. rewrite Exists_exists.
  by rewrite negb_false_iff, bool_decide_eq_true, list_intersection_empty.
Qed.

Definition known_effects (p : PolicyInput) : Prop :=
  op_effects (pi_operation p) ≠ [] ∧ recognized p.
Definition red_boundary (p : PolicyInput) : Prop :=
  has_effect RED_EFFECTS p ∨
  any_prefixed RED_RESOURCE_PREFIXES (op_resources (pi_operation p)) = true.
Definition yellow_boundary (p : PolicyInput) : Prop :=
  has_effect YELLOW_EFFECTS p ∨
  any_prefixed YELLOW_RESOURCE_PREFIXES (op_resources (pi_operation p)) = true.
Definition state_unbound (p : PolicyInput) : Prop :=
  op_kind (pi_operation p) ∈ STATE_BOUND_MUTATION_KINDS ∧
  opt_falsy (pi_target_state_ref p) = true.

(** The decision table as rules: each rule names the conditions under which its
    decision is the one taken. *)
Inductive policy_rule (p : PolicyInput) : PolicyDecision → Prop :=
  | rule_unrecognized :
      ¬ known_effects p →
      policy_rule p (decision YELLOW "UNRECOGNIZED_EFFECT_FAIL_CLOSED" true)
  | rule_irreversible :
      known_effects p → pi_reversibility p = IRREVERSIBLE →
      policy_rule p (decision RED "IRREVERSIBLE_EFFECT_BOUNDARY" true)
  | rule_red :
      known_effects p → pi_reversibility p ≠ IRREVERSIBLE → red_boundary p →
      policy_rule p (decision RED "RED_EFFECT_BOUNDARY" true)
  | rule_yellow :
      known_effects p → pi_reversibility p ≠ IRREVERSIBLE → ¬ red_boundary p →
      yellow_boundary p →
      policy_rule p (decision YELLOW "YELLOW_EFFECT_BOUNDARY" true)
  | rule_target_state :
      known_effects p → pi_reversibility p ≠ IRREVERSIBLE → ¬ red_boundary p →
      ¬ yellow_boundary p → state_unbound p →
      policy_rule p (decision YELLOW "TARGET_STATE_EVIDENCE_REQUIRED" true)
  | rule_green :
      known_effects p → pi_reversibility p ≠ IRREVERSIBLE → ¬ red_boundary p →
      ¬ yellow_boundary p → ¬ state_unbound p →
      policy_rule p (decision GREEN "GREEN_AUTONOMOUS_TYPED_EFFECT" false).

Lemma boundary_test X ps p (b := (list_to_set (op_effects (pi_operation p)) ∩ X
    != (∅ : gset string)) || any_prefixed ps (op_resources (pi_operation p))) :
  if b then has_effect X p ∨ any_prefixed ps (op_resources (pi_operation p)) = true
  else ¬ (has_effect X p ∨ any_prefixed ps (op_resources (pi_operation p)) = true).
Proof.
  subst b. destruct (_ != _) eqn:E; simpl.
  - left. apply dec_stable. intros H. apply effect_test in H. congruence.
  - apply effect_test in E. destruct (any_prefixed _ _); [by right|naive_solver].
Qed.

Lemma classify_policy_rule p : policy_rule p (classify_policy p).
Proof.
  unfold classify_policy.
  destruct (_ || (_ ∖ _ != _)) eqn:E1.
  { apply rule_unrecognized. intros H%unrecognized_test. congruence. }
  apply unrecognized_test in E1.
  case_bool_decide as Hr; [by apply rule_irreversible|].
  pose proof (boundary_test RED_EFFECTS RED_RESOURCE_PREFIXES p) as H2.
  destruct (_ || any_prefixed RED_RESOURCE_PREFIXES _); [by apply rule_red|].
  pose proof (boundary_test YELLOW_EFFECTS YELLOW_RESOURCE_PREFIXES p) as H3.
  destruct (_ || any_prefixed YELLOW_RESOURCE_PREFIXES _); [by apply rule_yellow|].
  case_bool_decide as Hk; simpl.
  - destruct (opt_falsy _) eqn:E4.
    + apply rule_target_state; try assumption. by split.
    + apply rule_green; try assumption. intros [_ ?]. congruence.
  - apply rule_green; try assumption. intros [? _]. contradiction.
Qed.

(** The rules do not overlap: the table is a function. *)
Lemma policy_rule_det p d1 d2 : policy_rule p d1 → policy_rule p d2 → d1 = d2.
Proof. destruct 1; destruct 1; done. Qed.

Lemma classify_policy_iff p d : classify_policy p = d ↔ policy_rule p d.
Proof.
  split; [intros <-; apply classify_policy_rule|].
  apply policy_rule_det, classify_policy_rule.
Qed.

(** ** Properties *)

Lemma green_conditions_iff p :
  green_conditions p ↔
  known_effects p ∧ pi_reversibility p ≠ IRREVERSIBLE ∧ ¬ red_boundary p ∧
  ¬ yellow_boundary p ∧ ¬ state_unbound p.
Proof.
  destruct effect_classes_disjoint as (Hgy & Hgr & _).
  unfold green_conditions, known_effects, recognized, red_boundary, yellow_boundary,
    has_effect, state_unbound.
  setoid_rewrite startswith_any_app. setoid_rewrite orb_false_iff.
  rewrite !Exists_exists.
  split.
  - intros (Hne & Hg & Hrev & Hres & Hst).
    assert (Hr := proj2 (any_prefixed_false RED_RESOURCE_PREFIXES _) (λ r Hr, proj1 (Hres r Hr))).
    assert (Hy := proj2 (any_prefixed_false YELLOW_RESOURCE_PREFIXES _) (λ r Hr, proj2 (Hres r Hr))).
    rewrite Hr, Hy. repeat split; try assumption.
    + intros e He. apply elem_of_union. left. apply elem_of_union. left. auto.
    + intros [(e & He & HR)|?]; [|discriminate]. by apply (Hgr e); [apply Hg|].
    + intros [(e & He & HR)|?]; [|discriminate]. by apply (Hgy e); [apply Hg|].
    + intros [Hk Ht]. rewrite Hst in Ht by assumption. discriminate.
  - intros ((Hne & Hrec) & Hrev & Hr & Hy & Hst).
    assert (Hr' := any_prefixed_false RED_RESOURCE_PREFIXES (op_resources (pi_operation p))).
    assert (Hy' := any_prefixed_false YELLOW_RESOURCE_PREFIXES (op_resources (pi_operation p))).
    repeat split; try assumption.
    + intros e He.
      pose proof (Hrec e He) as [[?|?]%elem_of_union|?]%elem_of_union; [assumption|..];
        exfalso; [apply Hy|apply Hr]; left; eauto.
    + apply Hr'; [|assumption]. apply not_true_is_false. intros E. apply Hr. by right.
    + apply Hy'; [|assumption]. apply not_true_is_false. intros E. apply Hy. by right.
    + intros Hk. apply not_true_is_false. intros E. apply Hst. by split.
Qed.

Lemma classify_green_conditions p :
  pd_effect_class (classify_policy p) = GREEN ↔ green_conditions p.
Proof.
  rewrite green_conditions_iff.
  destruct (classify_policy_rule p);
    (split; [intros E|intros (? & ? & ? & ? & ?)]);
    try discriminate; try contradiction; try reflexivity; tauto.
Qed.

Lemma classify_pep p :
  pd_separate_privileged_pep_required (classify_policy p)
    = negb (pd_effect_class (classify_policy p) == GREEN).
Proof. by destruct (classify_policy_rule p). Qed.

(** Fail closed: an operation is classified GREEN exactly when it names at
    least one effect, every effect is a GREEN one, it is not irreversible, no
    resource carries a RED or YELLOW prefix, and a state-bound kind names its
    target state; every other operation is sent to the privileged path. *)
Theorem classify_green_iff p :
  (pd_effect_class (classify_policy p) = GREEN ↔ green_conditions p) ∧
  pd_separate_privileged_pep_required (classify_policy p)
    = negb (pd_effect_class (classify_policy p) == GREEN).
Proof. split; [apply classify_green_conditions|apply classify_pep]. Qed.

Definition with_effects (p : PolicyInput) (es : list string) : PolicyInput :=
  let op := pi_operation p in
  {| pi_operation := {| op_operation_id := op_operation_id op; op_kind := op_kind op;
       op_resources := op_resources op; op_effects := es;
       op_idempotency_key := op_idempotency_key op |};
     pi_reversibility := pi_reversibility p; pi_privacy := pi_privacy p;
     pi_target_state_ref := pi_target_state_ref p;
     pi_operator_boundary_evidence := pi_operator_boundary_evidence p |}.

(** Declaring more recognised effects never lowers the class: adding
    effects to a non-empty, recognised list yields a class at least as strict. *)
Theorem classify_monotone p es :
  op_effects (pi_operation p) ≠ [] →
  op_effects (pi_operation p) ⊆ es →
  (∀ e, e ∈ es → e ∈ GREEN_EFFECTS ∪ YELLOW_EFFECTS ∪ RED_EFFECTS) →
  rank (pd_effect_class (classify_policy p))
  ≤ rank (pd_effect_class (classify_policy (with_effects p es))).
Proof.
  intros Hne Hsub Hrec.
  assert (Hk : known_effects p) by (split; [done|]; intros e He; by apply Hrec, Hsub).
  assert (Hk' : known_effects (with_effects p es)).
  { split; [|done]. simpl. intros ->. destruct (op_effects _); [done|set_solver]. }
  assert (Hmono : ∀ X, has_effect X p → has_effect X (with_effects p es)).
  { unfold has_effect. intros X. rewrite !Exists_exists. naive_solver. }
  pose proof (Hmono RED_EFFECTS). pose proof (Hmono YELLOW_EFFECTS).
  assert (Hr : red_boundary p → red_boundary (with_effects p es)) by (unfold red_boundary; naive_solver).
  assert (Hy : yellow_boundary p → yellow_boundary (with_effects p es)) by (unfold yellow_boundary; naive_solver).
  destruct (classify_policy_rule p), (classify_policy_rule (with_effects p es));
    simpl; try lia; exfalso; unfold state_unbound in *; simpl in *; tauto.
Qed.

(** Adding a RED effect to a GREEN operation. *)
Definition demo_input : PolicyInput :=
  {| pi_operation := {| op_operation_id := "op:1"; op_kind := "read"; op_resources := ["repo:a"];
       op_effects := ["read"]; op_idempotency_key := "key:1" |};
     pi_reversibility := REVERSIBLE; pi_privacy := PUBLIC_SAFE; pi_target_state_ref := None;
     pi_operator_boundary_evidence := [] |}.

Lemma classify_monotone_witness :
  rank (pd_effect_class (classify_policy demo_input)) = 0 ∧
  rank (pd_effect_class (classify_policy demo_input)) ≤
  rank (pd_effect_class (classify_policy (with_effects demo_input ["read"; "deploy"]))).
Proof.
  split; [vm_compute; reflexivity|]. apply (classify_monotone demo_input ["read"; "deploy"]).
  - discriminate.
  - intros e He. apply elem_of_cons in He as [->|He%not_elem_of_nil]; [left|destruct He].
  - intros e He. apply (bool_decide_unpack _).
    repeat (apply elem_of_cons in He as [->|He]; [vm_compute; exact I|]).
    destruct (not_elem_of_nil _ He).
Defined.

(** Why the monotonicity asks for recognised effects: an unrecognised effect
    next to a RED one is classified YELLOW. *)
Example unrecognized_lowers_red :
  pd_effect_class (classify_policy (with_effects demo_input ["deploy"])) = RED ∧
  pd_effect_class (classify_policy (with_effects demo_input ["deploy"; "teleport"])) = YELLOW.
Proof. split; vm_compute; reflexivity. Qed.
