(* ===== verification/Leases.v ===== *)
(** * Lane leases

    [src/core/runner_vnext_leases.py] and [runner_vnext_scheduler.py]: the
    SQLite store of lane ownership.  The two tables are maps keyed by
    [(lane, scope_key)] (their primary key); the injected clock is a function
    from the number of readings taken so far to a time in microseconds, which
    the store counts.  Each operation body runs in one [BEGIN IMMEDIATE]
    transaction, so it is one atomic step of any interleaving. *)

From S2P Require Import Prelude.
From S2P Require Import PyStr.
From S2P Require Import Json.

(** ** Lanes *)
Inductive Lane := CODEGEN | VALIDATE | PUBLISH | MERGE | CONTROL | PRIVILEGED.

#[global] Instance Lane_eq_dec : EqDecision Lane.
Proof. solve_decision. Defined.

Definition lane_value (l : Lane) : string :=
  match l with
  | CODEGEN => "codegen" | VALIDATE => "validate" | PUBLISH => "publish"
  | MERGE => "merge" | CONTROL => "control" | PRIVILEGED => "privileged"
  end.

(** [Lane(value)] *)
Definition lane_of_value (v : string) : result Lane :=
  if v == "codegen" then Ok CODEGEN
  else if v == "validate" then Ok VALIDATE
  else if v == "publish" then Ok PUBLISH
  else if v == "merge" then Ok MERGE
  else if v == "control" then Ok CONTROL
  else if v == "privileged" then Ok PRIVILEGED
  else Raise (ValueError "is not a valid Lane").

Lemma lane_of_value_lane l : lane_of_value (lane_value l) = Ok l.
Proof. by destruct l. Qed.

Lemma lane_value_of_lane v l : lane_of_value v = Ok l → v = lane_value l.
Proof.
  unfold lane_of_value. intros H.
  repeat (case_bool_decide; [by simplify_eq|]). discriminate.
Qed.

#[global] Instance Lane_countable : Countable Lane.
Proof.
  apply (inj_countable lane_value
    (λ v, match lane_of_value v with Ok l => Some l | Raise _ => None end)).
  intros l. by rewrite lane_of_value_lane.
Defined.

(** ** Rows and receipts *)
Record LaneLease := {
  lease_task_id : string;
  lease_lane : Lane;
  lease_owner : string;
  lease_fence_token : Z;
  acquired_at : Z;
  heartbeat_at : Z;
  ttl_seconds : Z;
  lease_target_state_ref : option string;
  lease_scope_key : string
}.

Definition expired (l : LaneLease) (now : Z) : bool := heartbeat_at l + ttl_seconds l <=? now.

Record LeaseReceipt := {
  receipt_status : string;
  receipt_reason_code : string;
  receipt_task_id : string;
  receipt_lane : Lane;
  receipt_scope_key : string;
  receipt_fence_token : Z
}.

Abbreviation lease_key := (Lane * string)%type.

Record LaneLeaseStore := {
  lane_fences : gmap lease_key Z;
  lane_leases : gmap lease_key LaneLease;
  clock_readings : nat
}.

Definition set_fences (f : gmap lease_key Z → gmap lease_key Z) (s : LaneLeaseStore) : LaneLeaseStore :=
  {| lane_fences := f (lane_fences s); lane_leases := lane_leases s;
     clock_readings := clock_readings s |}.
Definition set_leases (f : gmap lease_key LaneLease → gmap lease_key LaneLease)
    (s : LaneLeaseStore) : LaneLeaseStore :=
  {| lane_fences := lane_fences s; lane_leases := f (lane_leases s);
     clock_readings := clock_readings s |}.

Definition empty_lease_store : LaneLeaseStore :=
  {| lane_fences := ∅; lane_leases := ∅; clock_readings := 0 |}.

Section store.
Context (clock : nat → Z).

(** [self._clock()] *)
Definition read_clock : M LaneLeaseStore Z := λ s,
  (Ok (clock (clock_readings s)),
   {| lane_fences := lane_fences s; lane_leases := lane_leases s;
      clock_readings := S (clock_readings s) |}).

(** [SELECT * FROM runner_vnext_lane_leases WHERE lane = ? AND scope_key = ?] *)
Definition _row (lane : Lane) (scope_key : string) : M LaneLeaseStore (option LaneLease) :=
  gets (λ s, lane_leases s !! (lane, scope_key)).

Definition _next_fence (lane : Lane) (scope_key : string) : M LaneLeaseStore Z :=
  row ← gets (λ s, lane_fences s !! (lane, scope_key));
  let fence := default 0 row + 1 in
  fence ← lift (sqlite_int fence);
  modify (set_fences <[(lane, scope_key) := fence]>);;
  mret fence.

(** The end of [acquire]: a new fence, and the row replaced by
    [INSERT ... ON CONFLICT(lane,scope_key) DO UPDATE]. *)
Definition take_lease (task_id : string) (lane : Lane) (owner scope_key : string)
    (ttl : Z) (target_state_ref : option string) (now : Z) (reason : string)
    : M LaneLeaseStore LeaseReceipt :=
  fence ← _next_fence lane scope_key;
  modify (set_leases <[(lane, scope_key) :=
    {| lease_task_id := task_id; lease_lane := lane; lease_owner := owner;
       lease_fence_token := fence; acquired_at := now; heartbeat_at := now;
       ttl_seconds := ttl; lease_target_state_ref := target_state_ref;
       lease_scope_key := scope_key |}]>);;
  mret {| receipt_status := "ACQUIRED"; receipt_reason_code := reason;
          receipt_task_id := task_id; receipt_lane := lane;
          receipt_scope_key := scope_key; receipt_fence_token := fence |}.

Definition acquire (task_id : string) (lane : Lane) (owner scope_key : string)
    (ttl : Z) (target_state_ref : option string) : M LaneLeaseStore LeaseReceipt :=
  lift (raise_if (ttl <=? 0) (LeaseError "INVALID_LEASE_TTL"));;
  now ← read_clock;
  transaction (
    current ← _row lane scope_key;
    match current with
    | Some c =>
        if negb (expired c now) then
          if (lease_task_id c == task_id) && (lease_owner c == owner) then
            lift (raise_if (lease_target_state_ref c != target_state_ref)
              (LeaseError "LEASE_TARGET_STATE_MISMATCH"));;
            mret {| receipt_status := "ALREADY_HELD"; receipt_reason_code := "LEASE_ALREADY_HELD";
                    receipt_task_id := task_id; receipt_lane := lane;
                    receipt_scope_key := scope_key;
                    receipt_fence_token := lease_fence_token c |}
          else raise (LeaseError "LEASE_CONFLICT_ACTIVE_OWNER")
        else take_lease task_id lane owner scope_key ttl target_state_ref now "STALE_LEASE_RECLAIMED"
    | None => take_lease task_id lane owner scope_key ttl target_state_ref now "LEASE_ACQUIRED"
    end).

(** The checks [heartbeat] and [release] share, in the code's order. *)
Definition check_holder (c : LaneLease) (owner : string) (fence_token now : Z) : result unit :=
  raise_if (lease_fence_token c != fence_token) (LeaseError "STALE_FENCE_TOKEN");;
  raise_if (lease_owner c != owner) (LeaseError "LEASE_OWNER_MISMATCH");;
  raise_if (expired c now) (LeaseError "LEASE_EXPIRED").

Definition with_heartbeat (now : Z) (c : LaneLease) : LaneLease :=
  {| lease_task_id := lease_task_id c; lease_lane := lease_lane c;
     lease_owner := lease_owner c; lease_fence_token := lease_fence_token c;
     acquired_at := acquired_at c; heartbeat_at := now; ttl_seconds := ttl_seconds c;
     lease_target_state_ref := lease_target_state_ref c;
     lease_scope_key := lease_scope_key c |}.

Definition heartbeat (lane : Lane) (scope_key owner : string) (fence_token : Z)
    : M LaneLeaseStore LeaseReceipt :=
  now ← read_clock;
  transaction (
    row ← _row lane scope_key;
    current ← lift (some_or row (LeaseError "LEASE_NOT_FOUND"));
    lift (check_holder current owner fence_token now);;
    modify (set_leases (alter (with_heartbeat now) (lane, scope_key)));;
    mret {| receipt_status := "HEARTBEAT"; receipt_reason_code := "LEASE_HEARTBEAT_RECORDED";
            receipt_task_id := lease_task_id current; receipt_lane := lane;
            receipt_scope_key := scope_key; receipt_fence_token := fence_token |}).

Definition release (lane : Lane) (scope_key owner : string) (fence_token : Z)
    : M LaneLeaseStore LeaseReceipt :=
  now ← read_clock;
  transaction (
    row ← _row lane scope_key;
    current ← lift (some_or row (LeaseError "LEASE_NOT_FOUND"));
    lift (check_holder current owner fence_token now);;
    modify (set_leases (delete (lane, scope_key)));;
    mret {| receipt_status := "RELEASED"; receipt_reason_code := "LEASE_RELEASED";
            receipt_task_id := lease_task_id current; receipt_lane := lane;
            receipt_scope_key := scope_key; receipt_fence_token := fence_token |}).

Definition current (lane : Lane) (scope_key : string) : M LaneLeaseStore (option LaneLease) :=
  row ← _row lane scope_key;
  match row with
  | None => mret None
  | Some c => now ← read_clock; mret (if expired c now then None else Some c)
  end.

(** ** [VNextScheduler]: a typed front of the store. *)
Record LaneRequest := {
  lr_task_id : string;
  lr_lane : Lane;
  lr_owner : string;
  lr_scope_key : string;
  lr_ttl_seconds : Z;
  lr_target_state_ref : option string
}.

Definition reserve (request : LaneRequest) : M LaneLeaseStore LeaseReceipt :=
  acquire (lr_task_id request) (lr_lane request) (lr_owner request)
    (lr_scope_key request) (lr_ttl_seconds request) (lr_target_state_ref request).

Definition release_exact (lane : Lane) (scope_key owner : string) (fence_token : Z)
    : M LaneLeaseStore LeaseReceipt :=
  release lane scope_key owner fence_token.

Definition scheduler_release (request : LaneRequest) (fence_token : Z)
    : M LaneLeaseStore LeaseReceipt :=
  release_exact (lr_lane request) (lr_scope_key request) (lr_owner request) fence_token.

(** [VNextScheduler.public_projection]: neither owner, task nor scope. *)
Definition lane_public_projection (receipt : LeaseReceipt) : json :=
  JObj [("schema", JStr "skeleton.runner_lane_projection.v1");
        ("status", JStr (receipt_status receipt));
        ("reason_code", JStr (receipt_reason_code receipt));
        ("lane", JStr (lane_value (receipt_lane receipt)));
        ("fence_token", JInt (receipt_fence_token receipt))].
End store.

(** ** Runs of the store

    Every public operation, as one atomic step; [Current] is the read. *)
Inductive lease_op :=
  | Acquire (task_id : string) (lane : Lane) (owner scope_key : string) (ttl : Z)
      (target_state_ref : option string)
  | Heartbeat (lane : Lane) (scope_key owner : string) (fence_token : Z)
  | Release (lane : Lane) (scope_key owner : string) (fence_token : Z)
  | Current (lane : Lane) (scope_key : string).

Inductive lease_answer :=
  | Receipt (r : LeaseReceipt)
  | Lease (l : option LaneLease).

Definition op_key (op : lease_op) : lease_key :=
  match op with
  | Acquire _ lane _ scope_key _ _ | Heartbeat lane scope_key _ _
  | Release lane scope_key _ _ | Current lane scope_key => (lane, scope_key)
  end.

Definition run_op (clock : nat → Z) (op : lease_op) : M LaneLeaseStore lease_answer :=
  match op with
  | Acquire t l o k ttl r => x ← acquire clock t l o k ttl r; mret (Receipt x)
  | Heartbeat l k o f => x ← heartbeat clock l k o f; mret (Receipt x)
  | Release l k o f => x ← release clock l k o f; mret (Receipt x)
  | Current l k => x ← current clock l k; mret (Lease x)
  end.

Fixpoint run_ops (clock : nat → Z) (ops : list lease_op) (s : LaneLeaseStore)
    : list (lease_op * result lease_answer) * LaneLeaseStore :=
  match ops with
  | [] => ([], s)
  | op :: ops =>
      let '(r, s1) := run_op clock op s in
      let '(rs, s2) := run_ops clock ops s1 in
      ((op, r) :: rs, s2)
  end.

(** ** The abstract lock

    What the store promises for one [(lane, scope_key)]: a fence counter and at
    most one holder, who keeps the lock until its deadline. *)
Record holder := {
  h_task_id : string;
  h_owner : string;
  h_target_state_ref : option string;
  h_ttl : Z;
  h_deadline : Z
}.

Record lock := { lock_fence : Z; lock_holder : option holder }.

Definition live_holder (now : Z) (l : lock) : option holder :=
  match lock_holder l with
  | Some h => if h_deadline h <=? now then None else Some h
  | None => None
  end.

Definition spec_acquire (now : Z) (task_id owner : string) (ttl : Z)
    (target_state_ref : option string) (l : lock) : result (string * Z) * lock :=
  if ttl <=? 0 then (Raise (LeaseError "INVALID_LEASE_TTL"), l)
  else match live_holder now l with
  | Some h =>
      if (h_task_id h == task_id) && (h_owner h == owner) then
        if h_target_state_ref h == target_state_ref
        then (Ok ("ALREADY_HELD", lock_fence l), l)
        else (Raise (LeaseError "LEASE_TARGET_STATE_MISMATCH"), l)
      else (Raise (LeaseError "LEASE_CONFLICT_ACTIVE_OWNER"), l)
  | None =>
      if lock_fence l <? 2 ^ 63 - 1 then
        (Ok ("ACQUIRED", lock_fence l + 1),
         {| lock_fence := lock_fence l + 1;
            lock_holder := Some {| h_task_id := task_id; h_owner := owner;
              h_target_state_ref := target_state_ref; h_ttl := ttl;
              h_deadline := now + ttl |} |})
      else (Raise (OverflowError "Python int too large to convert to SQLite INTEGER"), l)
  end.

(** The holder named by [owner] and [fence_token] acts on its lock. *)
Definition spec_hold (now : Z) (owner : string) (fence_token : Z) (l : lock)
    (status : string) (act : holder → option holder) : result (string * Z) * lock :=
  match lock_holder l with
  | None => (Raise (LeaseError "LEASE_NOT_FOUND"), l)
  | Some h =>
      if fence_token != lock_fence l then (Raise (LeaseError "STALE_FENCE_TOKEN"), l)
      else if h_owner h != owner then (Raise (LeaseError "LEASE_OWNER_MISMATCH"), l)
      else if h_deadline h <=? now then (Raise (LeaseError "LEASE_EXPIRED"), l)
      else (Ok (status, fence_token), {| lock_fence := lock_fence l; lock_holder := act h |})
  end.

Definition spec_heartbeat (now : Z) (owner : string) (fence_token : Z) (l : lock) :=
  spec_hold now owner fence_token l "HEARTBEAT" (λ h,
    Some {| h_task_id := h_task_id h; h_owner := h_owner h;
            h_target_state_ref := h_target_state_ref h; h_ttl := h_ttl h;
            h_deadline := now + h_ttl h |}).

Definition spec_release (now : Z) (owner : string) (fence_token : Z) (l : lock) :=
  spec_hold now owner fence_token l "RELEASED" (λ _, None).

Definition abs_holder (c : LaneLease) : holder :=
  {| h_task_id := lease_task_id c; h_owner := lease_owner c;
     h_target_state_ref := lease_target_state_ref c; h_ttl := ttl_seconds c;
     h_deadline := heartbeat_at c + ttl_seconds c |}.

Definition abs_lock (s : LaneLeaseStore) (k : lease_key) : lock :=
  {| lock_fence := default 0 (lane_fences s !! k);
     lock_holder := abs_holder <$> lane_leases s !! k |}.

Definition spec_op (now : Z) (op : lease_op) (l : lock) : result (string * Z) * lock :=
  match op with
  | Acquire t _ o _ ttl r => spec_acquire now t o ttl r l
  | Heartbeat _ _ o f => spec_heartbeat now o f l
  | Release _ _ o f => spec_release now o f l
  | Current _ _ => (Ok ("CURRENT", lock_fence l), l)
  end.

(** What a caller observes of an answer. *)
Definition observe (l : lock) (r : result lease_answer) : result (string * Z) :=
  match r with
  | Ok (Receipt x) => Ok (receipt_status x, receipt_fence_token x)
  | Ok (Lease _) => Ok ("CURRENT", lock_fence l)
  | Raise e => Raise e
  end.

(** ** Invariant *)
Record lease_wf (s : LaneLeaseStore) : Prop := {
  wf_fence_range : ∀ k f, lane_fences s !! k = Some f → 1 ≤ f < 2 ^ 63;
  wf_lease_fence : ∀ k c, lane_leases s !! k = Some c →
    lane_fences s !! k = Some (lease_fence_token c);
  wf_lease_key : ∀ k c, lane_leases s !! k = Some c →
    k = (lease_lane c, lease_scope_key c);
  wf_lease_ttl : ∀ k c, lane_leases s !! k = Some c →
    0 < ttl_seconds c
}.

Lemma lease_wf_empty : lease_wf empty_lease_store.
Proof. split; intros k ? H; simpl in H; by rewrite lookup_empty in H. Qed.

Definition tick (s : LaneLeaseStore) : LaneLeaseStore :=
  {| lane_fences := lane_fences s; lane_leases := lane_leases s;
     clock_readings := S (clock_readings s) |}.

Lemma lease_wf_tick s : lease_wf s → lease_wf (tick s).
Proof. by intros [? ? ? ?]. Qed.

Lemma abs_lock_tick s k : abs_lock (tick s) k = abs_lock s k.
Proof. done. Qed.

(** Granting a lease writes both tables at the key, with a fresh fence. *)
Definition granted (s : LaneLeaseStore) (k : lease_key) (c : LaneLease) : LaneLeaseStore :=
  {| lane_fences := <[k := lease_fence_token c]> (lane_fences s);
     lane_leases := <[k := c]> (lane_leases s);
     clock_readings := clock_readings s |}.

Lemma lease_wf_granted s k c :
  lease_wf s → k = (lease_lane c, lease_scope_key c) → 0 < ttl_seconds c →
  1 ≤ lease_fence_token c < 2 ^ 63 → lease_wf (granted s k c).
Proof.
  intros [H1 H2 H3 H4] Hk Httl Hf. split; simpl; intros k' x.
  - rewrite lookup_insert_Some. naive_solver.
  - rewrite lookup_insert_Some. intros [[<- <-]|[Hne Hx]].
    + apply lookup_insert_eq.
    + rewrite lookup_insert_ne by done. eauto.
  - rewrite lookup_insert_Some. naive_solver.
  - rewrite lookup_insert_Some. naive_solver.
Qed.

Lemma abs_lock_granted s k c :
  abs_lock (granted s k c) k
  = {| lock_fence := lease_fence_token c; lock_holder := Some (abs_holder c) |}.
Proof. unfold abs_lock. simpl. by rewrite !lookup_insert_eq. Qed.

Lemma abs_lock_granted_ne s k k' c : k ≠ k' → abs_lock (granted s k c) k' = abs_lock s k'.
Proof. intros. unfold abs_lock. simpl. by rewrite !lookup_insert_ne. Qed.

Lemma lease_wf_set_leases (s : LaneLeaseStore) (f : gmap lease_key LaneLease → gmap lease_key LaneLease) :
  lease_wf s →
  (∀ k' c', f (lane_leases s) !! k' = Some c' → ∃ c, lane_leases s !! k' = Some c ∧
    lease_fence_token c' = lease_fence_token c ∧ lease_lane c' = lease_lane c ∧
    lease_scope_key c' = lease_scope_key c ∧ ttl_seconds c' = ttl_seconds c) →
  lease_wf (set_leases f s).
Proof.
  intros [H1 H2 H3 H4] Hf. split; simpl; [done|..]; intros k' c' Hc';
    destruct (Hf _ _ Hc') as (c & Hc & E1 & E2 & E3 & E4).
  - rewrite E1. eauto.
  - rewrite E2, E3. eauto.
  - rewrite E4. eauto.
Qed.

Lemma lock_fence_range s k : lease_wf s → 0 ≤ lock_fence (abs_lock s k) < 2 ^ 63.
Proof.
  intros Hs. simpl. destruct (lane_fences s !! k) as [f|] eqn:E; simpl; [|lia].
  pose proof (wf_fence_range s Hs _ _ E). lia.
Qed.

(** [take_lease] either grants the next fence or overflows. *)
Lemma take_lease_run s task_id lane owner scope_key ttl target now reason :
  lease_wf s →
  let k := (lane, scope_key) in
  let f := lock_fence (abs_lock s k) + 1 in
  let c := {| lease_task_id := task_id; lease_lane := lane; lease_owner := owner;
    lease_fence_token := f; acquired_at := now; heartbeat_at := now; ttl_seconds := ttl;
    lease_target_state_ref := target; lease_scope_key := scope_key |} in
  take_lease task_id lane owner scope_key ttl target now reason s =
  if lock_fence (abs_lock s k) <? 2 ^ 63 - 1
  then (Ok {| receipt_status := "ACQUIRED"; receipt_reason_code := reason;
              receipt_task_id := task_id; receipt_lane := lane;
              receipt_scope_key := scope_key; receipt_fence_token := f |}, granted s k c)
  else (Raise (OverflowError "Python int too large to convert to SQLite INTEGER"), s).
Proof.
  intros Hs k f c. pose proof (lock_fence_range s k Hs) as Hf.
  unfold take_lease, _next_fence, mbind, M_bind, gets, lift, modify, mret, M_ret.
  fold k. change (default 0 (lane_fences s !! k) + 1) with f.
  destruct (Z.ltb_spec (lock_fence (abs_lock s k)) (2 ^ 63 - 1)).
  - rewrite sqlite_int_in by (subst f; lia). done.
  - rewrite sqlite_int_out by (subst f; lia). done.
Qed.

Lemma abs_lock_set_leases_ne (s : LaneLeaseStore) (k' : lease_key) f :
  f (lane_leases s) !! k' = lane_leases s !! k' →
  abs_lock (set_leases f s) k' = abs_lock s k'.
Proof. intros E. unfold abs_lock. simpl. by rewrite E. Qed.

Lemma expired_abs c now : expired c now = (h_deadline (abs_holder c) <=? now).
Proof. done. Qed.

(** One step of the store is one step of the lock at its key, and touches no
    other key. *)
Definition refines (s : LaneLeaseStore) (k : lease_key) (obs : lock → result (string * Z))
    (spec : result (string * Z) * lock) (s' : LaneLeaseStore) : Prop :=
  lease_wf s' ∧ obs (abs_lock s k) = spec.1 ∧ abs_lock s' k = spec.2 ∧
  ∀ k', k' ≠ k → abs_lock s' k' = abs_lock s k'.

Lemma refines_same s k obs r s' :
  lease_wf s → s' = s ∨ s' = tick s → obs (abs_lock s k) = r →
  refines s k obs (r, abs_lock s k) s'.
Proof. intros Hs [->| ->] <-; (split; [by try apply lease_wf_tick|done]). Qed.

Definition observe_receipt (r : result LeaseReceipt) : result (string * Z) :=
  match r with
  | Ok x => Ok (receipt_status x, receipt_fence_token x)
  | Raise e => Raise e
  end.

Section refinement.
Context (clock : nat → Z) (s : LaneLeaseStore) (Hs : lease_wf s).
Notation now := (clock (clock_readings s)).

Lemma acquire_refines task_id lane owner scope_key ttl target r s' :
  acquire clock task_id lane owner scope_key ttl target s = (r, s') →
  refines s (lane, scope_key) (λ _, observe_receipt r)
    (spec_acquire now task_id owner ttl target (abs_lock s (lane, scope_key))) s'.
Proof.
  set (k := (lane, scope_key)). unfold acquire, spec_acquire.
  destruct (Z.leb_spec ttl 0) as [Httl|Httl]; simpl raise_if.
  { intros [= <- <-]. apply refines_same; auto. }
  unfold mbind at 1, M_bind at 1. unfold lift at 1.
  unfold mbind at 1, M_bind at 1, read_clock at 1. fold (tick s).
  unfold transaction, mbind at 1, M_bind at 1, _row at 1, gets at 1.
  change (lane_leases (tick s) !! (lane, scope_key)) with (lane_leases s !! k).
  assert (Htake : ∀ reason,
    take_lease task_id lane owner scope_key ttl target now reason (tick s) = (r, s') ∨
    match take_lease task_id lane owner scope_key ttl target now reason (tick s) with
    | (Ok a, s'') => (Ok a, s'') | (Raise e, _) => (Raise e, tick s) end = (r, s') →
    refines s k (λ _, observe_receipt r)
      (if lock_fence (abs_lock s k) <? 2 ^ 63 - 1 then
        (Ok ("ACQUIRED", lock_fence (abs_lock s k) + 1),
         {| lock_fence := lock_fence (abs_lock s k) + 1;
            lock_holder := Some {| h_task_id := task_id; h_owner := owner;
              h_target_state_ref := target; h_ttl := ttl; h_deadline := now + ttl |} |})
       else (Raise (OverflowError "Python int too large to convert to SQLite INTEGER"),
             abs_lock s k)) s').
  { intros reason. pose proof (lock_fence_range s k Hs).
    rewrite take_lease_run by (by apply lease_wf_tick).
    rewrite !abs_lock_tick. fold k.
    destruct (Z.ltb_spec (lock_fence (abs_lock s k)) (2 ^ 63 - 1)).
    - intros Hr. assert (Hr' : r = Ok _ ∧ s' = granted (tick s) k _)
        by (destruct Hr as [[= <- <-]|[= <- <-]]; split; reflexivity).
      destruct Hr' as [-> ->]. split; [|split_and!; [done|by rewrite abs_lock_granted|]].
      + apply lease_wf_granted; [by apply lease_wf_tick|done|done|].
        unfold abs_lock in *. cbn [lease_fence_token lock_fence] in *. lia.
      + intros k' Hk'. by rewrite abs_lock_granted_ne.
    - intros [[= <- <-]|[= <- <-]]; apply refines_same; auto. }
  unfold live_holder. unfold abs_lock at 1. simpl lock_holder.
  destruct (lane_leases s !! k) as [c|] eqn:Ec; cbn [fmap option_fmap option_map].
  2:{ intros H. eapply Htake. right. exact H. }
  rewrite <-expired_abs. destruct (expired c now) eqn:Ex; simpl negb; cbn iota.
  { intros H. eapply Htake. right. exact H. }
  change (h_task_id (abs_holder c)) with (lease_task_id c).
  change (h_owner (abs_holder c)) with (lease_owner c).
  change (h_target_state_ref (abs_holder c)) with (lease_target_state_ref c).
  destruct (_ && _).
  - case_bool_decide as Et; simpl; intros [= <- <-]; apply refines_same; auto.
    simpl. by rewrite (wf_lease_fence s Hs _ _ Ec).
  - intros [= <- <-]. apply refines_same; auto.
Qed.

(** [heartbeat] and [release] differ only in what they do to the row. *)
Lemma hold_refines (lane : Lane) (scope_key owner : string) (fence_token : Z) (status reason : string)
    (f : gmap lease_key LaneLease → gmap lease_key LaneLease) (act : holder → option holder) (r : result LeaseReceipt) s' :
  (∀ c, lane_leases s !! (lane, scope_key) = Some c →
    lease_wf (set_leases f (tick s)) ∧
    abs_holder <$> f (lane_leases s) !! (lane, scope_key) = act (abs_holder c) ∧
    ∀ k', k' ≠ (lane, scope_key) → f (lane_leases s) !! k' = lane_leases s !! k') →
  (now ← read_clock clock;
   transaction (
     row ← _row lane scope_key;
     current ← lift (some_or row (LeaseError "LEASE_NOT_FOUND"));
     lift (check_holder current owner fence_token now);;
     modify (set_leases f);;
     mret {| receipt_status := status; receipt_reason_code := reason;
             receipt_task_id := lease_task_id current; receipt_lane := lane;
             receipt_scope_key := scope_key; receipt_fence_token := fence_token |}) : M _ _) s
    = (r, s') →
  refines s (lane, scope_key) (λ _, observe_receipt r)
    (spec_hold now owner fence_token (abs_lock s (lane, scope_key)) status act) s'.
Proof.
  set (k := (lane, scope_key)). intros Hf.
  unfold mbind at 1, M_bind at 1, read_clock at 1. fold (tick s).
  unfold transaction, mbind, M_bind, _row, gets, lift, some_or, modify, mret, M_ret.
  change (lane_leases (tick s) !! (lane, scope_key)) with (lane_leases s !! k).
  unfold spec_hold. simpl lock_holder.
  destruct (lane_leases s !! k) as [c|] eqn:Ec; simpl.
  2:{ intros [= <- <-]. apply refines_same; auto. }
  destruct (Hf c eq_refl) as (Hwf & Habs & Hne).
  rewrite (wf_lease_fence s Hs _ _ Ec). simpl default. unfold check_holder, mbind, result_bind.
  rewrite (bool_decide_ext (lease_fence_token c = fence_token)
    (fence_token = lease_fence_token c)) by naive_solver.
  case_bool_decide as Hfence; simpl; [|intros [= <- <-]; apply refines_same; auto].
  case_bool_decide as Howner; simpl; [|intros [= <- <-]; apply refines_same; auto].
  unfold expired.
  destruct (_ <=? _) eqn:Ex; simpl; intros [= <- <-]; [by apply refines_same; auto|].
  split; [exact Hwf|]. split_and!; [done| |].
  - unfold abs_lock. simpl. rewrite Habs. by rewrite (wf_lease_fence s Hs _ _ Ec).
  - intros k' Hk'. apply (abs_lock_set_leases_ne (tick s)). by apply Hne.
Qed.
End refinement.

Lemma heartbeat_refines clock s lane scope_key owner fence_token r s' :
  lease_wf s → heartbeat clock lane scope_key owner fence_token s = (r, s') →
  refines s (lane, scope_key) (λ _, observe_receipt r)
    (spec_heartbeat (clock (clock_readings s)) owner fence_token
       (abs_lock s (lane, scope_key))) s'.
Proof.
  intros Hs. unfold heartbeat, mbind at 1, M_bind at 1, read_clock at 1. intros H.
  eapply (hold_refines clock s Hs _ _ _ _ _ "LEASE_HEARTBEAT_RECORDED"
    (alter (with_heartbeat (clock (clock_readings s))) (lane, scope_key))); [|exact H].
  intros c Hc. split; [|split].
  - apply lease_wf_set_leases; [by apply lease_wf_tick|].
    intros k' c'. simpl. rewrite lookup_alter_Some. intros [(<- & c0 & ? & ->)|[? ?]];
      (eexists; split_and!; [eassumption|done..]).
  - rewrite lookup_alter_eq, Hc. done.
  - intros k' Hk'. by apply lookup_alter_ne.
Qed.

Lemma release_refines clock s lane scope_key owner fence_token r s' :
  lease_wf s → release clock lane scope_key owner fence_token s = (r, s') →
  refines s (lane, scope_key) (λ _, observe_receipt r)
    (spec_release (clock (clock_readings s)) owner fence_token
       (abs_lock s (lane, scope_key))) s'.
Proof.
  intros Hs H.
  eapply (hold_refines clock s Hs _ _ _ _ _ "LEASE_RELEASED" (delete (lane, scope_key)));
    [|exact H].
  intros c Hc. split; [|split].
  - apply lease_wf_set_leases; [by apply lease_wf_tick|].
    intros k' c'. simpl. rewrite lookup_delete_Some. intros [??].
    eexists; split_and!; [eassumption|done..].
  - by rewrite lookup_delete_eq.
  - intros k' Hk'. by apply lookup_delete_ne.
Qed.

Lemma observe_bind {A} (m : M LaneLeaseStore A) (f : A → lease_answer) s r s' :
  (x ← m; mret (f x)) s = (r, s') →
  ∃ r0, m s = (r0, s') ∧ r = match r0 with Ok a => Ok (f a) | Raise e => Raise e end.
Proof.
  unfold mbind, M_bind, mret, M_ret. destruct (m s) as [[a|e] s1]; naive_solver.
Qed.

Lemma run_op_step clock op s r s' :
  lease_wf s → run_op clock op s = (r, s') →
  refines s (op_key op) (λ l, observe l r)
    (spec_op (clock (clock_readings s)) op (abs_lock s (op_key op))) s'.
Proof.
  intros Hs. destruct op as [t l o k ttl tgt|l k o f|l k o f|l k]; simpl;
    intros (r0 & H & ->)%observe_bind.
  - apply acquire_refines in H as (? & ? & ? & ?); [|done]. split_and!; try done.
    by destruct r0.
  - apply heartbeat_refines in H as (? & ? & ? & ?); [|done]. split_and!; try done.
    by destruct r0.
  - apply release_refines in H as (? & ? & ? & ?); [|done]. split_and!; try done.
    by destruct r0.
  - revert H. unfold current, mbind, M_bind, _row, gets.
    destruct (lane_leases s !! (l, k)) as [c|]; simpl; intros [= <- <-];
      apply refines_same; auto.
Qed.

(** *** Facts about the lock *)
Lemma spec_op_fence now op l :
  0 ≤ lock_fence l →
  lock_fence l ≤ lock_fence (spec_op now op l).2 ∧
  (∀ f, (spec_op now op l).1 = Ok ("ACQUIRED", f) →
    f = lock_fence l + 1 ∧ lock_fence (spec_op now op l).2 = f).
Proof.
  intros Hl. destruct op; simpl.
  - unfold spec_acquire. repeat case_match; simpl; split; try lia; naive_solver.
  - unfold spec_heartbeat, spec_hold. repeat case_match; simpl; split; try lia; naive_solver.
  - unfold spec_release, spec_hold. repeat case_match; simpl; split; try lia; naive_solver.
  - split; [lia|naive_solver].
Qed.

Lemma run_ops_cons clock op ops s rs s' :
  run_ops clock (op :: ops) s = (rs, s') →
  ∃ r s1 rs1, run_op clock op s = (r, s1) ∧ run_ops clock ops s1 = (rs1, s') ∧
    rs = (op, r) :: rs1.
Proof.
  simpl. destruct (run_op clock op s) as [r s1], (run_ops clock ops s1) as [rs1 s2] eqn:E.
  intros [= <- <-]. eauto 10.
Qed.

(** The tokens of the leases a run granted for a key, oldest first. *)
Definition granted_token (k : lease_key) (x : lease_op * result lease_answer) : option Z :=
  match x.2 with
  | Ok (Receipt r) =>
      if (receipt_status r == "ACQUIRED") && (op_key x.1 == k)
      then Some (receipt_fence_token r) else None
  | _ => None
  end.

Definition granted_tokens (k : lease_key) (rs : list (lease_op * result lease_answer)) : list Z :=
  omap (granted_token k) rs.

Lemma run_op_token clock op s r s' k :
  lease_wf s → run_op clock op s = (r, s') →
  lease_wf s' ∧ lock_fence (abs_lock s k) ≤ lock_fence (abs_lock s' k) ∧
  ∀ f, granted_token k (op, r) = Some f →
    lock_fence (abs_lock s k) < f ∧ f = lock_fence (abs_lock s' k).
Proof.
  intros Hs Hrun. destruct (run_op_step _ _ _ _ _ Hs Hrun) as (Hs' & Hobs & Habs & Hne).
  split; [done|].
  destruct (decide (op_key op = k)) as [<-|Hk].
  - destruct (spec_op_fence (clock (clock_readings s)) op (abs_lock s (op_key op)))
      as [Hmono Hacq]; [by apply lock_fence_range|].
    rewrite Habs. split; [done|]. unfold granted_token. cbn [fst snd]. intros f.
    destruct r as [[x|]|]; try done. rewrite (bool_decide_eq_true_2 (op_key op = _)) by done.
    case_bool_decide as Est; cbn [andb]; [|done]. intros [= <-].
    cbn [observe] in Hobs. rewrite Est in Hobs. symmetry in Hobs. apply Hacq in Hobs as [Hf1 Hf2]. lia.
  - rewrite Hne by done. split; [done|]. unfold granted_token. cbn [fst snd]. intros f.
    destruct r as [[x|]|]; try done. rewrite (bool_decide_eq_false_2 (op_key op = _)) by done.
    by rewrite andb_false_r.
Qed.

Lemma run_ops_tokens clock ops s rs s' k :
  lease_wf s → run_ops clock ops s = (rs, s') →
  lease_wf s' ∧ lock_fence (abs_lock s k) ≤ lock_fence (abs_lock s' k) ∧
  StronglySorted Z.lt (granted_tokens k rs) ∧
  Forall (λ f, lock_fence (abs_lock s k) < f ≤ lock_fence (abs_lock s' k)) (granted_tokens k rs).
Proof.
  revert s rs. induction ops as [|op ops IH]; intros s rs Hs Hrun.
  { simpl in Hrun. simplify_eq. split_and!; [done|lia|constructor..]. }
  apply run_ops_cons in Hrun as (r & s1 & rs1 & Hop & Hrun & ->).
  destruct (run_op_token _ _ _ _ _ k Hs Hop) as (Hs1 & Hle & Htok).
  destruct (IH _ _ Hs1 Hrun) as (? & Hle' & Hsort & Hall).
  change (granted_tokens k ((op, r) :: rs1))
    with (match granted_token k (op, r) with
          | Some f => f :: granted_tokens k rs1 | None => granted_tokens k rs1 end).
  destruct (granted_token k (op, r)) as [f|] eqn:E.
  - destruct (Htok f eq_refl) as [Hlt ->]. split_and!; [done|lia| |].
    + constructor; [done|]. eapply Forall_impl; [exact Hall|]. intros ? ?; cbv beta in *; lia.
    + constructor; [lia|]. eapply Forall_impl; [exact Hall|]. intros ? ?; cbv beta in *; lia.
  - split_and!; [done|lia|done|]. eapply Forall_impl; [exact Hall|]. intros ? ?; cbv beta in *; lia.
Qed.

(** A holder is undisturbed as long as the clock has not reached its deadline
    and nobody presents its own name and token to [release]. *)
Definition releases (k : lease_key) (owner : string) (f : Z) (op : lease_op) : Prop :=
  match op with
  | Release lane scope_key o f' => (lane, scope_key) = k ∧ o = owner ∧ f' = f
  | _ => False
  end.

Lemma spec_op_keeps now op l h (k : lease_key) D :
  lock_holder l = Some h → op_key op = k → now < D → D ≤ h_deadline h →
  h_deadline h - h_ttl h ≤ now → ¬ releases k (h_owner h) (lock_fence l) op →
  let l' := (spec_op now op l).2 in
  lock_fence l' = lock_fence l ∧ ∃ h', lock_holder l' = Some h' ∧
    h_task_id h' = h_task_id h ∧ h_owner h' = h_owner h ∧
    D ≤ h_deadline h' ∧ h_deadline h' - h_ttl h' ≤ now.
Proof.
  intros Hh Hk Hnow HD Hpast Hrel.
  assert (Hlive : h_deadline h <=? now = false) by (apply Z.leb_gt; lia).
  assert (Hself : lock_fence l = lock_fence l ∧ ∃ h', lock_holder l = Some h' ∧
    h_task_id h' = h_task_id h ∧ h_owner h' = h_owner h ∧
    D ≤ h_deadline h' ∧ h_deadline h' - h_ttl h' ≤ now) by eauto 10.
  destruct op as [t lane o scope ttl tgt|lane scope o f|lane scope o f|lane scope]; simpl.
  - unfold spec_acquire, live_holder. rewrite Hh, Hlive.
    repeat case_match; exact Hself.
  - unfold spec_heartbeat, spec_hold. rewrite Hh, Hlive.
    repeat case_match; try exact Hself.
    split; [done|]. eexists. split; [done|]. split_and!; try done; simpl; lia.
  - unfold spec_release, spec_hold. rewrite Hh, Hlive.
    case_bool_decide as Hf; [|exact Hself]. case_bool_decide as Ho; [|exact Hself].
    destruct Hrel. by simplify_eq/=.
  - exact Hself.
Qed.

(** Past its first line, an operation reads the clock no more. *)
Definition keeps_clock {A} (m : M LaneLeaseStore A) : Prop :=
  ∀ s, clock_readings (m s).2 = clock_readings s.

Lemma keeps_bind {A B} (m : M LaneLeaseStore A) (f : A → M LaneLeaseStore B) :
  keeps_clock m → (∀ a, keeps_clock (f a)) → keeps_clock (m ≫= f).
Proof.
  intros Hm Hf s. specialize (Hm s). unfold mbind, M_bind.
  destruct (m s) as [[a|e] s1]; [|done]. simpl in Hm. by rewrite Hf.
Qed.

Lemma keeps_transaction {A} (m : M LaneLeaseStore A) :
  keeps_clock m → keeps_clock (transaction m).
Proof. intros Hm s. specialize (Hm s). unfold transaction. by destruct (m s) as [[]]. Qed.

Lemma keeps_lift {A} (r : result A) : keeps_clock (lift r).
Proof. done. Qed.
Lemma keeps_raise {A} e : keeps_clock (A:=A) (raise e).
Proof. done. Qed.
Lemma keeps_gets {A} (f : LaneLeaseStore → A) : keeps_clock (gets f).
Proof. done. Qed.
Lemma keeps_ret {A} (a : A) : keeps_clock (mret a).
Proof. done. Qed.
Lemma keeps_set_fences f : keeps_clock (modify (set_fences f)).
Proof. done. Qed.
Lemma keeps_set_leases f : keeps_clock (modify (set_leases f)).
Proof. done. Qed.

Create HintDb clock discriminated.
#[export] Hint Resolve keeps_bind keeps_transaction keeps_lift keeps_raise keeps_gets keeps_ret
  keeps_set_fences keeps_set_leases : clock.
#[export] Hint Unfold _row _next_fence take_lease : clock.

Lemma read_then clock {A} (f : Z → M LaneLeaseStore A) s r s' :
  (∀ now, keeps_clock (f now)) →
  (now ← read_clock clock; f now) s = (r, s') → clock_readings s' = S (clock_readings s).
Proof.
  intros Hf. unfold mbind, M_bind, read_clock. fold (tick s).
  intros H. pose proof (Hf (clock (clock_readings s)) (tick s)) as Hk. by rewrite H in Hk.
Qed.

Ltac keeps := intros; repeat (autounfold with clock; first
  [ progress auto with clock
  | apply keeps_bind; [|intros] | apply keeps_transaction | progress case_match ]).

Lemma run_op_clock clock op s r s' :
  run_op clock op s = (r, s') →
  s' = s ∨ clock_readings s' = S (clock_readings s).
Proof.
  destruct op as [t l o k ttl tgt|l k o f|l k o f|l k]; simpl;
    intros (r0 & H & ->)%observe_bind; revert H.
  - unfold acquire, mbind at 1, M_bind at 1, lift at 1.
    destruct (raise_if _ _); [|intros [= ? <-]; by left].
    intros H. right. eapply read_then; [|exact H]. keeps.
  - unfold heartbeat. intros H. right. eapply read_then; [|exact H]. keeps.
  - unfold release. intros H. right. eapply read_then; [|exact H]. keeps.
  - unfold current, mbind, M_bind, _row, gets, read_clock, mret, M_ret.
    destruct (lane_leases s !! _); simpl; intros; simplify_eq/=; auto.
Qed.

Lemma run_ops_clock clock ops s :
  (clock_readings s ≤ clock_readings (run_ops clock ops s).2)%nat.
Proof.
  revert s. induction ops as [|op ops IH]; intros s; simpl; [done|].
  destruct (run_op clock op s) as [r s1] eqn:E. specialize (IH s1).
  destruct (run_ops clock ops s1) as [rs s2]. simpl in *.
  destruct (run_op_clock _ _ _ _ _ E) as [->|?]; lia.
Qed.

(** ** Properties *)

(** C13. Refinement: on a well-formed store every operation is exactly one step
    of the abstract fencing lock of its [(lane, scope_key)] at the time the
    clock shows - same answer or exception, same fence counter and holder
    afterwards - and no other key's lock changes. *)
Theorem lease_store_refines_lock clock op s r s' :
  lease_wf s → run_op clock op s = (r, s') →
  let k := op_key op in
  let spec := spec_op (clock (clock_readings s)) op (abs_lock s k) in
  observe (abs_lock s k) r = spec.1 ∧ abs_lock s' k = spec.2 ∧
  (∀ k', k' ≠ k → abs_lock s' k' = abs_lock s k') ∧ lease_wf s'.
Proof. intros Hs H. destruct (run_op_step _ _ _ _ _ Hs H) as (? & ? & ? & ?). auto. Qed.

(** C30. Fence tokens are never reused: in any run of the store from empty, the
    tokens granted for one [(lane, scope_key)] are positive, below 2^63 and
    strictly increasing in the order they were granted; and the store stays
    well-formed (each lease row carries the current fence of its key). *)
Theorem fence_tokens_increase clock ops rs s' k :
  run_ops clock ops empty_lease_store = (rs, s') →
  lease_wf s' ∧ StronglySorted Z.lt (granted_tokens k rs) ∧
  Forall (λ f, 1 ≤ f < 2 ^ 63) (granted_tokens k rs).
Proof.
  intros H. destruct (run_ops_tokens _ _ _ _ _ k lease_wf_empty H) as (Hwf & _ & ? & Hall).
  split_and!; [done..|]. pose proof (lock_fence_range s' k Hwf) as Hr.
  eapply Forall_impl; [exact Hall|]. intros f Hf. cbv beta in Hf.
  change (lock_fence (abs_lock empty_lease_store k)) with 0 in Hf. lia.
Qed.

(** Mutual exclusion: while the clock has not reached the deadline of the
    present holder, no interleaving of other calls - by any task, owner or
    scope - takes the lease away from it; only its own release with its own
    token does.  (Its heartbeats only move the deadline forward.) *)
Theorem lease_exclusive clock ops s rs s' k h :
  lease_wf s →
  (∀ i j, (i ≤ j)%nat → clock i ≤ clock j) →
  lock_holder (abs_lock s k) = Some h →
  h_deadline h - h_ttl h ≤ clock (clock_readings s) →
  run_ops clock ops s = (rs, s') →
  (∀ n, (clock_readings s ≤ n < clock_readings s')%nat → clock n < h_deadline h) →
  Forall (λ op, ¬ releases k (h_owner h) (lock_fence (abs_lock s k)) op) ops →
  lock_fence (abs_lock s' k) = lock_fence (abs_lock s k) ∧
  ∃ h', lock_holder (abs_lock s' k) = Some h' ∧
    h_task_id h' = h_task_id h ∧ h_owner h' = h_owner h ∧ h_deadline h ≤ h_deadline h'.
Proof.
  intros Hs Hmono Hh Hpast Hrun Hclk Hrel.
  assert (Hgen : ∀ D, D ≤ h_deadline h →
    (∀ n, (clock_readings s ≤ n < clock_readings s')%nat → clock n < D) →
    lock_fence (abs_lock s' k) = lock_fence (abs_lock s k) ∧
    ∃ h', lock_holder (abs_lock s' k) = Some h' ∧
      h_task_id h' = h_task_id h ∧ h_owner h' = h_owner h ∧ D ≤ h_deadline h');
    [|by apply Hgen].
  clear Hclk. intros D. revert s h rs Hs Hh Hpast Hrun Hrel.
  induction ops as [|op ops IH]; intros s h rs Hs Hh Hpast Hrun Hrel HD Hclk.
  { simpl in Hrun. simplify_eq. eauto 10. }
  apply run_ops_cons in Hrun as (r & s1 & rs1 & Hop & Hrun & ->).
  destruct (run_op_step _ _ _ _ _ Hs Hop) as (Hs1 & _ & Habs & Hne).
  apply Forall_cons in Hrel as [Hrel Hrels].
  pose proof (run_ops_clock clock ops s1) as Hle. rewrite Hrun in Hle. simpl in Hle.
  assert (Hstep : lock_fence (abs_lock s1 k) = lock_fence (abs_lock s k) ∧
    ∃ h', lock_holder (abs_lock s1 k) = Some h' ∧ h_task_id h' = h_task_id h ∧
      h_owner h' = h_owner h ∧ D ≤ h_deadline h' ∧
      h_deadline h' - h_ttl h' ≤ clock (clock_readings s)).
  { destruct (run_op_clock _ _ _ _ _ Hop) as [->|Hc]; [eauto 10|].
    destruct (decide (op_key op = k)) as [<-|Hk].
    - rewrite Habs. eapply spec_op_keeps; try done. apply Hclk. lia.
    - rewrite (Hne k) by done. eauto 10. }
  destruct Hstep as (Hf & h1 & Hh1 & Ht1 & Ho1 & HD1 & Hp1).
  assert (Hge : (clock_readings s ≤ clock_readings s1)%nat)
    by (destruct (run_op_clock _ _ _ _ _ Hop) as [->| ->]; lia).
  rewrite <-Hf, <-Ht1, <-Ho1 in *.
  eapply IH; try done.
  - pose proof (Hmono _ _ Hge). lia.
  - intros n Hn. apply Hclk. lia.
Qed.

(** Fencing: once a later lease has been granted for the scope, the old
    token is dead - whatever happens in between, and whoever presents it,
    [heartbeat] and [release] raise and leave every lock as it was. *)
Theorem stale_token_rejected clock ops s rs s' lane scope_key owner f op r s'' :
  lease_wf s → f < lock_fence (abs_lock s (lane, scope_key)) →
  run_ops clock ops s = (rs, s') →
  op = Heartbeat lane scope_key owner f ∨ op = Release lane scope_key owner f →
  run_op clock op s' = (r, s'') →
  (r = Raise (LeaseError "STALE_FENCE_TOKEN") ∨ r = Raise (LeaseError "LEASE_NOT_FOUND")) ∧
  ∀ k, abs_lock s'' k = abs_lock s' k.
Proof.
  intros Hs Hf Hrun Hop Hstep.
  destruct (run_ops_tokens _ _ _ _ _ (lane, scope_key) Hs Hrun) as (Hs' & Hle & _).
  destruct (run_op_step _ _ _ _ _ Hs' Hstep) as (_ & Hobs & Habs & Hne).
  assert (Hspec : ∀ now st act, spec_hold now owner f (abs_lock s' (lane, scope_key)) st act
    = (Raise (LeaseError "LEASE_NOT_FOUND"), abs_lock s' (lane, scope_key)) ∨
    spec_hold now owner f (abs_lock s' (lane, scope_key)) st act
    = (Raise (LeaseError "STALE_FENCE_TOKEN"), abs_lock s' (lane, scope_key))).
  { intros. unfold spec_hold. destruct (lock_holder _); [|by left].
    rewrite bool_decide_eq_false_2 by lia. by right. }
  assert (Hk : op_key op = (lane, scope_key)) by (by destruct Hop as [->| ->]).
  rewrite Hk in *.
  assert (Hout : (spec_op (clock (clock_readings s')) op (abs_lock s' (lane, scope_key))).2
      = abs_lock s' (lane, scope_key) ∧
    (observe (abs_lock s' (lane, scope_key)) r = Raise (LeaseError "STALE_FENCE_TOKEN") ∨
     observe (abs_lock s' (lane, scope_key)) r = Raise (LeaseError "LEASE_NOT_FOUND"))).
  { rewrite Hobs. destruct Hop as [->| ->]; cbn [spec_op]; unfold spec_heartbeat, spec_release;
      edestruct Hspec as [-> | ->]; auto. }
  destruct Hout as [Hsame Hr]. split.
  - destruct r as [[]|]; simpl in Hr; naive_solver.
  - intros k. destruct (decide (k = (lane, scope_key))) as [->|]; [congruence|by apply Hne].
Qed.

(** ** Witnesses *)
Definition demo_clock (n : nat) : Z := 10 * Z.of_nat n.
Definition demo_key : lease_key := (CODEGEN, "repo:demo@main").
Definition demo_acquire (task owner : string) : lease_op :=
  Acquire task CODEGEN owner "repo:demo@main" 30 (Some "git:0").
Definition demo_store : LaneLeaseStore :=
  (run_ops demo_clock [demo_acquire "task:1" "node:a"] empty_lease_store).2.

Lemma demo_clock_mono i j : (i ≤ j)%nat → demo_clock i ≤ demo_clock j.
Proof. unfold demo_clock. lia. Qed.

Lemma demo_store_wf : lease_wf demo_store.
Proof.
  refine (proj1 (run_ops_tokens demo_clock [demo_acquire "task:1" "node:a"] empty_lease_store
    _ _ demo_key lease_wf_empty _)).
  vm_compute. reflexivity.
Qed.

Lemma lease_store_refines_lock_witness :
  observe (abs_lock demo_store demo_key)
    (run_op demo_clock (demo_acquire "task:2" "node:b") demo_store).1
  = Raise (LeaseError "LEASE_CONFLICT_ACTIVE_OWNER").
Proof.
  destruct (lease_store_refines_lock demo_clock (demo_acquire "task:2" "node:b") demo_store
    _ _ demo_store_wf (surjective_pairing _)) as (H & _).
  etransitivity; [exact H|]. vm_compute. reflexivity.
Defined.

(** Two tasks in turn: the second takes over when the first lease has run out. *)
Definition demo_run : list lease_op :=
  [demo_acquire "task:1" "node:a"; demo_acquire "task:2" "node:b";
   Current CODEGEN "repo:demo@main"; demo_acquire "task:2" "node:b"].

Lemma fence_tokens_increase_witness :
  granted_tokens demo_key (run_ops demo_clock demo_run empty_lease_store).1 = [1; 2] ∧
  StronglySorted Z.lt [1; 2].
Proof.
  assert (E : granted_tokens demo_key (run_ops demo_clock demo_run empty_lease_store).1 = [1; 2])
    by (vm_compute; reflexivity).
  destruct (fence_tokens_increase demo_clock demo_run _ _ demo_key (surjective_pairing _))
    as (_ & H & _).
  rewrite E in H. split; [exact E|exact H].
Defined.

Lemma lease_exclusive_witness :
  lock_fence (abs_lock (run_ops demo_clock
    [demo_acquire "task:2" "node:b"; Release CODEGEN "repo:demo@main" "node:b" 1]
    demo_store).2 demo_key) = 1.
Proof.
  refine (proj1 (lease_exclusive demo_clock
    [demo_acquire "task:2" "node:b"; Release CODEGEN "repo:demo@main" "node:b" 1]
    demo_store _ _ demo_key
    {| h_task_id := "task:1"; h_owner := "node:a"; h_target_state_ref := Some "git:0";
       h_ttl := 30; h_deadline := 30 |}
    demo_store_wf demo_clock_mono _ _ (surjective_pairing _) _ _)).
  - vm_compute. reflexivity.
  - vm_compute. discriminate.
  - intros n Hn. change (clock_readings _) with 1%nat in Hn at 1.
    match type of Hn with (_ ≤ _ < ?x)%nat => change x with 3%nat in Hn end.
    unfold demo_clock. cbn [h_deadline]. lia.
  - constructor; [intros []|]. constructor; [|constructor].
    simpl. intros (_ & E & _). discriminate E.
Defined.

Definition demo_taken_over : LaneLeaseStore :=
  (run_ops demo_clock demo_run empty_lease_store).2.

Lemma demo_taken_over_wf : lease_wf demo_taken_over.
Proof.
  apply (run_ops_tokens demo_clock demo_run empty_lease_store _ _ demo_key
    lease_wf_empty (surjective_pairing _)).
Qed.

Lemma stale_token_rejected_witness :
  let step := run_op demo_clock (Release CODEGEN "repo:demo@main" "node:a" 1)
    demo_taken_over in
  step.1 = Raise (LeaseError "STALE_FENCE_TOKEN") ∨
  step.1 = Raise (LeaseError "LEASE_NOT_FOUND").
Proof.
  refine (proj1 (stale_token_rejected demo_clock [] demo_taken_over _ _
    CODEGEN "repo:demo@main" "node:a" 1 _ _ _ demo_taken_over_wf _ eq_refl
    (or_intror eq_refl) (surjective_pairing _))).
  vm_compute. reflexivity.
Defined.
