(* ===== verification/Ledger.v ===== *)
(** * The operation ledger

    [src/core/runner_vnext_ledger.py]: the append-only SQLite event table, the
    table of execution starts, and the operations that reserve, rebind, start
    and finish an operation.  Rows are kept in [sequence] order (the rowid
    order of the primary key); [touched_resource_refs] is the JSON text the
    column holds.  CHECK and UNIQUE violations raise, as SQLite does. *)

From S2P Require Import Prelude.
From S2P Require Import PyStr.
From S2P Require Import Json.
From S2P Require Import Sha256.
From S2P Require Import Leases.

(** ** Rows and events *)
Record OperationIdentity := {
  id_operation_id : string;
  id_idempotency_key : string;
  id_target_state_ref : string
}.

#[global] Instance OperationIdentity_eq_dec : EqDecision OperationIdentity.
Proof. solve_decision. Defined.

Record ExecutionStartEvidence := {
  start_identity : OperationIdentity;
  start_fence_token : Z;
  start_execution_grant_hash : string;
  start_reservation_scope_hash : string
}.

(** The values the [event_type] CHECK admits. *)
Inductive EventType := RESERVED | FENCE_REBOUND | COMPLETED | FAILED.

#[global] Instance EventType_eq_dec : EqDecision EventType.
Proof. solve_decision. Defined.

Definition event_type_value (t : EventType) : string :=
  match t with
  | RESERVED => "RESERVED" | FENCE_REBOUND => "FENCE_REBOUND"
  | COMPLETED => "COMPLETED" | FAILED => "FAILED"
  end.

Record LedgerEvent := {
  ev_sequence : Z;
  ev_identity : OperationIdentity;
  ev_event_type : EventType;
  ev_fence_token : Z;
  ev_reason_code : string;
  ev_touched_resource_refs : list string;
  ev_before_state_ref : option string;
  ev_after_state_ref : option string;
  ev_validation_status : option string;
  ev_external_dedupe_nonce : option string;
  ev_reservation_scope_hash : option string
}.

(** A row of [runner_vnext_operation_events]. *)
Record event_row := {
  row_sequence : Z;
  row_operation_id : string;
  row_idempotency_key : string;
  row_target_state_ref : string;
  row_event_type : EventType;
  row_terminal : bool;
  row_fence_token : Z;
  row_reason_code : string;
  row_touched_resource_refs : string;
  row_before_state_ref : option string;
  row_after_state_ref : option string;
  row_validation_status : option string;
  row_external_dedupe_nonce : option string;
  row_reservation_scope_hash : option string
}.

(** A row of [runner_vnext_operation_starts], keyed by [idempotency_key]. *)
Record start_row := {
  srow_operation_id : string;
  srow_idempotency_key : string;
  srow_target_state_ref : string;
  srow_fence_token : Z;
  srow_execution_grant_hash : string;
  srow_reservation_scope_hash : string
}.

Record OperationLedger := {
  operation_events : list event_row;
  operation_starts : gmap string start_row;
  last_sequence : Z
}.

Definition empty_ledger : OperationLedger :=
  {| operation_events := []; operation_starts := ∅; last_sequence := 0 |}.

(** ** Reading rows *)
Definition row_identity (r : event_row) : OperationIdentity :=
  {| id_operation_id := row_operation_id r; id_idempotency_key := row_idempotency_key r;
     id_target_state_ref := row_target_state_ref r |}.

Definition _start_evidence (row : option start_row) : result ExecutionStartEvidence :=
  row ← some_or row (LedgerError "EXECUTION_START_EVIDENCE_MISSING");
  Ok {| start_identity := {| id_operation_id := srow_operation_id row;
          id_idempotency_key := srow_idempotency_key row;
          id_target_state_ref := srow_target_state_ref row |};
        start_fence_token := srow_fence_token row;
        start_execution_grant_hash := srow_execution_grant_hash row;
        start_reservation_scope_hash := srow_reservation_scope_hash row |}.

Definition _event (row : option event_row) : result LedgerEvent :=
  row ← some_or row (LedgerError "LEDGER_EVENT_MISSING");
  refs ← some_or (load_strs (row_touched_resource_refs row)) (ValueError "JSONDecodeError");
  Ok {| ev_sequence := row_sequence row;
        ev_identity := row_identity row;
        ev_event_type := row_event_type row;
        ev_fence_token := row_fence_token row;
        ev_reason_code := row_reason_code row;
        ev_touched_resource_refs := refs;
        ev_before_state_ref := row_before_state_ref row;
        ev_after_state_ref := row_after_state_ref row;
        ev_validation_status := row_validation_status row;
        ev_external_dedupe_nonce := row_external_dedupe_nonce row;
        ev_reservation_scope_hash := row_reservation_scope_hash row |}.

(** ** Argument checks *)
Definition _public_refs (refs : list string) : result unit :=
  each (λ ref, raise_if
    (falsy ref || startswith_any ["/"; "~"] ref || contains "\" ref
     || contains ".." ref || negb (contains ":" ref))
    (LedgerError "PUBLIC_RESOURCE_REF_REQUIRED")) refs.

Definition _identity (identity : OperationIdentity) : result unit :=
  raise_if (falsy (id_operation_id identity) || falsy (id_idempotency_key identity)
            || falsy (id_target_state_ref identity))
    (LedgerError "OPERATION_IDENTITY_REQUIRED");;
  _public_refs [id_target_state_ref identity].

Definition _fence (value : Z) : result unit :=
  raise_if (value <? 1) (LedgerError "FENCE_TOKEN_INVALID").

Definition reason_alphabet : string := "ABCDEFGHIJKLMNOPQRSTUVWXYZ0123456789_".

Definition _reason (value : string) : result unit :=
  raise_if (falsy value || any_char (λ ch, negb (char_in reason_alphabet ch)) value)
    (LedgerError "LEDGER_REASON_CODE_INVALID").

Definition _nonce (value : option string) : result unit :=
  match value with
  | None => Ok tt
  | Some v =>
      raise_if (falsy v || (128 <? Z.of_nat (String.length v)) || any_char isspace v)
        (LedgerError "EXTERNAL_DEDUPE_NONCE_INVALID")
  end.

Definition _scope_hash (value : string) : result unit :=
  raise_if ((Z.of_nat (String.length value) != 64)
            || any_char (λ ch, negb (char_in "0123456789abcdef" ch)) value)
    (LedgerError "RESERVATION_SCOPE_HASH_INVALID").

(** ** Queries *)
Definition _reservation (key : string) (l : OperationLedger) : option event_row :=
  head (filter (λ e, row_idempotency_key e = key ∧ row_event_type e = RESERVED)
    (operation_events l)).

Definition _start (key : string) (l : OperationLedger) : option start_row :=
  operation_starts l !! key.

Definition _terminal (key : string) (l : OperationLedger) : option event_row :=
  head (filter (λ e, row_idempotency_key e = key ∧ row_terminal e = true)
    (operation_events l)).

(** [ORDER BY sequence DESC LIMIT 1] *)
Definition _latest (key : string) (l : OperationLedger) : result event_row :=
  some_or (last (filter (λ e, row_idempotency_key e = key) (operation_events l)))
    (LedgerError "OPERATION_NOT_RESERVED").

Definition _current_fence (key : string) (l : OperationLedger) : result Z :=
  row ← _latest key l; Ok (row_fence_token row).

Definition _reservation_scope_hash (key : string) (l : OperationLedger) : result string :=
  match _reservation key l with
  | None => Raise (LedgerError "RESERVATION_SCOPE_HASH_MISSING")
  | Some row =>
      match row_reservation_scope_hash row with
      | None => Raise (LedgerError "RESERVATION_SCOPE_HASH_MISSING")
      | Some h => raise_if (falsy h) (LedgerError "RESERVATION_SCOPE_HASH_MISSING");; Ok h
      end
  end.

Definition _require_identity (identity : OperationIdentity) (l : OperationLedger) : result unit :=
  let row := _reservation (id_idempotency_key identity) l in
  _ ← some_or row (LedgerError "OPERATION_NOT_RESERVED");
  ev ← _event row;
  raise_if (ev_identity ev != identity) (LedgerError "IDEMPOTENCY_TARGET_STATE_MISMATCH").

Definition started_event (key : string) (l : OperationLedger) : result ExecutionStartEvidence :=
  _start_evidence (_start key l).

Definition history (key : string) (l : OperationLedger) : result (list LedgerEvent) :=
  collect (λ row, _event (Some row))
    (filter (λ e, row_idempotency_key e = key) (operation_events l)).

Definition reservation_event (key : string) (l : OperationLedger) : result LedgerEvent :=
  _event (_reservation key l).

Definition current_fence_token (key : string) (l : OperationLedger) : result Z :=
  _current_fence key l.

Definition status (key : string) (l : OperationLedger) : result (option string) :=
  events ← history key l;
  if is_empty events then Ok None
  else
    let terminal := filter (λ ev, ev_event_type ev ∈ [COMPLETED; FAILED]) events in
    match last terminal with
    | Some ev => Ok (Some (event_type_value (ev_event_type ev)))
    | None =>
        Ok (Some (match _start key l with Some _ => "STARTED" | None => "RESERVED" end))
    end.

(** ** [_insert] *)
Definition new_row (sequence : Z) (identity : OperationIdentity) (event_type : EventType)
    (terminal : bool) (fence_token : Z) (reason_code : string)
    (touched_resource_refs : list string)
    (before_state_ref after_state_ref validation_status external_dedupe_nonce
      reservation_scope_hash : option string) : event_row :=
  {| row_sequence := sequence;
     row_operation_id := id_operation_id identity;
     row_idempotency_key := id_idempotency_key identity;
     row_target_state_ref := id_target_state_ref identity;
     row_event_type := event_type; row_terminal := terminal;
     row_fence_token := fence_token; row_reason_code := reason_code;
     row_touched_resource_refs := dumps_default (jstrs touched_resource_refs);
     row_before_state_ref := before_state_ref; row_after_state_ref := after_state_ref;
     row_validation_status := validation_status;
     row_external_dedupe_nonce := external_dedupe_nonce;
     row_reservation_scope_hash := reservation_scope_hash |}.

Definition append_row (row : event_row) (l : OperationLedger) : OperationLedger :=
  {| operation_events := operation_events l ++ [row];
     operation_starts := operation_starts l;
     last_sequence := row_sequence row |}.

(** The checks SQLite makes: the integer range, the [CHECK] on the fence and
    the two partial unique indices. *)
Definition insert_checks (event_type : EventType) (terminal : bool) (fence_token : Z)
    (key : string) (l : OperationLedger) : result unit :=
  sqlite_int fence_token;;
  raise_if (fence_token <=? 0) (IntegrityError "CHECK constraint failed: fence_token");;
  raise_if ((event_type == RESERVED) && bool_decide (is_Some (_reservation key l)))
    (IntegrityError "UNIQUE constraint failed: idempotency_key");;
  raise_if (terminal && bool_decide (is_Some (_terminal key l)))
    (IntegrityError "UNIQUE constraint failed: idempotency_key").

Definition _insert (identity : OperationIdentity) (event_type : EventType) (terminal : bool)
    (fence_token : Z) (reason_code : string) (touched_resource_refs : list string)
    (before_state_ref after_state_ref validation_status external_dedupe_nonce
      reservation_scope_hash : option string) : M OperationLedger unit :=
  query (insert_checks event_type terminal fence_token (id_idempotency_key identity));;
  sequence ← gets last_sequence;
  modify (append_row (new_row (sequence + 1) identity event_type terminal fence_token
    reason_code touched_resource_refs before_state_ref after_state_ref validation_status
    external_dedupe_nonce reservation_scope_hash)).

(** ** Operations *)
Definition reserve (identity : OperationIdentity) (fence_token : Z)
    (reservation_scope_hash : string) (external_dedupe_nonce : option string)
    : M OperationLedger LedgerEvent :=
  let key := id_idempotency_key identity in
  lift (_identity identity);;
  lift (_fence fence_token);;
  lift (_scope_hash reservation_scope_hash);;
  lift (_nonce external_dedupe_nonce);;
  transaction (
    existing ← gets (_reservation key);
    match existing with
    | Some _ =>
        event ← lift (_event existing);
        lift (raise_if (ev_identity event != identity)
          (LedgerError "IDEMPOTENCY_TARGET_STATE_MISMATCH"));;
        lift (raise_if (ev_external_dedupe_nonce event != external_dedupe_nonce)
          (LedgerError "IDEMPOTENCY_DEDUPE_NONCE_MISMATCH"));;
        lift (raise_if (ev_reservation_scope_hash event != Some reservation_scope_hash)
          (LedgerError "IDEMPOTENCY_SCOPE_HASH_MISMATCH"));;
        mret event
    | None =>
        _insert identity RESERVED false fence_token "OPERATION_RESERVED" []
          None None None external_dedupe_nonce (Some reservation_scope_hash);;
        query (λ l, _event (_reservation key l))
    end).

Definition rebind_fence (identity : OperationIdentity) (expected_fence_token new_fence_token : Z)
    : M OperationLedger LedgerEvent :=
  let key := id_idempotency_key identity in
  lift (_fence expected_fence_token);;
  lift (_fence new_fence_token);;
  transaction (
    query (_require_identity identity);;
    terminal ← gets (_terminal key);
    lift (raise_if (bool_decide (is_Some terminal)) (LedgerError "TERMINAL_OPERATION_IMMUTABLE"));;
    start ← gets (_start key);
    lift (raise_if (bool_decide (is_Some start)) (LedgerError "OPERATION_STARTED_FENCE_IMMUTABLE"));;
    current ← query (_current_fence key);
    lift (raise_if (current != expected_fence_token) (LedgerError "STALE_FENCE_TOKEN"));;
    lift (raise_if (new_fence_token <=? current) (LedgerError "FENCE_TOKEN_NOT_MONOTONIC"));;
    scope ← query (_reservation_scope_hash key);
    _insert identity FENCE_REBOUND false new_fence_token "OPERATION_FENCE_REBOUND" []
      None None None None (Some scope);;
    query (λ l, row ← _latest key l; _event (Some row))).

(** [INSERT INTO runner_vnext_operation_starts] *)
Definition insert_start_checks (row : start_row) (l : OperationLedger) : result unit :=
  sqlite_int (srow_fence_token row);;
  raise_if (srow_fence_token row <=? 0) (IntegrityError "CHECK constraint failed: fence_token");;
  raise_if (bool_decide (is_Some (operation_starts l !! srow_idempotency_key row)))
    (IntegrityError "UNIQUE constraint failed: idempotency_key").

Definition put_start (row : start_row) (l : OperationLedger) : OperationLedger :=
  {| operation_events := operation_events l;
     operation_starts := <[srow_idempotency_key row := row]> (operation_starts l);
     last_sequence := last_sequence l |}.

Definition _insert_start (row : start_row) : M OperationLedger unit :=
  query (insert_start_checks row);; modify (put_start row).

Definition mark_started (identity : OperationIdentity) (fence_token : Z)
    (execution_grant_hash : string) : M OperationLedger ExecutionStartEvidence :=
  let key := id_idempotency_key identity in
  lift (_fence fence_token);;
  lift (_scope_hash execution_grant_hash);;
  transaction (
    query (_require_identity identity);;
    terminal ← gets (_terminal key);
    lift (raise_if (bool_decide (is_Some terminal)) (LedgerError "TERMINAL_OPERATION_IMMUTABLE"));;
    current ← query (_current_fence key);
    lift (raise_if (current != fence_token) (LedgerError "STALE_FENCE_TOKEN"));;
    scope_hash ← query (_reservation_scope_hash key);
    existing ← gets (_start key);
    match existing with
    | Some _ =>
        evidence ← lift (_start_evidence existing);
        if (start_identity evidence == identity)
           && (start_fence_token evidence == fence_token)
           && (start_execution_grant_hash evidence == execution_grant_hash)
           && (start_reservation_scope_hash evidence == scope_hash)
        then mret evidence
        else raise (LedgerError "EXECUTION_START_EVIDENCE_MISMATCH")
    | None =>
        _insert_start {| srow_operation_id := id_operation_id identity;
          srow_idempotency_key := key; srow_target_state_ref := id_target_state_ref identity;
          srow_fence_token := fence_token;
          srow_execution_grant_hash := execution_grant_hash;
          srow_reservation_scope_hash := scope_hash |};;
        query (λ l, _start_evidence (_start key l))
    end).

Definition finish (identity : OperationIdentity) (fence_token : Z) (success : bool)
    (reason_code : string) (touched_resource_refs : list string)
    (before_state_ref after_state_ref validation_status : string)
    : M OperationLedger LedgerEvent :=
  let key := id_idempotency_key identity in
  let requested_type := if success then COMPLETED else FAILED in
  lift (_fence fence_token);;
  lift (_reason reason_code);;
  lift (_public_refs touched_resource_refs);;
  lift (_public_refs [before_state_ref; after_state_ref]);;
  lift (raise_if (validation_status ∉? ["PASS"; "FAIL"])
    (LedgerError "LEDGER_VALIDATION_STATUS_INVALID"));;
  transaction (
    query (_require_identity identity);;
    terminal ← gets (_terminal key);
    match terminal with
    | Some _ =>
        existing ← lift (_event terminal);
        if (ev_fence_token existing == fence_token)
           && (ev_event_type existing == requested_type)
           && (ev_reason_code existing == reason_code)
           && (ev_touched_resource_refs existing == touched_resource_refs)
           && (ev_before_state_ref existing == Some before_state_ref)
           && (ev_after_state_ref existing == Some after_state_ref)
           && (ev_validation_status existing == Some validation_status)
        then mret existing
        else raise (LedgerError "TERMINAL_RECEIPT_MISMATCH")
    | None =>
        current ← query (_current_fence key);
        lift (raise_if (current != fence_token) (LedgerError "STALE_FENCE_TOKEN"));;
        scope ← query (_reservation_scope_hash key);
        _insert identity requested_type true fence_token reason_code touched_resource_refs
          (Some before_state_ref) (Some after_state_ref) (Some validation_status)
          None (Some scope);;
        query (λ l, _event (_terminal key l))
    end).

(** ** The specification: one phase per idempotency key

    What the ledger promises is stated on a single phase per key; the
    refinement below says that every operation of the store is the transition
    of its key's phase and leaves all other keys alone. *)
Inductive phase :=
  | Absent
  | Live (res : LedgerEvent) (fence : Z) (start : option ExecutionStartEvidence)
  | Done (res term : LedgerEvent) (start : option ExecutionStartEvidence).

#[global] Instance LedgerEvent_eq_dec : EqDecision LedgerEvent.
Proof. solve_decision. Defined.
#[global] Instance ExecutionStartEvidence_eq_dec : EqDecision ExecutionStartEvidence.
Proof. solve_decision. Defined.
#[global] Instance phase_eq_dec : EqDecision phase.
Proof. solve_decision. Defined.

(** The operations that write, with their arguments. *)
Inductive ledger_op :=
  | OpReserve (identity : OperationIdentity) (fence_token : Z) (scope : string)
      (nonce : option string)
  | OpRebind (identity : OperationIdentity) (expected_fence_token new_fence_token : Z)
  | OpStart (identity : OperationIdentity) (fence_token : Z) (grant : string)
  | OpFinish (identity : OperationIdentity) (fence_token : Z) (success : bool)
      (reason : string) (refs : list string) (before after validation : string).

Inductive ledger_reply :=
  | REvent (e : LedgerEvent)
  | RStart (s : ExecutionStartEvidence).

Definition op_identity (op : ledger_op) : OperationIdentity :=
  match op with
  | OpReserve i _ _ _ | OpRebind i _ _ | OpStart i _ _ | OpFinish i _ _ _ _ _ _ _ => i
  end.

Definition op_key (op : ledger_op) : string := id_idempotency_key (op_identity op).

Definition ledger_step (op : ledger_op) : M OperationLedger ledger_reply :=
  match op with
  | OpReserve i f s n => e ← reserve i f s n; mret (REvent e)
  | OpRebind i f g => e ← rebind_fence i f g; mret (REvent e)
  | OpStart i f g => e ← mark_started i f g; mret (RStart e)
  | OpFinish i f ok r refs b a v => e ← finish i f ok r refs b a v; mret (REvent e)
  end.

(** A sequence of calls; a raising call leaves the state it left. *)
Definition ledger_run (ops : list ledger_op) (l : OperationLedger) : OperationLedger :=
  foldl (λ l op, (ledger_step op l).2) l ops.

Section spec.
(** [seq] is the sequence number the next event would get. *)
Context (seq : Z).

Definition new_event (identity : OperationIdentity) (t : EventType) (fence_token : Z)
    (reason : string) (refs : list string) (before after validation nonce scope : option string)
    : LedgerEvent :=
  {| ev_sequence := seq; ev_identity := identity; ev_event_type := t;
     ev_fence_token := fence_token; ev_reason_code := reason;
     ev_touched_resource_refs := refs; ev_before_state_ref := before;
     ev_after_state_ref := after; ev_validation_status := validation;
     ev_external_dedupe_nonce := nonce; ev_reservation_scope_hash := scope |}.

(** The reservation of a phase, checked against the caller's identity. *)
Definition spec_reservation (identity : OperationIdentity) (p : phase) : result LedgerEvent :=
  match p with
  | Absent => Raise (LedgerError "OPERATION_NOT_RESERVED")
  | Live res _ _ | Done res _ _ =>
      raise_if (ev_identity res != identity)
        (LedgerError "IDEMPOTENCY_TARGET_STATE_MISMATCH");; Ok res
  end.

Definition spec_reserve (identity : OperationIdentity) (fence_token : Z) (scope : string)
    (nonce : option string) (p : phase) : result (LedgerEvent * phase) :=
  _identity identity;; _fence fence_token;; _scope_hash scope;; _nonce nonce;;
  match p with
  | Absent =>
      let e := new_event identity RESERVED fence_token "OPERATION_RESERVED" []
        None None None nonce (Some scope) in
      sqlite_int fence_token;; Ok (e, Live e fence_token None)
  | Live res _ _ | Done res _ _ =>
      spec_reservation identity p;;
      raise_if (ev_external_dedupe_nonce res != nonce)
        (LedgerError "IDEMPOTENCY_DEDUPE_NONCE_MISMATCH");;
      raise_if (ev_reservation_scope_hash res != Some scope)
        (LedgerError "IDEMPOTENCY_SCOPE_HASH_MISMATCH");;
      Ok (res, p)
  end.

Definition spec_rebind (identity : OperationIdentity) (expected new : Z) (p : phase)
    : result (LedgerEvent * phase) :=
  _fence expected;; _fence new;;
  res ← spec_reservation identity p;
  match p with
  | Live _ _ (Some _) => Raise (LedgerError "OPERATION_STARTED_FENCE_IMMUTABLE")
  | Live _ fence None =>
      raise_if (fence != expected) (LedgerError "STALE_FENCE_TOKEN");;
      raise_if (new <=? fence) (LedgerError "FENCE_TOKEN_NOT_MONOTONIC");;
      sqlite_int new;;
      Ok (new_event identity FENCE_REBOUND new "OPERATION_FENCE_REBOUND" []
            None None None None (ev_reservation_scope_hash res),
          Live res new None)
  | _ => Raise (LedgerError "TERMINAL_OPERATION_IMMUTABLE")
  end.

Definition spec_start (identity : OperationIdentity) (fence_token : Z) (grant : string)
    (p : phase) : result (ExecutionStartEvidence * phase) :=
  _fence fence_token;; _scope_hash grant;;
  res ← spec_reservation identity p;
  match p with
  | Live _ fence start =>
      raise_if (fence != fence_token) (LedgerError "STALE_FENCE_TOKEN");;
      let mine := {| start_identity := identity; start_fence_token := fence_token;
                     start_execution_grant_hash := grant;
                     start_reservation_scope_hash :=
                       default "" (ev_reservation_scope_hash res) |} in
      match start with
      | Some s =>
          raise_if (s != mine) (LedgerError "EXECUTION_START_EVIDENCE_MISMATCH");; Ok (s, p)
      | None => Ok (mine, Live res fence (Some mine))
      end
  | _ => Raise (LedgerError "TERMINAL_OPERATION_IMMUTABLE")
  end.

Definition spec_finish (identity : OperationIdentity) (fence_token : Z) (success : bool)
    (reason : string) (refs : list string) (before after validation : string) (p : phase)
    : result (LedgerEvent * phase) :=
  _fence fence_token;; _reason reason;; _public_refs refs;; _public_refs [before; after];;
  raise_if (validation ∉? ["PASS"; "FAIL"]) (LedgerError "LEDGER_VALIDATION_STATUS_INVALID");;
  res ← spec_reservation identity p;
  let e := new_event identity (if success then COMPLETED else FAILED) fence_token reason refs
    (Some before) (Some after) (Some validation) None (ev_reservation_scope_hash res) in
  match p with
  | Live _ fence start =>
      raise_if (fence != fence_token) (LedgerError "STALE_FENCE_TOKEN");;
      Ok (e, Done res e start)
  | Done _ term _ =>
      raise_if (negb (
          (ev_fence_token term == fence_token) && (ev_event_type term == ev_event_type e)
          && (ev_reason_code term == reason) && (ev_touched_resource_refs term == refs)
          && (ev_before_state_ref term == Some before)
          && (ev_after_state_ref term == Some after)
          && (ev_validation_status term == Some validation)))
        (LedgerError "TERMINAL_RECEIPT_MISMATCH");; Ok (term, p)
  | Absent => Raise (LedgerError "OPERATION_NOT_RESERVED")
  end.

Definition spec_step (op : ledger_op) (p : phase) : result (ledger_reply * phase) :=
  match op with
  | OpReserve i f s n => x ← spec_reserve i f s n p; Ok (REvent x.1, x.2)
  | OpRebind i f g => x ← spec_rebind i f g p; Ok (REvent x.1, x.2)
  | OpStart i f g => x ← spec_start i f g p; Ok (RStart x.1, x.2)
  | OpFinish i f ok r refs b a v => x ← spec_finish i f ok r refs b a v p; Ok (REvent x.1, x.2)
  end.
End spec.

(** ** The phase a store is in *)
Definition event_of (r : event_row) : LedgerEvent :=
  {| ev_sequence := row_sequence r; ev_identity := row_identity r;
     ev_event_type := row_event_type r; ev_fence_token := row_fence_token r;
     ev_reason_code := row_reason_code r;
     ev_touched_resource_refs := default [] (load_strs (row_touched_resource_refs r));
     ev_before_state_ref := row_before_state_ref r; ev_after_state_ref := row_after_state_ref r;
     ev_validation_status := row_validation_status r;
     ev_external_dedupe_nonce := row_external_dedupe_nonce r;
     ev_reservation_scope_hash := row_reservation_scope_hash r |}.

Definition start_of (s : start_row) : ExecutionStartEvidence :=
  {| start_identity := {| id_operation_id := srow_operation_id s;
       id_idempotency_key := srow_idempotency_key s;
       id_target_state_ref := srow_target_state_ref s |};
     start_fence_token := srow_fence_token s;
     start_execution_grant_hash := srow_execution_grant_hash s;
     start_reservation_scope_hash := srow_reservation_scope_hash s |}.

Definition key_events (key : string) (l : OperationLedger) : list event_row :=
  filter (λ e, row_idempotency_key e = key) (operation_events l).

(** The phase a list of one key's rows tells, read from the left. *)
Inductive life :=
  | Unreserved
  | Reserved (res : event_row) (fence : Z)
  | Finished (res term : event_row).

Definition advance (p : option life) (e : event_row) : option life :=
  match p with
  | Some Unreserved =>
      if (row_event_type e == RESERVED) && negb (row_terminal e)
         && negb (opt_falsy (row_reservation_scope_hash e))
      then Some (Reserved e (row_fence_token e)) else None
  | Some (Reserved r fence) =>
      if row_identity e != row_identity r then None
      else match row_event_type e with
           | FENCE_REBOUND =>
               if negb (row_terminal e) && (fence <? row_fence_token e)
               then Some (Reserved r (row_fence_token e)) else None
           | COMPLETED | FAILED =>
               if row_terminal e && (row_fence_token e == fence)
               then Some (Finished r e) else None
           | RESERVED => None
           end
  | _ => None
  end.

Definition replay (rows : list event_row) : option life := foldl advance (Some Unreserved) rows.

Definition life_phase (p : option life) (start : option ExecutionStartEvidence) : phase :=
  match p with
  | Some (Reserved r fence) => Live (event_of r) fence start
  | Some (Finished r t) => Done (event_of r) (event_of t) start
  | _ => Absent
  end.

Definition phase_of (key : string) (l : OperationLedger) : phase :=
  life_phase (replay (key_events key l)) (start_of <$> _start key l).

(** ** The invariant *)
Definition start_agrees (p : life) (start : option start_row) : Prop :=
  match start, p with
  | None, _ => True
  | Some s, Reserved r fence =>
      start_identity (start_of s) = row_identity r ∧ srow_fence_token s = fence ∧
      row_reservation_scope_hash r = Some (srow_reservation_scope_hash s)
  | Some s, Finished r t =>
      start_identity (start_of s) = row_identity r ∧
      srow_fence_token s = row_fence_token t ∧
      row_reservation_scope_hash r = Some (srow_reservation_scope_hash s)
  | Some _, Unreserved => False
  end.

Definition row_wf (r : event_row) : Prop :=
  (∃ refs, row_touched_resource_refs r = dumps_default (jstrs refs)) ∧
  1 ≤ row_fence_token r < 2 ^ 63.

Record ledger_wf (l : OperationLedger) : Prop := {
  wf_phases : ∀ key, ∃ p,
    replay (key_events key l) = Some p ∧ start_agrees p (_start key l);
  wf_rows : Forall row_wf (operation_events l);
  wf_sequence : row_sequence <$> operation_events l = seqZ 1 (last_sequence l);
  wf_last : 0 ≤ last_sequence l
}.

(** ** Reading a key's rows back *)
Lemma replay_snoc rows e : replay (rows ++ [e]) = advance (replay rows) e.
Proof. apply foldl_snoc. Qed.

(** What the queries find among the rows of a key in a given phase. *)
Definition rows_of (p : life) (rows : list event_row) : Prop :=
  let reservations := filter (λ e, row_event_type e = RESERVED) rows in
  let terminals := filter (λ e, row_terminal e = true) rows in
  match p with
  | Unreserved => rows = []
  | Reserved r fence =>
      reservations = [r] ∧ terminals = [] ∧
      (∃ e, last rows = Some e ∧ row_fence_token e = fence) ∧
      opt_falsy (row_reservation_scope_hash r) = false
  | Finished r t =>
      reservations = [r] ∧ terminals = [t] ∧ last rows = Some t ∧
      row_identity t = row_identity r ∧
      opt_falsy (row_reservation_scope_hash r) = false
  end.

Lemma filter_last (keep : event_row → Prop) `{∀ e, Decision (keep e)} rows e :
  filter keep (rows ++ [e]) = filter keep rows ++ if decide (keep e) then [e] else [].
Proof. rewrite filter_app, filter_cons. by destruct (decide (keep e)). Qed.

Lemma replay_rows rows p : replay rows = Some p → rows_of p rows.
Proof.
  revert p. induction rows as [|e rows IH] using rev_ind; intros p.
  { by intros [= <-]. }
  rewrite replay_snoc. intros Hadv.
  destruct (replay rows) as [q|] eqn:Hq; [|done]. specialize (IH q eq_refl).
  destruct q as [|r f|r t]; simpl in *; [| |done].
  - destruct (row_event_type e) eqn:Ht, (row_terminal e) eqn:Hterm,
      (opt_falsy (row_reservation_scope_hash e)) eqn:Hs; try done.
    injection Hadv as <-. subst rows. simpl.
    rewrite !filter_cons, !filter_nil, Ht, Hterm. simpl. split_and!; eauto.
  - destruct IH as (Hr & Hte & (e' & Hl & Hf) & Hs).
    case_bool_decide as Hid; simpl in Hadv; [|done].
    destruct (row_event_type e) eqn:Ht, (row_terminal e) eqn:Hterm; simpl in Hadv; try done.
    + destruct (f <? row_fence_token e); [|done]. injection Hadv as <-. simpl.
      rewrite !filter_last, Ht, Hterm, Hr, Hte, last_snoc. simpl.
      split_and!; eauto.
    + case_bool_decide; [|done]. injection Hadv as <-. simpl.
      by rewrite !filter_last, Ht, Hterm, Hr, Hte, last_snoc.
    + case_bool_decide; [|done]. injection Hadv as <-. simpl.
      by rewrite !filter_last, Ht, Hterm, Hr, Hte, last_snoc.
Qed.

Lemma _reservation_rows key l :
  _reservation key l = head (filter (λ e, row_event_type e = RESERVED) (key_events key l)).
Proof.
  unfold _reservation, key_events. rewrite list_filter_filter. f_equal.
  apply list_filter_iff. tauto.
Qed.

Lemma _terminal_rows key l :
  _terminal key l = head (filter (λ e, row_terminal e = true) (key_events key l)).
Proof.
  unfold _terminal, key_events. rewrite list_filter_filter. f_equal.
  apply list_filter_iff. tauto.
Qed.

Lemma _latest_rows key l :
  _latest key l = some_or (last (key_events key l)) (LedgerError "OPERATION_NOT_RESERVED").
Proof. done. Qed.

(** Everything the operations ask of a key, by its phase. *)
Inductive view (key : string) (l : OperationLedger) : phase → Prop :=
  | view_absent :
      key_events key l = [] → _reservation key l = None → _terminal key l = None →
      _start key l = None → view key l Absent
  | view_live r e scope :
      _reservation key l = Some r → _terminal key l = None → _latest key l = Ok e →
      1 ≤ row_fence_token e < 2 ^ 63 →
      _event (Some r) = Ok (event_of r) →
      row_reservation_scope_hash r = Some scope →
      _reservation_scope_hash key l = Ok scope →
      replay (key_events key l) = Some (Reserved r (row_fence_token e)) →
      start_agrees (Reserved r (row_fence_token e)) (_start key l) →
      view key l (Live (event_of r) (row_fence_token e) (start_of <$> _start key l))
  | view_done r t scope :
      _reservation key l = Some r → _terminal key l = Some t → _latest key l = Ok t →
      _event (Some r) = Ok (event_of r) → _event (Some t) = Ok (event_of t) →
      row_reservation_scope_hash r = Some scope →
      _reservation_scope_hash key l = Ok scope →
      replay (key_events key l) = Some (Finished r t) →
      view key l (Done (event_of r) (event_of t) (start_of <$> _start key l)).

Lemma event_wf r : row_wf r → _event (Some r) = Ok (event_of r).
Proof.
  intros [[refs Hr] _]. unfold _event, event_of. simpl. rewrite Hr.
  by rewrite load_strs_dumps.
Qed.

Lemma key_events_in key l r :
  r ∈ key_events key l ↔ row_idempotency_key r = key ∧ r ∈ operation_events l.
Proof. unfold key_events. by rewrite list_elem_of_filter. Qed.

Lemma key_row_wf key l r : ledger_wf l → r ∈ key_events key l → row_wf r.
Proof.
  intros Hwf [_ Hin]%key_events_in. pose proof (wf_rows _ Hwf) as Hall.
  rewrite Forall_forall in Hall. auto.
Qed.

Lemma filter_head_in {A} (P : A → Prop) `{∀ x, Decision (P x)} l x l' :
  filter P l = x :: l' → P x ∧ x ∈ l.
Proof.
  intros E. rewrite <-(list_elem_of_filter P), E. constructor.
Qed.

Lemma phase_view key l : ledger_wf l → view key l (phase_of key l).
Proof.
  intros Hwf. destruct (wf_phases _ Hwf key) as (p & Hp & Hs).
  pose proof (replay_rows _ _ Hp) as Hrows. unfold phase_of. rewrite Hp.
  pose proof (_reservation_rows key l) as Hres. pose proof (_terminal_rows key l) as Hter.
  pose proof (_latest_rows key l) as Hlat.
  destruct p as [|r f|r t]; simpl in Hrows.
  - rewrite Hrows in Hres, Hter.
    constructor; auto. by destruct (_start key l).
  - destruct Hrows as (Hr & Ht & (e & Hl & <-) & Hsc).
    rewrite Hr in Hres. rewrite Ht in Hter. rewrite Hl in Hlat.
    apply filter_head_in in Hr as [_ Hr%(key_row_wf _ _ _ Hwf)].
    destruct (row_reservation_scope_hash r) as [scope|] eqn:Hscope; [|done].
    apply last_Some_elem_of, (key_row_wf _ _ _ Hwf) in Hl.
    eapply view_live with (scope := scope); eauto using event_wf.
    + apply Hl.
    + unfold _reservation_scope_hash. rewrite Hres. simpl. rewrite Hscope.
      simpl in Hsc. by rewrite Hsc.
  - destruct Hrows as (Hr & Ht & Hl & _ & Hsc).
    rewrite Hr in Hres. rewrite Ht in Hter. rewrite Hl in Hlat.
    apply filter_head_in in Hr as [_ Hr%(key_row_wf _ _ _ Hwf)].
    destruct (row_reservation_scope_hash r) as [scope|] eqn:Hscope; [|done].
    apply last_Some_elem_of, (key_row_wf _ _ _ Hwf) in Hl.
    eapply view_done with (scope := scope); eauto using event_wf.
    unfold _reservation_scope_hash. rewrite Hres. simpl. rewrite Hscope.
    simpl in Hsc. by rewrite Hsc.
Qed.

(** ** What a write does to the phases *)
Lemma key_events_append row key l :
  key_events key (append_row row l) =
  key_events key l ++ (if decide (row_idempotency_key row = key) then [row] else []).
Proof.
  unfold key_events, append_row. cbn [operation_events].
  by rewrite filter_app, filter_cons, filter_nil.
Qed.

Lemma key_events_append_ne row key l :
  row_idempotency_key row ≠ key →
  key_events key (append_row row l) = key_events key l.
Proof. intros Hk. rewrite key_events_append, decide_False by done. apply app_nil_r. Qed.

Lemma key_events_append_eq row l :
  key_events (row_idempotency_key row) (append_row row l) =
  key_events (row_idempotency_key row) l ++ [row].
Proof. by rewrite key_events_append, decide_True. Qed.

Lemma replay_append row l :
  replay (key_events (row_idempotency_key row) (append_row row l)) =
  advance (replay (key_events (row_idempotency_key row) l)) row.
Proof. by rewrite key_events_append_eq, replay_snoc. Qed.

Lemma phase_of_append_ne row key l :
  row_idempotency_key row ≠ key → phase_of key (append_row row l) = phase_of key l.
Proof. intros Hk. unfold phase_of. by rewrite key_events_append_ne. Qed.

Lemma append_wf row l p :
  ledger_wf l → row_wf row → row_sequence row = last_sequence l + 1 →
  advance (replay (key_events (row_idempotency_key row) l)) row = Some p →
  start_agrees p (_start (row_idempotency_key row) l) →
  ledger_wf (append_row row l).
Proof.
  intros Hwf Hrow Hseq Hadv Hstart. pose proof (wf_last _ Hwf) as Hlast. split; simpl.
  - intros key. destruct (decide (row_idempotency_key row = key)) as [<-|Hk].
    + exists p. by rewrite replay_append.
    + rewrite key_events_append_ne by done. apply (wf_phases _ Hwf).
  - apply Forall_app_2; [apply (wf_rows _ Hwf)|by apply Forall_singleton].
  - rewrite fmap_app, (wf_sequence _ Hwf). simpl.
    rewrite Hseq, seqZ_app by lia. f_equal.
    rewrite Z.add_comm. done.
  - lia.
Qed.

Lemma put_start_wf s l p :
  ledger_wf l → replay (key_events (srow_idempotency_key s) l) = Some p →
  start_agrees p (Some s) → ledger_wf (put_start s l).
Proof.
  intros Hwf Hp Hs. split; try apply Hwf.
  intros key. unfold _start, key_events. simpl.
  destruct (decide (srow_idempotency_key s = key)) as [<-|Hk].
  - exists p. by rewrite lookup_insert_eq.
  - rewrite lookup_insert_ne by done. apply (wf_phases _ Hwf).
Qed.

Lemma phase_of_put_start_ne s key l :
  srow_idempotency_key s ≠ key → phase_of key (put_start s l) = phase_of key l.
Proof.
  intros Hk. unfold phase_of, _start, put_start. simpl. by rewrite lookup_insert_ne.
Qed.

Lemma event_of_new_row seq i t term f r refs b a v n s :
  event_of (new_row seq i t term f r refs b a v n s) = new_event seq i t f r refs b a v n s.
Proof.
  unfold event_of, new_row, new_event, row_identity. simpl.
  rewrite load_strs_dumps. by destruct i.
Qed.

Lemma row_identity_new_row seq i t term f r refs b a v n s :
  row_identity (new_row seq i t term f r refs b a v n s) = i.
Proof. by destruct i. Qed.

Lemma row_wf_new_row seq i t term f r refs b a v n s :
  1 ≤ f < 2 ^ 63 → row_wf (new_row seq i t term f r refs b a v n s).
Proof. intros Hf. split; [by exists refs|done]. Qed.

(** Nothing a store holds is ever changed or dropped. *)
Definition extends (l l' : OperationLedger) : Prop :=
  operation_events l `prefix_of` operation_events l' ∧
  operation_starts l ⊆ operation_starts l'.

(** A call that returned what the specification says, in a store whose phases
    are the specified ones. *)
Definition implements {A} (key : string) (l : OperationLedger) (spec : result (A * phase))
    (got : result A * OperationLedger) : Prop :=
  match spec with
  | Raise e => got = (Raise e, l)
  | Ok (a, p) => ∃ l', got = (Ok a, l') ∧ ledger_wf l' ∧ extends l l' ∧ phase_of key l' = p ∧
      (∀ k, k ≠ key → phase_of k l' = phase_of k l) ∧
      (p = phase_of key l → l' = l)
  end.

Lemma extends_refl l : extends l l.
Proof. done. Qed.

Lemma extends_trans l1 l2 l3 : extends l1 l2 → extends l2 l3 → extends l1 l3.
Proof. intros [H1 H2] [H3 H4]. split; etrans; eauto. Qed.

Lemma extends_append row l : extends l (append_row row l).
Proof. split; [by apply prefix_app_r|done]. Qed.

Lemma extends_put_start s l :
  operation_starts l !! srow_idempotency_key s = None → extends l (put_start s l).
Proof. intros Hs. split; [done|]. by apply insert_subseteq. Qed.

Lemma implements_same {A} key l (a : A) p :
  ledger_wf l → phase_of key l = p → implements key l (Ok (a, p)) (Ok a, l).
Proof. intros Hwf <-. by exists l. Qed.

(** The reservation checks, on a store and on its phase. *)
Lemma require_identity_run identity l :
  ledger_wf l →
  _require_identity identity l =
    (spec_reservation identity (phase_of (id_idempotency_key identity) l);; Ok tt).
Proof.
  intros Hwf. unfold _require_identity.
  destruct (phase_view (id_idempotency_key identity) l Hwf)
    as [_ Hr _ _|r e scope Hr _ _ _ He _ _ _ _|r t scope Hr _ _ He _ _ _ _]; rewrite Hr.
  - done.
  - cbn [some_or mbind result_bind]. rewrite He. cbn.
    by destruct (raise_if _ _) as [[]|].
  - cbn [some_or mbind result_bind]. rewrite He. cbn.
    by destruct (raise_if _ _) as [[]|].
Qed.

(** ** Each operation implements its transition *)
Lemma _fence_ok f : _fence f = Ok tt ↔ 1 ≤ f.
Proof. unfold _fence. rewrite raise_if_ok, Z.ltb_ge. lia. Qed.

Lemma any_char_false p s : any_char p s = false ↔ ∀ c, c ∈ chars s → p c = false.
Proof. apply existsb_false. Qed.

(** A fingerprint is an acceptable scope or grant hash. *)
Lemma _scope_hash_json_hash j : _scope_hash (json_hash j) = Ok tt.
Proof.
  unfold json_hash. destruct (text_hash_spec (dumps_canonical j)) as [Hl Hh].
  unfold _scope_hash. rewrite Hl. apply raise_if_ok, orb_false_iff. split; [done|].
  apply any_char_false. intros c Hc. unfold all_chars in Hh. rewrite forallb_elem in Hh.
  apply negb_false_iff, Hh, Hc.
Qed.

(** The case analysis on the phase of [key]; [Hp] keeps its name. *)
Ltac phase_cases key l Hwf :=
  let p := fresh "p" in
  remember (phase_of key l) as p eqn:Hp;
  assert (view key l p) as Hview by (subst p; by apply phase_view);
  destruct Hview
    as [Hk Hr Ht Hst|res lat scope Hr Ht Hlat Hb He Hscr Hsc Hrep Hag
       |res ter scope Hr Ht Hlat He Het Hscr Hsc Hrep].

Lemma insert_run i t term f r refs b a v n s l :
  1 ≤ f < 2 ^ 63 →
  (t = RESERVED → _reservation (id_idempotency_key i) l = None) →
  (term = true → _terminal (id_idempotency_key i) l = None) →
  _insert i t term f r refs b a v n s l =
    (Ok tt, append_row (new_row (last_sequence l + 1) i t term f r refs b a v n s) l).
Proof.
  intros Hf Hres Hter. unfold _insert, insert_checks. m_run.
  rewrite sqlite_int_in by lia.
  rewrite (proj2 (Z.leb_gt f 0)) by lia. cbn [raise_if].
  replace (_ && bool_decide (is_Some (_reservation _ _))) with false.
  2: { case_bool_decide as Ht; [|done]. by rewrite Hres. }
  cbn [raise_if]. destruct term; [by rewrite Hter|done].
Qed.

Lemma reserved_reservation key l r f :
  ledger_wf l → replay (key_events key l) = Some (Reserved r f) →
  _event (_reservation key l) = Ok (event_of r).
Proof. intros Hwf Hrep'. phase_cases key l Hwf; [by rewrite Hk in Hrep'|congruence..]. Qed.

Lemma finished_terminal key l r t :
  ledger_wf l → replay (key_events key l) = Some (Finished r t) →
  _event (_terminal key l) = Ok (event_of t).
Proof. intros Hwf Hrep'. phase_cases key l Hwf; [by rewrite Hk in Hrep'|congruence..]. Qed.

Lemma latest_append row key l :
  row_idempotency_key row = key → _latest key (append_row row l) = Ok row.
Proof. intros <-. by rewrite _latest_rows, key_events_append_eq, last_snoc. Qed.

(** Appending a row the phase admits, and reading it back, implements the
    phase's advance. *)
Lemma append_implements {A} (read : OperationLedger → result A) row l p a q :
  ledger_wf l → row_wf row → row_sequence row = last_sequence l + 1 →
  advance (replay (key_events (row_idempotency_key row) l)) row = Some p →
  start_agrees p (_start (row_idempotency_key row) l) →
  (ledger_wf (append_row row l) →
   replay (key_events (row_idempotency_key row) (append_row row l)) = Some p →
   read (append_row row l) = Ok a) →
  life_phase (Some p) (start_of <$> _start (row_idempotency_key row) l) = q →
  q ≠ phase_of (row_idempotency_key row) l →
  implements (row_idempotency_key row) l (Ok (a, q))
    match read (append_row row l) with
    | Ok a => (Ok a, append_row row l)
    | Raise e => (Raise e, l)
    end.
Proof.
  intros Hwf Hrow Hseq Hadv Hag Hread <- Hne.
  assert (ledger_wf (append_row row l)) as Hwf' by by eapply append_wf.
  assert (Hrep := replay_append row l). rewrite Hadv in Hrep.
  rewrite Hread by done. exists (append_row row l). split_and!; try done.
  - apply extends_append.
  - unfold phase_of. by rewrite Hrep.
  - intros k Hk. by apply phase_of_append_ne.
Qed.

Lemma reserve_implements i f s n l :
  ledger_wf l →
  implements (id_idempotency_key i) l
    (spec_reserve (last_sequence l + 1) i f s n (phase_of (id_idempotency_key i) l))
    (reserve i f s n l).
Proof.
  intros Hwf. unfold spec_reserve, reserve, spec_reservation. m_run.
  destruct (_identity i) as [[]|] eqn:Hi; [|done].
  destruct (_fence f) as [[]|] eqn:Hf; [|done]. apply _fence_ok in Hf.
  destruct (_scope_hash s) as [[]|] eqn:Hs; [|done].
  destruct (_nonce n) as [[]|] eqn:Hn; [|done].
  phase_cases (id_idempotency_key i) l Hwf; rewrite Hr.
  - destruct (decide (f < 2 ^ 63)) as [Hmax|Hmax].
    2: { unfold _insert, insert_checks. m_run. by rewrite sqlite_int_out by lia. }
    rewrite sqlite_int_in, insert_run by (done || lia).
    apply append_implements with
      (row := new_row (last_sequence l + 1) i RESERVED false f "OPERATION_RESERVED" []
         None None None n (Some s))
      (read := λ l, _event (_reservation (id_idempotency_key i) l))
      (p := Reserved (new_row (last_sequence l + 1) i RESERVED false f "OPERATION_RESERVED" []
         None None None n (Some s)) f);
      cbn [row_idempotency_key new_row]; rewrite ?Hk, ?Hst; try done.
    + by apply row_wf_new_row.
    + by destruct s.
    + intros Hwf' Hrep'. erewrite reserved_reservation by done. by rewrite event_of_new_row.
    + cbn [life_phase fmap option_fmap option_map]. by rewrite event_of_new_row.
    + by rewrite <-Hp.
  - rewrite He. cbn [event_of ev_identity].
    destruct (raise_if _ _) as [[]|]; [|done]. 
    destruct (raise_if _ _) as [[]|]; [|done]. 
    destruct (raise_if _ _) as [[]|]; [|done]. by apply implements_same.
  - rewrite He. cbn [event_of ev_identity].
    destruct (raise_if _ _) as [[]|]; [|done]. 
    destruct (raise_if _ _) as [[]|]; [|done]. 
    destruct (raise_if _ _) as [[]|]; [|done]. by apply implements_same.
Qed.

Lemma rebind_implements i f g l :
  ledger_wf l →
  implements (id_idempotency_key i) l
    (spec_rebind (last_sequence l + 1) i f g (phase_of (id_idempotency_key i) l))
    (rebind_fence i f g l).
Proof.
  intros Hwf. unfold spec_rebind, rebind_fence. m_run.
  destruct (_fence f) as [[]|] eqn:Hf; [|done].
  destruct (_fence g) as [[]|] eqn:Hg; [|done]. apply _fence_ok in Hg.
  rewrite require_identity_run by done. unfold spec_reservation.
  phase_cases (id_idempotency_key i) l Hwf; m_run; [done| |];
    (destruct (raise_if (ev_identity _ != _) _) as [[]|] eqn:Hid; [|done]);
    rewrite Ht; rewrite ?is_some_None, ?is_some_Some; cbn [raise_if]; [|done].
  destruct (_start (id_idempotency_key i) l) as [st|] eqn:Hst; [done|].
  rewrite is_some_None.
  cbn [raise_if fmap option_fmap option_map]. unfold _current_fence. rewrite Hlat. m_run.
  destruct (raise_if (row_fence_token lat != f) _) as [[]|] eqn:Hcur; [|done].
  destruct (raise_if (g <=? row_fence_token lat) _) as [[]|] eqn:Hmono; [|done].
  rewrite Hsc. destruct (decide (g < 2 ^ 63)) as [Hmax|Hmax].
  2: { unfold _insert, insert_checks. m_run. by rewrite sqlite_int_out by lia. }
  rewrite sqlite_int_in, insert_run by (done || lia).
  apply raise_if_ok, negb_false_iff, bool_decide_eq_true in Hid.
  apply raise_if_ok, Z.leb_gt in Hmono.
  apply append_implements with
    (row := new_row (last_sequence l + 1) i FENCE_REBOUND false g "OPERATION_FENCE_REBOUND" []
       None None None None (Some scope))
    (read := λ l, match _latest (id_idempotency_key i) l with
                  | Ok a => _event (Some a) | Raise e => Raise e end)
    (p := Reserved res g);
    cbn [row_idempotency_key new_row]; rewrite ?Hst; try done.
  - by apply row_wf_new_row.
  - rewrite Hrep. cbn [advance]. rewrite row_identity_new_row.
    rewrite bool_decide_eq_true_2 by done. cbn.
    by rewrite (proj2 (Z.ltb_lt _ _) Hmono).
  - intros _ _. rewrite latest_append by done.
    rewrite event_wf by (by apply row_wf_new_row).
    rewrite event_of_new_row. cbn [event_of ev_reservation_scope_hash]. by rewrite Hscr.
  - rewrite <-Hp. intros [= ]. lia.
Qed.

Lemma start_evidence_some st : _start_evidence (Some st) = Ok (start_of st).
Proof. done. Qed.

Lemma evidence_compare s i f g scope :
  (start_identity s == i) && (start_fence_token s == f)
    && (start_execution_grant_hash s == g) && (start_reservation_scope_hash s == scope) =
  (s == {| start_identity := i; start_fence_token := f; start_execution_grant_hash := g;
           start_reservation_scope_hash := scope |}).
Proof. destruct s; simpl. repeat case_bool_decide; naive_solver. Qed.

Lemma start_implements i f g l :
  ledger_wf l →
  implements (id_idempotency_key i) l
    (spec_start i f g (phase_of (id_idempotency_key i) l))
    (mark_started i f g l).
Proof.
  intros Hwf. unfold spec_start, mark_started. m_run.
  destruct (_fence f) as [[]|] eqn:Hf; [|done]. apply _fence_ok in Hf.
  destruct (_scope_hash g) as [[]|] eqn:Hg; [|done].
  rewrite require_identity_run by done. unfold spec_reservation.
  phase_cases (id_idempotency_key i) l Hwf; m_run; [done| |];
    (destruct (raise_if (ev_identity _ != _) _) as [[]|] eqn:Hid; [|done]);
    rewrite Ht; rewrite ?is_some_None, ?is_some_Some; cbn [raise_if]; [|done].
  unfold _current_fence. rewrite Hlat. m_run.
  destruct (raise_if (row_fence_token lat != f) _) as [[]|] eqn:Hcur; [|done].
  apply raise_if_ok, negb_false_iff, bool_decide_eq_true in Hid, Hcur. subst f.
  rewrite Hsc. cbn [event_of ev_reservation_scope_hash]. rewrite Hscr. cbn [default].
  destruct (_start (id_idempotency_key i) l) as [st|] eqn:Hst;
    cbn [fmap option_fmap option_map].
  - rewrite start_evidence_some. m_run. rewrite evidence_compare. unfold id.
    case_bool_decide; cbn [negb raise_if]; [by apply implements_same|done].
  - unfold _insert_start, insert_start_checks. m_run. cbn [srow_fence_token srow_idempotency_key].
    rewrite sqlite_int_in, (proj2 (Z.leb_gt (row_fence_token lat) 0)) by lia.
    cbn [raise_if]. unfold _start in *. rewrite Hst, is_some_None. cbn [raise_if].
    match goal with |- context [put_start ?row l] => set (st := row) end.
    assert (Hst' : operation_starts (put_start st l) !! id_idempotency_key i = Some st)
      by apply lookup_insert_eq.
    rewrite Hst', start_evidence_some.
    assert (Hsto : start_of st = {| start_identity := i;
      start_fence_token := row_fence_token lat; start_execution_grant_hash := g;
      start_reservation_scope_hash := scope |}) by (unfold st; by destruct i).
    unfold id. rewrite <-Hsto. exists (put_start st l). split_and!; try done.
    + eapply put_start_wf; [done|exact Hrep|]. 
      split_and!; [rewrite Hsto; symmetry; exact Hid|done|done].
    + by apply extends_put_start.
    + unfold phase_of, _start. rewrite Hst'. change (key_events _ (put_start st l)) with
        (key_events (id_idempotency_key i) l). by rewrite Hrep.
    + intros k Hk. by apply phase_of_put_start_ne.
    + by rewrite <-Hp.
Qed.

Lemma finish_implements i f ok r refs b a v l :
  ledger_wf l →
  implements (id_idempotency_key i) l
    (spec_finish (last_sequence l + 1) i f ok r refs b a v (phase_of (id_idempotency_key i) l))
    (finish i f ok r refs b a v l).
Proof.
  intros Hwf. unfold spec_finish, finish. m_run.
  destruct (_fence f) as [[]|] eqn:Hf; [|done]. apply _fence_ok in Hf.
  destruct (_reason r) as [[]|] eqn:Hreason; [|done].
  destruct (_public_refs refs) as [[]|] eqn:Hrefs; [|done].
  destruct (_public_refs [b; a]) as [[]|] eqn:Hba; [|done].
  destruct (raise_if (v ∉? _) _) as [[]|] eqn:Hv; [|done].
  rewrite require_identity_run by done. unfold spec_reservation.
  phase_cases (id_idempotency_key i) l Hwf; m_run; [done| |];
    (destruct (raise_if (ev_identity _ != _) _) as [[]|] eqn:Hid; [|done]);
    rewrite Ht.
  - unfold _current_fence. rewrite Hlat. m_run.
    destruct (raise_if (row_fence_token lat != f) _) as [[]|] eqn:Hcur; [|done].
    apply raise_if_ok, negb_false_iff, bool_decide_eq_true in Hid, Hcur. subst f.
    rewrite Hsc, insert_run by (try done; by destruct ok).
    set (row := new_row (last_sequence l + 1) i (if ok then COMPLETED else FAILED) true
       (row_fence_token lat) r refs (Some b) (Some a) (Some v) None (Some scope)).
    assert (Hrow : event_of row = new_event (last_sequence l + 1) i
      (if ok then COMPLETED else FAILED) (row_fence_token lat) r refs (Some b) (Some a)
      (Some v) None (ev_reservation_scope_hash (event_of res))).
    { unfold row. rewrite event_of_new_row. cbn [event_of ev_reservation_scope_hash].
      by rewrite Hscr. }
    apply append_implements with (row := row)
      (read := λ l, _event (_terminal (id_idempotency_key i) l))
      (p := Finished res row); unfold row; cbn [row_idempotency_key new_row]; fold row; try done.
    + by apply row_wf_new_row.
    + rewrite Hrep. cbn [advance]. unfold row. rewrite row_identity_new_row.
      rewrite bool_decide_eq_true_2 by done. cbn [negb]. fold row.
      by destruct ok; cbn; rewrite bool_decide_eq_true_2.
    + intros Hwf' Hrep'. erewrite finished_terminal by done. by rewrite Hrow.
    + cbn [life_phase]. by rewrite Hrow.
    + by rewrite <-Hp.
  - rewrite Het. m_run. cbn [new_event ev_event_type].
    destruct (_ && bool_decide (ev_validation_status _ = _)); cbn [negb raise_if]; [|done].
    by apply implements_same.
Qed.

(** ** The store as a whole *)
Lemma empty_ledger_wf : ledger_wf empty_ledger.
Proof. split; try done. intros key. by exists Unreserved. Qed.

Lemma implements_bind {A B} key l (spec : result (A * phase)) (m : M OperationLedger A)
    (g : A → B) :
  implements key l spec (m l) →
  implements key l (x ← spec; Ok (g x.1, x.2)) ((x ← m; mret (g x)) l).
Proof.
  m_run. destruct spec as [[x p]|e]; simpl; [intros (l' & -> & H); eauto|by intros ->].
Qed.

Lemma step_implements op l :
  ledger_wf l →
  implements (op_key op) l (spec_step (last_sequence l + 1) op (phase_of (op_key op) l))
    (ledger_step op l).
Proof.
  intros Hwf. destruct op; cbn [spec_step ledger_step op_key op_identity];
    apply (implements_bind _ _ _ _ _); eauto using reserve_implements, rebind_implements,
    start_implements, finish_implements.
Qed.

(** What a step guarantees, whatever it returned. *)
Lemma step_spec op l :
  ledger_wf l →
  let l' := (ledger_step op l).2 in
  ledger_wf l' ∧ extends l l' ∧
  match spec_step (last_sequence l + 1) op (phase_of (op_key op) l) with
  | Ok (a, p) => (ledger_step op l).1 = Ok a ∧ phase_of (op_key op) l' = p ∧
      (p = phase_of (op_key op) l → l' = l)
  | Raise e => (ledger_step op l).1 = Raise e ∧ l' = l
  end ∧
  ∀ k, k ≠ op_key op → phase_of k l' = phase_of k l.
Proof.
  intros Hwf. pose proof (step_implements op l Hwf) as H. simpl.
  destruct (spec_step _ _ _) as [[a p]|e]; simpl in H.
  - destruct H as (l' & -> & H). simpl. naive_solver.
  - rewrite H. simpl. split_and!; done.
Qed.

Lemma ledger_run_wf ops l : ledger_wf l → ledger_wf (ledger_run ops l) ∧ extends l (ledger_run ops l).
Proof.
  unfold ledger_run. revert l. induction ops as [|op ops IH]; intros l Hwf; [done|]. simpl.
  destruct (step_spec op l Hwf) as (Hwf' & Hext & _).
  destruct (IH _ Hwf') as [? ?]. split; [done|]. by eapply extends_trans.
Qed.

(** The order in which a phase may change: the reservation is fixed, the fence
    grows until the start, the start and the terminal event are fixed. *)
Definition phase_le (p q : phase) : Prop :=
  match p, q with
  | Absent, _ => True
  | Live r f None, Live r' f' _ => r = r' ∧ f ≤ f'
  | Live r f (Some s), Live r' f' s' => r = r' ∧ f = f' ∧ s' = Some s
  | Live r f None, Done r' t _ => r = r' ∧ f ≤ ev_fence_token t
  | Live r f (Some s), Done r' t s' => r = r' ∧ f = ev_fence_token t ∧ s' = Some s
  | Done _ _ _, _ => p = q
  | _, _ => False
  end.

#[global] Instance phase_le_preorder : PreOrder phase_le.
Proof.
  split.
  - intros [|r f [s|]|r t s]; simpl; auto with lia.
  - intros [|r f [s|]|r t s] [|r' f' [s'|]|r' t' s'] [|r'' f'' [s''|]|r'' t'' s'']; simpl;
      try done; intros; destruct_and?; simplify_eq; split_and?; try done; lia.
Qed.

Lemma spec_step_le seq op p a q : spec_step seq op p = Ok (a, q) → phase_le p q.
Proof.
  destruct op; simpl; intros H; inv_ok; simplify_eq/=;
    [unfold spec_reserve in Hr|unfold spec_rebind in Hr|unfold spec_start in Hr
    |unfold spec_finish in Hr]; inv_ok;
    (destruct p as [|r f [s|]|r t s]; inv_ok; simplify_eq/=; try done; try by reflexivity).
  all: inv_ok; simplify_eq/=; split_and?; done || lia.
Qed.

Lemma step_le op l k : ledger_wf l → phase_le (phase_of k l) (phase_of k (ledger_step op l).2).
Proof.
  intros Hwf. destruct (step_spec op l Hwf) as (_ & _ & Hop & Hne).
  destruct (decide (k = op_key op)) as [->|Hk]; [|by rewrite Hne].
  destruct (spec_step _ _ _) as [[a q]|e] eqn:E.
  - destruct Hop as (_ & -> & _). by eapply spec_step_le.
  - by destruct Hop as [_ ->].
Qed.

Lemma run_le ops l k : ledger_wf l → phase_le (phase_of k l) (phase_of k (ledger_run ops l)).
Proof.
  unfold ledger_run. revert l. induction ops as [|op ops IH]; intros l Hwf; simpl; [done|].
  etrans; [by apply step_le|]. apply IH. by apply step_spec.
Qed.

(** What a successful [mark_started] says of the phase. *)
Lemma spec_start_ok i f g p s q :
  spec_start i f g p = Ok (s, q) →
  ∃ res st, p = Live res f st ∧ ev_identity res = i ∧ q = Live res f (Some s) ∧
    (st = None ∨ st = Some s) ∧
    s = {| start_identity := i; start_fence_token := f; start_execution_grant_hash := g;
           start_reservation_scope_hash := default "" (ev_reservation_scope_hash res) |}.
Proof.
  unfold spec_start. intros H. inv_ok. destruct p as [|res fence [st|]|res t st];
    simpl in *; inv_ok; simplify_eq/=; eauto 10.
Qed.

(** Only terminal rows carry a terminal event type. *)
Lemma replay_terminal_types rows p :
  replay rows = Some p →
  Forall (λ e, row_terminal e = (row_event_type e ∈? [COMPLETED; FAILED])) rows.
Proof.
  revert p. induction rows as [|e rows IH] using rev_ind; intros p; [constructor|].
  rewrite replay_snoc. intros Hadv.
  destruct (replay rows) as [q|] eqn:Hq; [|done].
  apply Forall_app_2; [by eapply IH|]. apply Forall_singleton.
  destruct q as [|r f|r t]; simpl in Hadv; [| |done];
    destruct (row_event_type e), (row_terminal e); try done;
    revert Hadv; by case_match.
Qed.

Lemma history_run key l : ledger_wf l → history key l = Ok (event_of <$> key_events key l).
Proof.
  intros Hwf. unfold history. apply collect_ok. fold (key_events key l).
  apply Forall2_fmap_r, Forall_Forall2_diag, Forall_forall. intros r Hr.
  apply event_wf. by eapply key_row_wf.
Qed.

(** The status the specification gives a phase. *)
Definition phase_status (p : phase) : option string :=
  match p with
  | Absent => None
  | Live _ _ None => Some "RESERVED"
  | Live _ _ (Some _) => Some "STARTED"
  | Done _ t _ => Some (event_type_value (ev_event_type t))
  end.

Lemma terminal_events key l p :
  replay (key_events key l) = Some p →
  filter (λ ev, ev_event_type ev ∈ [COMPLETED; FAILED]) (event_of <$> key_events key l) =
  event_of <$> filter (λ e, row_terminal e = true) (key_events key l).
Proof.
  intros Hp. apply replay_terminal_types in Hp.
  induction Hp as [|e rows He _ IH]; [done|]. rewrite fmap_cons, !filter_cons, IH.
  cbn [ev_event_type event_of]. rewrite He.
  destruct (decide (row_event_type e ∈ _)) as [Hin|Hin].
  - by rewrite bool_decide_eq_true_2, decide_True.
  - by rewrite bool_decide_eq_false_2, decide_False.
Qed.

Lemma status_run key l : ledger_wf l → status key l = Ok (phase_status (phase_of key l)).
Proof.
  intros Hwf. unfold status. rewrite history_run by done. m_run.
  destruct (wf_phases _ Hwf key) as (p & Hp & _). pose proof (replay_rows _ _ Hp) as Hrows.
  unfold phase_of. rewrite Hp, (terminal_events _ _ _ Hp).
  destruct p as [|r f|r t]; cbn [rows_of] in Hrows.
  - by rewrite Hrows.
  - destruct Hrows as (_ & -> & (e & Hl & _) & _).
    destruct (key_events key l); [done|]. simpl. by destruct (_start key l).
  - destruct Hrows as (_ & -> & Hl & _). by destruct (key_events key l).
Qed.

(** A store reached from the empty one by calls. *)
Definition reached (ops : list ledger_op) : OperationLedger := ledger_run ops empty_ledger.

Lemma reached_wf ops : ledger_wf (reached ops).
Proof. apply ledger_run_wf, empty_ledger_wf. Qed.

Lemma reached_app ops ops' : reached (ops ++ ops') = ledger_run ops' (reached ops).
Proof. apply foldl_app. Qed.

(** Nothing happens to a terminal phase. *)
Lemma spec_step_done seq op res t st x p :
  spec_step seq op (Done res t st) = Ok (x, p) →
  p = Done res t st ∧
  op_identity op = ev_identity res ∧
  match op with
  | OpReserve _ _ s n =>
      x = REvent res ∧ n = ev_external_dedupe_nonce res ∧
      Some s = ev_reservation_scope_hash res
  | OpFinish _ f ok reason refs b a v =>
      x = REvent t ∧ f = ev_fence_token t ∧
      ev_event_type t = (if ok then COMPLETED else FAILED) ∧
      reason = ev_reason_code t ∧ refs = ev_touched_resource_refs t ∧
      Some b = ev_before_state_ref t ∧ Some a = ev_after_state_ref t ∧
      Some v = ev_validation_status t
  | OpRebind _ _ _ | OpStart _ _ _ => False
  end.
Proof.
  destruct op; cbn [spec_step op_identity]; intros H; inv_ok; simplify_eq/=;
    [unfold spec_reserve in Hr|unfold spec_rebind in Hr|unfold spec_start in Hr
    |unfold spec_finish in Hr]; inv_ok; simplify_eq/=; inv_ok; simplify_eq/=;
    split_and?; done.
Qed.

(** Whatever the phase, a step fails with a [LedgerError], or because a fence
    does not fit the store's integers: no constraint of the tables is ever
    violated. *)
Definition is_ledger_error (e : exn) : Prop := ∃ c, e = LedgerError c.
Definition is_overflow (e : exn) : Prop := ∃ m, e = OverflowError m.

(** The new fence a call would store. *)
Definition op_new_fence (op : ledger_op) : option Z :=
  match op with
  | OpReserve _ f _ _ | OpRebind _ _ f => Some f
  | _ => None
  end.

Lemma sqlite_int_raises (P : exn → Prop) f : (f < 2 ^ 63 ∨ ∀ m, P (OverflowError m)) → 1 ≤ f →
  only_raises P (sqlite_int f).
Proof.
  intros [Hf|HP] H1.
  - by rewrite sqlite_int_in by lia.
  - unfold sqlite_int. raises. apply HP.
Qed.

Lemma spec_step_raises (P : exn → Prop) seq op p :
  (∀ c, P (LedgerError c)) →
  (∀ f, op_new_fence op = Some f → f < 2 ^ 63 ∨ ∀ m, P (OverflowError m)) →
  only_raises P (spec_step seq op p).
Proof.
  intros HL HO.
  destruct op as [i f s n|i f g|i f g|i f ok reason refs b a v]; cbn [spec_step op_new_fence] in *;
    raises; unfold spec_reserve, spec_rebind, spec_start, spec_finish.
  - destruct (_fence f) as [[]|] eqn:Hf.
    2: { unfold _fence, _identity, _public_refs in *. destruct (f <? 1); [|done].
         simplify_eq/=. raises; apply HL. }
    apply _fence_ok in Hf. unfold _identity, _public_refs, _scope_hash, _nonce, spec_reservation.
    raises; try apply HL; apply sqlite_int_raises; auto.
  - destruct (_fence g) as [[]|] eqn:Hg.
    2: { unfold _fence in *. destruct (g <? 1); [|done]. simplify_eq/=. raises; apply HL. }
    apply _fence_ok in Hg. unfold _fence, spec_reservation.
    raises; try apply HL; apply sqlite_int_raises; auto.
  - unfold _fence, _scope_hash, spec_reservation. raises; apply HL.
  - unfold _fence, _reason, _public_refs, spec_reservation. raises; apply HL.
Qed.

Lemma spec_step_done_raise seq op res t st e :
  spec_step seq op (Done res t st) = Raise e → ∃ c, e = LedgerError c.
Proof.
  apply (only_raises_elim is_ledger_error).
  destruct op; cbn [spec_step]; raises;
    unfold spec_reserve, spec_rebind, spec_start, spec_finish, spec_reservation, _identity,
      _public_refs, _fence, _scope_hash, _reason, _nonce; raises; by eexists.
Qed.

(** What the invariant says of a key's phase. *)
Definition reservation_facts (key : string) (res : LedgerEvent) : Prop :=
  ev_event_type res = RESERVED ∧ id_idempotency_key (ev_identity res) = key ∧
  opt_falsy (ev_reservation_scope_hash res) = false.

Definition start_facts (res : LedgerEvent) (fence : Z) (start : option ExecutionStartEvidence)
    : Prop :=
  ∀ s, start = Some s → start_identity s = ev_identity res ∧ start_fence_token s = fence ∧
    ev_reservation_scope_hash res = Some (start_reservation_scope_hash s).

Definition phase_facts (key : string) (p : phase) : Prop :=
  match p with
  | Absent => True
  | Live res fence start =>
      reservation_facts key res ∧ start_facts res fence start ∧ 1 ≤ fence < 2 ^ 63
  | Done res t start =>
      reservation_facts key res ∧ start_facts res (ev_fence_token t) start ∧
      (ev_event_type t = COMPLETED ∨ ev_event_type t = FAILED) ∧
      ev_identity t = ev_identity res
  end.

Lemma start_of_facts r fence s start :
  start_agrees (Reserved r fence) start → start_of <$> start = Some s →
  start_identity s = ev_identity (event_of r) ∧ start_fence_token s = fence ∧
  ev_reservation_scope_hash (event_of r) = Some (start_reservation_scope_hash s).
Proof. destruct start as [st|]; [|done]. intros (H1 & H2 & H3) [= <-]. by rewrite H1. Qed.

Lemma phase_of_facts key l : ledger_wf l → phase_facts key (phase_of key l).
Proof.
  intros Hwf. destruct (wf_phases _ Hwf key) as (p & Hp & Hs).
  pose proof (replay_rows _ _ Hp) as Hrows. pose proof (replay_terminal_types _ _ Hp) as Htypes.
  unfold phase_of. rewrite Hp. destruct p as [|r f|r t]; cbn [rows_of life_phase] in *; [done| |].
  - destruct Hrows as (Hr & _ & (e & Hl & <-) & Hsc).
    apply last_Some_elem_of, (key_row_wf _ _ _ Hwf) in Hl as [_ Hf].
    apply filter_head_in in Hr as [Ht [Hk _]%key_events_in].
    split_and!; try done; [|apply Hf..]. intros s. by apply start_of_facts.
  - destruct Hrows as (Hr & Ht & Hl & Hid & Hsc).
    apply filter_head_in in Hr as [Hrt [Hk _]%key_events_in].
    apply filter_head_in in Ht as [Htt Hin]. rewrite Forall_forall in Htypes.
    apply Htypes in Hin. rewrite Htt in Hin. symmetry in Hin. bool_facts.
    split_and!; try done.
    + intros s. apply (start_of_facts r (row_fence_token t)). by destruct (_start key l).
    + apply elem_of_cons in Hin as [?|Hin]; [by left|]. apply list_elem_of_singleton in Hin.
      by right.
Qed.

(** Reading a status back as a phase. *)
Lemma phase_status_inv key p :
  phase_facts key p →
  (phase_status p = Some "RESERVED" ↔ ∃ r f, p = Live r f None) ∧
  (phase_status p = Some "STARTED" ↔ ∃ r f s, p = Live r f (Some s)) ∧
  (phase_status p = None ↔ p = Absent) ∧
  (phase_status p = Some "COMPLETED" ∨ phase_status p = Some "FAILED" ↔
   ∃ r t s, p = Done r t s).
Proof.
  destruct p as [|r f [s|]|r t s]; cbn [phase_facts phase_status].
  1-3: intros _; split_and!; split; naive_solver.
  intros (_ & _ & [-> | ->] & _); split_and!; split; naive_solver.
Qed.

(** What the queries report of a store is the phase. *)
Lemma reads_by_phase key l : ledger_wf l →
  status key l = Ok (phase_status (phase_of key l)) ∧
  match phase_of key l with
  | Absent =>
      current_fence_token key l = Raise (LedgerError "OPERATION_NOT_RESERVED") ∧
      reservation_event key l = Raise (LedgerError "LEDGER_EVENT_MISSING") ∧
      started_event key l = Raise (LedgerError "EXECUTION_START_EVIDENCE_MISSING")
  | Live res fence start =>
      current_fence_token key l = Ok fence ∧ reservation_event key l = Ok res ∧
      started_event key l = some_or start (LedgerError "EXECUTION_START_EVIDENCE_MISSING")
  | Done res t start =>
      current_fence_token key l = Ok (ev_fence_token t) ∧ reservation_event key l = Ok res ∧
      started_event key l = some_or start (LedgerError "EXECUTION_START_EVIDENCE_MISSING")
  end.
Proof.
  intros Hwf.   split; [by apply status_run|].
  unfold current_fence_token, _current_fence, reservation_event, started_event.
  phase_cases key l Hwf; rewrite Hr.
  - rewrite Hst. by rewrite _latest_rows, Hk.
  - rewrite Hlat, He. by destruct (_start key l).
  - rewrite Hlat, He. by destruct (_start key l).
Qed.

(** ** Properties *)

(** C8. The SQLite ledger implements its specification: in every store reached
    by calls, a call returns or raises exactly what the phase of its
    idempotency key prescribes, moves that phase to the prescribed one and
    leaves the phase of every other key alone; it writes nothing when it raises
    or when the prescribed phase is the old one, and never changes or drops a stored row. *)
Theorem ledger_refines_phases ops op :
  let l := reached ops in
  let l' := (ledger_step op l).2 in
  extends l l' ∧
  match spec_step (last_sequence l + 1) op (phase_of (op_key op) l) with
  | Ok (a, p) => (ledger_step op l).1 = Ok a ∧ phase_of (op_key op) l' = p ∧
      (p = phase_of (op_key op) l → l' = l)
  | Raise e => (ledger_step op l).1 = Raise e ∧ l' = l
  end ∧
  ∀ k, k ≠ op_key op → phase_of k l' = phase_of k l.
Proof. apply (step_spec op (reached ops) (reached_wf ops)). Qed.

(** Over any continuation of calls, a key's phase only moves forward: the
    reservation never changes, the fence never decreases and is frozen once
    the operation started, the start evidence is written at most once, and a
    terminal event is final. *)
Theorem ledger_phase_monotone ops ops' k :
  phase_le (phase_of k (reached ops)) (phase_of k (reached (ops ++ ops'))).
Proof. rewrite reached_app. apply run_le, reached_wf. Qed.

(** Reserve-before-effect with one grant: whenever [mark_started] succeeds
    for a key, the operation was reserved under that identity at exactly that
    fence and is not terminal, and any later success for the same key - after
    whatever calls in between - returns the same evidence, so at most one
    execution grant is ever accepted for an operation. *)
Theorem ledger_one_grant ops ops' i i' f f' g g' s s' l1 l2 :
  id_idempotency_key i = id_idempotency_key i' →
  mark_started i f g (reached ops) = (Ok s, l1) →
  mark_started i' f' g' (ledger_run ops' l1) = (Ok s', l2) →
  i' = i ∧ f' = f ∧ g' = g ∧ s' = s ∧ start_execution_grant_hash s = g ∧
  ∃ res st, phase_of (id_idempotency_key i) (reached ops) = Live res f st ∧
            ev_identity res = i.
Proof.
  intros Hk H1 H2. pose proof (start_implements i f g _ (reached_wf ops)) as R1.
  rewrite H1 in R1. unfold implements in R1.
  destruct (spec_start i f g _) as [[s1 p1]|] eqn:E1; [|done].
  destruct R1 as (l1' & [= <- <-] & Hwf1 & _ & Hp1 & _).
  destruct (ledger_run_wf ops' l1 Hwf1) as [Hwf2 _].
  pose proof (run_le ops' l1 (id_idempotency_key i) Hwf1) as Hle.
  pose proof (start_implements i' f' g' _ Hwf2) as R2. rewrite H2, <-Hk in R2.
  unfold implements in R2.
  destruct (spec_start i' f' g' _) as [[s2 p2]|] eqn:E2; [|done].
  destruct R2 as (l2' & [= <- <-] & _).
  apply spec_start_ok in E1 as (res & st & Hp & Hid & -> & _ & ->).
  apply spec_start_ok in E2 as (res' & st' & Hp' & Hid' & _ & Hst' & Hs').
  rewrite Hp1, Hp' in Hle. simpl in Hle. destruct Hle as (-> & -> & ->).
  destruct Hst' as [?|?]; simplify_eq. split_and!; eauto.
Qed.

(** What the queries report of a reached store is its phase: the derived
    status, the current fence, the reservation and the start evidence. *)
Theorem ledger_reads_phase ops key :
  let l := reached ops in
  status key l = Ok (phase_status (phase_of key l)) ∧
  match phase_of key l with
  | Absent =>
      current_fence_token key l = Raise (LedgerError "OPERATION_NOT_RESERVED") ∧
      reservation_event key l = Raise (LedgerError "LEDGER_EVENT_MISSING") ∧
      started_event key l = Raise (LedgerError "EXECUTION_START_EVIDENCE_MISSING")
  | Live res fence start =>
      current_fence_token key l = Ok fence ∧ reservation_event key l = Ok res ∧
      started_event key l = some_or start (LedgerError "EXECUTION_START_EVIDENCE_MISSING")
  | Done res t start =>
      current_fence_token key l = Ok (ev_fence_token t) ∧ reservation_event key l = Ok res ∧
      started_event key l = some_or start (LedgerError "EXECUTION_START_EVIDENCE_MISSING")
  end.
Proof. apply reads_by_phase, reached_wf. Qed.

(** A terminal operation is frozen: no call on its key changes the store; a
    rebind or a start is refused; a reservation replay succeeds only with the
    original identity, nonce and scope, and then returns the original
    reservation; a repeated [finish] succeeds only with the recorded receipt,
    and then returns the recorded event; every refusal is a [LedgerError]. *)
Theorem ledger_terminal_frozen ops op res t st :
  phase_of (op_key op) (reached ops) = Done res t st →
  (ledger_step op (reached ops)).2 = reached ops ∧
  match (ledger_step op (reached ops)).1 with
  | Raise e => ∃ r, e = LedgerError r
  | Ok answer =>
      op_identity op = ev_identity res ∧
      match op with
      | OpReserve _ _ s n =>
          answer = REvent res ∧ n = ev_external_dedupe_nonce res ∧
          Some s = ev_reservation_scope_hash res
      | OpFinish _ f ok reason refs b a v =>
          answer = REvent t ∧ f = ev_fence_token t ∧
          ev_event_type t = (if ok then COMPLETED else FAILED) ∧
          reason = ev_reason_code t ∧ refs = ev_touched_resource_refs t ∧
          Some b = ev_before_state_ref t ∧ Some a = ev_after_state_ref t ∧
          Some v = ev_validation_status t
      | OpRebind _ _ _ | OpStart _ _ _ => False
      end
  end.
Proof.
  intros Hp. destruct (step_spec op _ (reached_wf ops)) as (_ & _ & Hop & _).
  rewrite Hp in Hop. destruct (spec_step _ _ _) as [[x p]|e] eqn:E.
  - destruct Hop as (-> & _ & Hl). apply spec_step_done in E as [-> E]. auto.
  - destruct Hop as [-> ->]. split; [done|]. by eapply spec_step_done_raise.
Qed.

(** A small run: one operation reserved, started and completed. *)
Definition demo_identity : OperationIdentity :=
  {| id_operation_id := "op-1"; id_idempotency_key := "key-1";
     id_target_state_ref := "repo:alpha" |}.

Definition demo_hash : string :=
  "0123456789abcdef0123456789abcdef0123456789abcdef0123456789abcdef".

Definition demo_finish : ledger_op :=
  OpFinish demo_identity 2 true "DONE" ["repo:alpha"] "state:a" "state:b" "PASS".

Definition demo_ops : list ledger_op :=
  [OpReserve demo_identity 1 demo_hash None; OpRebind demo_identity 1 2;
   OpStart demo_identity 2 demo_hash; demo_finish].

Lemma ledger_one_grant_witness :
  ∃ s l1 l2,
    mark_started demo_identity 2 demo_hash (reached (take 2 demo_ops)) = (Ok s, l1) ∧
    mark_started demo_identity 2 demo_hash (ledger_run [] l1) = (Ok s, l2) ∧
    start_execution_grant_hash s = demo_hash.
Proof.
  destruct (mark_started demo_identity 2 demo_hash (reached (take 2 demo_ops))) as [[s|e] l1] eqn:E1;
    [|vm_compute in E1; discriminate].
  destruct (mark_started demo_identity 2 demo_hash (ledger_run [] l1)) as [[s'|e] l2] eqn:E2.
  2: { vm_compute in E1. injection E1 as <- <-. vm_compute in E2. discriminate. }
  destruct (ledger_one_grant (take 2 demo_ops) [] demo_identity demo_identity 2 2 demo_hash
    demo_hash s s' l1 l2 eq_refl E1 E2) as (_ & _ & _ & -> & Hg & _).
  exists s, l1, l2. auto.
Defined.

Lemma ledger_terminal_frozen_witness :
  ∃ res t st, phase_of "key-1" (reached demo_ops) = Done res t st ∧
    (ledger_step demo_finish (reached demo_ops)).2 = reached demo_ops ∧
    (ledger_step demo_finish (reached demo_ops)).1 = Ok (REvent t).
Proof.
  destruct (phase_of "key-1" (reached demo_ops)) as [|res f st|res t st] eqn:Hp;
    [vm_compute in Hp; discriminate..|].
  destruct (ledger_terminal_frozen demo_ops demo_finish res t st Hp) as [Hs Hr].
  exists res, t, st. split; [done|]. split; [exact Hs|].
  destruct (ledger_step demo_finish (reached demo_ops)).1 as [a|e] eqn:Ha.
  - destruct Hr as (_ & -> & _). done.
  - vm_compute in Ha. discriminate.
Defined.
