(* ===== verification/Adapters.v ===== *)
(** * The adapter planner

    [src/core/runner_vnext_adapters.py]: adapter manifests, the registry that
    validates them, and [plan], which turns a task, its operation and its
    policy decision into a dry-run [ExecutionEnvelope]. *)

From S2P Require Import Prelude.
From S2P Require Import PyStr.
From S2P Require Import Contracts.

(** ** Data *)
Record AdapterManifest := {
  am_adapter_id : string;
  am_operation_kinds : list string;
  am_capabilities : list string;
  am_allowed_effect_classes : list EffectClass;
  am_resource_patterns : list string;
  am_privacy_classes : list PrivacyClass;
  am_privileged_pep_required : bool
}.

Record ExecutionEnvelope := {
  env_operation_id : string;
  env_adapter_id : string;
  env_target_state_ref : string;
  env_fence_token : Z;
  env_idempotency_key : string;
  env_resources : list string;
  env_effects : list string;
  env_effect_class : EffectClass;
  env_policy_reason_code : string;
  env_required_capabilities : list string;
  env_privacy : PrivacyClass;
  env_dry_run : bool
}.

#[global] Instance ExecutionEnvelope_eq_dec : EqDecision ExecutionEnvelope.
Proof. solve_decision. Defined.

(** The validated registry: [self._manifests]. *)
Abbreviation AdapterPlanner := (gmap string AdapterManifest).

(** ** Checks *)
Definition _public_ref (value : string) : bool :=
  truthy value && negb (startswith_any ["/"; "~"] value) && negb (contains "\" value)
  && negb (contains ".." value) && contains ":" value && negb (any_char isspace value).

(** [any(ch in namespace for ch in "*?[]")] *)
Definition has_glob_char (namespace : string) : bool :=
  any_char (char_in "*?[]") namespace.

Definition _validate_resource_pattern (pattern : string) : result unit :=
  raise_if (negb (_public_ref pattern) || (pattern ∈? ["*"; "*:*"]))
    (AdapterContractError "ADAPTER_RESOURCE_PATTERN_INVALID");;
  let '(namespace, _, tail) := partition ":" pattern in
  raise_if (falsy namespace || has_glob_char namespace || falsy tail)
    (AdapterContractError "ADAPTER_RESOURCE_PATTERN_INVALID").

Definition _resource_matches (resource : string) (patterns : list string) : bool :=
  if negb (_public_ref resource) then false
  else existsb (λ pattern, fnmatch resource pattern) patterns.

Definition _validate_manifest (manifest : AdapterManifest) : result unit :=
  raise_if (falsy (am_adapter_id manifest) || any_char isspace (am_adapter_id manifest))
    (AdapterContractError "ADAPTER_ID_INVALID");;
  raise_if (is_empty (am_operation_kinds manifest) || is_empty (am_capabilities manifest)
            || is_empty (am_resource_patterns manifest))
    (AdapterContractError "ADAPTER_POSITIVE_DECLARATION_REQUIRED");;
  raise_if (is_empty (am_allowed_effect_classes manifest)
            || is_empty (am_privacy_classes manifest))
    (AdapterContractError "ADAPTER_BOUNDARY_DECLARATION_REQUIRED");;
  each _validate_resource_pattern (am_resource_patterns manifest).

(** ** [AdapterPlanner.__init__]

    The argument is the mapping as its items; [dict] keeps the last value of a
    key. *)
Definition new_AdapterPlanner (manifests : list (string * AdapterManifest))
    : result AdapterPlanner :=
  let registry : AdapterPlanner := list_to_map (reverse manifests) in
  raise_if (size registry != length manifests)
    (AdapterContractError "ADAPTER_ID_DUPLICATE");;
  each (λ item : string * AdapterManifest,
    _validate_manifest item.2;;
    raise_if (item.1 != am_adapter_id item.2)
      (AdapterContractError "ADAPTER_REGISTRY_ID_MISMATCH")) manifests;;
  Ok registry.

(** ** [AdapterPlanner.plan] *)
Section plan.
Context (adapter_id : string) (task : UniversalTask) (operation : OperationIR)
  (policy_input : PolicyInput) (decision : PolicyDecision)
  (target_state_ref : string) (fence_token : Z).

(** The task, the operation and the policy input describe one request. *)
Definition check_binding : result unit :=
  raise_if (negb (_public_ref target_state_ref))
    (AdapterContractError "ADAPTER_TARGET_STATE_REF_INVALID");;
  raise_if (fence_token <? 1) (AdapterContractError "ADAPTER_FENCE_INVALID");;
  raise_if (pi_operation policy_input != operation)
    (AdapterContractError "ADAPTER_POLICY_OPERATION_MISMATCH");;
  raise_if (pi_target_state_ref policy_input != Some target_state_ref)
    (AdapterContractError "ADAPTER_POLICY_TARGET_STATE_MISMATCH");;
  raise_if (task_idempotency_key task != op_idempotency_key operation)
    (AdapterContractError "ADAPTER_TASK_OPERATION_IDEMPOTENCY_MISMATCH");;
  raise_if ((target_resources task != op_resources operation)
            || (expected_effects task != op_effects operation))
    (AdapterContractError "ADAPTER_TASK_OPERATION_SCOPE_MISMATCH");;
  raise_if (task_privacy task != pi_privacy policy_input)
    (AdapterContractError "ADAPTER_TASK_POLICY_PRIVACY_MISMATCH");;
  raise_if (classify_policy policy_input != decision)
    (AdapterContractError "ADAPTER_POLICY_DECISION_MISMATCH").

(** The request stays within what the manifest declares. *)
Definition check_manifest (manifest : AdapterManifest) : result unit :=
  raise_if (op_kind operation ∉? am_operation_kinds manifest)
    (AdapterContractError "ADAPTER_OPERATION_KIND_UNSUPPORTED");;
  raise_if (negb (forallb (λ c, c ∈? am_capabilities manifest)
                    (task_required_capabilities task)))
    (AdapterContractError "ADAPTER_CAPABILITY_UNSUPPORTED");;
  raise_if (task_privacy task ∉? am_privacy_classes manifest)
    (AdapterContractError "ADAPTER_PRIVACY_UNSUPPORTED");;
  raise_if (pd_effect_class decision ∉? am_allowed_effect_classes manifest)
    (AdapterContractError "ADAPTER_EFFECT_CLASS_UNSUPPORTED");;
  raise_if ((pd_effect_class decision == RED) && negb (am_privileged_pep_required manifest))
    (AdapterContractError "ADAPTER_RED_REQUIRES_PRIVILEGED_PEP");;
  raise_if (pd_separate_privileged_pep_required decision
            && negb (am_privileged_pep_required manifest))
    (AdapterContractError "ADAPTER_POLICY_REQUIRES_PRIVILEGED_PEP");;
  each (λ resource,
    raise_if (negb (_resource_matches resource (am_resource_patterns manifest)))
      (AdapterContractError "ADAPTER_RESOURCE_OUT_OF_SCOPE")) (op_resources operation).

Definition plan (self : AdapterPlanner) : result ExecutionEnvelope :=
  manifest ← some_or (self !! adapter_id) (AdapterContractError "ADAPTER_UNKNOWN");
  check_binding;;
  check_manifest manifest;;
  Ok {| env_operation_id := op_operation_id operation;
        env_adapter_id := adapter_id;
        env_target_state_ref := target_state_ref;
        env_fence_token := fence_token;
        env_idempotency_key := op_idempotency_key operation;
        env_resources := op_resources operation;
        env_effects := op_effects operation;
        env_effect_class := pd_effect_class decision;
        env_policy_reason_code := pd_reason_code decision;
        env_required_capabilities := task_required_capabilities task;
        env_privacy := task_privacy task;
        env_dry_run := true |}.
End plan.

(** ** What a registry guarantees *)
Definition planner_wf (self : AdapterPlanner) : Prop :=
  map_Forall (λ key m, am_adapter_id m = key ∧ _validate_manifest m = Ok tt) self.

Lemma new_AdapterPlanner_wf manifests self :
  new_AdapterPlanner manifests = Ok self → planner_wf self.
Proof.
  unfold new_AdapterPlanner. intros H. inv_ok. subst self.
  rewrite Forall_forall in Hr0. intros key m Hm.
  apply elem_of_list_to_map_2 in Hm. rewrite elem_of_reverse in Hm.
  apply Hr0 in Hm. inv_ok. simpl in *. subst key. done.
Qed.

(** The task, the operation, the policy input and the decision describe one
    request, and the decision is the recomputed one. *)
Definition one_request (task : UniversalTask) (operation : OperationIR)
    (policy_input : PolicyInput) (decision : PolicyDecision) (target_state_ref : string) : Prop :=
  pi_operation policy_input = operation ∧
  pi_target_state_ref policy_input = Some target_state_ref ∧
  task_idempotency_key task = op_idempotency_key operation ∧
  (target_resources task = op_resources operation ∧
   expected_effects task = op_effects operation) ∧
  task_privacy task = pi_privacy policy_input ∧
  classify_policy policy_input = decision.

(** The request stays within the manifest. *)
Definition within_manifest (task : UniversalTask) (operation : OperationIR)
    (decision : PolicyDecision) (manifest : AdapterManifest) : Prop :=
  op_kind operation ∈ am_operation_kinds manifest ∧
  (∀ c, c ∈ task_required_capabilities task → c ∈ am_capabilities manifest) ∧
  task_privacy task ∈ am_privacy_classes manifest ∧
  pd_effect_class decision ∈ am_allowed_effect_classes manifest ∧
  (pd_effect_class decision = RED ∨ pd_separate_privileged_pep_required decision = true →
   am_privileged_pep_required manifest = true) ∧
  (∀ r, r ∈ op_resources operation →
    _resource_matches r (am_resource_patterns manifest) = true).

Lemma check_binding_ok task operation policy_input decision target fence :
  check_binding task operation policy_input decision target fence = Ok tt ↔
  _public_ref target = true ∧ 1 ≤ fence ∧
  one_request task operation policy_input decision target.
Proof. unfold check_binding, one_request. autorewrite with py_ok py_bool. done. Qed.

Lemma pep_flag (P : Prop) `{Decision P} c d :
  bool_decide P && negb c = false ∧ d && negb c = false ↔ (P ∨ d = true → c = true).
Proof. case_bool_decide; destruct c, d; naive_solver. Qed.

Lemma check_manifest_ok task operation decision manifest :
  check_manifest task operation decision manifest = Ok tt ↔
  within_manifest task operation decision manifest.
Proof.
  unfold check_manifest, within_manifest. autorewrite with py_ok py_bool.
  rewrite <-(pep_flag (pd_effect_class decision = RED)). tauto.
Qed.

(** [plan] returns an envelope exactly when the adapter is registered, the
    target is a public reference, the fence is positive, the task, operation,
    policy input and decision describe one request whose decision is the one
    [classify_policy] recomputes, and the request stays within the manifest; the
    envelope is then the dry-run record of that request. *)
Lemma plan_ok self adapter_id task operation policy_input decision target fence e :
  plan adapter_id task operation policy_input decision target fence self = Ok e ↔
  ∃ manifest, self !! adapter_id = Some manifest ∧
    _public_ref target = true ∧ 1 ≤ fence ∧
    one_request task operation policy_input decision target ∧
    within_manifest task operation decision manifest ∧
    e = {| env_operation_id := op_operation_id operation; env_adapter_id := adapter_id;
           env_target_state_ref := target; env_fence_token := fence;
           env_idempotency_key := op_idempotency_key operation;
           env_resources := op_resources operation; env_effects := op_effects operation;
           env_effect_class := pd_effect_class decision;
           env_policy_reason_code := pd_reason_code decision;
           env_required_capabilities := task_required_capabilities task;
           env_privacy := task_privacy task; env_dry_run := true |}.
Proof.
  unfold plan. rewrite some_bind_ok. split; intros (manifest & Hm & H); exists manifest;
    rewrite !seq_ok, check_binding_ok, check_manifest_ok, Ok_inj in *; naive_solver.
Qed.

(** ** Properties *)

(** Planning is fail-closed: an envelope planned by a validated registry is
    GREEN only for an operation that meets all the GREEN conditions; in every
    other case the adapter declared that it needs the privileged enforcement
    point; and each of its resources is a public reference matched by a
    validated pattern of the adapter's manifest, whose namespace is literal. *)
Theorem adapter_plan_fail_closed manifests self adapter_id task operation policy_input decision
    target fence e :
  new_AdapterPlanner manifests = Ok self →
  plan adapter_id task operation policy_input decision target fence self = Ok e →
  ∃ manifest, (adapter_id, manifest) ∈ manifests ∧ am_adapter_id manifest = adapter_id ∧
    (env_effect_class e = GREEN ∧ green_conditions policy_input ∨
     env_effect_class e ≠ GREEN ∧ am_privileged_pep_required manifest = true) ∧
    ∀ r, r ∈ env_resources e → _public_ref r = true ∧
      ∃ pattern, pattern ∈ am_resource_patterns manifest ∧ fnmatch r pattern = true ∧
        _validate_resource_pattern pattern = Ok tt.
Proof.
  intros Hnew Hplan. pose proof (new_AdapterPlanner_wf _ _ Hnew) as Hwf.
  apply plan_ok in Hplan as (a & Hr & _ & _ & Hone & Hman' & ->).
  unfold new_AdapterPlanner in Hnew. inv_ok. subst self.
  destruct Hone as (_ & _ & _ & _ & _ & <-).
  destruct (Hwf _ _ Hr) as [Hid Hman]. cbn [env_effect_class env_resources].
  destruct Hman' as (_ & _ & _ & _ & Hpep & Hscope).
  exists a. split_and!; [|done| |].
  - apply elem_of_list_to_map_2 in Hr. by rewrite elem_of_reverse in Hr.
  - rewrite classify_pep, negb_true_iff, bool_decide_eq_false in Hpep.
    destruct (decide (pd_effect_class (classify_policy policy_input) = GREEN)) as [Hg|Hg];
      [left|right]; [by split; [|apply classify_green_conditions]|auto].
  - intros r Hin. specialize (Hscope r Hin). unfold _resource_matches in Hscope.
    destruct (_public_ref r); [|done]. split; [done|].
    apply existsb_elem in Hscope as (pattern & Hp & Hm). exists pattern. split_and!; try done.
    unfold _validate_manifest in Hman. inv_ok. rewrite Forall_forall in *. auto.
Qed.

(** A GREEN request and an adapter that accepts it. *)
Definition demo_manifest : AdapterManifest :=
  {| am_adapter_id := "adapter:codegen"; am_operation_kinds := ["workspace_write"];
     am_capabilities := ["git"]; am_allowed_effect_classes := [GREEN];
     am_resource_patterns := ["repo:*"]; am_privacy_classes := [PUBLIC_SAFE];
     am_privileged_pep_required := false |}.

Definition demo_operation : OperationIR :=
  {| op_operation_id := "op:1"; op_kind := "workspace_write"; op_resources := ["repo:alpha"];
     op_effects := ["workspace_write"]; op_idempotency_key := "key:1" |}.

Definition demo_policy_input : PolicyInput :=
  {| pi_operation := demo_operation; pi_reversibility := REVERSIBLE;
     pi_privacy := PUBLIC_SAFE; pi_target_state_ref := Some "git:abc";
     pi_operator_boundary_evidence := [] |}.

Definition demo_task : UniversalTask :=
  {| task_id := "task:1"; task_intent := "edit"; task_domain := "code";
     target_resources := ["repo:alpha"]; task_required_capabilities := ["git"];
     task_privacy := PUBLIC_SAFE; task_reversibility := REVERSIBLE;
     expected_effects := ["workspace_write"]; task_validation := []; task_rollback := [];
     task_idempotency_key := "key:1"; task_operator_boundary_evidence := [] |}.

Definition demo_planner : AdapterPlanner := {["adapter:codegen" := demo_manifest]}.

Definition demo_envelope : ExecutionEnvelope :=
  {| env_operation_id := "op:1"; env_adapter_id := "adapter:codegen";
     env_target_state_ref := "git:abc"; env_fence_token := 1; env_idempotency_key := "key:1";
     env_resources := ["repo:alpha"]; env_effects := ["workspace_write"];
     env_effect_class := GREEN; env_policy_reason_code := "GREEN_AUTONOMOUS_TYPED_EFFECT";
     env_required_capabilities := ["git"]; env_privacy := PUBLIC_SAFE; env_dry_run := true |}.

Lemma adapter_plan_fail_closed_witness :
  green_conditions demo_policy_input ∧ _public_ref "repo:alpha" = true.
Proof.
  destruct (adapter_plan_fail_closed [("adapter:codegen", demo_manifest)] demo_planner
    "adapter:codegen" demo_task demo_operation demo_policy_input
    (classify_policy demo_policy_input) "git:abc" 1 demo_envelope)
    as (m & _ & _ & [[_ Hg]|[Hne _]] & Hr).
  - vm_compute. reflexivity.
  - vm_compute. reflexivity.
  - split; [exact Hg|]. apply (Hr "repo:alpha"). left.
  - destruct Hne. reflexivity.
Defined.
