(* ===== verification/Environment.v ===== *)
(** * The child environment

    [src/core/runner_vnext_environment.py]: the per-lane contract of which
    variables a child process inherits and which are injected, and the
    construction of the child's environment from it. *)

From S2P Require Import Prelude.
From S2P Require Import PyStr.
From S2P Require Import Json.
From S2P Require Import Sha256.

(** ** Data *)
Definition KNOWN_SECRET_ENV_KEYS : list string := [
  "OPENROUTER_API_KEY"; "SKELETON_OPENROUTER_FALLBACK_API_KEY"; "BWS_ACCESS_TOKEN";
  "CREDENTIALS_DIRECTORY"; "LLM_API_KEY"; "SKELETON_TG_BOT"].
Definition _SENSITIVE_MARKERS : list string :=
  ["TOKEN"; "SECRET"; "PASSWORD"; "API_KEY"; "ACCESS_KEY"; "CREDENTIAL"].

Record LaneEnvironmentPolicy := {
  ep_lane_id : string;
  inherit_keys : list string;
  inject_keys : list string;
  denied_keys : list string;
  secret_keys : list string
}.

Record ChildEnvironmentReceipt := {
  ce_lane_id : string;
  ce_policy_hash : string;
  inherited_keys : list string;
  injected_keys : list string;
  secret_key_names : list string;
  stripped_parent_key_count : Z;
  environment_key_count : Z;
  values_exposed : bool
}.

Record ChildEnvironmentPlan := {
  ce_environment : gmap string string;
  ce_receipt : ChildEnvironmentReceipt
}.

(** The validated registry: [self._policies]. *)
Abbreviation LaneEnvironmentPolicyRegistry := (gmap string LaneEnvironmentPolicy).

(** ** Checks *)
Definition _looks_sensitive (key : string) : bool :=
  (key ∈? KNOWN_SECRET_ENV_KEYS) || existsb (λ marker, contains marker key) _SENSITIVE_MARKERS.

Definition _env_key (key : string) : bool :=
  truthy key && (key != "*")
  && all_chars (λ ch, isupper ch || isdigit ch || (ch == "_"%char)) key.

Definition _public_lane_id (value : string) : bool :=
  startswith "lane:" value && (5 <? Z.of_nat (String.length value))
  && all_chars (λ ch, islower ch || isdigit ch || char_in "-_" ch) (string_drop 5 value).

(** [bool(set(a) & set(b))] *)
Definition intersects (a b : list string) : bool := existsb (λ k, k ∈? b) a.

Definition validate_lane_environment_policy (policy : LaneEnvironmentPolicy) : result unit :=
  raise_if (negb (_public_lane_id (ep_lane_id policy)))
    (EnvironmentContractError "ENV_LANE_ID_INVALID");;
  each (λ values,
    raise_if (has_dup values) (EnvironmentContractError "ENV_POLICY_DUPLICATE_KEY");;
    each (λ key, raise_if (negb (_env_key key))
      (EnvironmentContractError "ENV_POLICY_KEY_INVALID")) values)
    [inherit_keys policy; inject_keys policy; denied_keys policy; secret_keys policy];;
  raise_if (intersects (inherit_keys policy) (inject_keys policy))
    (EnvironmentContractError "ENV_POLICY_SOURCE_OVERLAP");;
  raise_if (intersects (denied_keys policy) (inherit_keys policy ++ inject_keys policy))
    (EnvironmentContractError "ENV_POLICY_DENY_OVERLAP");;
  raise_if (negb (forallb (λ k, k ∈? inject_keys policy) (secret_keys policy)))
    (EnvironmentContractError "ENV_POLICY_SECRET_MUST_BE_INJECTED");;
  raise_if (existsb _looks_sensitive (inherit_keys policy))
    (EnvironmentContractError "ENV_POLICY_SECRET_INHERIT_FORBIDDEN");;
  raise_if (negb (forallb (λ k, k ∈? secret_keys policy)
                    (List.filter _looks_sensitive (inject_keys policy))))
    (EnvironmentContractError "ENV_POLICY_SECRET_CLASSIFICATION_REQUIRED").

Definition policy_payload (policy : LaneEnvironmentPolicy) : json :=
  JObj [("lane_id", JStr (ep_lane_id policy));
        ("inherit_keys", jstrs (inherit_keys policy));
        ("inject_keys", jstrs (inject_keys policy));
        ("denied_keys", jstrs (denied_keys policy));
        ("secret_keys", jstrs (secret_keys policy))].

Definition lane_environment_policy_hash (policy : LaneEnvironmentPolicy) : result string :=
  validate_lane_environment_policy policy;;
  Ok (json_hash (policy_payload policy)).

(** ** The construction *)

(** [for key in keys: if key in source: child[key] = str(source[key])] *)
Definition copy_keys (keys : list string) (source child : gmap string string)
    : gmap string string :=
  foldl (λ child key,
    match source !! key with Some v => <[key := v]> child | None => child end) child keys.

(** [tuple(sorted(set(child) & set(keys)))] *)
Definition keys_of (child : gmap string string) (keys : list string) : list string :=
  sorted_set (filter (λ key, is_Some (child !! key)) keys).

Definition _build_child_environment (parent_environment injected_environment : gmap string string)
    (policy : LaneEnvironmentPolicy) : result ChildEnvironmentPlan :=
  let injected_names := (map_to_list injected_environment).*1 in
  raise_if (intersects injected_names (denied_keys policy))
    (EnvironmentContractError "ENV_DENIED_INJECTION");;
  raise_if (negb (forallb (λ k, k ∈? inject_keys policy) injected_names))
    (EnvironmentContractError "ENV_UNDECLARED_INJECTION");;
  let child := copy_keys (inject_keys policy) injected_environment
    (copy_keys (inherit_keys policy) parent_environment ∅) in
  let inherited := keys_of child (inherit_keys policy) in
  let injected := keys_of child (inject_keys policy) in
  let secret_names := sorted_set (filter (λ k, k ∈ secret_keys policy) injected) in
  policy_hash ← lane_environment_policy_hash policy;
  Ok {| ce_environment := child;
        ce_receipt := {|
          ce_lane_id := ep_lane_id policy;
          ce_policy_hash := policy_hash;
          inherited_keys := inherited;
          injected_keys := injected;
          secret_key_names := secret_names;
          stripped_parent_key_count :=
            Z.max 0 (Z.of_nat (size parent_environment) - Z.of_nat (length inherited));
          environment_key_count := Z.of_nat (size child);
          values_exposed := false |} |}.

(** ** [LaneEnvironmentPolicyRegistry] *)
Definition new_LaneEnvironmentPolicyRegistry (policies : list (string * LaneEnvironmentPolicy))
    : result LaneEnvironmentPolicyRegistry :=
  let registry : LaneEnvironmentPolicyRegistry := list_to_map (reverse policies) in
  raise_if (size registry != length policies)
    (EnvironmentContractError "ENV_POLICY_REGISTRY_DUPLICATE");;
  each (λ item : string * LaneEnvironmentPolicy,
    validate_lane_environment_policy item.2;;
    raise_if (item.1 != ep_lane_id item.2)
      (EnvironmentContractError "ENV_POLICY_REGISTRY_LANE_MISMATCH")) policies;;
  Ok registry.

Definition policy_hash (self : LaneEnvironmentPolicyRegistry) (lane_id : string)
    : result string :=
  policy ← some_or (self !! lane_id) (EnvironmentContractError "ENV_POLICY_LANE_UNKNOWN");
  lane_environment_policy_hash policy.

Definition build (self : LaneEnvironmentPolicyRegistry) (lane_id : string)
    (parent_environment injected_environment : gmap string string)
    : result ChildEnvironmentPlan :=
  policy ← some_or (self !! lane_id) (EnvironmentContractError "ENV_POLICY_LANE_UNKNOWN");
  _build_child_environment parent_environment injected_environment policy.

(** ** Lemmas *)
Lemma intersects_false a b : intersects a b = false ↔ ∀ k, k ∈ a → k ∉ b.
Proof.
  unfold intersects. rewrite <-not_true_iff_false, existsb_elem.
  setoid_rewrite bool_decide_eq_true. naive_solver.
Qed.

(** What validation establishes. *)
Record policy_valid (policy : LaneEnvironmentPolicy) : Prop := {
  pv_lane : _public_lane_id (ep_lane_id policy) = true;
  pv_nodup : ∀ values, values ∈ [inherit_keys policy; inject_keys policy; denied_keys policy;
      secret_keys policy] → NoDup values ∧ ∀ k, k ∈ values → _env_key k = true;
  pv_sources : ∀ k, k ∈ inherit_keys policy → k ∉ inject_keys policy;
  pv_denied : ∀ k, k ∈ denied_keys policy → k ∉ inherit_keys policy ∧ k ∉ inject_keys policy;
  pv_secrets : ∀ k, k ∈ secret_keys policy → k ∈ inject_keys policy;
  pv_inherit : ∀ k, k ∈ inherit_keys policy → _looks_sensitive k = false;
  pv_inject : ∀ k, k ∈ inject_keys policy → _looks_sensitive k = true → k ∈ secret_keys policy
}.

Lemma validate_policy_ok policy :
  validate_lane_environment_policy policy = Ok tt ↔ policy_valid policy.
Proof.
  unfold validate_lane_environment_policy. rewrite !seq_ok, !raise_if_ok, each_ok.
  rewrite !negb_false_iff, !intersects_false, !forallb_mem, existsb_false, Forall_forall.
  setoid_rewrite seq_ok. setoid_rewrite raise_if_ok. setoid_rewrite each_check_ok.
  setoid_rewrite has_dup_false. setoid_rewrite not_elem_of_app.
  setoid_rewrite filter_elem. split.
  - intros (?&?&?&?&?&?&?). split; naive_solver.
  - intros []. naive_solver.
Qed.

Definition registry_wf (self : LaneEnvironmentPolicyRegistry) : Prop :=
  map_Forall (λ lane p, ep_lane_id p = lane ∧ policy_valid p) self.

Lemma new_registry_wf policies self :
  new_LaneEnvironmentPolicyRegistry policies = Ok self → registry_wf self.
Proof.
  unfold new_LaneEnvironmentPolicyRegistry. rewrite !seq_ok, Ok_inj, each_ok, Forall_forall.
  setoid_rewrite seq_ok. setoid_rewrite raise_if_ok. setoid_rewrite validate_policy_ok.
  intros (_ & Hall & <-) lane p Hp.
  apply elem_of_list_to_map_2 in Hp. rewrite elem_of_reverse in Hp.
  apply Hall in Hp as [Hv Hl]. bool_facts. done.
Qed.

Lemma lookup_copy_keys keys source child k :
  copy_keys keys source child !! k =
  match source !! k with
  | Some v => if decide (k ∈ keys) then Some v else child !! k
  | None => child !! k
  end.
Proof.
  unfold copy_keys. revert child. induction keys as [|key keys IH]; intros child.
  { simpl. by destruct (source !! k). }
  cbn [foldl]. rewrite IH.
  destruct (source !! k) as [v|] eqn:Ek.
  - destruct (decide (k ∈ keys)) as [Hin|Hin].
    { by rewrite decide_True by (by right). }
    destruct (decide (k = key)) as [->|Hne].
    + rewrite Ek, lookup_insert_eq. by rewrite decide_True by left.
    + rewrite decide_False by (rewrite elem_of_cons; naive_solver).
      destruct (source !! key); [by rewrite lookup_insert_ne|done].
  - destruct (source !! key) eqn:E'; [|done]. rewrite lookup_insert_ne; [done|congruence].
Qed.

(** The variables a policy gives a child. *)
Definition child_lookup (policy : LaneEnvironmentPolicy) (parent injected : gmap string string)
    (k : string) : option string :=
  if decide (k ∈ inject_keys policy) then injected !! k
  else if decide (k ∈ inherit_keys policy) then parent !! k else None.

Lemma child_lookup_spec policy parent injected k :
  policy_valid policy →
  copy_keys (inject_keys policy) injected (copy_keys (inherit_keys policy) parent ∅) !! k =
  child_lookup policy parent injected k.
Proof.
  intros Hv. rewrite !lookup_copy_keys, lookup_empty. unfold child_lookup.
  pose proof (pv_sources _ Hv k) as Hs.
  destruct (decide (k ∈ inject_keys policy)), (decide (k ∈ inherit_keys policy)),
    (injected !! k) eqn:E1, (parent !! k) eqn:E2; naive_solver.
Qed.

Lemma keys_of_elem child keys k :
  k ∈ keys_of child keys ↔ k ∈ keys ∧ is_Some (child !! k).
Proof. unfold keys_of. rewrite sorted_set_elem, list_elem_of_filter. tauto. Qed.

Lemma injected_names_elem (m : gmap string string) k :
  k ∈ (map_to_list m).*1 ↔ is_Some (m !! k).
Proof.
  rewrite list_elem_of_fmap. split.
  - intros ([k' v] & -> & H%elem_of_map_to_list). by exists v.
  - intros [v H]. exists (k, v). by rewrite elem_of_map_to_list.
Qed.

(** The injections a policy admits. *)
Definition injection_allowed (policy : LaneEnvironmentPolicy) (injected : gmap string string)
    : Prop :=
  ∀ k, is_Some (injected !! k) → k ∈ inject_keys policy ∧ k ∉ denied_keys policy.

Lemma build_ok self lane parent injected plan :
  registry_wf self →
  build self lane parent injected = Ok plan ↔
  ∃ policy, self !! lane = Some policy ∧ injection_allowed policy injected ∧
    let child := copy_keys (inject_keys policy) injected
      (copy_keys (inherit_keys policy) parent ∅) in
    let inherited := keys_of child (inherit_keys policy) in
    let injected := keys_of child (inject_keys policy) in
    plan = {| ce_environment := child; ce_receipt := {|
      ce_lane_id := lane; ce_policy_hash := json_hash (policy_payload policy);
      inherited_keys := inherited; injected_keys := injected;
      secret_key_names := sorted_set (filter (λ k, k ∈ secret_keys policy) injected);
      stripped_parent_key_count :=
        Z.max 0 (Z.of_nat (size parent) - Z.of_nat (length inherited));
      environment_key_count := Z.of_nat (size child); values_exposed := false |} |}.
Proof.
  intros Hwf. unfold build. rewrite some_bind_ok. split; intros (policy & Hp & H); exists policy;
    (split; [done|]); destruct (Hwf _ _ Hp) as [Hl Hv]; subst lane;
    unfold _build_child_environment, lane_environment_policy_hash, injection_allowed in *;
    rewrite (proj2 (validate_policy_ok policy) Hv) in *; cbn [mbind result_bind] in *;
    rewrite !seq_ok, !raise_if_ok, negb_false_iff, intersects_false, forallb_mem in *;
    setoid_rewrite injected_names_elem in H || setoid_rewrite injected_names_elem.
  - destruct H as (H1 & H2 & H3). injection H3 as <-. naive_solver.
  - destruct H as (H1 & ->). naive_solver.
Qed.

(** A child environment carries the hash of the contract it was built from. *)
Lemma build_policy_hash self lane parent injected plan :
  build self lane parent injected = Ok plan →
  policy_hash self lane = Ok (ce_policy_hash (ce_receipt plan)).
Proof.
  unfold build, policy_hash, _build_child_environment. intros H.
  apply some_bind_ok in H as (policy & -> & H). inv_ok. by subst plan.
Qed.

(** ** Properties *)

(** A child environment is exactly the contract of its lane: in a registry
    that validated its policies, [build] succeeds exactly when the lane is known
    and every injected variable is declared by it and not denied; the child then
    holds the declared injected variables with their injected values, the
    inherited ones with the parent's values, and nothing else. *)
Theorem child_environment_exact policies self lane parent injected :
  new_LaneEnvironmentPolicyRegistry policies = Ok self →
  (is_ok (build self lane parent injected) = true ↔
   ∃ policy, self !! lane = Some policy ∧ injection_allowed policy injected) ∧
  ∀ plan policy, build self lane parent injected = Ok plan → self !! lane = Some policy →
    ∀ k, ce_environment plan !! k =
      if decide (k ∈ inject_keys policy) then injected !! k
      else if decide (k ∈ inherit_keys policy) then parent !! k else None.
Proof.
  intros Hnew. pose proof (new_registry_wf _ _ Hnew) as Hwf. split.
  - split.
    + destruct (build self lane parent injected) as [plan|] eqn:E; [|done]. intros _.
      apply build_ok in E; [|done]. naive_solver.
    + intros (policy & Hp & Hi).
      pose proof (λ p, proj2 (build_ok self lane parent injected p Hwf)) as Hok.
      by rewrite (Hok _ (ex_intro _ policy (conj Hp (conj Hi eq_refl)))).
  - intros plan policy Hb Hp k. apply build_ok in Hb as (policy' & Hp' & _ & ->); [|done].
    simplify_eq. cbn [ce_environment]. apply child_lookup_spec. by apply (Hwf lane).
Qed.

(** Secrets stay confined: a variable of the child whose name looks like a
    secret was injected under a declared secret name - never inherited from the
    parent - and is listed in the receipt; no denied variable is ever present;
    and the receipt's lists are the child's variables, split by their source,
    without duplicates and without any value. *)
Theorem child_secrets_confined policies self lane parent injected plan policy :
  new_LaneEnvironmentPolicyRegistry policies = Ok self →
  self !! lane = Some policy →
  build self lane parent injected = Ok plan →
  (∀ k v, ce_environment plan !! k = Some v → _looks_sensitive k = true →
     k ∈ secret_keys policy ∧ injected !! k = Some v ∧
     k ∈ secret_key_names (ce_receipt plan) ∧ k ∉ inherited_keys (ce_receipt plan)) ∧
  (∀ k, k ∈ denied_keys policy → ce_environment plan !! k = None) ∧
  (∀ k, is_Some (ce_environment plan !! k) ↔
     k ∈ inherited_keys (ce_receipt plan) ++ injected_keys (ce_receipt plan)) ∧
  NoDup (inherited_keys (ce_receipt plan) ++ injected_keys (ce_receipt plan)) ∧
  values_exposed (ce_receipt plan) = false.
Proof.
  intros Hnew Hp Hb. pose proof (new_registry_wf _ _ Hnew) as Hwf.
  destruct (Hwf _ _ Hp) as [_ Hv].
  apply build_ok in Hb as (policy' & Hp' & _ & ->); [|done]. simplify_eq.
  cbn [ce_environment ce_receipt inherited_keys injected_keys secret_key_names values_exposed].
  set (child := copy_keys _ _ _).
  assert (Hc : ∀ k, child !! k = child_lookup policy parent injected k)
    by (intros k; by apply child_lookup_spec).
  split_and!; [| | | |done].
  - intros k v Hk Hsens. pose proof (pv_inject _ Hv k).
    rewrite sorted_set_elem, list_elem_of_filter, !keys_of_elem, Hk.
    rewrite Hc in Hk. unfold child_lookup in Hk.
    destruct (decide (k ∈ inject_keys policy)) as [Hj|Hj].
    + split_and!; auto. intros [Hin _]. by apply (pv_sources _ Hv k).
    + destruct (decide (k ∈ inherit_keys policy)) as [Hi|Hi]; [|done].
      rewrite (pv_inherit _ Hv k Hi) in Hsens. done.
  - intros k Hk. rewrite Hc. unfold child_lookup.
    destruct (pv_denied _ Hv k Hk). by rewrite !decide_False.
  - intros k. rewrite elem_of_app, !keys_of_elem, Hc. unfold child_lookup.
    repeat case_decide; split; try naive_solver; by intros [].
  - apply NoDup_app. split_and!; try apply sorted_set_nodup.
    intros k. rewrite !keys_of_elem. intros [Hin _] [Hin' _]. by apply (pv_sources _ Hv k).
Qed.

(** A lane that injects one secret. *)
Definition demo_policy : LaneEnvironmentPolicy :=
  {| ep_lane_id := "lane:codegen"; inherit_keys := ["PATH"]; inject_keys := ["LLM_API_KEY"];
     denied_keys := ["HOME"]; secret_keys := ["LLM_API_KEY"] |}.
Definition demo_registry : LaneEnvironmentPolicyRegistry := {["lane:codegen" := demo_policy]}.
Definition demo_parent : gmap string string := list_to_map [("PATH", "/bin"); ("HOME", "/root")].
Definition demo_injected : gmap string string := {["LLM_API_KEY" := "k"]}.

Lemma demo_registry_new :
  new_LaneEnvironmentPolicyRegistry [("lane:codegen", demo_policy)] = Ok demo_registry.
Proof. vm_compute. reflexivity. Qed.

Lemma child_environment_exact_witness :
  is_ok (build demo_registry "lane:codegen" demo_parent demo_injected) = true.
Proof.
  apply (proj1 (child_environment_exact _ _ "lane:codegen" demo_parent demo_injected
    demo_registry_new)).
  exists demo_policy. split; [vm_compute; reflexivity|].
  intros k Hk. destruct (decide (k = "LLM_API_KEY")) as [->|Hne].
  - split; apply (bool_decide_unpack _); vm_compute; exact I.
  - exfalso. unfold demo_injected in Hk. rewrite lookup_singleton_ne in Hk by done.
    by destruct Hk.
Defined.

Lemma demo_child :
  match build demo_registry "lane:codegen" demo_parent demo_injected with
  | Ok plan => ce_environment plan !! "LLM_API_KEY" = Some "k"
  | Raise _ => False
  end.
Proof. vm_compute. reflexivity. Qed.

Lemma child_secrets_confined_witness :
  ∃ plan, build demo_registry "lane:codegen" demo_parent demo_injected = Ok plan ∧
    ce_environment plan !! "LLM_API_KEY" = Some "k" ∧
    "LLM_API_KEY" ∈ secret_key_names (ce_receipt plan) ∧
    ce_environment plan !! "HOME" = None.
Proof.
  pose proof demo_child as Hk.
  destruct (build demo_registry "lane:codegen" demo_parent demo_injected) as [plan|e] eqn:E;
    [|destruct Hk].
  destruct (child_secrets_confined _ _ "lane:codegen" demo_parent demo_injected plan demo_policy
    demo_registry_new eq_refl E) as (Hs & Hd & _).
  exists plan. split; [reflexivity|]. split; [exact Hk|]. split.
  - apply (Hs _ _ Hk). vm_compute. reflexivity.
  - apply Hd. left.
Defined.
