(* ===== verification/Routing.v ===== *)
(** * Routing

    [src/core/runner_vnext_routing.py]: the registry of node capability
    snapshots and the pure planner that chooses a node.  Times are in
    microseconds. *)

From S2P Require Import Prelude.
From S2P Require Import PyStr.
From S2P Require Import Json.
From S2P Require Import Sha256.
From S2P Require Import Contracts.
From S2P Require Import Leases.

(** ** Data *)
Record NodeCapabilitySnapshot := {
  ns_node_id : string;
  ns_generation : Z;
  ns_route_rank : Z;
  ns_capabilities : list string;
  ns_supported_adapters : list string;
  ns_supported_lanes : list Lane;
  ns_privacy_classes : list PrivacyClass;
  ns_resource_patterns : list string;
  ns_observed_at : Z;
  ns_expires_at : Z;
  ns_attestation_ref : string
}.

#[global] Instance NodeCapabilitySnapshot_eq_dec : EqDecision NodeCapabilitySnapshot.
Proof. solve_decision. Defined.

Record RoutePlan := {
  rp_task_id : string;
  rp_status : string;
  rp_reason_code : string;
  rp_adapter_id : string;
  rp_lane : Lane;
  rp_selected_node_id : option string;
  rp_selected_generation : option Z;
  rp_selected_snapshot_hash : option string;
  rp_selected_attestation_ref : option string;
  rp_selected_expires_at : option Z;
  rp_candidate_node_ids : list string;
  rp_lease_acquired : bool;
  rp_execution_authorized : bool
}.

#[global] Instance RoutePlan_eq_dec : EqDecision RoutePlan.
Proof. solve_decision. Defined.

(** [self._snapshots] *)
Abbreviation NodeCapabilityRegistry := (gmap string NodeCapabilitySnapshot).

(** ** Checks *)
Definition _public_ref (value : string) : bool :=
  if falsy value || contains "\" value || contains ".." value || any_char isspace value
  then false
  else
    let '(namespace, sep, tail) := partition ":" value in
    sep && truthy namespace && truthy tail && negb (startswith_any ["/"; "~"] tail).

Definition _node_id (value : string) : bool :=
  if negb (startswith "node:" value) || negb (_public_ref value) then false
  else all_chars (λ ch, isalnum ch || char_in "._-" ch) (string_drop 5 value).

Definition _token (value : string) : bool :=
  truthy value && negb (any_char isspace value) && negb (contains ":" value)
  && negb (contains "/" value) && negb (contains "\" value).

Definition _nonempty_unique `{EqDecision A} (values : list A) (reason_code : string)
    : result unit :=
  raise_if (is_empty values || has_dup values) (RoutingError reason_code).

Definition _validate_resource_pattern (pattern : string) : result unit :=
  raise_if (negb (_public_ref pattern) || (pattern ∈? ["*"; "*:*"]))
    (RoutingError "NODE_RESOURCE_PATTERN_INVALID");;
  let '(namespace, _, tail) := partition ":" pattern in
  raise_if (falsy namespace || any_char (char_in "*?[]") namespace || falsy tail)
    (RoutingError "NODE_RESOURCE_PATTERN_INVALID").

Definition _all_resources_match (resources patterns : list string) : bool :=
  forallb (λ resource, existsb (λ pattern, fnmatch resource pattern) patterns) resources.

Definition _validate_snapshot (snapshot : NodeCapabilitySnapshot) (now : Z) : result unit :=
  raise_if (negb (_node_id (ns_node_id snapshot))) (RoutingError "NODE_ID_INVALID");;
  raise_if (ns_generation snapshot <? 1) (RoutingError "NODE_GENERATION_INVALID");;
  raise_if (ns_route_rank snapshot <? 0) (RoutingError "NODE_ROUTE_RANK_INVALID");;
  raise_if (now <? ns_observed_at snapshot) (RoutingError "NODE_SNAPSHOT_FROM_FUTURE");;
  raise_if (ns_expires_at snapshot <=? ns_observed_at snapshot)
    (RoutingError "NODE_SNAPSHOT_TIME_RANGE_INVALID");;
  raise_if (ns_expires_at snapshot <=? now) (RoutingError "NODE_SNAPSHOT_EXPIRED");;
  raise_if (negb (_public_ref (ns_attestation_ref snapshot)))
    (RoutingError "NODE_ATTESTATION_REF_INVALID");;
  _nonempty_unique (ns_capabilities snapshot) "NODE_CAPABILITY_DECLARATION_REQUIRED";;
  _nonempty_unique (ns_supported_adapters snapshot) "NODE_ADAPTER_DECLARATION_REQUIRED";;
  _nonempty_unique (ns_supported_lanes snapshot) "NODE_LANE_DECLARATION_REQUIRED";;
  _nonempty_unique (ns_privacy_classes snapshot) "NODE_PRIVACY_DECLARATION_REQUIRED";;
  _nonempty_unique (ns_resource_patterns snapshot) "NODE_RESOURCE_DECLARATION_REQUIRED";;
  each (λ capability, raise_if (negb (_token capability))
    (RoutingError "NODE_CAPABILITY_INVALID")) (ns_capabilities snapshot);;
  each (λ adapter, raise_if (negb (_public_ref adapter))
    (RoutingError "NODE_ADAPTER_ID_INVALID")) (ns_supported_adapters snapshot);;
  each _validate_resource_pattern (ns_resource_patterns snapshot).

(** ** The fingerprint of a snapshot *)
Definition snapshot_payload (s : NodeCapabilitySnapshot) : json :=
  JObj [("node_id", JStr (ns_node_id s));
        ("generation", JInt (ns_generation s));
        ("route_rank", JInt (ns_route_rank s));
        ("capabilities", jstrs (ns_capabilities s));
        ("supported_adapters", jstrs (ns_supported_adapters s));
        ("supported_lanes", jstrs (lane_value <$> ns_supported_lanes s));
        ("privacy_classes", jstrs (privacy_value <$> ns_privacy_classes s));
        ("resource_patterns", jstrs (ns_resource_patterns s));
        ("observed_at", JFloat (ns_observed_at s));
        ("expires_at", JFloat (ns_expires_at s));
        ("attestation_ref", JStr (ns_attestation_ref s))].

Definition node_capability_snapshot_hash (s : NodeCapabilitySnapshot) : string :=
  json_hash (snapshot_payload s).

(** ** The registry *)
Definition register (snapshot : NodeCapabilitySnapshot) (now : Z)
    : M NodeCapabilityRegistry unit :=
  lift (_validate_snapshot snapshot now);;
  existing ← gets (λ self : NodeCapabilityRegistry, self !! ns_node_id snapshot);
  match existing with
  | Some e =>
      lift (raise_if (ns_generation snapshot <? ns_generation e)
        (RoutingError "NODE_GENERATION_ROLLBACK"));;
      if ns_generation snapshot == ns_generation e then
        lift (raise_if (snapshot != e) (RoutingError "NODE_GENERATION_CONTENT_MISMATCH"));;
        mret tt
      else modify (<[ns_node_id snapshot := snapshot]>)
  | None => modify (<[ns_node_id snapshot := snapshot]>)
  end.

Definition fresh (now : Z) (s : NodeCapabilitySnapshot) : bool :=
  (ns_observed_at s <=? now) && (now <? ns_expires_at s).

(** [key=lambda s: (s.route_rank, s.node_id)] *)
Definition route_leb (a b : NodeCapabilitySnapshot) : bool :=
  (ns_route_rank a <? ns_route_rank b)
  || (ns_route_rank a =? ns_route_rank b) && str_leb (ns_node_id a) (ns_node_id b).

(** The values are sorted by a key with the node id in it, so the order in
    which the dict holds them does not show. *)
Definition active (self : NodeCapabilityRegistry) (now : Z) : list NodeCapabilitySnapshot :=
  sort_by route_leb (List.filter (fresh now) (map_to_list self).*2).

Definition require_current (self : NodeCapabilityRegistry) (node_id : string) (generation : Z)
    (snapshot_hash : string) (now : Z) : result NodeCapabilitySnapshot :=
  snapshot ← some_or (self !! node_id) (RoutingError "NODE_SNAPSHOT_MISSING");
  raise_if (ns_generation snapshot != generation) (RoutingError "NODE_GENERATION_MISMATCH");;
  raise_if (negb (fresh now snapshot)) (RoutingError "NODE_SNAPSHOT_EXPIRED");;
  raise_if (node_capability_snapshot_hash snapshot != snapshot_hash)
    (RoutingError "NODE_SNAPSHOT_HASH_MISMATCH");;
  Ok snapshot.

(** ** The planner *)
Definition _no_route (task : UniversalTask) (adapter_id : string) (lane : Lane)
    (reason_code : string) : RoutePlan :=
  {| rp_task_id := task_id task; rp_status := "NO_ROUTE"; rp_reason_code := reason_code;
     rp_adapter_id := adapter_id; rp_lane := lane; rp_selected_node_id := None;
     rp_selected_generation := None; rp_selected_snapshot_hash := None;
     rp_selected_attestation_ref := None; rp_selected_expires_at := None;
     rp_candidate_node_ids := []; rp_lease_acquired := false;
     rp_execution_authorized := false |}.

Definition routed (task : UniversalTask) (adapter_id : string) (lane : Lane)
    (selected : NodeCapabilitySnapshot) (ordered : list NodeCapabilitySnapshot) : RoutePlan :=
  {| rp_task_id := task_id task; rp_status := "ROUTED";
     rp_reason_code := "ROUTE_MATCHED_TYPED_CAPABILITIES";
     rp_adapter_id := adapter_id; rp_lane := lane;
     rp_selected_node_id := Some (ns_node_id selected);
     rp_selected_generation := Some (ns_generation selected);
     rp_selected_snapshot_hash := Some (node_capability_snapshot_hash selected);
     rp_selected_attestation_ref := Some (ns_attestation_ref selected);
     rp_selected_expires_at := Some (ns_expires_at selected);
     rp_candidate_node_ids := ns_node_id <$> ordered; rp_lease_acquired := false;
     rp_execution_authorized := false |}.

Section route.
Context (self : NodeCapabilityRegistry) (task : UniversalTask) (adapter_id : string)
  (lane : Lane) (now : Z).

Definition check_route_request : result unit :=
  raise_if (negb (_public_ref (task_id task)) || negb (startswith "task:" (task_id task)))
    (RoutingError "ROUTE_TASK_ID_INVALID");;
  raise_if (negb (_public_ref adapter_id)) (RoutingError "ROUTE_ADAPTER_ID_INVALID");;
  raise_if (is_empty (task_required_capabilities task))
    (RoutingError "ROUTE_CAPABILITY_REQUIREMENT_REQUIRED");;
  raise_if (is_empty (target_resources task))
    (RoutingError "ROUTE_TARGET_RESOURCE_REQUIRED");;
  each (λ resource, raise_if (negb (_public_ref resource))
    (RoutingError "ROUTE_TARGET_RESOURCE_INVALID")) (target_resources task).

(** The successive filters of [plan], with the reason each gives when it
    leaves no node. *)
Definition route_filters : list ((NodeCapabilitySnapshot → bool) * string) := [
  (λ s, forallb (λ c, c ∈? ns_capabilities s) (task_required_capabilities task),
   "NO_ROUTE_CAPABILITY");
  (λ s, adapter_id ∈? ns_supported_adapters s, "NO_ROUTE_ADAPTER");
  (λ s, lane ∈? ns_supported_lanes s, "NO_ROUTE_LANE");
  (λ s, task_privacy task ∈? ns_privacy_classes s, "NO_ROUTE_PRIVACY");
  (λ s, _all_resources_match (target_resources task) (ns_resource_patterns s),
   "NO_ROUTE_RESOURCE")].

Fixpoint narrow (filters : list ((NodeCapabilitySnapshot → bool) * string))
    (nodes : list NodeCapabilitySnapshot) : list NodeCapabilitySnapshot + string :=
  match filters with
  | [] => inl nodes
  | (keep, reason) :: filters =>
      let kept := List.filter keep nodes in
      if is_empty kept then inr reason else narrow filters kept
  end.

Definition plan : result RoutePlan :=
  check_route_request;;
  let nodes := active self now in
  if is_empty nodes then Ok (_no_route task adapter_id lane "NO_ROUTE_NO_FRESH_NODE")
  else
    match narrow route_filters nodes with
    | inr reason => Ok (_no_route task adapter_id lane reason)
    | inl by_resource =>
        match sort_by route_leb by_resource with
        | [] => Raise (RuntimeError "IndexError")
        | selected :: rest =>
            Ok (routed task adapter_id lane selected (selected :: rest))
        end
    end.
End route.

(** ** The order of routes *)
Lemma route_leb_spec a b :
  route_leb a b = true ↔
  ns_route_rank a < ns_route_rank b ∨
  ns_route_rank a = ns_route_rank b ∧ str_leb (ns_node_id a) (ns_node_id b) = true.
Proof. unfold route_leb. by rewrite orb_true_iff, andb_true_iff, Z.ltb_lt, Z.eqb_eq. Qed.

Lemma route_leb_total a b : route_leb a b = false → route_leb b a = true.
Proof.
  rewrite <-not_true_iff_false, !route_leb_spec. intros H.
  destruct (Z.lt_trichotomy (ns_route_rank a) (ns_route_rank b)) as [?|[E|?]]; [tauto| |tauto].
  right. split; [done|]. apply str_leb_total, not_true_iff_false. tauto.
Qed.

Lemma route_leb_trans a b c :
  route_leb a b = true → route_leb b c = true → route_leb a c = true.
Proof.
  rewrite !route_leb_spec. intros [?|[? ?]] [?|[? ?]]; [left; lia|left; lia|left; lia|].
  right. split; [lia|]. eauto using str_leb_trans.
Qed.

Lemma sort_routes_sorted l : StronglySorted (λ a b, route_leb a b = true) (sort_by route_leb l).
Proof. apply sort_by_sorted; eauto using route_leb_total, route_leb_trans. Qed.

Lemma active_elem self now s :
  s ∈ active self now ↔ (∃ id, self !! id = Some s) ∧ fresh now s = true.
Proof.
  unfold active. rewrite sort_by_perm, filter_elem, list_elem_of_fmap.
  split; intros [H Hf]; (split; [|done]).
  - destruct H as ([id s'] & -> & H%elem_of_map_to_list). by exists id.
  - destruct H as [id H]. exists (id, s). by rewrite elem_of_map_to_list.
Qed.

(** A node that may serve the request now. *)
Definition eligible (task : UniversalTask) (adapter_id : string) (lane : Lane) (now : Z)
    (s : NodeCapabilitySnapshot) : Prop :=
  fresh now s = true ∧
  (∀ c, c ∈ task_required_capabilities task → c ∈ ns_capabilities s) ∧
  adapter_id ∈ ns_supported_adapters s ∧
  lane ∈ ns_supported_lanes s ∧
  task_privacy task ∈ ns_privacy_classes s ∧
  (∀ r, r ∈ target_resources task →
    ∃ pattern, pattern ∈ ns_resource_patterns s ∧ fnmatch r pattern = true).

(** What [narrow] returns: all the nodes that pass every filter, or the reason
    of the first filter that none of the nodes left passes. *)
Lemma narrow_spec filters nodes :
  nodes ≠ [] →
  match narrow filters nodes with
  | inl kept => kept ≠ [] ∧
      kept = foldl (λ nodes f, List.filter f nodes) nodes filters.*1
  | inr reason => ∃ before keep after, filters = before ++ (keep, reason) :: after ∧
      foldl (λ nodes f, List.filter f nodes) nodes before.*1 ≠ [] ∧
      foldl (λ nodes f, List.filter f nodes) nodes (before.*1 ++ [keep]) = []
  end.
Proof.
  revert nodes. induction filters as [|[keep reason] filters IH]; intros nodes Hne; simpl; [done|].
  destruct (is_empty (List.filter keep nodes)) eqn:E; bool_facts.
  - exists [], keep, filters. done.
  - specialize (IH _ E). destruct (narrow _ _); [done|].
    destruct IH as (before & k & after & -> & H1 & H2).
    by exists ((keep, reason) :: before), k, after.
Qed.

Lemma foldl_filter_elem {A} (fs : list (A → bool)) l x :
  x ∈ foldl (λ l f, List.filter f l) l fs ↔ x ∈ l ∧ ∀ f, f ∈ fs → f x = true.
Proof.
  revert l. induction fs as [|f fs IH]; intros l; simpl.
  { split; [intros H; split; [done|]; by intros ? ?%not_elem_of_nil|naive_solver]. }
  rewrite IH, filter_elem. setoid_rewrite elem_of_cons. naive_solver.
Qed.

Lemma route_filters_spec task adapter_id lane s :
  (∀ f, f ∈ (route_filters task adapter_id lane).*1 → f s = true) ↔
  (∀ c, c ∈ task_required_capabilities task → c ∈ ns_capabilities s) ∧
  adapter_id ∈ ns_supported_adapters s ∧
  lane ∈ ns_supported_lanes s ∧
  task_privacy task ∈ ns_privacy_classes s ∧
  (∀ r, r ∈ target_resources task →
    ∃ pattern, pattern ∈ ns_resource_patterns s ∧ fnmatch r pattern = true).
Proof.
  unfold route_filters. rewrite <-Forall_forall. cbn [fmap list_fmap fst].
  rewrite !Forall_cons, Forall_nil. unfold _all_resources_match.
  rewrite forallb_mem, !bool_decide_eq_true, forallb_elem. setoid_rewrite existsb_elem. tauto.
Qed.

(** ** The registry over time *)
Definition registry_wf (self : NodeCapabilityRegistry) : Prop :=
  map_Forall (λ id s, ns_node_id s = id) self.

(** One [register] call per element, at its time; a refused snapshot leaves the
    registry as it was. *)
Definition register_all (calls : list (NodeCapabilitySnapshot * Z))
    (self : NodeCapabilityRegistry) : NodeCapabilityRegistry :=
  foldl (λ self call, (register call.1 call.2 self).2) self calls.

(** The registry a call leaves, by cases. *)
Lemma register_run snapshot now self :
  let r := register snapshot now self in
  (∃ e, r = (Raise e, self)) ∨
  (r = (Ok tt, self) ∧ self !! ns_node_id snapshot = Some snapshot) ∨
  (r = (Ok tt, <[ns_node_id snapshot := snapshot]> self) ∧
   _validate_snapshot snapshot now = Ok tt ∧
   ∀ e, self !! ns_node_id snapshot = Some e → ns_generation e < ns_generation snapshot).
Proof.
  unfold register. m_run.
  destruct (_validate_snapshot snapshot now) as [[]|]; [|left; eauto].
  destruct (self !! ns_node_id snapshot) as [e|] eqn:E; [|right; right; naive_solver].
  destruct (ns_generation snapshot <? ns_generation e) eqn:Hlt; cbn [raise_if]; [left; eauto|].
  bool_facts. case_bool_decide as Hg.
  - case_bool_decide as Hs; cbn [negb raise_if]; [right; left; naive_solver|left; eauto].
  - right; right. split_and!; [done..|]. intros e' [= <-]. lia.
Qed.

Lemma register_wf snapshot now self :
  registry_wf self → registry_wf (register snapshot now self).2.
Proof.
  intros Hwf. destruct (register_run snapshot now self) as [[e ->]|[[-> _]|[-> _]]]; [done..|].
  simpl. by apply map_Forall_insert_2.
Qed.

Lemma register_all_wf calls self : registry_wf self → registry_wf (register_all calls self).
Proof.
  unfold register_all. revert self. induction calls as [|c calls IH]; intros self Hwf; [done|].
  apply IH. by apply register_wf.
Qed.

(** A later snapshot of a node is the same one or a later generation. *)
Definition supersedes (new old : NodeCapabilitySnapshot) : Prop :=
  new = old ∨ ns_generation old < ns_generation new.

Lemma register_supersedes snapshot now self id old :
  registry_wf self → self !! id = Some old →
  ∃ new, (register snapshot now self).2 !! id = Some new ∧ supersedes new old.
Proof.
  intros Hwf Hold. unfold supersedes.
  destruct (register_run snapshot now self) as [[e ->]|[[-> _]|(-> & _ & Hgen)]]; simpl; eauto.
  destruct (decide (ns_node_id snapshot = id)) as [<-|Hne].
  - rewrite lookup_insert_eq. eauto.
  - rewrite lookup_insert_ne by done. eauto.
Qed.

Lemma register_all_supersedes calls self id old :
  registry_wf self → self !! id = Some old →
  ∃ new, register_all calls self !! id = Some new ∧ supersedes new old.
Proof.
  unfold register_all. revert self old. induction calls as [|c calls IH]; intros self old Hwf Hold.
  { exists old. split; [done|by left]. }
  destruct (register_supersedes c.1 c.2 self id old Hwf Hold) as (mid & Hm & Hs).
  destruct (IH _ mid (register_wf c.1 c.2 _ Hwf) Hm) as (new & Hn & Hs').
  exists new. split; [done|]. unfold supersedes in *. destruct Hs as [->|?], Hs' as [->|?]; auto.
  right. lia.
Qed.

Lemma filter_sublist {A} (p : A → bool) l : List.filter p l `sublist_of` l.
Proof. induction l; simpl; [done|]. case_match; by constructor. Qed.

Lemma registry_node_ids self :
  registry_wf self → ns_node_id <$> (map_to_list self).*2 = (map_to_list self).*1.
Proof.
  intros Hwf. rewrite <-list_fmap_compose. apply list_fmap_ext. intros i [id s] Hi.
  apply list_elem_of_lookup_2, elem_of_map_to_list in Hi. by apply Hwf in Hi.
Qed.

Lemma active_ids_nodup self now : registry_wf self → NoDup (ns_node_id <$> active self now).
Proof.
  intros Hwf. unfold active. rewrite sort_by_perm.
  eapply sublist_NoDup; [|apply fmap_sublist, filter_sublist].
  rewrite registry_node_ids by done. apply NoDup_fst_map_to_list.
Qed.

Lemma foldl_filter_nil {A} (fs : list (A → bool)) :
  foldl (λ l f, List.filter f l) [] fs = [].
Proof. by induction fs. Qed.

Lemma foldl_filter_sublist {A} (fs : list (A → bool)) l :
  foldl (λ l f, List.filter f l) l fs `sublist_of` l.
Proof.
  revert l. induction fs as [|f fs IH]; intros l; simpl; [done|].
  etrans; [apply IH|apply filter_sublist].
Qed.

(** The nodes left by all the filters are the eligible ones. *)
Lemma narrow_eligible self task adapter_id lane now s :
  s ∈ foldl (λ nodes f, List.filter f nodes) (active self now)
        (route_filters task adapter_id lane).*1 ↔
  (∃ id, self !! id = Some s) ∧ eligible task adapter_id lane now s.
Proof.
  rewrite foldl_filter_elem, active_elem, route_filters_spec. unfold eligible. tauto.
Qed.

Lemma plan_cases self task adapter_id lane now :
  registry_wf self → check_route_request task adapter_id = Ok tt →
  (∃ s rest, plan self task adapter_id lane now =
       Ok (routed task adapter_id lane s (s :: rest)) ∧
     StronglySorted (λ a b, route_leb a b = true) (s :: rest) ∧
     NoDup (ns_node_id <$> s :: rest) ∧
     ∀ s', s' ∈ s :: rest ↔
       (∃ id, self !! id = Some s') ∧ eligible task adapter_id lane now s') ∨
  (∃ reason, plan self task adapter_id lane now =
       Ok (_no_route task adapter_id lane reason) ∧
     ∀ id s, self !! id = Some s → ¬ eligible task adapter_id lane now s).
Proof.
  intros Hwf Hreq. unfold plan. rewrite Hreq. m_run.
  pose proof (narrow_eligible self task adapter_id lane now) as Hel.
  assert (Hnone : foldl (λ nodes f, List.filter f nodes) (active self now)
      (route_filters task adapter_id lane).*1 = [] →
    ∀ id s, self !! id = Some s → ¬ eligible task adapter_id lane now s).
  { intros E id s Hs He. apply (not_elem_of_nil s). rewrite <-E, Hel. eauto. }
  destruct (is_empty (active self now)) eqn:Eact; bool_facts.
  { right. eexists. split; [done|]. apply Hnone. rewrite Eact. apply foldl_filter_nil. }
  pose proof (narrow_spec (route_filters task adapter_id lane) _ Eact) as Hn.
  destruct (narrow _ _) as [kept|reason].
  - destruct Hn as [Hne Hk]. rewrite <-Hk in Hel.
    pose proof (sort_by_perm route_leb kept) as Hperm.
    pose proof (sort_routes_sorted kept) as Hsort.
    destruct (sort_by route_leb kept) as [|s rest]; [by apply Permutation_nil in Hperm|].
    left. exists s, rest. split_and!; [done|done| |].
    + rewrite Hperm, Hk. eapply sublist_NoDup; [by apply (active_ids_nodup self now)|].
      apply fmap_sublist, foldl_filter_sublist.
    + intros s'. by rewrite Hperm, Hel.
  - right. exists reason. split; [done|]. apply Hnone.
    destruct Hn as (before & keep & after & -> & _ & E).
    rewrite fmap_app, fmap_cons, cons_middle, app_assoc. cbn [fst]. rewrite foldl_app, E.
    apply foldl_filter_nil.
Qed.

(** ** Properties *)

(** C40. Routing is optimal and complete: on a registry built by any calls of
    [register], [plan] fails only on a malformed request; otherwise it routes
    exactly when some registered node is eligible - fresh, with the required
    capabilities, adapter, lane, privacy class and a matching pattern for every
    resource - and then selects one that no eligible node precedes by
    [(route_rank, node_id)], lists exactly the eligible nodes in that order, and
    names the selected snapshot by a generation and hash that [require_current]
    accepts at the same time. *)
Theorem route_plan_optimal calls task adapter_id lane now (self := register_all calls ∅) :
  match plan self task adapter_id lane now with
  | Raise e => check_route_request task adapter_id = Raise e
  | Ok p =>
      check_route_request task adapter_id = Ok tt ∧
      rp_lease_acquired p = false ∧ rp_execution_authorized p = false ∧
      match rp_selected_node_id p with
      | None => rp_status p = "NO_ROUTE" ∧
          ∀ id s, self !! id = Some s → ¬ eligible task adapter_id lane now s
      | Some id => rp_status p = "ROUTED" ∧
          ∃ s, self !! id = Some s ∧ eligible task adapter_id lane now s ∧
            (∀ id' s', self !! id' = Some s' → eligible task adapter_id lane now s' →
               s' = s ∨ route_leb s s' = true) ∧
            NoDup (rp_candidate_node_ids p) ∧
            (∀ id', id' ∈ rp_candidate_node_ids p ↔
               ∃ s', self !! id' = Some s' ∧ eligible task adapter_id lane now s') ∧
            (g ← some_or (rp_selected_generation p) (KeyError "generation");
             h ← some_or (rp_selected_snapshot_hash p) (KeyError "hash");
             require_current self id g h now) = Ok s
      end
  end.
Proof.
  assert (Hwf : registry_wf self) by (by apply register_all_wf).
  destruct (check_route_request task adapter_id) as [[]|e] eqn:Hreq.
  2: { unfold plan. by rewrite Hreq. }
  destruct (plan_cases self task adapter_id lane now Hwf Hreq)
    as [(s & rest & -> & Hsort & Hnd & Hel)|(reason & -> & Hnone)]; [|done].
  assert (Hid : ∀ s', (∃ id, self !! id = Some s') → self !! ns_node_id s' = Some s').
  { intros s' [id Hs']. by rewrite (Hwf _ _ Hs'). }
  destruct (proj1 (Hel s)) as [Hs He]; [by left|]. apply Hid in Hs.
  cbn [routed rp_selected_node_id rp_lease_acquired rp_execution_authorized rp_status
    rp_candidate_node_ids rp_selected_generation rp_selected_snapshot_hash some_or].
  split_and!; try done. exists s. split_and!; try done.
  - intros id' s' Hs' He'. assert (Hin : s' ∈ s :: rest) by (rewrite Hel; eauto).
    apply elem_of_cons in Hin as [->|Hin]; [by left|right].
    apply StronglySorted_inv in Hsort as [_ Hall]. rewrite Forall_forall in Hall. auto.
  - intros id'. rewrite list_elem_of_fmap. split.
    + intros (s' & -> & Hin). apply Hel in Hin as [Hin ?]. exists s'. split; [by apply Hid|done].
    + intros (s' & Hs' & He'). exists s'. rewrite Hel, (Hwf _ _ Hs'). eauto.
  - m_run. unfold require_current. rewrite Hs. m_run. cbn [some_or].
    rewrite !bool_decide_eq_true_2 by done. cbn [negb raise_if].
    destruct He as [-> _]. done.
Qed.

(** No rollback: whatever [register] calls come later, a registered node
    stays registered, its generation never decreases, and as long as its
    generation is the same its snapshot - and so its hash - is the same; so a
    plan's (node, generation) pair always names one capability snapshot. *)
Theorem register_no_rollback calls later id s (self := register_all calls ∅) :
  self !! id = Some s →
  ∃ s', register_all later self !! id = Some s' ∧
    ns_node_id s' = id ∧ ns_generation s ≤ ns_generation s' ∧
    (ns_generation s' = ns_generation s → s' = s).
Proof.
  intros Hs. assert (Hwf : registry_wf self) by (by apply register_all_wf).
  destruct (register_all_supersedes later self id s Hwf Hs) as (s' & Hs' & Hsup).
  exists s'. split; [done|]. split; [by apply (register_all_wf later self Hwf)|].
  destruct Hsup as [->|?]; split; try done; lia.
Qed.

(** Two generations of one node. *)
Definition demo_snapshot (generation : Z) : NodeCapabilitySnapshot :=
  {| ns_node_id := "node:a"; ns_generation := generation; ns_route_rank := 0;
     ns_capabilities := ["git"]; ns_supported_adapters := ["adapter:codegen"];
     ns_supported_lanes := [CODEGEN]; ns_privacy_classes := [PUBLIC_SAFE];
     ns_resource_patterns := ["repo:*"]; ns_observed_at := 0; ns_expires_at := 60000000;
     ns_attestation_ref := "attest:a" |}.

Lemma register_no_rollback_witness :
  ∃ s', register_all [(demo_snapshot 2, 1000); (demo_snapshot 1, 2000)]
      (register_all [(demo_snapshot 1, 0)] ∅) !! "node:a" = Some s' ∧
    1 ≤ ns_generation s' ∧ ns_generation s' = 2.
Proof.
  destruct (register_no_rollback [(demo_snapshot 1, 0)]
    [(demo_snapshot 2, 1000); (demo_snapshot 1, 2000)] "node:a" (demo_snapshot 1))
    as (s' & Hs' & _ & Hg & _); [vm_compute; reflexivity|].
  exists s'. split; [exact Hs'|]. split; [exact Hg|].
  vm_compute in Hs'. injection Hs' as <-. reflexivity.
Defined.
