(* ===== verification/Pep.v ===== *)
(** * The policy enforcement point

    [src/core/runner_vnext_pep.py]: the pure authorization boundary between a
    planned envelope and its ledger reservation.  The authority verifier is
    injected code, a parameter here. *)

From S2P Require Import Prelude.
From S2P Require Import PyStr.
From S2P Require Import Json.
From S2P Require Import Sha256.
From S2P Require Import Contracts.
From S2P Require Import Ledger.
From S2P Require Import Adapters.

(** ** Data *)
Record AuthorityClaim := {
  ac_evidence_refs : list string;
  ac_operation_id : string;
  ac_target_state_ref : string;
  ac_effect_class : EffectClass;
  ac_resources : list string;
  ac_fresh : bool
}.

Record PEPAuthorizationReceipt := {
  pr_adapter_id : string;
  pr_operation_id : string;
  pr_target_state_ref : string;
  pr_fence_token : Z;
  pr_idempotency_key : string;
  pr_effect_class : EffectClass;
  pr_policy_reason_code : string;
  pr_authorization_status : string;
  pr_side_effects_executed : bool
}.

Record PrivilegedBrokerRequest := {
  pb_adapter_id : string;
  pb_operation_id : string;
  pb_target_state_ref : string;
  pb_fence_token : Z;
  pb_idempotency_key : string;
  pb_resources : list string;
  pb_effects : list string;
  pb_effect_class : EffectClass;
  pb_policy_reason_code : string;
  pb_approval_evidence_refs : list string;
  pb_execution_authorized : bool
}.

Inductive PEPOutcome :=
  | Authorized (receipt : PEPAuthorizationReceipt)
  | Brokered (request : PrivilegedBrokerRequest).

(** ** Checks *)
Definition _public_ref (value : string) : bool :=
  truthy value && negb (startswith_any ["/"; "~"] value) && negb (contains "\" value)
  && negb (contains ".." value) && contains ":" value && negb (any_char isspace value).

Definition _validate_envelope (envelope : ExecutionEnvelope) : result unit :=
  raise_if (negb (env_dry_run envelope)) (PEPError "PEP_DRY_RUN_ENVELOPE_REQUIRED");;
  each (λ value, raise_if (negb (_public_ref value)) (PEPError "PEP_PUBLIC_SAFE_REF_REQUIRED"))
    [env_adapter_id envelope; env_operation_id envelope; env_target_state_ref envelope;
     env_idempotency_key envelope];;
  raise_if (falsy (env_policy_reason_code envelope)
            || any_char (λ ch, negb (char_in "ABCDEFGHIJKLMNOPQRSTUVWXYZ0123456789_" ch))
                 (env_policy_reason_code envelope))
    (PEPError "PEP_POLICY_REASON_CODE_INVALID");;
  raise_if (env_fence_token envelope <? 1) (PEPError "PEP_FENCE_INVALID");;
  raise_if (is_empty (env_resources envelope) || is_empty (env_effects envelope))
    (PEPError "PEP_BOUNDED_SCOPE_REQUIRED");;
  each (λ ref, raise_if (negb (_public_ref ref)) (PEPError "PEP_PUBLIC_SAFE_REF_REQUIRED"))
    (env_resources envelope).

(** ** The fingerprint of an envelope's scope *)
Definition scope_payload (e : ExecutionEnvelope) : json :=
  JObj [("adapter_id", JStr (env_adapter_id e));
        ("operation_id", JStr (env_operation_id e));
        ("target_state_ref", JStr (env_target_state_ref e));
        ("idempotency_key", JStr (env_idempotency_key e));
        ("resources", jstrs (env_resources e));
        ("effects", jstrs (env_effects e));
        ("effect_class", JStr (effect_value (env_effect_class e)));
        ("policy_reason_code", JStr (env_policy_reason_code e));
        ("required_capabilities", jstrs (env_required_capabilities e));
        ("privacy", JStr (privacy_value (env_privacy e)));
        ("dry_run", JBool (env_dry_run e))].

Definition reservation_scope_fingerprint (e : ExecutionEnvelope) : string :=
  json_hash (scope_payload e).

Definition _validate_ledger (envelope : ExecutionEnvelope) (reservation : LedgerEvent)
    (current_fence : Z) (current_status : option string) : result unit :=
  raise_if ((ev_event_type reservation != RESERVED) || (current_status != Some "RESERVED"))
    (PEPError "PEP_LEDGER_RESERVATION_REQUIRED");;
  raise_if (id_operation_id (ev_identity reservation) != env_operation_id envelope)
    (PEPError "PEP_LEDGER_OPERATION_MISMATCH");;
  raise_if (id_idempotency_key (ev_identity reservation) != env_idempotency_key envelope)
    (PEPError "PEP_LEDGER_IDEMPOTENCY_MISMATCH");;
  raise_if (id_target_state_ref (ev_identity reservation) != env_target_state_ref envelope)
    (PEPError "PEP_LEDGER_TARGET_STATE_MISMATCH");;
  raise_if (current_fence != env_fence_token envelope) (PEPError "PEP_LEDGER_FENCE_MISMATCH");;
  raise_if (ev_reservation_scope_hash reservation
            != Some (reservation_scope_fingerprint envelope))
    (PEPError "PEP_LEDGER_ENVELOPE_FINGERPRINT_MISMATCH").

Definition _validate_authority_binding (envelope : ExecutionEnvelope) (claim : AuthorityClaim)
    : result unit :=
  raise_if (is_empty (ac_evidence_refs claim)) (PEPError "PEP_APPROVAL_EVIDENCE_REQUIRED");;
  each (λ ref, raise_if (negb (_public_ref ref)) (PEPError "PEP_APPROVAL_EVIDENCE_INVALID"))
    (ac_evidence_refs claim);;
  raise_if (ac_operation_id claim != env_operation_id envelope)
    (PEPError "PEP_AUTHORITY_OPERATION_MISMATCH");;
  raise_if (ac_target_state_ref claim != env_target_state_ref envelope)
    (PEPError "PEP_AUTHORITY_TARGET_STATE_MISMATCH");;
  raise_if (ac_effect_class claim != env_effect_class envelope)
    (PEPError "PEP_AUTHORITY_EFFECT_CLASS_MISMATCH");;
  raise_if (ac_resources claim != env_resources envelope)
    (PEPError "PEP_AUTHORITY_SCOPE_MISMATCH").

(** [except LedgerError as exc: raise PEPError(...)] *)
Definition or_reservation_missing {A} (r : result A) : result A :=
  match r with
  | Raise (LedgerError _) => Raise (PEPError "PEP_LEDGER_RESERVATION_MISSING")
  | r => r
  end.

(** ** [PolicyEnforcementPoint.evaluate] *)
Definition evaluate (envelope : ExecutionEnvelope) (ledger : OperationLedger)
    (authority_claim : option AuthorityClaim)
    (authority_verifier : option (AuthorityClaim → result bool)) : result PEPOutcome :=
  let key := env_idempotency_key envelope in
  _validate_envelope envelope;;
  '(reservation, current_fence, current_status) ← or_reservation_missing (
    reservation ← reservation_event key ledger;
    current_fence ← current_fence_token key ledger;
    current_status ← status key ledger;
    Ok (reservation, current_fence, current_status));
  _validate_ledger envelope reservation current_fence current_status;;
  if env_effect_class envelope == GREEN then
    raise_if (bool_decide (is_Some authority_claim))
      (PEPError "PEP_GREEN_AUTHORITY_CLAIM_UNEXPECTED");;
    Ok (Authorized {|
      pr_adapter_id := env_adapter_id envelope;
      pr_operation_id := env_operation_id envelope;
      pr_target_state_ref := env_target_state_ref envelope;
      pr_fence_token := env_fence_token envelope;
      pr_idempotency_key := key;
      pr_effect_class := env_effect_class envelope;
      pr_policy_reason_code := env_policy_reason_code envelope;
      pr_authorization_status := "AUTHORIZED_GREEN_BOUNDED";
      pr_side_effects_executed := false |})
  else
    match authority_claim, authority_verifier with
    | Some claim, Some verify =>
        _validate_authority_binding envelope claim;;
        raise_if ((env_effect_class envelope == RED) && negb (ac_fresh claim))
          (PEPError "PEP_FRESH_OPERATOR_AUTHORITY_REQUIRED");;
        verified ← verify claim;
        raise_if (negb verified) (PEPError "PEP_AUTHORITY_VERIFICATION_FAILED");;
        Ok (Brokered {|
          pb_adapter_id := env_adapter_id envelope;
          pb_operation_id := env_operation_id envelope;
          pb_target_state_ref := env_target_state_ref envelope;
          pb_fence_token := env_fence_token envelope;
          pb_idempotency_key := key;
          pb_resources := env_resources envelope;
          pb_effects := env_effects envelope;
          pb_effect_class := env_effect_class envelope;
          pb_policy_reason_code := env_policy_reason_code envelope;
          pb_approval_evidence_refs := ac_evidence_refs claim;
          pb_execution_authorized := false |})
    | _, _ => Raise (PEPError "PEP_OPERATOR_AUTHORITY_REQUIRED")
    end.

(** ** Binding *)

(** The fields the fingerprint covers: all but the fence. *)
Definition same_scope (e1 e2 : ExecutionEnvelope) : Prop :=
  env_adapter_id e1 = env_adapter_id e2 ∧
  env_operation_id e1 = env_operation_id e2 ∧
  env_target_state_ref e1 = env_target_state_ref e2 ∧
  env_idempotency_key e1 = env_idempotency_key e2 ∧
  env_resources e1 = env_resources e2 ∧ env_effects e1 = env_effects e2 ∧
  env_effect_class e1 = env_effect_class e2 ∧
  env_policy_reason_code e1 = env_policy_reason_code e2 ∧
  env_required_capabilities e1 = env_required_capabilities e2 ∧
  env_privacy e1 = env_privacy e2 ∧ env_dry_run e1 = env_dry_run e2.

Lemma scope_payload_wf e : json_wf (scope_payload e).
Proof. unfold scope_payload. apply json_wf_obj. repeat constructor; apply json_wf_jstrs. Qed.

Lemma fingerprint_binding e1 e2 :
  reservation_scope_fingerprint e1 = reservation_scope_fingerprint e2 →
  same_scope e1 e2 ∨
  sha256_collision (dumps_canonical (scope_payload e1)) (dumps_canonical (scope_payload e2)).
Proof.
  unfold reservation_scope_fingerprint. intros H. apply json_hash_binding in H as [H|H]; [left|by right|apply scope_payload_wf..].
  unfold scope_payload in H. payload_inj H.
  split_and!; try done; [by apply effect_value_inj|by apply privacy_value_inj].
Qed.

(** ** What [evaluate] establishes *)

(** The ledger holds a live, unstarted reservation of this very envelope. *)
Definition reserved_for (envelope : ExecutionEnvelope) (p : phase) : Prop :=
  ∃ res, p = Live res (env_fence_token envelope) None ∧
    ev_event_type res = RESERVED ∧
    ev_identity res = {| id_operation_id := env_operation_id envelope;
                         id_idempotency_key := env_idempotency_key envelope;
                         id_target_state_ref := env_target_state_ref envelope |} ∧
    ev_reservation_scope_hash res = Some (reservation_scope_fingerprint envelope).

(** Fresh (for RED), bound and verified operator authority. *)
Definition authority_granted (envelope : ExecutionEnvelope) (claim : AuthorityClaim)
    (verify : AuthorityClaim → result bool) : Prop :=
  ac_evidence_refs claim ≠ [] ∧
  (∀ ref, ref ∈ ac_evidence_refs claim → _public_ref ref = true) ∧
  ac_operation_id claim = env_operation_id envelope ∧
  ac_target_state_ref claim = env_target_state_ref envelope ∧
  ac_effect_class claim = env_effect_class envelope ∧
  ac_resources claim = env_resources envelope ∧
  (env_effect_class envelope = RED → ac_fresh claim = true) ∧
  verify claim = Ok true.

Lemma validate_ledger_ok envelope res fence st :
  _validate_ledger envelope res fence st = Ok tt ↔
  ev_event_type res = RESERVED ∧ st = Some "RESERVED" ∧ fence = env_fence_token envelope ∧
  ev_identity res = {| id_operation_id := env_operation_id envelope;
                       id_idempotency_key := env_idempotency_key envelope;
                       id_target_state_ref := env_target_state_ref envelope |} ∧
  ev_reservation_scope_hash res = Some (reservation_scope_fingerprint envelope).
Proof.
  unfold _validate_ledger. autorewrite with py_ok py_bool.
  destruct (ev_identity res) as [a b c]. simpl. split.
  - intros ((?&?)&?&?&?&?&?). by simplify_eq.
  - intros (?&?&?&?&?). by simplify_eq.
Qed.

(** [evaluate] by cases, on a well-formed ledger. *)
Lemma evaluate_ok envelope ledger claim verifier out :
  ledger_wf ledger →
  evaluate envelope ledger claim verifier = Ok out →
  _validate_envelope envelope = Ok tt ∧
  reserved_for envelope (phase_of (env_idempotency_key envelope) ledger) ∧
  match out with
  | Authorized r =>
      env_effect_class envelope = GREEN ∧ claim = None ∧
      pr_authorization_status r = "AUTHORIZED_GREEN_BOUNDED" ∧
      pr_operation_id r = env_operation_id envelope ∧
      pr_fence_token r = env_fence_token envelope ∧
      pr_side_effects_executed r = false
  | Brokered r =>
      env_effect_class envelope ≠ GREEN ∧ pb_execution_authorized r = false ∧
      pb_resources r = env_resources envelope ∧ pb_effects r = env_effects envelope ∧
      ∃ c verify, claim = Some c ∧ verifier = Some verify ∧
        authority_granted envelope c verify ∧ pb_approval_evidence_refs r = ac_evidence_refs c
  end.
Proof.
  intros Hwf H. unfold evaluate in H. apply seq_ok in H as [Hv H]. split; [done|].
  pose proof (reads_by_phase (env_idempotency_key envelope) ledger Hwf) as [Hst Hreads].
  pose proof (phase_of_facts (env_idempotency_key envelope) ledger Hwf) as Hfacts.
  apply phase_status_inv in Hfacts as [Hres _].
  apply result_bind_ok in H as ([[res fence] st] & Hread & H).
  unfold or_reservation_missing in Hread. rewrite Hst in Hread.
  apply seq_ok in H as [Hled H]. apply validate_ledger_ok in Hled as (Hty & -> & -> & Hid & Hsc).
  split.
  - destruct (reservation_event _ ledger) as [res'|e]; [|by destruct e].
    destruct (current_fence_token _ ledger) as [f'|e]; [|by destruct e].
    set (p := phase_of _ ledger) in *. cbn [mbind result_bind] in Hread.
    assert (Hp : phase_status p = Some "RESERVED") by congruence.
    apply Hres in Hp as (r & f & Hp). rewrite Hp in *. destruct Hreads as (E1 & E2 & _).
    exists res. split_and!; try done. congruence.
  - case_bool_decide as Hg.
    + apply seq_ok in H as [Hc [= <-]]. cbn. rewrite Hg. split_and!; try done.
      apply raise_if_ok in Hc. destruct claim; [|done]. by rewrite is_some_Some in Hc.
    + destruct claim as [c|]; [|done]. destruct verifier as [verify|]; [|done].
      apply seq_ok in H as [Hb H]. apply seq_ok in H as [Hf H].
      apply result_bind_ok in H as (v & Hver & H). apply seq_ok in H as [Hv' [= <-]]. cbn.
      split_and!; try done. exists c, verify. split_and!; try done.
      unfold _validate_authority_binding in Hb. autorewrite with py_ok py_bool in Hb.
      apply raise_if_ok in Hf, Hv'. apply negb_false_iff in Hv' as ->.
      destruct Hb as (?&?&?&?&?&?). split_and!; try done.
      intros Hred. rewrite bool_decide_eq_true_2 in Hf by done.
      by apply negb_false_iff in Hf.
Qed.

(** The GREEN case runs to the end whenever its conditions hold. *)
Lemma evaluate_green envelope ledger verifier :
  ledger_wf ledger →
  _validate_envelope envelope = Ok tt → env_effect_class envelope = GREEN →
  reserved_for envelope (phase_of (env_idempotency_key envelope) ledger) →
  ∃ r, evaluate envelope ledger None verifier = Ok (Authorized r).
Proof.
  intros Hwf Hv Hg (res & Hp & Hty & Hid & Hsc).
  pose proof (reads_by_phase (env_idempotency_key envelope) ledger Hwf) as [Hst Hreads].
  rewrite Hp in Hst, Hreads. destruct Hreads as (E1 & E2 & _).
  unfold evaluate. rewrite Hv, Hst, E1, E2. cbn [mbind result_bind or_reservation_missing].
  rewrite (proj2 (validate_ledger_ok envelope res _ _)) by done.
  cbn [mbind result_bind]. rewrite bool_decide_eq_true_2 by done.
  rewrite is_some_None. cbn. eauto.
Qed.

(** ** Properties *)

(** C34. The enforcement point authorizes only what is reserved: against any
    ledger reached by calls, an authorization means that the envelope is a
    well-formed dry run and the ledger holds a live, unstarted reservation of
    exactly its operation, target, fence and scope fingerprint; a GREEN receipt
    is given only to a GREEN envelope with no authority claim, and every other
    envelope yields at most a broker request - itself not an execution
    authorization - backed by an operator claim that is bound to the same
    operation, target, class and resources, fresh when RED, and verified. *)
Theorem pep_authorizes_only_reserved ops envelope claim verifier out :
  evaluate envelope (reached ops) claim verifier = Ok out →
  _validate_envelope envelope = Ok tt ∧
  reserved_for envelope (phase_of (env_idempotency_key envelope) (reached ops)) ∧
  match out with
  | Authorized r =>
      env_effect_class envelope = GREEN ∧ claim = None ∧
      pr_authorization_status r = "AUTHORIZED_GREEN_BOUNDED" ∧
      pr_operation_id r = env_operation_id envelope ∧
      pr_fence_token r = env_fence_token envelope ∧
      pr_side_effects_executed r = false
  | Brokered r =>
      env_effect_class envelope ≠ GREEN ∧ pb_execution_authorized r = false ∧
      pb_resources r = env_resources envelope ∧ pb_effects r = env_effects envelope ∧
      ∃ c verify, claim = Some c ∧ verifier = Some verify ∧
        authority_granted envelope c verify ∧ pb_approval_evidence_refs r = ac_evidence_refs c
  end.
Proof. apply evaluate_ok, reached_wf. Qed.

(** One scope per operation: if two envelopes with the same idempotency key
    are ever authorized - against a ledger and any continuation of it - then
    they name the same adapter, operation, target, resources, effects, effect
    class, capabilities and privacy, or the program has exhibited a SHA-256
    collision. *)
Theorem pep_one_scope ops ops' e1 e2 c1 c2 v1 v2 out1 out2 :
  env_idempotency_key e1 = env_idempotency_key e2 →
  evaluate e1 (reached ops) c1 v1 = Ok out1 →
  evaluate e2 (reached (ops ++ ops')) c2 v2 = Ok out2 →
  same_scope e1 e2 ∨
  sha256_collision (dumps_canonical (scope_payload e1)) (dumps_canonical (scope_payload e2)).
Proof.
  intros Hk H1 H2. apply fingerprint_binding.
  apply evaluate_ok in H1 as (_ & (r1 & Hp1 & _ & _ & Hs1) & _); [|apply reached_wf].
  apply evaluate_ok in H2 as (_ & (r2 & Hp2 & _ & _ & Hs2) & _); [|apply reached_wf].
  pose proof (run_le ops' (reached ops) (env_idempotency_key e1) (reached_wf ops)) as Hle.
  rewrite reached_app in Hp2. rewrite Hp1, Hk, Hp2 in Hle. simpl in Hle.
  destruct Hle as [-> _]. congruence.
Qed.

(** A reservation of the demo envelope, authorized. *)
Definition demo_reserve : ledger_op :=
  OpReserve {| id_operation_id := "op:1"; id_idempotency_key := "key:1";
               id_target_state_ref := "git:abc" |} 1
    (reservation_scope_fingerprint demo_envelope) None.

Lemma demo_authorized : is_ok (evaluate demo_envelope (reached [demo_reserve]) None None) = true.
Proof. vm_compute. reflexivity. Qed.

Lemma pep_authorizes_only_reserved_witness :
  ∃ out, evaluate demo_envelope (reached [demo_reserve]) None None = Ok out ∧
    reserved_for demo_envelope (phase_of "key:1" (reached [demo_reserve])).
Proof.
  pose proof demo_authorized as Hok.
  destruct (evaluate demo_envelope (reached [demo_reserve]) None None) as [out|e] eqn:E;
    [clear Hok|discriminate].
  exists out. split; [reflexivity|].
  apply (pep_authorizes_only_reserved _ _ _ _ _ E).
Defined.

Lemma pep_one_scope_witness :
  same_scope demo_envelope demo_envelope ∨
  sha256_collision (dumps_canonical (scope_payload demo_envelope))
    (dumps_canonical (scope_payload demo_envelope)).
Proof.
  pose proof demo_authorized as Hok.
  destruct (evaluate demo_envelope (reached [demo_reserve]) None None) as [out|e] eqn:E;
    [clear Hok|discriminate].
  exact (pep_one_scope [demo_reserve] [] demo_envelope demo_envelope None None None None out out
    eq_refl E E).
Defined.
