(* ===== verification/ControlPlane.v ===== *)
(** * The GREEN control plane

    [src/core/runner_vnext_control_plane.py]: [prepare] drives one GREEN
    operation through routing, its environment, the lane lease, the ledger
    reservation and the enforcement point, and undoes what it did when a later
    step fails.  The stores it changes are the two components of [World]. *)

From S2P Require Import Prelude.
From S2P Require Import PyStr.
From S2P Require Import Json.
From S2P Require Import Sha256.
From S2P Require Import Contracts.
From S2P Require Import Leases.
From S2P Require Import Ledger.
From S2P Require Import Adapters.
From S2P Require Import Environment.
From S2P Require Import Routing.
From S2P Require Import Pep.

(** ** The durable state *)
Record World := { w_leases : LaneLeaseStore; w_ledger : OperationLedger }.

Definition on_leases {A} (m : M LaneLeaseStore A) : M World A :=
  zoom w_leases (λ s w, {| w_leases := s; w_ledger := w_ledger w |}) m.

Definition on_ledger {A} (m : M OperationLedger A) : M World A :=
  zoom w_ledger (λ l w, {| w_leases := w_leases w; w_ledger := l |}) m.

(** A read of the ledger. *)
Definition ask_ledger {A} (f : OperationLedger → result A) : M World A :=
  query (λ w, f (w_ledger w)).

(** ** Data *)
Record GreenExecutionHandoff := {
  ho_task_id : string;
  ho_node_id : string;
  ho_node_generation : Z;
  ho_node_snapshot_hash : string;
  ho_node_attestation_ref : string;
  ho_node_expires_at : Z;
  ho_lane : Lane;
  ho_lease_scope_key : string;
  ho_fence_token : Z;
  ho_environment_policy_hash : string;
  ho_operation_id : string;
  ho_idempotency_key : string;
  ho_adapter_id : string;
  ho_policy_reason_code : string;
  ho_reservation_scope_hash : string;
  ho_authorization_status : string;
  ho_environment : gmap string string;
  ho_envelope : ExecutionEnvelope;
  ho_lease_retained : bool;
  ho_ledger_reserved : bool;
  ho_execution_authorized : bool;
  ho_side_effects_executed : bool
}.

(** ** Checks *)
Definition _public_ref (value : string) : bool :=
  if falsy value || contains "\" value || contains ".." value || any_char isspace value
  then false
  else
    let '(namespace, sep, tail) := partition ":" value in
    sep && truthy namespace && truthy tail && negb (startswith_any ["/"; "~"] tail).

Definition _validate_task_operation (task : UniversalTask) (operation : OperationIR)
    : result unit :=
  raise_if (negb (_public_ref (op_operation_id operation))
            || negb (startswith "op:" (op_operation_id operation)))
    (ControlPlaneError "CONTROL_PLANE_OPERATION_ID_INVALID");;
  raise_if (negb (_public_ref (task_idempotency_key task))
            || negb (startswith "idem:" (task_idempotency_key task)))
    (ControlPlaneError "CONTROL_PLANE_IDEMPOTENCY_KEY_INVALID");;
  raise_if (task_idempotency_key task != op_idempotency_key operation)
    (ControlPlaneError "CONTROL_PLANE_TASK_OPERATION_IDEMPOTENCY_MISMATCH");;
  raise_if (target_resources task != op_resources operation)
    (ControlPlaneError "CONTROL_PLANE_TASK_OPERATION_RESOURCE_MISMATCH");;
  raise_if (expected_effects task != op_effects operation)
    (ControlPlaneError "CONTROL_PLANE_TASK_OPERATION_EFFECT_MISMATCH").

Definition _handoff (task : UniversalTask) (route_node_id : string) (route_generation : Z)
    (route_snapshot_hash route_attestation_ref : option string) (route_expires_at : option Z)
    (lane : Lane) (lease_scope_key : string) (fence_token : Z)
    (env_plan : ChildEnvironmentPlan) (envelope : ExecutionEnvelope)
    (authorization : PEPAuthorizationReceipt) (scope_hash : string)
    : result GreenExecutionHandoff :=
  match route_snapshot_hash, route_attestation_ref, route_expires_at with
  | Some snapshot_hash, Some attestation_ref, Some expires_at =>
      Ok {| ho_task_id := task_id task;
            ho_node_id := route_node_id;
            ho_node_generation := route_generation;
            ho_node_snapshot_hash := snapshot_hash;
            ho_node_attestation_ref := attestation_ref;
            ho_node_expires_at := expires_at;
            ho_lane := lane;
            ho_lease_scope_key := lease_scope_key;
            ho_fence_token := fence_token;
            ho_environment_policy_hash := ce_policy_hash (ce_receipt env_plan);
            ho_operation_id := env_operation_id envelope;
            ho_idempotency_key := env_idempotency_key envelope;
            ho_adapter_id := env_adapter_id envelope;
            ho_policy_reason_code := env_policy_reason_code envelope;
            ho_reservation_scope_hash := scope_hash;
            ho_authorization_status := pr_authorization_status authorization;
            ho_environment := ce_environment env_plan;
            ho_envelope := envelope;
            ho_lease_retained := true; ho_ledger_reserved := true;
            ho_execution_authorized := true; ho_side_effects_executed := false |}
  | _, _, _ => Raise (ControlPlaneError "CONTROL_PLANE_ROUTE_SNAPSHOT_BINDING_REQUIRED")
  end.

(** [except RoutingError as exc: raise ControlPlaneError(exc.reason_code)] and
    its likes. *)
Definition routing_failed {A} (r : result A) : result A :=
  match r with Raise (RoutingError c) => Raise (ControlPlaneError c) | r => r end.
Definition environment_failed {A} (r : result A) : result A :=
  match r with Raise (EnvironmentContractError c) => Raise (ControlPlaneError c) | r => r end.
Definition lease_failed {A} (e : exn) : M World A :=
  raise (match e with LeaseError c => ControlPlaneError c | e => e end).

(** [except LedgerError: pass], [except LeaseError: pass] *)
Definition pass_ledger_error (e : exn) : M World unit :=
  match e with LedgerError _ => mret tt | e => raise e end.
Definition pass_lease_error (e : exn) : M World unit :=
  match e with LeaseError _ => mret tt | e => raise e end.

Section control_plane.
Context (clock : nat → Z) (nodes : NodeCapabilityRegistry)
  (environment_registry : LaneEnvironmentPolicyRegistry)
  (adapter_planner : AdapterPlanner).

Definition _safe_release (request : LaneRequest) (fence_token : Z) : M World unit :=
  catch (on_leases (scheduler_release clock request fence_token);; mret tt) pass_lease_error.

Definition _fail_after_lease (lease_request : LaneRequest) (fence_token : Z)
    (identity : OperationIdentity) (target_state_ref : string) (reserved_new : bool)
    (release_lease : bool) : M World unit :=
  let key := id_idempotency_key identity in
  (if reserved_new then
     current ← ask_ledger (status key);
     if current == Some "RESERVED" then
       catch (
         current_fence ← ask_ledger (current_fence_token key);
         on_ledger (finish identity current_fence false "CONTROL_PLANE_PREPARATION_FAILED" []
           target_state_ref target_state_ref "FAIL");;
         mret tt) pass_ledger_error
     else mret tt
   else mret tt);;
  if release_lease then _safe_release lease_request fence_token else mret tt.

Section prepare.
Context (task : UniversalTask) (operation : OperationIR) (adapter_id : string)
  (lane : Lane) (lease_scope_key target_state_ref : string) (ttl_seconds now : Z)
  (parent_environment injected_environment : gmap string string).

Definition prepare_policy_input : PolicyInput :=
  {| pi_operation := operation; pi_reversibility := task_reversibility task;
     pi_privacy := task_privacy task; pi_target_state_ref := Some target_state_ref;
     pi_operator_boundary_evidence := task_operator_boundary_evidence task |}.

Definition prepare_identity : OperationIdentity :=
  {| id_operation_id := op_operation_id operation;
     id_idempotency_key := op_idempotency_key operation;
     id_target_state_ref := target_state_ref |}.

(** The checks before any store is touched: the route and the environment. *)
Definition prepare_checks : result (RoutePlan * string * Z * ChildEnvironmentPlan) :=
  raise_if (negb (_public_ref lease_scope_key))
    (ControlPlaneError "CONTROL_PLANE_LEASE_SCOPE_INVALID");;
  raise_if (negb (_public_ref target_state_ref))
    (ControlPlaneError "CONTROL_PLANE_TARGET_STATE_REF_INVALID");;
  _validate_task_operation task operation;;
  raise_if (pd_effect_class (classify_policy prepare_policy_input) != GREEN)
    (ControlPlaneError "CONTROL_PLANE_PRIVILEGED_PATH_REQUIRED");;
  route ← routing_failed (Routing.plan nodes task adapter_id lane now);
  match rp_status route == "ROUTED", rp_selected_node_id route,
        rp_selected_generation route with
  | true, Some node_id, Some generation =>
      env_plan ← environment_failed (build environment_registry
        ("lane:" +:+ lane_value lane) parent_environment injected_environment);
      Ok (route, node_id, generation, env_plan)
  | _, _, _ => Raise (ControlPlaneError (rp_reason_code route))
  end.

(** [if existing_status == "RESERVED": ...]: move the reservation's fence to
    the lease's. *)
Definition sync_fence (fence_token : Z) (existing_status : option string) : M World unit :=
  if existing_status == Some "RESERVED" then
    current_fence ← ask_ledger (current_fence_token (op_idempotency_key operation));
    if current_fence != fence_token then
      lift (raise_if (fence_token <=? current_fence)
        (ControlPlaneError "CONTROL_PLANE_LEDGER_FENCE_NOT_MONOTONIC"));;
      on_ledger (rebind_fence prepare_identity current_fence fence_token);; mret tt
    else mret tt
  else mret tt.

(** The [try] block: plan, reserve, rebind the fence, authorize. *)
Definition reserve_and_authorize (fence_token : Z) (existing_status : option string)
    : M World (ExecutionEnvelope * string * PEPAuthorizationReceipt) :=
  let key := op_idempotency_key operation in
  envelope ← lift (Adapters.plan adapter_id task operation prepare_policy_input
    (classify_policy prepare_policy_input) target_state_ref fence_token adapter_planner);
  let scope_hash := reservation_scope_fingerprint envelope in
  on_ledger (Ledger.reserve prepare_identity fence_token scope_hash None);;
  sync_fence fence_token existing_status;;
  authorization ← query (λ w, evaluate envelope (w_ledger w) None None);
  match authorization with
  | Authorized receipt => mret (envelope, scope_hash, receipt)
  | Brokered _ => raise (ControlPlaneError "CONTROL_PLANE_GREEN_AUTHORIZATION_REQUIRED")
  end.

Definition prepare : M World GreenExecutionHandoff :=
  '(route, node_id, generation, env_plan) ← lift prepare_checks;
  let lease_request := {| lr_task_id := task_id task; lr_lane := lane; lr_owner := node_id;
    lr_scope_key := lease_scope_key; lr_ttl_seconds := ttl_seconds;
    lr_target_state_ref := Some target_state_ref |} in
  lease ← catch (on_leases (Leases.reserve clock lease_request)) lease_failed;
  let acquired := receipt_status lease == "ACQUIRED" in
  let fence_token := receipt_fence_token lease in
  existing_status ← ask_ledger (status (op_idempotency_key operation));
  if existing_status ∈? [Some "COMPLETED"; Some "FAILED"] then
    (if acquired then _safe_release lease_request fence_token else mret tt);;
    raise (ControlPlaneError "CONTROL_PLANE_OPERATION_TERMINAL")
  else
    let reserved_new := existing_status == None in
    let undo := _fail_after_lease lease_request fence_token prepare_identity
      target_state_ref reserved_new acquired in
    '(envelope, scope_hash, authorization) ←
      catch (reserve_and_authorize fence_token existing_status) (λ e,
        match e with
        | AdapterContractError c | LedgerError c | PEPError c =>
            undo;; raise (ControlPlaneError c)
        | ControlPlaneError c => undo;; raise (ControlPlaneError c)
        | e => raise e
        end);
    lift (_handoff task node_id generation (rp_selected_snapshot_hash route)
      (rp_selected_attestation_ref route) (rp_selected_expires_at route) lane
      lease_scope_key fence_token env_plan envelope authorization scope_hash).
End prepare.
End control_plane.

(** ** [GreenControlPlane.public_projection] *)
Definition handoff_public_projection (h : GreenExecutionHandoff) : json :=
  JObj [("schema", JStr "skeleton.runner_green_handoff_receipt.v1");
        ("task_id", JStr (ho_task_id h));
        ("node_id", JStr (ho_node_id h));
        ("node_generation", JInt (ho_node_generation h));
        ("node_snapshot_hash", JStr (ho_node_snapshot_hash h));
        ("node_attestation_ref", JStr (ho_node_attestation_ref h));
        ("node_expires_at", JFloat (ho_node_expires_at h));
        ("lane", JStr (lane_value (ho_lane h)));
        ("fence_token", JInt (ho_fence_token h));
        ("environment_policy_hash", JStr (ho_environment_policy_hash h));
        ("operation_id", JStr (ho_operation_id h));
        ("idempotency_key", JStr (ho_idempotency_key h));
        ("adapter_id", JStr (ho_adapter_id h));
        ("policy_reason_code", JStr (ho_policy_reason_code h));
        ("reservation_scope_hash", JStr (ho_reservation_scope_hash h));
        ("authorization_status", JStr (ho_authorization_status h));
        ("lease_retained", JBool (ho_lease_retained h));
        ("ledger_reserved", JBool (ho_ledger_reserved h));
        ("execution_authorized", JBool (ho_execution_authorized h));
        ("side_effects_executed", JBool (ho_side_effects_executed h))].

(** ** The stores under the combined state *)
Record world_wf (w : World) : Prop := {
  wf_leases : lease_wf (w_leases w);
  wf_ledger : ledger_wf (w_ledger w)
}.

Lemma on_leases_run {A} (m : M LaneLeaseStore A) w :
  on_leases m w = ((m (w_leases w)).1,
    {| w_leases := (m (w_leases w)).2; w_ledger := w_ledger w |}).
Proof. unfold on_leases, zoom. by destruct (m (w_leases w)). Qed.

Lemma on_ledger_run {A} (m : M OperationLedger A) w :
  on_ledger m w = ((m (w_ledger w)).1,
    {| w_leases := w_leases w; w_ledger := (m (w_ledger w)).2 |}).
Proof. unfold on_ledger, zoom. by destruct (m (w_ledger w)). Qed.

(** An operation of the ledger, by its specification. *)
Lemma implements_elim {A} key l spec (got : result A * OperationLedger) :
  ledger_wf l → implements key l spec got →
  ledger_wf got.2 ∧ (∀ k, k ≠ key → phase_of k got.2 = phase_of k l) ∧
  match spec with
  | Ok (a, p) => got.1 = Ok a ∧ phase_of key got.2 = p
  | Raise e => got.1 = Raise e ∧ got.2 = l
  end.
Proof.
  unfold implements. intros Hwf. destruct spec as [[a p]|e].
  - intros (l' & -> & ? & ? & ? & ? & ?). done.
  - by intros ->.
Qed.

(** *** The lease *)

(** [req] holds the lock with fence [f] beyond [now]. *)
Definition held_by (req : LaneRequest) (f now : Z) (l : lock) : Prop :=
  lock_fence l = f ∧ ∃ h, lock_holder l = Some h ∧ h_task_id h = lr_task_id req ∧
    h_owner h = lr_owner req ∧ h_target_state_ref h = lr_target_state_ref req ∧
    now < h_deadline h.

Definition request_key (req : LaneRequest) : lease_key := (lr_lane req, lr_scope_key req).

Lemma spec_acquire_ok now t o ttl r l st f :
  0 ≤ lock_fence l → (spec_acquire now t o ttl r l).1 = Ok (st, f) →
  let l' := (spec_acquire now t o ttl r l).2 in
  lock_fence l' = f ∧
  (∃ h, lock_holder l' = Some h ∧ h_task_id h = t ∧ h_owner h = o ∧
     h_target_state_ref h = r ∧ now < h_deadline h) ∧
  (st = "ACQUIRED" ∧ live_holder now l = None ∧ f = lock_fence l + 1 ∨
   st = "ALREADY_HELD" ∧ l' = l).
Proof.
  intros Hl. unfold spec_acquire. destruct (Z.leb_spec ttl 0) as [?|Httl]; [done|].
  destruct (live_holder now l) as [h|] eqn:Hlive.
  - repeat case_bool_decide; cbn; try done. intros Heq; simplify_eq.
    unfold live_holder in Hlive. destruct (lock_holder l) as [h'|] eqn:Hh; [|done].
    destruct (Z.leb_spec (h_deadline h') now); [done|]. injection Hlive as ->.
    split_and!; eauto 10.
  - destruct (lock_fence l <? 2 ^ 63 - 1); cbn; [|done]. intros Heq; simplify_eq.
    split_and!; [done| |by left]. eexists. split; [done|]. cbn. split_and!; try done. lia.
Qed.

Lemma spec_acquire_raise now t o ttl r l e :
  (spec_acquire now t o ttl r l).1 = Raise e →
  (spec_acquire now t o ttl r l).2 = l ∧ (is_overflow e ∨ ∃ c, e = LeaseError c).
Proof.
  unfold spec_acquire, is_overflow. repeat case_match; cbn; try done; intros [= <-]; eauto.
Qed.

Lemma spec_release_holder now o f l h :
  lock_fence l = f → lock_holder l = Some h → h_owner h = o →
  spec_release now o f l =
    if h_deadline h <=? now then (Raise (LeaseError "LEASE_EXPIRED"), l)
    else (Ok ("RELEASED", f), {| lock_fence := f; lock_holder := None |}).
Proof.
  intros <- Hh <-. unfold spec_release, spec_hold. rewrite Hh.
  rewrite (bool_decide_eq_true_2 (lock_fence l = lock_fence l)) by reflexivity.
  rewrite (bool_decide_eq_true_2 (h_owner h = h_owner h)) by reflexivity. done.
Qed.

Section lease_lemmas.
Context (clock : nat → Z).

Lemma lease_reserve_spec req s r s' :
  lease_wf s → Leases.reserve clock req s = (r, s') →
  lease_wf s' ∧
  (∀ k, k ≠ request_key req → abs_lock s' k = abs_lock s k) ∧
  match r with
  | Ok rc => held_by req (receipt_fence_token rc) (clock (clock_readings s))
        (abs_lock s' (request_key req)) ∧
      1 ≤ receipt_fence_token rc < 2 ^ 63 ∧
      (receipt_status rc = "ACQUIRED" ∧
         live_holder (clock (clock_readings s)) (abs_lock s (request_key req)) = None ∧
         lock_fence (abs_lock s (request_key req)) < receipt_fence_token rc ∨
       receipt_status rc = "ALREADY_HELD" ∧
         abs_lock s' (request_key req) = abs_lock s (request_key req))
  | Raise e => abs_lock s' (request_key req) = abs_lock s (request_key req) ∧
      (is_overflow e ∨ ∃ c, e = LeaseError c)
  end.
Proof.
  intros Hs H. unfold Leases.reserve in H. apply acquire_refines in H as (Hs' & Hobs & Habs & Hne); [|done].
  split; [done|]. split; [exact Hne|]. fold (request_key req) in *.
  pose proof (lock_fence_range s (request_key req) Hs) as Hr.
  pose proof (lock_fence_range s' (request_key req) Hs') as Hr'.
  destruct r as [rc|e]; cbn [observe_receipt] in Hobs; symmetry in Hobs.
  - apply spec_acquire_ok in Hobs as (Hf & Hh & Hcase); [|lia]. rewrite <-Habs in *.
    split; [by split|]. destruct Hcase as [(? & ? & ?)|[? ?]].
    + split; [lia|]. left. split_and!; try done; lia.
    + split; [|by right]. split; [|lia].
      destruct Hh as (h & Hh & _). unfold abs_lock in Hf, Hh. cbn in Hf, Hh.
      destruct (lane_leases s' !! request_key req) as [c|] eqn:Ec; [|done].
      pose proof (wf_lease_fence s' Hs' _ _ Ec) as Hfe. rewrite Hfe in Hf. cbn in Hf.
      pose proof (wf_fence_range s' Hs' _ _ Hfe). lia.
  - apply spec_acquire_raise in Hobs as [Hl He]. by rewrite Habs.
Qed.

(** A lease is gone, or was refused because it had already run out. *)
Definition let_go (l : lock) (n : nat) : Prop :=
  lock_holder l = None ∨ ∃ h, lock_holder l = Some h ∧ h_deadline h ≤ clock n.

Lemma lease_release_spec req f now s r s' :
  lease_wf s → held_by req f now (abs_lock s (request_key req)) →
  scheduler_release clock req f s = (r, s') →
  lease_wf s' ∧ (∀ k, k ≠ request_key req → abs_lock s' k = abs_lock s k) ∧
  let_go (abs_lock s' (request_key req)) (clock_readings s) ∧
  match r with Ok _ => True | Raise e => ∃ c, e = LeaseError c end.
Proof.
  intros Hs (Hf & h & Hh & _ & Ho & _) H.
  unfold scheduler_release, release_exact in H. apply release_refines in H as (Hs' & Hobs & Habs & Hne); [|done].
  split; [done|]. split; [exact Hne|]. fold (request_key req) in *.
  rewrite (spec_release_holder _ _ _ _ _ Hf Hh Ho) in Hobs, Habs.
  destruct (Z.leb_spec (h_deadline h) (clock (clock_readings s))) as [Hd|Hd];
    rewrite Habs; unfold let_go; cbn [fst snd lock_holder]; cbn [fst snd] in Hobs.
  - split; [by right; exists h|]. destruct r; [done|]. injection Hobs as ->. eauto.
  - split; [by left|]. by destruct r.
Qed.
End lease_lemmas.

(** *** The exceptions of the pure parts *)
Definition is_adapter_error (e : exn) : Prop := ∃ c, e = AdapterContractError c.
Definition is_pep_error (e : exn) : Prop := ∃ c, e = PEPError c.

(** What the [try] block of [prepare] catches. *)
Definition caught (e : exn) : Prop :=
  is_adapter_error e ∨ is_ledger_error e ∨ is_pep_error e ∨ ∃ c, e = ControlPlaneError c.

Lemma adapter_plan_raises adapter_id task operation policy_input decision target f self :
  only_raises is_adapter_error
    (Adapters.plan adapter_id task operation policy_input decision target f self).
Proof. unfold Adapters.plan, check_binding, check_manifest. raises; by eexists. Qed.

Lemma evaluate_raises envelope l :
  ledger_wf l → only_raises is_pep_error (evaluate envelope l None None).
Proof.
  intros Hwf. destruct (reads_by_phase (env_idempotency_key envelope) l Hwf) as [Hst Hreads].
  unfold evaluate. rewrite Hst. apply only_raises_bind; [unfold _validate_envelope; raises; by eexists|].
  intros _. destruct (phase_of (env_idempotency_key envelope) l) as [|r f s|r t s];
    destruct Hreads as (E1 & E2 & _); rewrite E1, ?E2; cbn [mbind result_bind or_reservation_missing];
    [by eexists|unfold _validate_ledger; raises; by eexists..].
Qed.

Section authorize.
Context (adapter_planner : AdapterPlanner) (task : UniversalTask) (operation : OperationIR)
  (adapter_id target_state_ref : string).
Notation key := (op_idempotency_key operation).
Notation identity := (prepare_identity operation target_state_ref).
Notation input := (prepare_policy_input task operation target_state_ref).
Notation phase w := (phase_of key (w_ledger w)).

(** The ledger after a reservation attempt under [identity]. *)
Lemma ledger_reserve_spec f h l :
  ledger_wf l → 1 ≤ f < 2 ^ 63 →
  let '(r, l') := Ledger.reserve identity f h None l in
  ledger_wf l' ∧ (∀ k, k ≠ key → phase_of k l' = phase_of k l) ∧
  match r with
  | Raise e => is_ledger_error e ∧ l' = l
  | Ok _ => _identity identity = Ok tt ∧
      match phase_of key l with
      | Absent => ∃ res, phase_of key l' = Live res f None ∧ ev_identity res = identity
      | p => phase_of key l' = p
      end
  end.
Proof.
  intros Hwf Hf.
  pose proof (implements_elim _ _ _ _ Hwf (reserve_implements identity f h None l Hwf)) as H.
  destruct (Ledger.reserve identity f h None l) as [r l'].
  destruct H as (Hwf' & Hne & H). cbn [fst snd] in *. split; [done|]. split; [done|].
  destruct (spec_reserve _ _ _ _ _ _) as [[a p]|e] eqn:E.
  - destruct H as [-> Hp]. unfold spec_reserve in E. inv_ok. split; [done|].
    change (id_idempotency_key identity) with key in *.
    destruct (phase_of key l) as [|r f' s|r t s]; inv_ok; simplify_eq; try congruence.
    rewrite Hp. by eexists.
  - destruct H as [-> ->]. split; [|done].
    pose proof (spec_step_raises is_ledger_error (last_sequence l + 1)
      (OpReserve identity f h None) (phase_of key l)) as Hr.
    cbn [spec_step] in Hr. change (id_idempotency_key identity) with key in E.
    rewrite E in Hr. apply Hr; [by eexists|]. intros ? [= <-]. left. lia.
Qed.

Lemma ledger_rebind_spec c f l :
  ledger_wf l → 1 ≤ f < 2 ^ 63 →
  let '(r, l') := rebind_fence identity c f l in
  ledger_wf l' ∧ (∀ k, k ≠ key → phase_of k l' = phase_of k l) ∧
  match r with
  | Raise e => is_ledger_error e ∧ l' = l
  | Ok _ => ∃ res, phase_of key l = Live res c None ∧ phase_of key l' = Live res f None
  end.
Proof.
  intros Hwf Hf.
  pose proof (implements_elim _ _ _ _ Hwf (rebind_implements identity c f l Hwf)) as H.
  destruct (rebind_fence identity c f l) as [r l'].
  destruct H as (Hwf' & Hne & H). cbn [fst snd] in *. split; [done|]. split; [done|].
  destruct (spec_rebind _ _ _ _ _) as [[a p]|e] eqn:E.
  - destruct H as [-> Hp]. unfold spec_rebind in E. inv_ok.
    change (id_idempotency_key identity) with key in *.
    destruct (phase_of key l) as [|r f' [s|]|r t s]; inv_ok; simplify_eq.
    cbn [spec_reservation] in *. inv_ok. simplify_eq. eexists. split; [done|]. by rewrite Hp.
  - destruct H as [-> ->]. split; [|done].
    pose proof (spec_step_raises is_ledger_error (last_sequence l + 1)
      (OpRebind identity c f) (phase_of key l)) as Hr.
    cbn [spec_step] in Hr. change (id_idempotency_key identity) with key in E.
    rewrite E in Hr. apply Hr; [by eexists|]. intros ? [= <-]. left. lia.
Qed.

(** How the [try] block may leave the key's phase. *)
Definition reserved_phase (f : Z) (before after : Ledger.phase) : Prop :=
  match before with
  | Absent => after = Absent ∨
      _identity identity = Ok tt ∧ ∃ res, after = Live res f None ∧ ev_identity res = identity
  | Live res c None => after = before ∨ after = Live res f None
  | p => after = p
  end.

Lemma reserved_phase_refl f p : reserved_phase f p p.
Proof. destruct p as [|? ? []|]; simpl; auto. Qed.

(** What every part of the [try] block leaves of the stores. *)
Definition tried (f : Z) (w w' : World) : Prop :=
  w_leases w' = w_leases w ∧ ledger_wf (w_ledger w') ∧
  (∀ k, k ≠ key → phase_of k (w_ledger w') = phase_of k (w_ledger w)) ∧
  reserved_phase f (phase w) (phase w').

Lemma tried_refl f w : ledger_wf (w_ledger w) → tried f w w.
Proof. intros Hwf. split_and!; try done. apply reserved_phase_refl. Qed.

Lemma sync_fence_spec f w w1 :
  1 ≤ f < 2 ^ 63 → tried f w w1 → phase w1 = phase w ∨ phase w = Absent →
  let '(r, w2) := sync_fence operation target_state_ref f (phase_status (phase w)) w1 in
  tried f w w2 ∧ match r with Ok _ => True | Raise e => caught e end.
Proof.
  intros Hf Ht Hp. unfold sync_fence, ask_ledger. case_bool_decide as Hst; [|done].
  destruct Ht as (Hl & Hwf & Hne & Hph).
  destruct Hp as [Hp|Hp]; [|by rewrite Hp in Hst].
  pose proof (reads_by_phase key (w_ledger w1) Hwf) as [_ Hreads].
  pose proof (phase_of_facts key (w_ledger w1) Hwf) as Hfacts.
  apply phase_status_inv in Hfacts as [Hlive _]. rewrite Hp in Hlive, Hreads, Hph.
  apply Hlive in Hst as (r & c & Hlc). rewrite Hlc in *. destruct Hreads as (Hcf & _ & _).
  m_run. rewrite Hcf.
  case_bool_decide as Hc; cbn [negb].
  { split; [|done]. split_and!; try done. rewrite Hlc. by left. }
  destruct (f <=? c) eqn:Hle; cbn [raise_if].
  { split; [|right; right; right; by eexists]. split_and!; try done. rewrite Hlc. by left. }
  rewrite on_ledger_run. pose proof (ledger_rebind_spec c f _ Hwf Hf) as Hre.
  destruct (rebind_fence _ _ _ _) as [[ev|e] l2]; cbn [fst snd w_leases w_ledger];
    destruct Hre as (Hwf2 & Hne2 & Hre).
  - split; [|done]. split_and!; try done.
    + intros k Hk. cbn [w_ledger]. rewrite Hne2; auto.
    + rewrite Hlc. right. cbn [w_ledger]. destruct Hre as (res & E1 & E2). congruence.
  - destruct Hre as [He ->]. split; [|right; left; done].
    split_and!; try done. rewrite Hlc. by left.
Qed.

Lemma authorize_spec f w :
  world_wf w → 1 ≤ f < 2 ^ 63 →
  let '(r, w') := reserve_and_authorize adapter_planner task operation adapter_id
    target_state_ref f (phase_status (phase w)) w in
  tried f w w' ∧
  match r with
  | Raise e => caught e
  | Ok (envelope, h, receipt) =>
      Adapters.plan adapter_id task operation input (classify_policy input) target_state_ref f
        adapter_planner = Ok envelope ∧
      h = reservation_scope_fingerprint envelope ∧
      reserved_for envelope (phase w') ∧ env_effect_class envelope = GREEN ∧
      _validate_envelope envelope = Ok tt ∧
      pr_authorization_status receipt = "AUTHORIZED_GREEN_BOUNDED"
  end.
Proof.
  intros [Hls Hlg] Hf. unfold reserve_and_authorize. m_run.
  destruct (Adapters.plan _ _ _ _ _ _ _ _) as [envelope|e] eqn:Hplan.
  2: { split; [by apply tried_refl|].
       left. eapply only_raises_elim; [apply adapter_plan_raises|exact Hplan]. }
  assert (Hkey : env_idempotency_key envelope = key) by
    (apply plan_ok in Hplan as (? & _ & _ & _ & _ & _ & ->); done).
  rewrite on_ledger_run.
  pose proof (ledger_reserve_spec f (reservation_scope_fingerprint envelope) _ Hlg Hf) as Hres.
  destruct (Ledger.reserve _ _ _ _ _) as [[ev|e] l1]; cbn [fst snd];
    destruct Hres as (Hwf1 & Hne1 & Hres).
  2: { destruct Hres as [He ->]. split; [|by right; left].
       split_and!; try done. apply reserved_phase_refl. }
  destruct Hres as [Hidok Hph1].
  set (w1 := {| w_leases := w_leases w; w_ledger := l1 |}).
  assert (Ht1 : tried f w w1).
  { split_and!; try done. unfold reserved_phase, w1. cbn [w_ledger].
    destruct (phase w) as [|? ? []|]; auto. }
  assert (Hp1 : phase w1 = phase w ∨ phase w = Absent)
    by (unfold w1; cbn [w_ledger]; destruct (phase w); auto).
  pose proof (sync_fence_spec f w w1 Hf Ht1 Hp1) as Hs.
  destruct (sync_fence _ _ _ _ w1) as [[[]|e] w2]; destruct Hs as [Ht2 He]; [|done].
  destruct (evaluate envelope (w_ledger w2) None None) as [[receipt|request]|e] eqn:Hev.
  - split; [done|].
    apply evaluate_ok in Hev as (Hv & Hrf & Hg & _ & Hau & _); [|apply Ht2].
    rewrite Hkey in Hrf. done.
  - split; [done|]. right; right; right. by eexists.
  - split; [done|]. right; right; left.
    eapply only_raises_elim; [apply evaluate_raises, Ht2|exact Hev].
Qed.
End authorize.

(** ** Undoing a failed preparation *)
Lemma identity_public_refs i :
  _identity i = Ok tt → _public_refs [id_target_state_ref i; id_target_state_ref i] = Ok tt.
Proof.
  unfold _identity, _public_refs. rewrite seq_ok, !each_ok, !Forall_cons. tauto.
Qed.

Lemma prepare_reason_ok : _reason "CONTROL_PLANE_PREPARATION_FAILED" = Ok tt.
Proof. vm_compute. reflexivity. Qed.

(** Finishing a live operation closes it with the caller's evidence. *)
Lemma finish_live_spec i f (ok : bool) reason refs b a v res start l :
  ledger_wf l → phase_of (id_idempotency_key i) l = Live res f start → ev_identity res = i →
  _reason reason = Ok tt → _public_refs refs = Ok tt → _public_refs [b; a] = Ok tt →
  v ∈ ["PASS"; "FAIL"] →
  let t := new_event (last_sequence l + 1) i (if (ok : bool) then COMPLETED else FAILED) f reason refs
    (Some b) (Some a) (Some v) None (ev_reservation_scope_hash res) in
  ∃ l', finish i f ok reason refs b a v l = (Ok t, l') ∧ ledger_wf l' ∧
    (∀ k, k ≠ id_idempotency_key i → phase_of k l' = phase_of k l) ∧
    phase_of (id_idempotency_key i) l' = Done res t start.
Proof.
  intros Hwf Hp Hid Hreason Hrefs Hba Hv t.
  pose proof (phase_of_facts (id_idempotency_key i) l Hwf) as Hfacts.
  rewrite Hp in Hfacts. destruct Hfacts as (_ & _ & Hf).
  pose proof (implements_elim _ _ _ _ Hwf (finish_implements i f ok reason refs b a v l Hwf)) as H.
  destruct (finish _ _ _ _ _ _ _ _ l) as [r l']. destruct H as (Hwf' & Hne & H).
  cbn [fst snd] in *. unfold spec_finish in H. rewrite (proj2 (_fence_ok f)) in H by lia.
  rewrite Hreason, Hrefs, Hba, Hp in H. unfold spec_reservation in H. rewrite Hid in H.
  rewrite (bool_decide_eq_true_2 _ Hv) in H. cbn [negb raise_if mbind result_bind] in H.
  rewrite !bool_decide_eq_true_2 in H by reflexivity.
  cbn [negb raise_if mbind result_bind] in H. destruct H as [-> Hp']. by exists l'.
Qed.

Lemma finish_failed_spec i f res l :
  ledger_wf l → _identity i = Ok tt →
  phase_of (id_idempotency_key i) l = Live res f None → ev_identity res = i →
  let '(r, l') := finish i f false "CONTROL_PLANE_PREPARATION_FAILED" []
    (id_target_state_ref i) (id_target_state_ref i) "FAIL" l in
  ledger_wf l' ∧ (∀ k, k ≠ id_idempotency_key i → phase_of k l' = phase_of k l) ∧
  ∃ t, r = Ok t ∧ ev_event_type t = FAILED ∧
    phase_of (id_idempotency_key i) l' = Done res t None.
Proof.
  intros Hwf Hi Hp Hid.
  destruct (finish_live_spec i f false "CONTROL_PLANE_PREPARATION_FAILED" []
    (id_target_state_ref i) (id_target_state_ref i) "FAIL" res None l Hwf Hp Hid prepare_reason_ok
    eq_refl (identity_public_refs i Hi)) as (l' & -> & ? & ? & ?); [by right; left|].
  split_and!; [assumption..|]. eexists. by split_and!.
Qed.

Section undo.
Context (clock : nat → Z) (adapter_planner : AdapterPlanner) (task : UniversalTask)
  (operation : OperationIR) (target_state_ref : string) (req : LaneRequest).
Notation key := (op_idempotency_key operation).
Notation identity := (prepare_identity operation target_state_ref).
Notation phase w := (phase_of key (w_ledger w)).
Notation lock w := (abs_lock (w_leases w) (request_key req)).

Lemma safe_release_spec f now w :
  lease_wf (w_leases w) → held_by req f now (lock w) →
  let '(r, w') := _safe_release clock req f w in
  r = Ok tt ∧ lease_wf (w_leases w') ∧ w_ledger w' = w_ledger w ∧
  (∀ k, k ≠ request_key req → abs_lock (w_leases w') k = abs_lock (w_leases w) k) ∧
  let_go clock (lock w') (clock_readings (w_leases w)).
Proof.
  intros Hwf Hheld. unfold _safe_release. m_run. rewrite on_leases_run.
  destruct (scheduler_release clock req f (w_leases w)) as [r s'] eqn:E.
  apply (lease_release_spec clock req f now) in E as (Hwf' & Hne & Hgo & He); [|done..].
  cbn [fst snd]. destruct r as [rc|e]; [by split_and!|].
  destruct He as [c ->]. cbn. by split_and!.
Qed.

(** How a failed preparation leaves the key's phase. *)
Definition undone (before after : Ledger.phase) : Prop :=
  before = Absent →
  after = Absent ∨ ∃ res t, after = Done res t None ∧ ev_event_type t = FAILED.

Lemma fail_after_lease_spec f now w0 w (release_lease : bool) :
  lease_wf (w_leases w) → tried operation target_state_ref f w0 w →
  held_by req f now (lock w) →
  let '(r, w') := _fail_after_lease clock req f identity target_state_ref
    (phase_status (phase w0) == None) release_lease w in
  r = Ok tt ∧ lease_wf (w_leases w') ∧ ledger_wf (w_ledger w') ∧
  (∀ k, k ≠ request_key req → abs_lock (w_leases w') k = abs_lock (w_leases w) k) ∧
  (∀ k, k ≠ key → phase_of k (w_ledger w') = phase_of k (w_ledger w)) ∧
  undone (phase w0) (phase w') ∧
  (phase w0 ≠ Absent → phase w' = phase w) ∧
  (if release_lease then ∃ n, let_go clock (lock w') n
   else abs_lock (w_leases w') (request_key req) = abs_lock (w_leases w) (request_key req)).
Proof.
  intros Hlw (_ & Hwf & _ & Hph) Hheld. unfold _fail_after_lease.
  assert (Hfin : ∀ reserved_new, reserved_new = bool_decide (phase_status (phase w0) = None) →
    let '(r, w1) := (if reserved_new then
       current ← ask_ledger (status key);
       if current == Some "RESERVED" then
         catch (
           current_fence ← ask_ledger (current_fence_token key);
           on_ledger (finish identity current_fence false "CONTROL_PLANE_PREPARATION_FAILED" []
             target_state_ref target_state_ref "FAIL");;
           mret tt) pass_ledger_error
       else mret tt
     else mret tt) w in
    r = Ok tt ∧ w_leases w1 = w_leases w ∧ ledger_wf (w_ledger w1) ∧
    (∀ k, k ≠ key → phase_of k (w_ledger w1) = phase_of k (w_ledger w)) ∧
    undone (phase w0) (phase w1) ∧ (phase w0 ≠ Absent → phase w1 = phase w)).
  { intros rn ->. case_bool_decide as Hnew.
    2: { split_and!; try done. intros E. by rewrite E in Hnew. }
    assert (E0 : phase w0 = Absent) by (destruct (phase w0) as [|? ? []|]; done).
    rewrite E0 in Hph |- *. unfold ask_ledger. m_run. rewrite status_run by done.
    destruct Hph as [Hab|(Hi & res & Hlive & Hid)].
    - rewrite Hab. cbn. rewrite ?Hab. split_and!; try done. intros _. by left.
    - rewrite Hlive. cbn [phase_status]. rewrite bool_decide_eq_true_2 by done.
      pose proof (reads_by_phase key (w_ledger w) Hwf) as [_ Hreads].
      rewrite Hlive in Hreads. destruct Hreads as (-> & _ & _).
      rewrite on_ledger_run.
      pose proof (finish_failed_spec identity f res (w_ledger w) Hwf Hi Hlive Hid) as H.
      change (id_target_state_ref identity) with target_state_ref in H.
      change (id_idempotency_key identity) with key in H.
      destruct (finish _ _ _ _ _ _ _ _ _) as [r l'].
      destruct H as (Hwf' & Hne & t & -> & Ht & Hp). cbn [fst snd w_leases w_ledger].
      split_and!; try done. intros _. right. eauto. }
  specialize (Hfin _ eq_refl). revert Hfin. m_run. 
  change (id_idempotency_key identity) with key.
  match goal with |- context [let (r, s') := ?body in match r with _ => _ end] =>
    destruct body as [r1 w1] end.
  intros (-> & Hl1 & Hwf1 & Hne1 & Hu & Hsame).
  destruct release_lease.
  - pose proof (safe_release_spec f now w1) as Hrel. rewrite Hl1 in Hrel.
    specialize (Hrel Hlw Hheld). destruct (_safe_release clock req f w1) as [r2 w2].
    destruct Hrel as (-> & Hlw2 & Hled & Hne2 & Hgo). rewrite !Hled. split_and!; eauto.
  - rewrite Hl1. by split_and!.
Qed.
End undo.

(** ** The whole preparation *)
Lemma undone_refl p : undone p p.
Proof. intros ->. by left. Qed.

Definition is_control_plane_error (e : exn) : Prop := ∃ c, e = ControlPlaneError c.

Section prepare_lemmas.
Context (clock : nat → Z) (nodes : NodeCapabilityRegistry)
  (environment_registry : LaneEnvironmentPolicyRegistry) (adapter_planner : AdapterPlanner)
  (task : UniversalTask) (operation : OperationIR) (adapter_id : string) (lane : Lane)
  (lease_scope_key target_state_ref : string) (ttl_seconds now : Z)
  (parent_environment injected_environment : gmap string string).
Context (Hnodes : Routing.registry_wf nodes).
Notation key := (op_idempotency_key operation).
Notation identity := (prepare_identity operation target_state_ref).
Notation input := (prepare_policy_input task operation target_state_ref).
Notation phase w := (phase_of key (w_ledger w)).
Notation checks := (prepare_checks nodes environment_registry task operation adapter_id lane
  lease_scope_key target_state_ref now parent_environment injected_environment).

(** The lease [prepare] asks for, on behalf of the routed node. *)
Definition prepare_request (node_id : string) : LaneRequest :=
  {| lr_task_id := task_id task; lr_lane := lane; lr_owner := node_id;
     lr_scope_key := lease_scope_key; lr_ttl_seconds := ttl_seconds;
     lr_target_state_ref := Some target_state_ref |}.

Lemma routing_raises :
  only_raises is_control_plane_error
    (routing_failed (Routing.plan nodes task adapter_id lane now)).
Proof.
  destruct (check_route_request task adapter_id) as [[]|e] eqn:Hreq.
  - destruct (plan_cases nodes task adapter_id lane now Hnodes Hreq)
      as [(s & rest & -> & _)|(reason & -> & _)]; done.
  - assert (He : ∃ c, e = RoutingError c).
    { revert Hreq. apply (only_raises_elim (λ e, ∃ c, e = RoutingError c)).
      unfold check_route_request. raises; by eexists. }
    destruct He as [c ->]. unfold Routing.plan. rewrite Hreq. by eexists.
Qed.

Lemma environment_raises :
  only_raises is_control_plane_error (environment_failed (build environment_registry
    ("lane:" +:+ lane_value lane) parent_environment injected_environment)).
Proof.
  assert (H : only_raises (λ e, ∃ c, e = EnvironmentContractError c)
    (build environment_registry ("lane:" +:+ lane_value lane) parent_environment
       injected_environment)).
  { unfold build, _build_child_environment, lane_environment_policy_hash,
      validate_lane_environment_policy. raises; by eexists. }
  destruct (build _ _ _ _) as [|e]; [done|]. destruct H as [c ->]. by eexists.
Qed.

Lemma checks_raises : only_raises is_control_plane_error checks.
Proof.
  unfold prepare_checks, _validate_task_operation.
  raises; try (by eexists); [apply routing_raises|].
  repeat case_match; raises; try (by eexists). apply environment_raises.
Qed.

(** What the checks establish about the route and the environment. *)
Lemma checks_ok route node_id generation env_plan :
  checks = Ok (route, node_id, generation, env_plan) →
  pd_effect_class (classify_policy input) = GREEN ∧
  build environment_registry ("lane:" +:+ lane_value lane) parent_environment
    injected_environment = Ok env_plan ∧
  ∃ s rest, route = routed task adapter_id lane s (s :: rest) ∧
    node_id = ns_node_id s ∧ generation = ns_generation s ∧
    nodes !! node_id = Some s ∧ eligible task adapter_id lane now s.
Proof.
  unfold prepare_checks. rewrite !seq_ok, !raise_if_ok.
  intros (_ & _ & _ & Hg & H). bool_facts. split; [done|].
  apply result_bind_ok in H as (route' & Hroute & H).
  unfold routing_failed in Hroute.
  destruct (Routing.plan _ _ _ _ _) as [p|e] eqn:Hplan;
    [injection Hroute as ->|by destruct e].
  assert (Hreq : check_route_request task adapter_id = Ok tt)
    by (unfold Routing.plan in Hplan; destruct (check_route_request _ _) as [[]|]; done).
  destruct (plan_cases nodes task adapter_id lane now Hnodes Hreq)
    as [(s & rest & Hp & _ & _ & Hel)|(reason & Hp & _)]; rewrite Hp in Hplan;
    injection Hplan as <-; [|done].
  cbn [routed rp_status rp_selected_node_id rp_selected_generation] in H.
  rewrite bool_decide_eq_true_2 in H by done.
  apply result_bind_ok in H as (env' & Henv & H). injection H as <- <- <- ->.
  unfold environment_failed in Henv.
  destruct (build _ _ _ _) as [b|e]; [injection Henv as ->|by destruct e].
  split; [done|]. exists s, rest. destruct (proj1 (Hel s)) as [[id Hid] He]; [by left|].
  rewrite (Hnodes _ _ Hid). split_and!; try done. 
Qed.

(** [prepare] from the point where the lease was granted. *)
Lemma prepare_spec w :
  world_wf w →
  let '(r, w') := prepare clock nodes environment_registry adapter_planner task operation
    adapter_id lane lease_scope_key target_state_ref ttl_seconds now parent_environment
    injected_environment w in
  world_wf w' ∧
  (∀ k, k ≠ (lane, lease_scope_key) →
     abs_lock (w_leases w') k = abs_lock (w_leases w) k) ∧
  (∀ k, k ≠ key → phase_of k (w_ledger w') = phase_of k (w_ledger w)) ∧
  match r with
  | Raise e => (is_control_plane_error e ∨ is_overflow e) ∧
      (abs_lock (w_leases w') (lane, lease_scope_key) =
         abs_lock (w_leases w) (lane, lease_scope_key) ∨
       ∃ n, let_go clock (abs_lock (w_leases w') (lane, lease_scope_key)) n) ∧
      undone (phase w) (phase w') ∧
      (phase w ≠ Absent → phase w' = phase w ∨
         ∃ res c f, phase w = Live res c None ∧ phase w' = Live res f None)
  | Ok h => ∃ route env_plan,
      checks = Ok (route, ho_node_id h, ho_node_generation h, env_plan) ∧
      rp_selected_snapshot_hash route = Some (ho_node_snapshot_hash h) ∧
      rp_selected_attestation_ref route = Some (ho_node_attestation_ref h) ∧
      rp_selected_expires_at route = Some (ho_node_expires_at h) ∧
      held_by (prepare_request (ho_node_id h)) (ho_fence_token h)
        (clock (clock_readings (w_leases w)))
        (abs_lock (w_leases w') (lane, lease_scope_key)) ∧
      Adapters.plan adapter_id task operation input (classify_policy input) target_state_ref
        (ho_fence_token h) adapter_planner = Ok (ho_envelope h) ∧
      env_effect_class (ho_envelope h) = GREEN ∧ _validate_envelope (ho_envelope h) = Ok tt ∧
      reserved_for (ho_envelope h) (phase w') ∧
      h = {| ho_task_id := task_id task; ho_node_id := ho_node_id h;
        ho_node_generation := ho_node_generation h;
        ho_node_snapshot_hash := ho_node_snapshot_hash h;
        ho_node_attestation_ref := ho_node_attestation_ref h;
        ho_node_expires_at := ho_node_expires_at h; ho_lane := lane;
        ho_lease_scope_key := lease_scope_key; ho_fence_token := ho_fence_token h;
        ho_environment_policy_hash := ce_policy_hash (ce_receipt env_plan);
        ho_operation_id := env_operation_id (ho_envelope h);
        ho_idempotency_key := env_idempotency_key (ho_envelope h);
        ho_adapter_id := env_adapter_id (ho_envelope h);
        ho_policy_reason_code := env_policy_reason_code (ho_envelope h);
        ho_reservation_scope_hash := reservation_scope_fingerprint (ho_envelope h);
        ho_authorization_status := "AUTHORIZED_GREEN_BOUNDED";
        ho_environment := ce_environment env_plan; ho_envelope := ho_envelope h;
        ho_lease_retained := true; ho_ledger_reserved := true;
        ho_execution_authorized := true; ho_side_effects_executed := false |}
  end.
Proof.
  intros [Hlw Hgw]. unfold prepare, lease_failed, ask_ledger. m_run.
  destruct checks as [[[[route node_id] generation] env_plan]|e] eqn:Hchk.
  2: { split_and!; try done; [left|by left|apply undone_refl|by left].
       eapply only_raises_elim; [apply checks_raises|exact Hchk]. }
  fold (prepare_request node_id). rewrite on_leases_run.
  destruct (Leases.reserve clock (prepare_request node_id) (w_leases w)) as [lr s1] eqn:Hlease.
  apply lease_reserve_spec in Hlease as (Hs1 & Hne1 & Hlease); [|done]. cbn [fst snd].
  change (request_key (prepare_request node_id)) with (lane, lease_scope_key) in *.
  destruct lr as [rc|e].
  2: { destruct Hlease as [Hlk He]. split_and!; try done; [|by left|apply undone_refl|by left].
       destruct He as [[m ->]|[c ->]]; [right|left]; by eexists. }
  destruct Hlease as (Hheld & Hrange & Hkind). cbn [w_ledger]. rewrite status_run by done.
  set (w1 := {| w_leases := s1; w_ledger := w_ledger w |}).
  assert (Hreleased : ∀ w2 : World, w_leases w2 = w_leases w1 →
    held_by (prepare_request node_id) (receipt_fence_token rc)
      (clock (clock_readings (w_leases w)))
      (abs_lock (w_leases w2) (request_key (prepare_request node_id))))
    by (intros w2 ->; exact Hheld).
  case_bool_decide as Hterm.
  { (* the operation is already terminal *)
    assert (Hna : phase w ≠ Absent).
    { intros E. rewrite E in Hterm.
      apply elem_of_cons in Hterm as [?|Hterm%list_elem_of_singleton]; done. }
    case_bool_decide as Hacq.
    - pose proof (safe_release_spec clock (prepare_request node_id) _ _ w1 Hs1
        (Hreleased w1 eq_refl)) as Hrel.
      destruct (_safe_release _ _ _ w1) as [r2 w2].
      destruct Hrel as (-> & Hlw2 & Hled & Hne2 & Hgo).
      rewrite Hled. unfold w1 in *. cbn [w_leases w_ledger] in *.
      change (request_key (prepare_request node_id)) with (lane, lease_scope_key) in *.
      split_and!; [by split; [|rewrite Hled]|intros k Hk; rewrite Hne2; auto|done| | | |].
      + left. by eexists.
      + right. by eexists.
      + apply undone_refl.
      + by left.
    - destruct Hkind as [[? _]|[_ Hsame]]; [done|]. unfold w1. cbn [w_leases w_ledger].
      split_and!; [by split|done|done| | | |].
      + left. by eexists.
      + by left.
      + apply undone_refl.
      + by left. }
  pose proof (authorize_spec adapter_planner task operation adapter_id target_state_ref
    (receipt_fence_token rc) w1) as Hauth.
  cbn [w_ledger w1] in Hauth. specialize (Hauth ltac:(by split) Hrange).
  destruct (reserve_and_authorize _ _ _ _ _ _ _ w1) as [[[[envelope h] receipt]|e] w2];
    destruct Hauth as [Htried Hauth].
  { (* authorized *)
    destruct Hauth as (Hplan & -> & Hrf & Hg & Hv & Hst).
    destruct (checks_ok _ _ _ _ Hchk) as (_ & _ & s & rest & -> & -> & -> & _).
    cbn [_handoff routed rp_selected_snapshot_hash rp_selected_attestation_ref
      rp_selected_expires_at].
    destruct Htried as (Hl2 & Hwf2 & Hne2 & _).
    split_and!; [split; [by rewrite Hl2|done]|intros k Hk; rewrite Hl2; auto|exact Hne2|].
    eexists _, env_plan. split; [reflexivity|].
    cbn [ho_node_snapshot_hash ho_node_attestation_ref ho_node_expires_at ho_node_id
      ho_fence_token ho_envelope rp_selected_snapshot_hash rp_selected_attestation_ref
      rp_selected_expires_at].
    rewrite Hl2, <-Hst. by split_and!. }
  (* refused: the preparation is undone *)
  destruct Htried as (Hl2 & Hwf2 & Hne2 & Hph2).
  pose proof (fail_after_lease_spec clock operation target_state_ref (prepare_request node_id)
    (receipt_fence_token rc) _ w1 w2 (bool_decide (receipt_status rc = "ACQUIRED"))
    ltac:(by rewrite Hl2) ltac:(by split_and!) (Hreleased w2 Hl2)) as Hundo.
  cbn [w_ledger w1] in Hundo.
  destruct (_fail_after_lease _ _ _ _ _ _ _ w2) as [r3 w3] eqn:Hfail.
  destruct Hundo as (-> & Hlw3 & Hgw3 & Hnel3 & Hne3 & Hu & Hsame & Hlock).
  change (request_key (prepare_request node_id)) with (lane, lease_scope_key) in *.
  assert (Hfinal : world_wf w3 ∧
    (∀ k, k ≠ (lane, lease_scope_key) →
       abs_lock (w_leases w3) k = abs_lock (w_leases w) k) ∧
    (∀ k, k ≠ key → phase_of k (w_ledger w3) = phase_of k (w_ledger w)) ∧
    (abs_lock (w_leases w3) (lane, lease_scope_key) =
       abs_lock (w_leases w) (lane, lease_scope_key) ∨
     ∃ n, let_go clock (abs_lock (w_leases w3) (lane, lease_scope_key)) n) ∧
    undone (phase w) (phase w3) ∧
    (phase w ≠ Absent → phase w3 = phase w ∨
       ∃ res c f, phase w = Live res c None ∧ phase w3 = Live res f None)).
  { split_and!; [by split| | | |done|].
    - intros k Hk. rewrite Hnel3, Hl2; auto.
    - intros k Hk. rewrite Hne3, Hne2; auto.
    - case_bool_decide; [by right|left].
      destruct Hkind as [[? _]|[_ Hk]]; [done|]. by rewrite Hlock, Hl2.
    - intros Hna. rewrite Hsame by done. revert Hph2. unfold reserved_phase, w1. cbn [w_ledger].
      destruct (phase w) as [|res c [st|]|]; [done|by left| |by left].
      intros [->| ->]; [by left|right; eauto 10]. }
  destruct Hfinal as (? & ? & ? & ? & ? & ?).
  destruct Hauth as [[c ->]|[[c ->]|[[c ->]|[c ->]]]];
    cbv beta iota; rewrite Hfail; (split_and!; [done..| |done|done|done]; left; by eexists).
Qed.
End prepare_lemmas.

(** The node a plan selects is current under the plan's own facts. *)
Lemma route_current nodes task adapter_id lane now id s g h :
  nodes !! id = Some s → eligible task adapter_id lane now s →
  g = ns_generation s → node_capability_snapshot_hash s = h →
  require_current nodes id g h now = Ok s.
Proof.
  intros Hs [Hfresh _] -> <-. unfold require_current. rewrite Hs. cbn [some_or mbind result_bind].
  rewrite !bool_decide_eq_true_2, Hfresh by done. done.
Qed.

(** ** Properties *)

(** C3. A prepared operation is one that may run: when [prepare] returns a
    handoff, the operation meets the GREEN conditions; the node is registered,
    eligible now and accepted by [require_current] under the handoff's
    generation and hash; the environment is the one the lane's contract builds;
    the node holds the lane lease for the task and target, with the handoff's
    fence and beyond the time of the reservation; and the ledger holds a live,
    unstarted reservation of exactly the planned envelope at that fence. *)
Theorem prepare_sound clock calls environment_registry adapter_planner task operation adapter_id
    lane scope target ttl now parent injected w w' h (nodes := register_all calls ∅) :
  world_wf w →
  prepare clock nodes environment_registry adapter_planner task operation adapter_id lane scope
    target ttl now parent injected w = (Ok h, w') →
  world_wf w' ∧
  green_conditions (prepare_policy_input task operation target) ∧
  (∃ s, nodes !! ho_node_id h = Some s ∧ eligible task adapter_id lane now s ∧
     require_current nodes (ho_node_id h) (ho_node_generation h) (ho_node_snapshot_hash h) now
       = Ok s ∧
     ho_node_attestation_ref h = ns_attestation_ref s ∧
     ho_node_expires_at h = ns_expires_at s) ∧
  (∃ plan, build environment_registry ("lane:" +:+ lane_value lane) parent injected = Ok plan ∧
     ho_environment h = ce_environment plan ∧
     ho_environment_policy_hash h = ce_policy_hash (ce_receipt plan)) ∧
  held_by (prepare_request task lane scope target ttl (ho_node_id h)) (ho_fence_token h)
    (clock (clock_readings (w_leases w))) (abs_lock (w_leases w') (lane, scope)) ∧
  Adapters.plan adapter_id task operation (prepare_policy_input task operation target)
    (classify_policy (prepare_policy_input task operation target)) target (ho_fence_token h)
    adapter_planner = Ok (ho_envelope h) ∧
  reserved_for (ho_envelope h) (phase_of (op_idempotency_key operation) (w_ledger w')) ∧
  env_fence_token (ho_envelope h) = ho_fence_token h.
Proof.
  intros Hwf Hrun.
  assert (Hnodes : Routing.registry_wf nodes) by (by apply register_all_wf).
  pose proof (prepare_spec clock nodes environment_registry adapter_planner task operation
    adapter_id lane scope target ttl now parent injected Hnodes w Hwf) as H.
  rewrite Hrun in H. destruct H as (Hwf' & _ & _ & route & env_plan & Hchk & Hsh & Hat & Hex &
    Hheld & Hplan & Hg & _ & Hrf & Hh).
  destruct (checks_ok _ _ _ _ _ _ _ _ _ _ _ Hnodes _ _ _ _ Hchk)
    as (Hgreen & Henv & s & rest & -> & Hid & Hgen & Hs & Hel).
  cbn [routed rp_selected_snapshot_hash rp_selected_attestation_ref rp_selected_expires_at]
    in Hsh, Hat, Hex. injection Hsh as Hsh. injection Hat as Hat. injection Hex as Hex.
  split_and!; try done.
  - by apply classify_green_conditions.
  - exists s. split_and!; try done. by apply (route_current nodes task adapter_id lane).
  - exists env_plan. split; [done|]. by rewrite Hh.
  - apply plan_ok in Hplan as (m & _ & _ & _ & _ & _ & ->). done.
Qed.

(** C4. A refused preparation leaves nothing behind: when [prepare] raises, the
    error is one of its own (or the fence counter is exhausted); no other lock
    and no other operation is touched; the lane lock is as before, or free, or
    its holder's lease had already run out; an operation that was not reserved
    before is either still not reserved or closed as FAILED - never left
    reserved or started; and one that was reserved keeps its reservation. *)
Theorem prepare_failure_leaves_nothing clock calls environment_registry adapter_planner task
    operation adapter_id lane scope target ttl now parent injected w w' e
    (nodes := register_all calls ∅) (key := op_idempotency_key operation) :
  world_wf w →
  prepare clock nodes environment_registry adapter_planner task operation adapter_id lane scope
    target ttl now parent injected w = (Raise e, w') →
  world_wf w' ∧
  (is_control_plane_error e ∨ is_overflow e) ∧
  (∀ k, k ≠ (lane, scope) → abs_lock (w_leases w') k = abs_lock (w_leases w) k) ∧
  (∀ k, k ≠ key → phase_of k (w_ledger w') = phase_of k (w_ledger w)) ∧
  (abs_lock (w_leases w') (lane, scope) = abs_lock (w_leases w) (lane, scope) ∨
   ∃ n, let_go clock (abs_lock (w_leases w') (lane, scope)) n) ∧
  match phase_of key (w_ledger w) with
  | Absent => phase_of key (w_ledger w') = Absent ∨
      ∃ res t, phase_of key (w_ledger w') = Done res t None ∧ ev_event_type t = FAILED
  | before => phase_of key (w_ledger w') = before ∨
      ∃ res c f, before = Live res c None ∧ phase_of key (w_ledger w') = Live res f None
  end.
Proof.
  intros Hwf Hrun.
  assert (Hnodes : Routing.registry_wf nodes) by (by apply register_all_wf).
  pose proof (prepare_spec clock nodes environment_registry adapter_planner task operation
    adapter_id lane scope target ttl now parent injected Hnodes w Hwf) as H.
  rewrite Hrun in H. destruct H as (Hwf' & Hl & Hp & He & Hlock & Hun & Hsame).
  split_and!; [assumption..|]. fold key in Hun, Hsame.
  destruct (phase_of key (w_ledger w)); auto.
Qed.

(** A small plant: one node, one lane, one adapter. *)
Definition demo_nodes : NodeCapabilityRegistry := register_all [(demo_snapshot 1, 0)] ∅.
Definition demo_world : World := {| w_leases := empty_lease_store; w_ledger := empty_ledger |}.

Lemma demo_world_wf : world_wf demo_world.
Proof. split; [apply lease_wf_empty|apply empty_ledger_wf]. Qed.

Definition cp_operation : OperationIR :=
  {| op_operation_id := "op:1"; op_kind := "workspace_write"; op_resources := ["repo:alpha"];
     op_effects := ["workspace_write"]; op_idempotency_key := "idem:1" |}.

Definition cp_task : UniversalTask :=
  {| task_id := "task:1"; task_intent := "edit"; task_domain := "code";
     target_resources := ["repo:alpha"]; task_required_capabilities := ["git"];
     task_privacy := PUBLIC_SAFE; task_reversibility := REVERSIBLE;
     expected_effects := ["workspace_write"]; task_validation := []; task_rollback := [];
     task_idempotency_key := "idem:1"; task_operator_boundary_evidence := [] |}.

Definition demo_prepare (planner : AdapterPlanner) : M World GreenExecutionHandoff :=
  prepare demo_clock demo_nodes demo_registry planner cp_task cp_operation "adapter:codegen"
    CODEGEN "repo:alpha" "git:abc" 30000000 1000 demo_parent demo_injected.

(** The preparation succeeds, and its lease outlives the next readings. *)
Lemma demo_prepared :
  match demo_prepare demo_planner demo_world with
  | (Ok h, w) =>
      match lock_holder (abs_lock (w_leases w) (CODEGEN, "repo:alpha")) with
      | Some hd => demo_clock (clock_readings (w_leases w) + 3) <? h_deadline hd
      | None => false
      end
  | _ => false
  end = true.
Proof. vm_compute. reflexivity. Qed.

Lemma demo_handoff :
  ∃ h w, demo_prepare demo_planner demo_world = (Ok h, w) ∧ world_wf w ∧
    ∀ n, (n ≤ clock_readings (w_leases w) + 3)%nat →
      held_by (prepare_request cp_task CODEGEN "repo:alpha" "git:abc" 30000000 (ho_node_id h))
        (ho_fence_token h) (demo_clock n) (abs_lock (w_leases w) (CODEGEN, "repo:alpha")).
Proof.
  pose proof demo_prepared as Hok.
  pose proof (prepare_spec demo_clock demo_nodes demo_registry demo_planner cp_task cp_operation
    "adapter:codegen" CODEGEN "repo:alpha" "git:abc" 30000000 1000 demo_parent demo_injected
    (register_all_wf _ _ (map_Forall_empty _)) demo_world demo_world_wf) as Hs.
  fold (demo_prepare demo_planner) in Hs.
  destruct (demo_prepare demo_planner demo_world) as [[h|e] w]; [|discriminate].
  destruct Hs as (Hw & _ & _ & route & plan & _ & _ & _ & _ & Hheld & _).
  exists h, w. split; [done|]. split; [done|]. intros n Hn.
  destruct Hheld as (Hf & hd & Hhd & Ht & Ho & Hr & _). rewrite Hhd in Hok.
  apply Z.ltb_lt in Hok. split; [done|]. exists hd. split_and!; try done.
  eapply Z.le_lt_trans; [by apply demo_clock_mono|done].
Qed.

Lemma prepare_sound_witness :
  ∃ h, (demo_prepare demo_planner demo_world).1 = Ok h ∧
    reserved_for (ho_envelope h)
      (phase_of "idem:1" (w_ledger (demo_prepare demo_planner demo_world).2)).
Proof.
  destruct demo_handoff as (h & w' & E & _). rewrite E. exists h. split; [reflexivity|].
  apply (prepare_sound demo_clock [(demo_snapshot 1, 0)] demo_registry demo_planner cp_task
    cp_operation "adapter:codegen" CODEGEN "repo:alpha" "git:abc" 30000000 1000 demo_parent
    demo_injected demo_world w' h demo_world_wf E).
Defined.

(** Without the adapter the planning fails after the lease was taken. *)
Lemma prepare_failure_leaves_nothing_witness :
  (demo_prepare ∅ demo_world).1 = Raise (ControlPlaneError "ADAPTER_UNKNOWN") ∧
  ∃ n, let_go demo_clock (abs_lock (w_leases (demo_prepare ∅ demo_world).2)
    (CODEGEN, "repo:alpha")) n.
Proof.
  assert (Hr : (demo_prepare ∅ demo_world).1 = Raise (ControlPlaneError "ADAPTER_UNKNOWN"))
    by (vm_compute; reflexivity).
  split; [exact Hr|].
  destruct (demo_prepare ∅ demo_world) as [r w'] eqn:E. cbn [fst snd] in *. subst r.
  destruct (prepare_failure_leaves_nothing demo_clock [(demo_snapshot 1, 0)] demo_registry ∅ cp_task
    cp_operation "adapter:codegen" CODEGEN "repo:alpha" "git:abc" 30000000 1000 demo_parent
    demo_injected demo_world w' _ demo_world_wf E) as (_ & _ & _ & _ & [Hl|Hn] & _);
    [|exact Hn].
  exists 0%nat. left. rewrite Hl. reflexivity.
Defined.
