(* ===== verification/ExecutionGate.v ===== *)
(** * The execution gate

    [src/core/runner_vnext_execution_gate.py]: just before execution, every
    fact the handoff rests on is read again; [grant] performs no effect.  The
    verifier of the target state is injected code, a parameter here. *)

From S2P Require Import Prelude.
From S2P Require Import PyStr.
From S2P Require Import Json.
From S2P Require Import Sha256.
From S2P Require Import Contracts.
From S2P Require Import Leases.
From S2P Require Import Ledger.
From S2P Require Import Adapters.
From S2P Require Import Environment.
From S2P Require Import Routing.
From S2P Require Import Pep.
From S2P Require Import ControlPlane.

(** ** Data *)
Record GreenExecutionGrant := {
  g_task_id : string;
  g_node_id : string;
  g_node_generation : Z;
  g_node_snapshot_hash : string;
  g_node_attestation_ref : string;
  g_lane : string;
  g_lease_scope_key : string;
  g_fence_token : Z;
  g_environment_policy_hash : string;
  g_operation_id : string;
  g_idempotency_key : string;
  g_adapter_id : string;
  g_target_state_ref : string;
  g_reservation_scope_hash : string;
  g_planner_envelope_hash : string;
  g_policy_reason_code : string;
  g_authorization_status : string;
  g_environment : gmap string string;
  g_planner_envelope : ExecutionEnvelope;
  g_execution_authorized : bool;
  g_effect_execution_started : bool
}.

(** ** The hash of a planned envelope *)
Definition envelope_payload (e : ExecutionEnvelope) : json :=
  JObj [("operation_id", JStr (env_operation_id e));
        ("adapter_id", JStr (env_adapter_id e));
        ("target_state_ref", JStr (env_target_state_ref e));
        ("fence_token", JInt (env_fence_token e));
        ("idempotency_key", JStr (env_idempotency_key e));
        ("resources", jstrs (env_resources e));
        ("effects", jstrs (env_effects e));
        ("effect_class", JStr (effect_value (env_effect_class e)));
        ("policy_reason_code", JStr (env_policy_reason_code e));
        ("required_capabilities", jstrs (env_required_capabilities e));
        ("privacy", JStr (privacy_value (env_privacy e)));
        ("dry_run", JBool (env_dry_run e))].

Definition planner_envelope_hash (e : ExecutionEnvelope) : string :=
  json_hash (envelope_payload e).

Definition _validate_handoff_shape (h : GreenExecutionHandoff) : result unit :=
  raise_if (negb (ho_execution_authorized h) || negb (ho_lease_retained h)
            || negb (ho_ledger_reserved h))
    (ExecutionGateError "EXECUTION_GATE_AUTHORIZED_HANDOFF_REQUIRED");;
  raise_if (ho_side_effects_executed h)
    (ExecutionGateError "EXECUTION_GATE_EFFECT_ALREADY_STARTED");;
  raise_if (negb (env_dry_run (ho_envelope h)))
    (ExecutionGateError "EXECUTION_GATE_IMMUTABLE_PLANNER_ENVELOPE_REQUIRED").

(** [except RoutingError as exc: raise ExecutionGateError(exc.reason_code)] and
    its likes. *)
Definition gate_error {A} (e : exn) : result A :=
  match e with
  | RoutingError c | EnvironmentContractError c | LedgerError c | PEPError c =>
      Raise (ExecutionGateError c)
  | e => Raise e
  end.

Definition or_gate_error {A} (r : result A) : result A :=
  match r with Raise e => gate_error e | r => r end.

(** ** [GreenExecutionGate.grant] *)
Section gate.
Context (clock : nat → Z) (nodes : NodeCapabilityRegistry)
  (environment_registry : LaneEnvironmentPolicyRegistry)
  (current_ref : GreenExecutionHandoff → result string).

(** The node and its environment contract are still the ones of the handoff. *)
Definition check_node (h : GreenExecutionHandoff) (now : Z) : result unit :=
  _validate_handoff_shape h;;
  snapshot ← or_gate_error (require_current nodes (ho_node_id h) (ho_node_generation h)
    (ho_node_snapshot_hash h) now);
  raise_if ((ns_attestation_ref snapshot != ho_node_attestation_ref h)
            || (ns_expires_at snapshot != ho_node_expires_at h))
    (ExecutionGateError "EXECUTION_GATE_NODE_ATTESTATION_MISMATCH");;
  current_policy_hash ← or_gate_error (policy_hash environment_registry
    ("lane:" +:+ lane_value (ho_lane h)));
  raise_if (current_policy_hash != ho_environment_policy_hash h)
    (ExecutionGateError "EXECUTION_GATE_ENV_POLICY_MISMATCH").

Definition check_lease (h : GreenExecutionHandoff) (lease : option LaneLease) : result unit :=
  lease ← some_or lease (ExecutionGateError "EXECUTION_GATE_LEASE_MISSING_OR_EXPIRED");
  raise_if ((lease_task_id lease != ho_task_id h) || (lease_owner lease != ho_node_id h))
    (ExecutionGateError "EXECUTION_GATE_LEASE_OWNER_MISMATCH");;
  raise_if (lease_fence_token lease != ho_fence_token h)
    (ExecutionGateError "EXECUTION_GATE_LEASE_FENCE_MISMATCH");;
  raise_if (lease_target_state_ref lease != Some (env_target_state_ref (ho_envelope h)))
    (ExecutionGateError "EXECUTION_GATE_LEASE_TARGET_MISMATCH").

(** The ledger still holds the reservation, and the enforcement point still
    authorizes the envelope. *)
Definition check_ledger (h : GreenExecutionHandoff) (ledger : OperationLedger)
    : result PEPAuthorizationReceipt :=
  let key := ho_idempotency_key h in
  let envelope := ho_envelope h in
  st ← status key ledger;
  raise_if (st != Some "RESERVED") (ExecutionGateError "EXECUTION_GATE_LEDGER_NOT_RESERVED");;
  '(reservation, current_fence) ← or_gate_error (
    reservation ← reservation_event key ledger;
    current_fence ← current_fence_token key ledger;
    Ok (reservation, current_fence));
  raise_if (id_operation_id (ev_identity reservation) != ho_operation_id h)
    (ExecutionGateError "EXECUTION_GATE_LEDGER_OPERATION_MISMATCH");;
  raise_if (id_target_state_ref (ev_identity reservation) != env_target_state_ref envelope)
    (ExecutionGateError "EXECUTION_GATE_LEDGER_TARGET_MISMATCH");;
  raise_if (current_fence != ho_fence_token h)
    (ExecutionGateError "EXECUTION_GATE_LEDGER_FENCE_MISMATCH");;
  let scope_hash := reservation_scope_fingerprint envelope in
  raise_if ((ev_reservation_scope_hash reservation != Some scope_hash)
            || (ho_reservation_scope_hash h != scope_hash))
    (ExecutionGateError "EXECUTION_GATE_SCOPE_HASH_MISMATCH");;
  authorization ← or_gate_error (evaluate envelope ledger None None);
  match authorization with
  | Authorized receipt =>
      raise_if (pr_authorization_status receipt != ho_authorization_status h)
        (ExecutionGateError "EXECUTION_GATE_AUTHORIZATION_MISMATCH");;
      Ok receipt
  | Brokered _ => Raise (ExecutionGateError "EXECUTION_GATE_GREEN_AUTHORIZATION_REQUIRED")
  end.

Definition granted_of (h : GreenExecutionHandoff) (authorization : PEPAuthorizationReceipt)
    : GreenExecutionGrant :=
  {| g_task_id := ho_task_id h; g_node_id := ho_node_id h;
     g_node_generation := ho_node_generation h;
     g_node_snapshot_hash := ho_node_snapshot_hash h;
     g_node_attestation_ref := ho_node_attestation_ref h;
     g_lane := lane_value (ho_lane h);
     g_lease_scope_key := ho_lease_scope_key h;
     g_fence_token := ho_fence_token h;
     g_environment_policy_hash := ho_environment_policy_hash h;
     g_operation_id := ho_operation_id h;
     g_idempotency_key := ho_idempotency_key h;
     g_adapter_id := ho_adapter_id h;
     g_target_state_ref := env_target_state_ref (ho_envelope h);
     g_reservation_scope_hash := reservation_scope_fingerprint (ho_envelope h);
     g_planner_envelope_hash := planner_envelope_hash (ho_envelope h);
     g_policy_reason_code := ho_policy_reason_code h;
     g_authorization_status := pr_authorization_status authorization;
     g_environment := ho_environment h; g_planner_envelope := ho_envelope h;
     g_execution_authorized := true; g_effect_execution_started := false |}.

Definition grant (h : GreenExecutionHandoff) (now : Z) : M World GreenExecutionGrant :=
  lift (check_node h now);;
  lease ← on_leases (Leases.current clock (ho_lane h) (ho_lease_scope_key h));
  lift (check_lease h lease);;
  authorization ← query (λ w, check_ledger h (w_ledger w));
  current_target_ref ← lift (current_ref h);
  lift (raise_if (current_target_ref != env_target_state_ref (ho_envelope h))
    (ExecutionGateError "EXECUTION_GATE_TARGET_STATE_STALE"));;
  mret (granted_of h authorization).
End gate.

(** ** [GreenExecutionGate.public_projection] *)
Definition grant_public_projection (g : GreenExecutionGrant) : json :=
  let privacy := privacy_value (env_privacy (g_planner_envelope g)) in
  JObj ([("schema", JStr "skeleton.runner_green_execution_grant.v1");
         ("privacy", JStr privacy);
         ("task_id_hash", JStr (text_hash (g_task_id g)));
         ("operation_id_hash", JStr (text_hash (g_operation_id g)));
         ("idempotency_key_hash", JStr (text_hash (g_idempotency_key g)));
         ("node_id", JStr (g_node_id g));
         ("node_generation", JInt (g_node_generation g));
         ("node_snapshot_hash", JStr (g_node_snapshot_hash g));
         ("node_attestation_ref", JStr (g_node_attestation_ref g));
         ("lane", JStr (g_lane g));
         ("fence_token", JInt (g_fence_token g));
         ("environment_policy_hash", JStr (g_environment_policy_hash g));
         ("adapter_id", JStr (g_adapter_id g));
         ("reservation_scope_hash", JStr (g_reservation_scope_hash g));
         ("planner_envelope_hash", JStr (g_planner_envelope_hash g));
         ("policy_reason_code", JStr (g_policy_reason_code g));
         ("authorization_status", JStr (g_authorization_status g));
         ("execution_authorized", JBool (g_execution_authorized g));
         ("effect_execution_started", JBool (g_effect_execution_started g))]
    ++ (if privacy == "PUBLIC_SAFE" then
          [("task_id", JStr (g_task_id g));
           ("operation_id", JStr (g_operation_id g));
           ("idempotency_key", JStr (g_idempotency_key g))]
        else [])).

(** ** What the gate requires *)
Lemma current_ok clock lane scope s c s' :
  Leases.current clock lane scope s = (Ok (Some c), s') ↔
  lane_leases s !! (lane, scope) = Some c ∧ expired c (clock (clock_readings s)) = false ∧
  s' = tick s.
Proof.
  unfold Leases.current, _row, read_clock. m_run.
  destruct (lane_leases s !! (lane, scope)) as [c'|]; cbn.
  - fold (tick s). destruct (expired c' _) eqn:E; split.
    + discriminate.
    + intros ([= ->] & ? & _). congruence.
    + intros [= <- <-]. done.
    + by intros ([= ->] & ? & ->).
  - split; [discriminate|by intros [? _]].
Qed.

Lemma current_keeps clock lane scope s :
  let s' := (Leases.current clock lane scope s).2 in s' = s ∨ s' = tick s.
Proof.
  unfold Leases.current, _row, read_clock. m_run.
  destruct (lane_leases s !! (lane, scope)); [by right|by left].
Qed.

(** The node holds the lane lease of the handoff at the reading of the clock. *)
Definition lease_live (clock : nat → Z) (s : LaneLeaseStore) (lane : Lane)
    (scope task node : string) (fence : Z) (target : string) : Prop :=
  ∃ c, lane_leases s !! (lane, scope) = Some c ∧ lease_task_id c = task ∧
    lease_owner c = node ∧ lease_fence_token c = fence ∧
    lease_target_state_ref c = Some target ∧
    expired c (clock (clock_readings s)) = false.

(** The reservation the handoff names. *)
Definition reservation_live (h : GreenExecutionHandoff) (p : phase) : Prop :=
  ∃ res, p = Live res (ho_fence_token h) None ∧
    id_operation_id (ev_identity res) = ho_operation_id h ∧
    id_target_state_ref (ev_identity res) = env_target_state_ref (ho_envelope h) ∧
    ev_reservation_scope_hash res = Some (reservation_scope_fingerprint (ho_envelope h)).

Section grant.
Context (clock : nat → Z) (nodes : NodeCapabilityRegistry)
  (environment_registry : LaneEnvironmentPolicyRegistry)
  (current_ref : GreenExecutionHandoff → result string).

(** Everything [grant] checks, against the stores as they are. *)
Record grantable (h : GreenExecutionHandoff) (now : Z) (w : World) : Prop := {
  gr_flags : ho_execution_authorized h = true ∧ ho_lease_retained h = true ∧
    ho_ledger_reserved h = true ∧ ho_side_effects_executed h = false;
  gr_node : ∃ s, require_current nodes (ho_node_id h) (ho_node_generation h)
      (ho_node_snapshot_hash h) now = Ok s ∧
    ns_attestation_ref s = ho_node_attestation_ref h ∧
    ns_expires_at s = ho_node_expires_at h;
  gr_environment : policy_hash environment_registry ("lane:" +:+ lane_value (ho_lane h))
    = Ok (ho_environment_policy_hash h);
  gr_lease : lease_live clock (w_leases w) (ho_lane h) (ho_lease_scope_key h) (ho_task_id h)
    (ho_node_id h) (ho_fence_token h) (env_target_state_ref (ho_envelope h));
  gr_reservation : reservation_live h (phase_of (ho_idempotency_key h) (w_ledger w));
  gr_scope : ho_reservation_scope_hash h = reservation_scope_fingerprint (ho_envelope h);
  gr_envelope : _validate_envelope (ho_envelope h) = Ok tt ∧
    env_effect_class (ho_envelope h) = GREEN ∧
    reserved_for (ho_envelope h) (phase_of (env_idempotency_key (ho_envelope h)) (w_ledger w));
  gr_status : ho_authorization_status h = "AUTHORIZED_GREEN_BOUNDED";
  gr_target : current_ref h = Ok (env_target_state_ref (ho_envelope h))
}.
End grant.

Section checks.
Context (nodes : NodeCapabilityRegistry)
  (environment_registry : LaneEnvironmentPolicyRegistry).

Lemma or_gate_error_ok {A} (r : result A) a : or_gate_error r = Ok a ↔ r = Ok a.
Proof. destruct r as [|e]; [done|]. by destruct e. Qed.

Lemma check_node_ok h now :
  check_node nodes environment_registry h now = Ok tt ↔
  (ho_execution_authorized h = true ∧ ho_lease_retained h = true ∧
    ho_ledger_reserved h = true ∧ ho_side_effects_executed h = false) ∧
  env_dry_run (ho_envelope h) = true ∧
  (∃ s, require_current nodes (ho_node_id h) (ho_node_generation h)
      (ho_node_snapshot_hash h) now = Ok s ∧
    ns_attestation_ref s = ho_node_attestation_ref h ∧
    ns_expires_at s = ho_node_expires_at h) ∧
  policy_hash environment_registry ("lane:" +:+ lane_value (ho_lane h))
    = Ok (ho_environment_policy_hash h).
Proof.
  unfold check_node, _validate_handoff_shape. rewrite !seq_ok, !raise_if_ok, result_bind_ok.
  setoid_rewrite or_gate_error_ok.
  rewrite !orb_false_iff, !negb_false_iff. split.
  - intros ((((? & ?) & ?) & ? & ?) & s & Hs & Hk).
    rewrite seq_ok, raise_if_ok, result_bind_ok, orb_false_iff, !negb_false_iff in Hk.
    destruct Hk as ([? ?] & ph & Hph & Hk). rewrite or_gate_error_ok in Hph.
    rewrite raise_if_ok, negb_false_iff in Hk. bool_facts. subst ph. split_and!; eauto.
  - intros ((? & ? & ? & ?) & ? & (s & Hs & ? & ?) & Hph). split; [by split_and!|].
    exists s. split; [done|]. rewrite seq_ok, raise_if_ok, result_bind_ok.
    rewrite !bool_decide_eq_true_2 by done. split; [done|].
    exists (ho_environment_policy_hash h). rewrite or_gate_error_ok. split; [done|].
    by rewrite bool_decide_eq_true_2.
Qed.

Lemma check_lease_ok h c :
  check_lease h (Some c) = Ok tt ↔
  lease_task_id c = ho_task_id h ∧ lease_owner c = ho_node_id h ∧
  lease_fence_token c = ho_fence_token h ∧
  lease_target_state_ref c = Some (env_target_state_ref (ho_envelope h)).
Proof.
  unfold check_lease. cbn [some_or mbind result_bind]. autorewrite with py_ok py_bool. tauto.
Qed.

Lemma check_ledger_ok h l receipt :
  ledger_wf l →
  check_ledger h l = Ok receipt →
  reservation_live h (phase_of (ho_idempotency_key h) l) ∧
  ho_reservation_scope_hash h = reservation_scope_fingerprint (ho_envelope h) ∧
  (_validate_envelope (ho_envelope h) = Ok tt ∧
   env_effect_class (ho_envelope h) = GREEN ∧
   reserved_for (ho_envelope h) (phase_of (env_idempotency_key (ho_envelope h)) l)) ∧
  pr_authorization_status receipt = ho_authorization_status h ∧
  ho_authorization_status h = "AUTHORIZED_GREEN_BOUNDED".
Proof.
  intros Hwf H. unfold check_ledger in H.
  pose proof (reads_by_phase (ho_idempotency_key h) l Hwf) as [Hst Hreads].
  pose proof (phase_of_facts (ho_idempotency_key h) l Hwf) as Hfacts.
  apply phase_status_inv in Hfacts as [Hlive _]. rewrite Hst in H.
  cbn [mbind result_bind] in H. apply seq_ok in H as [Hs H]. inv_ok.
  apply Hlive in Hs as (res & f & Hp). rewrite Hp in *. destruct Hreads as (E1 & E2 & _).
  rewrite E1, E2 in *. cbn [mbind result_bind or_gate_error] in *. inv_ok. simplify_eq/=.
  rewrite !seq_ok, !raise_if_ok, !orb_false_iff, !negb_false_iff, !bool_decide_eq_true in H.
  destruct H as (Hop & Htg & -> & (Hsc & Hho) & H).
  apply result_bind_ok in H as (out & Hev & H). rewrite or_gate_error_ok in Hev.
  apply evaluate_ok in Hev as (Hv & Hrf & Hout); [|done].
  destruct out as [r|r]; [|done]. destruct Hout as (Hg & _ & Hau & _).
  rewrite seq_ok, raise_if_ok, negb_false_iff, bool_decide_eq_true in H.
  destruct H as [Hau' [= ->]].
  split_and!; try done; [by exists res|by rewrite <-Hau'].
Qed.

Lemma check_ledger_complete h l :
  ledger_wf l →
  reservation_live h (phase_of (ho_idempotency_key h) l) →
  ho_reservation_scope_hash h = reservation_scope_fingerprint (ho_envelope h) →
  _validate_envelope (ho_envelope h) = Ok tt → env_effect_class (ho_envelope h) = GREEN →
  reserved_for (ho_envelope h) (phase_of (env_idempotency_key (ho_envelope h)) l) →
  ho_authorization_status h = "AUTHORIZED_GREEN_BOUNDED" →
  ∃ receipt, check_ledger h l = Ok receipt.
Proof.
  intros Hwf (res & Hp & Hop & Htg & Hsc) Hho Hv Hg Hrf Hst.
  pose proof (reads_by_phase (ho_idempotency_key h) l Hwf) as [Hs Hreads].
  rewrite Hp in Hs, Hreads. destruct Hreads as (E1 & E2 & _).
  destruct (evaluate_green (ho_envelope h) l None Hwf Hv Hg Hrf) as [r Hev].
  pose proof (evaluate_ok _ _ _ _ _ Hwf Hev) as (_ & _ & _ & _ & Hau & _).
  exists r. unfold check_ledger. rewrite Hs, E1, E2, Hev.
  cbn [mbind result_bind phase_status or_gate_error].
  by rewrite !bool_decide_eq_true_2 by (reflexivity || congruence).
Qed.
End checks.

(** ** A fresh handoff

    What [prepare] returned passes the gate as long as its lease runs and the
    target has not moved. *)
Lemma held_lease_live clock s req f target :
  lease_wf s → held_by req f (clock (clock_readings s)) (abs_lock s (request_key req)) →
  lr_target_state_ref req = Some target →
  lease_live clock s (lr_lane req) (lr_scope_key req) (lr_task_id req) (lr_owner req) f target.
Proof.
  intros Hs (Hf & h & Hh & Ht & Ho & Hr & Hd) Htg. unfold abs_lock, request_key in *.
  cbn [lock_fence lock_holder] in *.
  destruct (lane_leases s !! (lr_lane req, lr_scope_key req)) as [c|] eqn:Hc; [|done].
  rewrite (wf_lease_fence s Hs _ _ Hc) in Hf. injection Hh as <-. exists c.
  split_and!; try done; [by rewrite <-Htg, <-Hr|]. unfold expired. by apply Z.leb_gt.
Qed.

Lemma handoff_grantable clock nodes environment_registry adapter_planner task operation adapter_id
    lane scope target ttl now parent injected current_ref w w' h :
  Routing.registry_wf nodes → world_wf w →
  prepare clock nodes environment_registry adapter_planner task operation adapter_id lane scope
    target ttl now parent injected w = (Ok h, w') →
  held_by (prepare_request task lane scope target ttl (ho_node_id h)) (ho_fence_token h)
    (clock (clock_readings (w_leases w'))) (abs_lock (w_leases w') (lane, scope)) →
  current_ref h = Ok target →
  grantable clock nodes environment_registry current_ref h now w'.
Proof.
  intros Hnodes Hwf Hrun Hheld Hcur.
  pose proof (prepare_spec clock nodes environment_registry adapter_planner task operation
    adapter_id lane scope target ttl now parent injected Hnodes w Hwf) as H.
  rewrite Hrun in H. destruct H as ([Hlw Hgw] & _ & _ & route & env_plan & Hchk & Hsh & Hat & Hex &
    _ & Hplan & Hg & Hv & Hrf & Hh).
  destruct (checks_ok _ _ _ _ _ _ _ _ _ _ _ Hnodes _ _ _ _ Hchk)
    as (_ & Henv & s & rest & -> & Hid & Hgen & Hs & Hel).
  cbn [routed rp_selected_snapshot_hash rp_selected_attestation_ref rp_selected_expires_at]
    in Hsh, Hat, Hex. injection Hsh as Hsh. injection Hat as Hat. injection Hex as Hex.
  apply plan_ok in Hplan as (m & _ & _ & _ & _ & _ & Henvelope).
  assert (Htg : env_target_state_ref (ho_envelope h) = target) by (by rewrite Henvelope).
  assert (Hkey : env_idempotency_key (ho_envelope h) = op_idempotency_key operation)
    by (by rewrite Henvelope).
  assert (Hf : env_fence_token (ho_envelope h) = ho_fence_token h) by (by rewrite Henvelope).
  pose proof (held_lease_live clock _ _ _ target Hlw Hheld eq_refl) as Hlive.
  cbn [prepare_request lr_lane lr_scope_key lr_task_id lr_owner] in Hlive.
  apply build_policy_hash in Henv.
  pose proof (f_equal ho_lane Hh) as Elane. pose proof (f_equal ho_lease_scope_key Hh) as Escope.
  pose proof (f_equal ho_task_id Hh) as Etask. pose proof (f_equal ho_operation_id Hh) as Eop.
  pose proof (f_equal ho_idempotency_key Hh) as Ekey.
  pose proof (f_equal ho_environment_policy_hash Hh) as Ehash.
  cbn in Elane, Escope, Etask, Eop, Ekey, Ehash.
  split; rewrite ?Htg, ?Elane, ?Escope, ?Etask, ?Ekey, ?Ehash.
  - rewrite Hh. done.
  - exists s. split_and!; try done. by apply (route_current nodes task adapter_id lane).
  - done.
  - exact Hlive.
  - destruct Hrf as (res & Hp & _ & Hidn & Hsc). rewrite Hf in Hp. exists res.
    rewrite Hkey, Eop, Hidn. by split_and!.
  - by rewrite Hh.
  - split; [done|]. split; [done|]. by rewrite Hkey.
  - by rewrite Hh.
  - done.
Qed.

Lemma grant_passes clock nodes environment_registry current_ref h now w receipt :
  world_wf w → grantable clock nodes environment_registry current_ref h now w →
  pr_authorization_status receipt = "AUTHORIZED_GREEN_BOUNDED" →
  grant clock nodes environment_registry current_ref h now w
    = (Ok (granted_of h receipt), {| w_leases := tick (w_leases w); w_ledger := w_ledger w |}).
Proof.
  intros [Hlw Hgw] [Hflags Hnode Henv (c & Hc & Hc1 & Hc2 & Hc3 & Hc4 & Hex) Hres Hsc (Hv & Hg & Hrf)
    Hst Htgt] Hau.
  destruct (check_ledger_complete h (w_ledger w) Hgw Hres Hsc Hv Hg Hrf Hst) as [r Hl].
  pose proof (check_ledger_ok _ _ _ Hgw Hl) as (_ & _ & _ & Hr & _).
  assert (Hdry : env_dry_run (ho_envelope h) = true).
  { unfold _validate_envelope in Hv. rewrite seq_ok, raise_if_ok, negb_false_iff in Hv.
    apply Hv. }
  unfold grant. m_run.
  rewrite (proj2 (check_node_ok nodes environment_registry h now)) by done.
  rewrite on_leases_run, (proj2 (current_ok clock (ho_lane h) (ho_lease_scope_key h)
    (w_leases w) c (tick (w_leases w)))) by done.
  cbn [fst snd w_ledger]. rewrite (proj2 (check_lease_ok h c)) by done.
  rewrite Hl, Htgt. rewrite bool_decide_eq_true_2 by done. cbn [negb raise_if].
  unfold granted_of. by rewrite Hr, Hst, Hau.
Qed.

Lemma grant_inv clock nodes environment_registry current_ref h now w g w' :
  world_wf w →
  grant clock nodes environment_registry current_ref h now w = (Ok g, w') →
  grantable clock nodes environment_registry current_ref h now w ∧
  w' = {| w_leases := tick (w_leases w); w_ledger := w_ledger w |} ∧
  ∃ receipt, pr_authorization_status receipt = "AUTHORIZED_GREEN_BOUNDED" ∧
    g = granted_of h receipt.
Proof.
  intros [Hlw Hgw] H. unfold grant in H. inv_ok.
  rewrite on_leases_run in Hr0. injection Hr0 as Hcur Hs0.
  destruct a0 as [c|]; [|done].
  destruct (Leases.current clock (ho_lane h) (ho_lease_scope_key h) (w_leases w)) as [rc s1] eqn:E.
  cbn [fst snd] in *. subst rc. apply current_ok in E as (Hc & Hex & ->).
  subst s0. cbn [w_ledger] in Hr2. apply check_node_ok in Hr as (Hflags & _ & Hnode & Henv).
  apply check_lease_ok in Hr1 as (H1 & H2 & H3 & H4).
  apply check_ledger_ok in Hr2 as (Hres & Hsc & Hev & Hau & Hst); [|done].
  injection H as <- <-. subst a3.
  split; [|split; [done|exists a2; by rewrite Hau]].
  split; try done. exists c. by split_and!.
Qed.

(** ** Properties *)

(** C31. The gate grants exactly what still holds: in a well-formed world,
    [grant] succeeds exactly when the handoff is unspent, its node snapshot is
    current under its generation, hash and attestation, the lane's environment
    contract has not changed, the node's lease is live with the handoff's fence
    and target, the ledger holds the unstarted reservation of this envelope at
    that fence, the enforcement point authorizes the GREEN envelope, and the
    target is still in the planned state; the grant then carries the handoff's
    fields, and neither store changes beyond one reading of the clock. *)
Theorem grant_iff clock nodes environment_registry current_ref h now w g w' :
  world_wf w →
  grant clock nodes environment_registry current_ref h now w = (Ok g, w') ↔
  grantable clock nodes environment_registry current_ref h now w ∧
  w' = {| w_leases := tick (w_leases w); w_ledger := w_ledger w |} ∧
  ∃ receipt, pr_authorization_status receipt = "AUTHORIZED_GREEN_BOUNDED" ∧
    g = granted_of h receipt.
Proof.
  intros Hw. split; [by apply grant_inv|].
  intros (Hg & -> & receipt & Hau & ->). by apply grant_passes.
Qed.

(** Whatever it answers, the gate changes neither store. *)
Lemma grant_keeps clock nodes environment_registry current_ref h now w :
  let w' := (grant clock nodes environment_registry current_ref h now w).2 in
  w_ledger w' = w_ledger w ∧ (w_leases w' = w_leases w ∨ w_leases w' = tick (w_leases w)).
Proof.
  unfold grant. m_run. destruct (check_node _ _ _ _) as [[]|]; [|cbn; auto].
  rewrite on_leases_run.
  pose proof (current_keeps clock (ho_lane h) (ho_lease_scope_key h) (w_leases w)) as Hk.
  cbv zeta in Hk. destruct (Leases.current _ _ _ _) as [r s']. cbn [fst snd] in *.
  repeat case_match; simplify_eq/=; auto.
Qed.

(** A preparation followed by the gate. *)
Definition demo_gate (h : GreenExecutionHandoff) : M World GreenExecutionGrant :=
  grant demo_clock demo_nodes demo_registry (λ _, Ok "git:abc") h 1000.

Lemma demo_grantable :
  ∃ h w, demo_prepare demo_planner demo_world = (Ok h, w) ∧ world_wf w ∧
    grantable demo_clock demo_nodes demo_registry (λ _, Ok "git:abc") h 1000 w.
Proof.
  destruct demo_handoff as (h & w & E & Hw & Hheld). exists h, w. split; [done|]. split; [done|].
  apply (handoff_grantable demo_clock demo_nodes demo_registry demo_planner cp_task cp_operation
    "adapter:codegen" CODEGEN "repo:alpha" "git:abc" 30000000 1000 demo_parent demo_injected
    _ demo_world); [|apply demo_world_wf|exact E|apply Hheld; lia|reflexivity].
  apply register_all_wf, map_Forall_empty.
Qed.

Definition demo_authorization (h : GreenExecutionHandoff) : PEPAuthorizationReceipt :=
  {| pr_adapter_id := ho_adapter_id h; pr_operation_id := ho_operation_id h;
     pr_target_state_ref := "git:abc"; pr_fence_token := ho_fence_token h;
     pr_idempotency_key := ho_idempotency_key h; pr_effect_class := GREEN;
     pr_policy_reason_code := ho_policy_reason_code h;
     pr_authorization_status := "AUTHORIZED_GREEN_BOUNDED"; pr_side_effects_executed := false |}.

Lemma grant_iff_witness :
  ∃ h w g w', demo_prepare demo_planner demo_world = (Ok h, w) ∧ demo_gate h w = (Ok g, w').
Proof.
  destruct demo_grantable as (h & w & E & Hw & Hg).
  exists h, w, (granted_of h (demo_authorization h)),
    {| w_leases := tick (w_leases w); w_ledger := w_ledger w |}.
  split; [exact E|].
  apply (grant_iff demo_clock demo_nodes demo_registry (λ _, Ok "git:abc") h 1000 w _ _ Hw).
  split; [exact Hg|]. split; [reflexivity|]. exists (demo_authorization h). split; reflexivity.
Defined.
