(* ===== verification/Execution.v ===== *)
(** * The execution lifecycle

    [src/core/runner_vnext_execution.py]: [begin] re-checks the grant against
    the stores and marks the operation started, the injected executor performs
    the effect, and [finalize] checks its result, closes the operation in the
    ledger and releases the lease.  The executor is a parameter; while it runs
    the stores may change in any way. *)

From S2P Require Import Prelude.
From S2P Require Import PyStr.
From S2P Require Import Json.
From S2P Require Import Sha256.
From S2P Require Import Contracts.
From S2P Require Import Leases.
From S2P Require Import Ledger.
From S2P Require Import Adapters.
From S2P Require Import Environment.
From S2P Require Import Routing.
From S2P Require Import Pep.
From S2P Require Import ControlPlane.
From S2P Require Import ExecutionGate.

(** ** Data *)
Record GreenExecutionResult := {
  x_operation_id : string;
  x_idempotency_key : string;
  x_adapter_id : string;
  x_target_state_ref : string;
  x_fence_token : Z;
  x_resources : list string;
  x_effects : list string;
  x_outcome : string;
  x_reason_code : string;
  x_before_state_ref : string;
  x_after_state_ref : string;
  x_validation_status : string;
  x_rollback_requested : bool
}.

Record GreenExecutionStarted := {
  st_operation_id : string;
  st_idempotency_key : string;
  st_adapter_id : string;
  st_fence_token : Z;
  st_planner_envelope_hash : string;
  st_execution_grant_hash : string;
  st_effect_execution_started : bool
}.

Record GreenExecutionReceipt := {
  rc_task_id : string;
  rc_node_id : string;
  rc_lane : string;
  rc_lease_scope_key : string;
  rc_fence_token : Z;
  rc_operation_id : string;
  rc_idempotency_key : string;
  rc_adapter_id : string;
  rc_planner_envelope_hash : string;
  rc_execution_grant_hash : string;
  rc_privacy : string;
  rc_terminal_status : string;
  rc_reason_code : string;
  rc_validation_status : string;
  rc_touched_resource_refs : list string;
  rc_before_state_ref : string;
  rc_after_state_ref : string;
  rc_rollback_required : bool;
  rc_lease_released : bool;
  rc_needs_recovery : bool;
  rc_effect_execution_started : bool
}.

(** ** The hash of a grant *)
Definition grant_payload (g : GreenExecutionGrant) : json :=
  JObj [("task_id", JStr (g_task_id g));
        ("node_id", JStr (g_node_id g));
        ("node_generation", JInt (g_node_generation g));
        ("node_snapshot_hash", JStr (g_node_snapshot_hash g));
        ("node_attestation_ref", JStr (g_node_attestation_ref g));
        ("lane", JStr (g_lane g));
        ("lease_scope_key", JStr (g_lease_scope_key g));
        ("fence_token", JInt (g_fence_token g));
        ("environment_policy_hash", JStr (g_environment_policy_hash g));
        ("operation_id", JStr (g_operation_id g));
        ("idempotency_key", JStr (g_idempotency_key g));
        ("adapter_id", JStr (g_adapter_id g));
        ("target_state_ref", JStr (g_target_state_ref g));
        ("reservation_scope_hash", JStr (g_reservation_scope_hash g));
        ("planner_envelope_hash", JStr (g_planner_envelope_hash g));
        ("policy_reason_code", JStr (g_policy_reason_code g));
        ("authorization_status", JStr (g_authorization_status g));
        ("execution_authorized", JBool (g_execution_authorized g));
        ("effect_execution_started", JBool (g_effect_execution_started g))].

Definition execution_grant_hash (g : GreenExecutionGrant) : string := json_hash (grant_payload g).

(** [_refs_hash]: the hash of the sorted references. *)
Definition _refs_hash (values : list string) : string :=
  text_hash (dumps_compact (jstrs (sort_strs values))).

(** ** Checks *)
Definition _public_ref (value : string) : bool :=
  truthy value && negb (startswith_any ["/"; "~"] value) && negb (contains "\" value)
  && negb (contains ".." value) && contains ":" value && negb (any_char isspace value).

Definition err (code : string) : exn := GreenExecutionError code.

Definition _validate_grant (g : GreenExecutionGrant) : result unit :=
  let e := g_planner_envelope g in
  raise_if (negb (g_execution_authorized g) || g_effect_execution_started g)
    (err "EXECUTION_FRESH_AUTHORIZED_GRANT_REQUIRED");;
  raise_if (g_planner_envelope_hash g != planner_envelope_hash e)
    (err "EXECUTION_PLANNER_ENVELOPE_HASH_MISMATCH");;
  raise_if ((env_operation_id e != g_operation_id g)
            || (env_idempotency_key e != g_idempotency_key g))
    (err "EXECUTION_GRANT_ENVELOPE_IDENTITY_MISMATCH");;
  raise_if ((env_adapter_id e != g_adapter_id g)
            || (env_target_state_ref e != g_target_state_ref g))
    (err "EXECUTION_GRANT_ENVELOPE_BINDING_MISMATCH");;
  raise_if (env_fence_token e != g_fence_token g)
    (err "EXECUTION_GRANT_ENVELOPE_FENCE_MISMATCH");;
  raise_if (negb (_public_ref (g_lease_scope_key g))) (err "EXECUTION_LEASE_SCOPE_INVALID").

(** The tuple comparison of [_validate_started]. *)
Definition _validate_started (g : GreenExecutionGrant) (started : GreenExecutionStarted)
    : result unit :=
  raise_if (negb (st_effect_execution_started started))
    (err "EXECUTION_STARTED_MARKER_REQUIRED");;
  raise_if ((st_operation_id started, st_idempotency_key started, st_adapter_id started,
             st_fence_token started, st_planner_envelope_hash started,
             st_execution_grant_hash started)
            != (g_operation_id g, g_idempotency_key g, g_adapter_id g, g_fence_token g,
                g_planner_envelope_hash g, execution_grant_hash g))
    (err "EXECUTION_STARTED_MARKER_MISMATCH").

Definition validate_actual_touched_resources (r : GreenExecutionResult)
    (authorized_resources : list string) : result unit :=
  let touched := x_resources r in
  raise_if (has_dup touched) (err "EXECUTION_RESULT_TOUCHED_RESOURCES_DUPLICATE");;
  each (λ ref,
    raise_if (negb (_public_ref ref)) (err "EXECUTION_RESULT_TOUCHED_RESOURCE_MALFORMED");;
    raise_if (ref ∉? authorized_resources)
      (err "EXECUTION_RESULT_TOUCHED_RESOURCE_OUT_OF_SCOPE")) touched;;
  let state_changed := x_before_state_ref r != x_after_state_ref r in
  if x_outcome r == "SUCCEEDED" then
    raise_if (is_empty touched) (err "EXECUTION_RESULT_TOUCHED_RESOURCES_REQUIRED")
  else if x_outcome r == "PARTIAL" then
    raise_if (is_empty touched) (err "EXECUTION_RESULT_PARTIAL_TOUCHED_RESOURCES_REQUIRED")
  else if negb (is_empty touched) then Ok tt
  else
    raise_if (state_changed || x_rollback_requested r)
      (err "EXECUTION_RESULT_FAILED_MUTATION_REQUIRES_TOUCHED_RESOURCES").

Definition _validate_result (g : GreenExecutionGrant) (r : GreenExecutionResult) : result unit :=
  let e := g_planner_envelope g in
  raise_if (x_outcome r ∉? ["SUCCEEDED"; "FAILED"; "PARTIAL"])
    (err "EXECUTION_RESULT_OUTCOME_INVALID");;
  raise_if (x_validation_status r ∉? ["PASS"; "FAIL"])
    (err "EXECUTION_RESULT_VALIDATION_INVALID");;
  raise_if (falsy (x_reason_code r)
            || any_char (λ ch, negb (char_in "ABCDEFGHIJKLMNOPQRSTUVWXYZ0123456789_" ch))
                 (x_reason_code r))
    (err "EXECUTION_RESULT_REASON_INVALID");;
  raise_if ((x_operation_id r, x_idempotency_key r, x_adapter_id r, x_target_state_ref r,
             x_fence_token r, x_effects r)
            != (g_operation_id g, g_idempotency_key g, g_adapter_id g, g_target_state_ref g,
                g_fence_token g, env_effects e))
    (err "EXECUTION_RESULT_BINDING_MISMATCH_NEEDS_RECOVERY");;
  validate_actual_touched_resources r (env_resources e);;
  each (λ ref, raise_if (negb (_public_ref ref)) (err "EXECUTION_RESULT_PUBLIC_REF_REQUIRED"))
    [x_before_state_ref r; x_after_state_ref r].

(** [except LedgerError as exc: raise GreenExecutionError(exc.reason_code)] *)
Definition or_execution_error {A} (r : result A) : result A :=
  match r with Raise (LedgerError c) => Raise (GreenExecutionError c) | r => r end.
Definition ledger_to_execution_error {A} (e : exn) : M World A :=
  raise (match e with LedgerError c => GreenExecutionError c | e => e end).

Definition grant_identity (g : GreenExecutionGrant) : OperationIdentity :=
  {| id_operation_id := g_operation_id g; id_idempotency_key := g_idempotency_key g;
     id_target_state_ref := g_target_state_ref g |}.

(** *** [_validate_authoritative_state] *)

(** The ledger's part. *)
Definition check_started (g : GreenExecutionGrant) (reservation : LedgerEvent)
    (grant_hash : option string) (ledger : OperationLedger) : result unit :=
  started ← or_execution_error (started_event (g_idempotency_key g) ledger);
  raise_if ((start_identity started != ev_identity reservation)
            || (start_fence_token started != g_fence_token g))
    (err "EXECUTION_START_EVIDENCE_MISMATCH");;
  raise_if (Some (start_execution_grant_hash started) != grant_hash)
    (err "EXECUTION_START_GRANT_HASH_MISMATCH");;
  raise_if (Some (start_reservation_scope_hash started)
            != ev_reservation_scope_hash reservation)
    (err "EXECUTION_START_SCOPE_MISMATCH").

Definition check_ledger_state (g : GreenExecutionGrant) (expected_status : string)
    (grant_hash : option string) (ledger : OperationLedger) : result unit :=
  let key := g_idempotency_key g in
  current ← status key ledger;
  raise_if (current != Some expected_status)
    (err (if (current == Some "STARTED") && (expected_status == "RESERVED")
          then "EXECUTION_ALREADY_STARTED_NEEDS_RECOVERY"
          else "EXECUTION_LEDGER_STATE_MISMATCH"));;
  '(reservation, current_fence) ← or_execution_error (
    reservation ← reservation_event key ledger;
    current_fence ← current_fence_token key ledger;
    Ok (reservation, current_fence));
  raise_if ((id_operation_id (ev_identity reservation) != g_operation_id g)
            || (id_target_state_ref (ev_identity reservation) != g_target_state_ref g))
    (err "EXECUTION_LEDGER_IDENTITY_MISMATCH");;
  raise_if (current_fence != g_fence_token g) (err "EXECUTION_LEDGER_FENCE_MISMATCH");;
  raise_if (ev_reservation_scope_hash reservation
            != Some (reservation_scope_fingerprint (g_planner_envelope g)))
    (err "EXECUTION_LEDGER_SCOPE_MISMATCH");;
  if expected_status == "STARTED" then check_started g reservation grant_hash ledger
  else Ok tt.

(** The lease's part. *)
Definition check_grant_lease (g : GreenExecutionGrant) (lease : option LaneLease)
    : result unit :=
  lease ← some_or lease (err "EXECUTION_LEASE_MISSING_OR_EXPIRED");
  raise_if ((lease_task_id lease != g_task_id g) || (lease_owner lease != g_node_id g))
    (err "EXECUTION_LEASE_OWNER_MISMATCH");;
  raise_if (lease_fence_token lease != g_fence_token g) (err "EXECUTION_LEASE_FENCE_MISMATCH");;
  raise_if (lease_target_state_ref lease != Some (g_target_state_ref g))
    (err "EXECUTION_LEASE_TARGET_MISMATCH").

(** [try: lane = Lane(grant.lane) except ValueError: raise ...] *)
Definition grant_lane (g : GreenExecutionGrant) : result Lane :=
  match lane_of_value (g_lane g) with
  | Raise (ValueError _) => Raise (err "EXECUTION_LANE_INVALID")
  | r => r
  end.

Section lifecycle.
Context (clock : nat → Z).

Definition _validate_authoritative_state (g : GreenExecutionGrant) (expected_status : string)
    (grant_hash : option string) : M World unit :=
  query (λ w, check_ledger_state g expected_status grant_hash (w_ledger w));;
  lane ← lift (grant_lane g);
  lease ← on_leases (Leases.current clock lane (g_lease_scope_key g));
  lift (check_grant_lease g lease).

(** ** [begin] *)
Definition started_of (g : GreenExecutionGrant) : GreenExecutionStarted :=
  {| st_operation_id := g_operation_id g; st_idempotency_key := g_idempotency_key g;
     st_adapter_id := g_adapter_id g; st_fence_token := g_fence_token g;
     st_planner_envelope_hash := g_planner_envelope_hash g;
     st_execution_grant_hash := execution_grant_hash g;
     st_effect_execution_started := true |}.

(** The write at the end of [begin]. *)
Definition mark (g : GreenExecutionGrant) : M World unit :=
  catch (on_ledger (mark_started (grant_identity g) (g_fence_token g)
                      (execution_grant_hash g));; mret tt) ledger_to_execution_error.

Definition begin (g : GreenExecutionGrant) : M World GreenExecutionStarted :=
  lift (_validate_grant g);;
  _validate_authoritative_state g "RESERVED" None;;
  mark g;;
  mret (started_of g).

(** ** [finalize] *)
Definition _release_exact_lease (g : GreenExecutionGrant) : M World bool :=
  catch (
    lane ← lift (lane_of_value (g_lane g));
    on_leases (release_exact clock lane (g_lease_scope_key g) (g_node_id g)
                 (g_fence_token g));;
    mret true)
    (λ e, match e with LeaseError _ => mret false | e => raise e end).

Definition receipt_of (g : GreenExecutionGrant) (started : GreenExecutionStarted)
    (r : GreenExecutionResult) (lease_released : bool) : GreenExecutionReceipt :=
  let success := x_outcome r == "SUCCEEDED" in
  let state_changed := x_before_state_ref r != x_after_state_ref r in
  let rollback_required := negb success
    && (x_rollback_requested r || state_changed || (x_outcome r == "PARTIAL")) in
  {| rc_task_id := g_task_id g; rc_node_id := g_node_id g; rc_lane := g_lane g;
     rc_lease_scope_key := g_lease_scope_key g; rc_fence_token := g_fence_token g;
     rc_operation_id := g_operation_id g; rc_idempotency_key := g_idempotency_key g;
     rc_adapter_id := g_adapter_id g;
     rc_planner_envelope_hash := g_planner_envelope_hash g;
     rc_execution_grant_hash := st_execution_grant_hash started;
     rc_privacy := privacy_value (env_privacy (g_planner_envelope g));
     rc_terminal_status := if success then "COMPLETED" else "FAILED";
     rc_reason_code := x_reason_code r;
     rc_validation_status := x_validation_status r;
     rc_touched_resource_refs := x_resources r;
     rc_before_state_ref := x_before_state_ref r;
     rc_after_state_ref := x_after_state_ref r;
     rc_rollback_required := rollback_required;
     rc_lease_released := lease_released;
     rc_needs_recovery := rollback_required || negb lease_released;
     rc_effect_execution_started := true |}.

Definition finalize (g : GreenExecutionGrant) (started : GreenExecutionStarted)
    (r : GreenExecutionResult) : M World GreenExecutionReceipt :=
  lift (_validate_started g started);;
  _validate_authoritative_state g "STARTED" (Some (st_execution_grant_hash started));;
  lift (_validate_result g r);;
  let success := x_outcome r == "SUCCEEDED" in
  lift (raise_if (success && (x_validation_status r != "PASS"))
    (err "EXECUTION_SUCCESS_REQUIRES_VALIDATION_PASS"));;
  lift (raise_if (negb success && (x_validation_status r != "FAIL"))
    (err "EXECUTION_FAILURE_REQUIRES_VALIDATION_FAIL"));;
  catch (on_ledger (finish (grant_identity g) (g_fence_token g) success (x_reason_code r)
                      (x_resources r) (x_before_state_ref r) (x_after_state_ref r)
                      (x_validation_status r));; mret tt) ledger_to_execution_error;;
  lease_released ← _release_exact_lease g;
  mret (receipt_of g started r lease_released).

(** ** [run] *)
Definition run (g : GreenExecutionGrant)
    (execute : GreenExecutionGrant → M World GreenExecutionResult)
    : M World GreenExecutionReceipt :=
  started ← begin g;
  r ← catch (execute g) (λ _, raise (err "EXECUTION_ADAPTER_EXCEPTION_NEEDS_RECOVERY"));
  finalize g started r.
End lifecycle.

(** ** [GreenExecutionLifecycle.public_projection] *)
Definition receipt_public_projection (r : GreenExecutionReceipt) : json :=
  JObj ([("schema", JStr "skeleton.runner_green_execution_receipt.v1");
         ("task_id_hash", JStr (text_hash (rc_task_id r)));
         ("operation_id_hash", JStr (text_hash (rc_operation_id r)));
         ("idempotency_key_hash", JStr (text_hash (rc_idempotency_key r)));
         ("node_id", JStr (rc_node_id r));
         ("lane", JStr (rc_lane r));
         ("fence_token", JInt (rc_fence_token r));
         ("adapter_id", JStr (rc_adapter_id r));
         ("planner_envelope_hash", JStr (rc_planner_envelope_hash r));
         ("execution_grant_hash", JStr (rc_execution_grant_hash r));
         ("privacy", JStr (rc_privacy r));
         ("terminal_status", JStr (rc_terminal_status r));
         ("reason_code", JStr (rc_reason_code r));
         ("validation_status", JStr (rc_validation_status r));
         ("touched_resource_count", JInt (Z.of_nat (length (rc_touched_resource_refs r))));
         ("touched_resource_hash", JStr (_refs_hash (rc_touched_resource_refs r)));
         ("before_state_ref_hash", JStr (text_hash (rc_before_state_ref r)));
         ("after_state_ref_hash", JStr (text_hash (rc_after_state_ref r)));
         ("state_changed", JBool (rc_before_state_ref r != rc_after_state_ref r));
         ("rollback_required", JBool (rc_rollback_required r));
         ("lease_released", JBool (rc_lease_released r));
         ("needs_recovery", JBool (rc_needs_recovery r));
         ("effect_execution_started", JBool (rc_effect_execution_started r))]
    ++ (if rc_privacy r == "PUBLIC_SAFE" then
          [("task_id", JStr (rc_task_id r));
           ("operation_id", JStr (rc_operation_id r));
           ("idempotency_key", JStr (rc_idempotency_key r));
           ("touched_resource_refs", jstrs (rc_touched_resource_refs r));
           ("before_state_ref", JStr (rc_before_state_ref r));
           ("after_state_ref", JStr (rc_after_state_ref r))]
        else [])).

(** ** What the checks require *)
Definition tick_world (w : World) : World :=
  {| w_leases := tick (w_leases w); w_ledger := w_ledger w |}.

Lemma tick_world_wf w : world_wf w → world_wf (tick_world w).
Proof. intros []. split; [by apply lease_wf_tick|done]. Qed.

(** The reservation of the grant, with the given start evidence. *)
Definition grant_reserved (g : GreenExecutionGrant) (start : option ExecutionStartEvidence)
    (p : phase) : Prop :=
  ∃ res, p = Live res (g_fence_token g) start ∧ ev_identity res = grant_identity g ∧
    ev_reservation_scope_hash res = Some (reservation_scope_fingerprint (g_planner_envelope g)).

(** The start evidence [begin] leaves. *)
Definition start_of_grant (g : GreenExecutionGrant) : ExecutionStartEvidence :=
  {| start_identity := grant_identity g; start_fence_token := g_fence_token g;
     start_execution_grant_hash := execution_grant_hash g;
     start_reservation_scope_hash := reservation_scope_fingerprint (g_planner_envelope g) |}.

(** The node of the grant holds its lane lease at the reading of the clock. *)
Definition grant_lease_live (clock : nat → Z) (g : GreenExecutionGrant) (s : LaneLeaseStore)
    : Prop :=
  ∃ lane, lane_of_value (g_lane g) = Ok lane ∧
    lease_live clock s lane (g_lease_scope_key g) (g_task_id g) (g_node_id g)
      (g_fence_token g) (g_target_state_ref g).

Lemma or_execution_error_ok {A} (r : result A) a : or_execution_error r = Ok a ↔ r = Ok a.
Proof. destruct r as [|e]; [done|]. by destruct e. Qed.

Lemma identity_eq i a b c :
  i = {| id_operation_id := a; id_idempotency_key := b; id_target_state_ref := c |} ↔
  id_operation_id i = a ∧ id_idempotency_key i = b ∧ id_target_state_ref i = c.
Proof. destruct i; simpl. naive_solver. Qed.

(** The part of the check both statuses share. *)
Lemma check_ledger_common g l st gh r :
  ledger_wf l →
  check_ledger_state g st gh l = Ok r ↔
  ∃ res f, phase_status (phase_of (g_idempotency_key g) l) = Some st ∧
    reservation_event (g_idempotency_key g) l = Ok res ∧
    current_fence_token (g_idempotency_key g) l = Ok f ∧ f = g_fence_token g ∧
    id_operation_id (ev_identity res) = g_operation_id g ∧
    id_target_state_ref (ev_identity res) = g_target_state_ref g ∧
    ev_reservation_scope_hash res = Some (reservation_scope_fingerprint (g_planner_envelope g)) ∧
    (if st == "STARTED" then check_started g res gh l else Ok tt) = Ok tt.
Proof.
  intros Hwf. destruct r. unfold check_ledger_state. rewrite status_run by done.
  cbn [mbind result_bind]. rewrite seq_ok, raise_if_ok, negb_false_iff, bool_decide_eq_true.
  destruct (reservation_event _ l) as [res|e]; [|].
  2: { split; [|naive_solver]. intros [_ H]. by destruct e. }
  destruct (current_fence_token _ l) as [f|e].
  2: { split; [|naive_solver]. intros [_ H]. by destruct e. }
  cbn [mbind result_bind or_execution_error].
  autorewrite with py_ok py_bool.
  split; [intros (?&(?&?)&?&?&?); by exists res, f|].
  intros (?&?&?&[= <-]&[= <-]&?&?&?&?&?). done.
Qed.

Lemma check_reserved_ok g l :
  ledger_wf l →
  check_ledger_state g "RESERVED" None l = Ok tt ↔
  grant_reserved g None (phase_of (g_idempotency_key g) l).
Proof.
  intros Hwf. rewrite check_ledger_common by done. rewrite bool_decide_eq_false_2 by done.
  pose proof (reads_by_phase (g_idempotency_key g) l Hwf) as [_ Hreads].
  pose proof (phase_of_facts (g_idempotency_key g) l Hwf) as Hfacts.
  pose proof (phase_status_inv _ _ Hfacts) as [Hlive _]. unfold grant_reserved, grant_identity.
  split.
  - intros (res & f & Hs & Hres & Hf & -> & Hop & Ht & Hsc & _).
    apply Hlive in Hs as (r & f & Hp). rewrite Hp in *. destruct Hreads as (E1 & E2 & _).
    destruct Hfacts as ((_ & Hk & _) & _). rewrite E1 in Hf. rewrite E2 in Hres. simplify_eq.
    exists res. split_and!; try done. by apply identity_eq.
  - intros (res & Hp & Hid & Hsc). apply identity_eq in Hid as (? & ? & ?).
    rewrite Hp in *. destruct Hreads as (E1 & E2 & _). eexists _, _. split_and!; done.
Qed.

Lemma check_started_state_ok g l h :
  ledger_wf l →
  check_ledger_state g "STARTED" (Some h) l = Ok tt ↔
  ∃ s, grant_reserved g (Some s) (phase_of (g_idempotency_key g) l) ∧
    start_execution_grant_hash s = h.
Proof.
  intros Hwf. rewrite check_ledger_common by done. rewrite bool_decide_eq_true_2 by done.
  pose proof (reads_by_phase (g_idempotency_key g) l Hwf) as [_ Hreads].
  pose proof (phase_of_facts (g_idempotency_key g) l Hwf) as Hfacts.
  pose proof (phase_status_inv _ _ Hfacts) as (_ & Hst & _). unfold grant_reserved, grant_identity.
  split.
  - intros (res & f & Hs & Hres & Hf & -> & Hop & Ht & Hsc & Hck).
    apply Hst in Hs as (r & f & s & Hp). rewrite Hp in *. destruct Hreads as (E1 & E2 & E3).
    destruct Hfacts as ((_ & Hk & _) & _). rewrite E1 in Hf. rewrite E2 in Hres. simplify_eq.
    exists s. split; [exists res; split_and!; try done; by apply identity_eq|].
    unfold check_started in Hck. rewrite E3 in Hck. cbn [some_or or_execution_error] in Hck.
    inv_ok. by simplify_eq.
  - intros (s & (res & Hp & Hid & Hsc) & Hh). rewrite Hp in *.
    destruct Hreads as (E1 & E2 & E3). destruct Hfacts as (_ & Hsf & _).
    destruct (Hsf s eq_refl) as (Hi & Hf & Hscope).
    eexists _, _. apply identity_eq in Hid as (? & ? & ?). split_and!; try done.
    unfold check_started. rewrite E3. cbn [some_or or_execution_error mbind result_bind].
    rewrite Hi, Hf, Hh, Hscope.
    by rewrite !bool_decide_eq_true_2 by reflexivity.
Qed.

Lemma check_grant_lease_ok g c :
  check_grant_lease g (Some c) = Ok tt ↔
  lease_task_id c = g_task_id g ∧ lease_owner c = g_node_id g ∧
  lease_fence_token c = g_fence_token g ∧
  lease_target_state_ref c = Some (g_target_state_ref g).
Proof.
  unfold check_grant_lease. cbn [some_or mbind result_bind].
  autorewrite with py_ok py_bool. tauto.
Qed.

Lemma grant_lane_ok g lane : grant_lane g = Ok lane ↔ lane_of_value (g_lane g) = Ok lane.
Proof. unfold grant_lane. destruct (lane_of_value _) as [|e]; [done|]. by destruct e. Qed.

Lemma authoritative_ok clock g st gh w w' :
  _validate_authoritative_state clock g st gh w = (Ok tt, w') ↔
  check_ledger_state g st gh (w_ledger w) = Ok tt ∧
  grant_lease_live clock g (w_leases w) ∧ w' = tick_world w.
Proof.
  unfold _validate_authoritative_state, grant_lease_live. split.
  - intros H. inv_ok. rewrite grant_lane_ok in *. rewrite on_leases_run in *. simplify_eq.
    match goal with H : (Leases.current clock ?b ?c ?d).1 = Ok ?x |- _ =>
      destruct (Leases.current clock b c d) as [rc s1] eqn:E; rename x into oc end.
    simplify_eq/=. destruct oc as [c|]; [|done]. apply current_ok in E as (Hc & Hex & ->).
    match goal with H : check_grant_lease _ _ = _ |- _ =>
      apply check_grant_lease_ok in H as (? & ? & ? & ?) end.
    split; [done|]. split; [|done]. eexists. split; [done|]. exists c. done.
  - intros (Hl & (lane & Hlane & c & Hc & ? & ? & ? & ? & Hex) & ->).
    m_run. rewrite Hl, (proj2 (grant_lane_ok g lane) Hlane), on_leases_run.
    rewrite (proj2 (current_ok clock lane (g_lease_scope_key g) (w_leases w) c
      (tick (w_leases w)))) by done.
    cbn [fst snd]. by rewrite (proj2 (check_grant_lease_ok g c)).
Qed.

(** The check leaves the ledger alone, whatever it answers. *)
Lemma authoritative_keeps clock g st gh w r w' :
  _validate_authoritative_state clock g st gh w = (r, w') →
  w_ledger w' = w_ledger w ∧ (w_leases w' = w_leases w ∨ w_leases w' = tick (w_leases w)).
Proof.
  unfold _validate_authoritative_state. m_run.
  destruct (check_ledger_state _ _ _ _) as [[]|]; [|by intros [= _ <-]; auto].
  destruct (grant_lane g) as [lane|]; [|by intros [= _ <-]; auto].
  rewrite on_leases_run.
  pose proof (current_keeps clock lane (g_lease_scope_key g) (w_leases w)) as Hk.
  cbv zeta in Hk. destruct (Leases.current _ _ _ _) as [rc s']. cbn [fst snd] in *.
  intros H. repeat case_match; simplify_eq/=; auto.
Qed.

Definition is_execution_error (e : exn) : Prop := ∃ c, e = GreenExecutionError c.

Lemma check_started_raises g res gh l :
  ledger_wf l → only_raises is_execution_error (check_started g res gh l).
Proof.
  intros Hwf. unfold check_started.
  pose proof (reads_by_phase (g_idempotency_key g) l Hwf) as [_ Hr].
  apply only_raises_bind; [|intros; raises; by eexists].
  destruct (phase_of _ l) as [|res' f s|res' t s]; destruct Hr as (_ & _ & ->); [by eexists| |];
    (destruct s; [done|by eexists]).
Qed.

Lemma check_ledger_state_raises g st gh l :
  ledger_wf l → only_raises is_execution_error (check_ledger_state g st gh l).
Proof.
  intros Hwf. unfold check_ledger_state.
  pose proof (reads_by_phase (g_idempotency_key g) l Hwf) as [-> Hr].
  cbn [mbind result_bind]. apply only_raises_bind; [raises; by eexists|intros _].
  apply only_raises_bind.
  - destruct (phase_of _ l) as [|? ? ?|? ? ?]; destruct Hr as (-> & -> & _); [by eexists|done|done].
  - intros [res f]. pose proof (check_started_raises g res gh l Hwf). raises; try by eexists.
    done.
Qed.

Lemma lane_of_value_raises v : only_raises (λ e, ∃ m, e = ValueError m) (lane_of_value v).
Proof. unfold lane_of_value. raises. by eexists. Qed.

Lemma current_total clock lane scope s : ∃ oc, (Leases.current clock lane scope s).1 = Ok oc.
Proof.
  unfold Leases.current, _row, read_clock. m_run.
  destruct (lane_leases s !! (lane, scope)); [case_match|]; eauto.
Qed.

Lemma authoritative_raises clock g st gh w e w' :
  ledger_wf (w_ledger w) →
  _validate_authoritative_state clock g st gh w = (Raise e, w') → is_execution_error e.
Proof.
  intros Hwf. unfold _validate_authoritative_state. m_run.
  pose proof (check_ledger_state_raises g st gh (w_ledger w) Hwf) as Hl.
  destruct (check_ledger_state _ _ _ _) as [[]|]; [|by intros [= <- _]].
  unfold grant_lane. pose proof (lane_of_value_raises (g_lane g)) as Hlane.
  destruct (lane_of_value _) as [lane|].
  2: { destruct Hlane as [m ->]. intros [= <- _]. by eexists. }
  rewrite on_leases_run.
  destruct (current_total clock lane (g_lease_scope_key g) (w_leases w)) as [oc ->].
  assert (Hc : only_raises is_execution_error (check_grant_lease g oc)).
  { unfold check_grant_lease. raises; by eexists. }
  destruct (check_grant_lease g oc); [done|]. by intros [= <- _].
Qed.

(** ** [begin] *)

(** What the ledger's start does for a live reservation of the grant. *)
Lemma mark_run g st w :
  world_wf w → grant_reserved g st (phase_of (g_idempotency_key g) (w_ledger w)) →
  st = None ∨ st = Some (start_of_grant g) →
  ∃ w', mark g w = (Ok tt, w') ∧ world_wf w' ∧ w_leases w' = w_leases w ∧
    grant_reserved g (Some (start_of_grant g)) (phase_of (g_idempotency_key g) (w_ledger w')) ∧
    (∀ k, k ≠ g_idempotency_key g → phase_of k (w_ledger w') = phase_of k (w_ledger w)) ∧
    (st = Some (start_of_grant g) → w' = w).
Proof.
  intros [Hlw Hgw] (res & Hp & Hid & Hsc) Hst.
  pose proof (phase_of_facts (g_idempotency_key g) _ Hgw) as Hfacts.
  rewrite Hp in Hfacts. destruct Hfacts as (_ & _ & Hf).
  pose proof (start_implements (grant_identity g) (g_fence_token g) (execution_grant_hash g)
    (w_ledger w) Hgw) as H.
  change (id_idempotency_key (grant_identity g)) with (g_idempotency_key g) in H.
  unfold spec_start in H. rewrite (proj2 (_fence_ok _)) in H by lia.
  rewrite (_scope_hash_json_hash (grant_payload g) : _scope_hash (execution_grant_hash g) = _) in H.
  rewrite Hp in H.
  unfold spec_reservation in H. rewrite Hid in H. cbn [mbind result_bind] in H.
  rewrite !bool_decide_eq_true_2 in H by reflexivity.
  cbn [negb raise_if mbind result_bind] in H. rewrite Hsc in H. cbn [default] in H.
  fold (start_of_grant g) in H.
  assert (∃ l', mark_started (grant_identity g) (g_fence_token g) (execution_grant_hash g)
      (w_ledger w) = (Ok (start_of_grant g), l') ∧ ledger_wf l' ∧
      phase_of (g_idempotency_key g) l' = Live res (g_fence_token g) (Some (start_of_grant g)) ∧
      (∀ k, k ≠ g_idempotency_key g → phase_of k l' = phase_of k (w_ledger w)) ∧
      (st = Some (start_of_grant g) → l' = w_ledger w)) as (l' & Hm & Hwf' & Hp' & Hne & Hsame).
  { destruct Hst as [-> | ->].
    - destruct H as (l' & Hm & ? & _ & ? & ? & _). by exists l'.
    - rewrite bool_decide_eq_true_2 in H by reflexivity.
      destruct H as (l' & Hm & ? & _ & ? & ? & Hs). exists l'. split_and!; try assumption.
      intros _. apply Hs. by rewrite Hp. }
  exists {| w_leases := w_leases w; w_ledger := l' |}.
  unfold mark. m_run. rewrite on_ledger_run, Hm. cbn [fst snd w_leases w_ledger].
  split_and!; [reflexivity|by split|reflexivity|by exists res|exact Hne|].
  intros E. rewrite (Hsame E). by destruct w.
Qed.

(** What [begin] checks. *)
Record begin_ready (clock : nat → Z) (g : GreenExecutionGrant) (w : World) : Prop := {
  br_grant : _validate_grant g = Ok tt;
  br_reserved : grant_reserved g None (phase_of (g_idempotency_key g) (w_ledger w));
  br_lease : grant_lease_live clock g (w_leases w)
}.

Lemma begin_spec clock g w r w' :
  world_wf w → begin clock g w = (r, w') →
  world_wf w' ∧
  (∀ k, k ≠ g_idempotency_key g → phase_of k (w_ledger w') = phase_of k (w_ledger w)) ∧
  match r with
  | Ok started => begin_ready clock g w ∧ started = started_of g ∧
      w_leases w' = tick (w_leases w) ∧
      grant_reserved g (Some (start_of_grant g)) (phase_of (g_idempotency_key g) (w_ledger w'))
  | Raise e => ¬ begin_ready clock g w ∧ is_execution_error e ∧ w_ledger w' = w_ledger w ∧
      (w_leases w' = w_leases w ∨ w_leases w' = tick (w_leases w))
  end.
Proof.
  intros Hw. unfold begin. m_run. destruct (_validate_grant g) as [[]|e] eqn:Hg.
  2: { intros [= <- <-]. split; [done|]. split; [done|]. split; [by intros []; congruence|].
       split; [|by auto].
       assert (only_raises is_execution_error (_validate_grant g)) as H
         by (unfold _validate_grant; raises; by eexists).
       by rewrite Hg in H. }
  destruct (_validate_authoritative_state clock g "RESERVED" None w) as [[[]|e] w1] eqn:Ha.
  - pose proof Ha as Ha'. apply authoritative_ok in Ha' as (Hl & Hlease & ->).
    apply check_reserved_ok in Hl; [|apply Hw].
    destruct (mark_run g None (tick_world w)) as (w2 & -> & Hw2 & Hls & Hres & Hne & _);
      [by apply tick_world_wf|done|by left|].
    intros [= <- <-]. by split_and!.
  - intros [= <- <-]. pose proof (authoritative_keeps _ _ _ _ _ _ _ Ha) as [Hl Hls].
    split. { split; [|by rewrite Hl; apply Hw].
      destruct Hls as [-> | ->]; [apply Hw|apply lease_wf_tick, Hw]. }
    split; [by rewrite Hl|].
    split; [|split; [by eapply authoritative_raises; [apply Hw|]|done]].
    intros [_ Hr Hlease]. rewrite <-check_reserved_ok in Hr by apply Hw.
    rewrite (proj2 (authoritative_ok clock g "RESERVED" None w (tick_world w))) in Ha by done.
    done.
Qed.

(** Once the start is in the ledger, no evolution of the ledger brings the
    reservation back. *)
Lemma started_stays g g' s p q :
  grant_reserved g (Some s) p → phase_le p q → ¬ grant_reserved g' None q.
Proof.
  intros (res & -> & _ & _) Hle (res' & -> & _). simpl in Hle. by destruct Hle as (_ & _ & ?).
Qed.

(** ** [finalize] *)

(** The grant's lease row, alive or not. *)
Definition grant_lease_row (g : GreenExecutionGrant) (lane : Lane) (s : LaneLeaseStore) : Prop :=
  lane_of_value (g_lane g) = Ok lane ∧
  ∃ c, lane_leases s !! (lane, g_lease_scope_key g) = Some c ∧ lease_owner c = g_node_id g ∧
    lease_fence_token c = g_fence_token g.

(** The release frees the lease, or finds it already expired and leaves it. *)
Lemma release_exact_spec clock g lane w :
  lease_wf (w_leases w) → grant_lease_row g lane (w_leases w) →
  let k := (lane, g_lease_scope_key g) in
  let '(r, w') := _release_exact_lease clock g w in
  lease_wf (w_leases w') ∧ w_ledger w' = w_ledger w ∧
  (∀ k', k' ≠ k → abs_lock (w_leases w') k' = abs_lock (w_leases w) k') ∧
  (r = Ok true ∧ lock_holder (abs_lock (w_leases w') k) = None ∨
   r = Ok false ∧ abs_lock (w_leases w') k = abs_lock (w_leases w) k ∧
   let_go clock (abs_lock (w_leases w) k) (clock_readings (w_leases w))).
Proof.
  intros Hs (Hlane & c & Hc & Ho & Hf) k. unfold _release_exact_lease. m_run.
  rewrite Hlane, on_leases_run. unfold release_exact.
  destruct (release clock _ _ _ _ (w_leases w)) as [r s'] eqn:E.
  apply release_refines in E as (Hs' & Hobs & Habs & Hne); [|done].
  assert (Hh : lock_holder (abs_lock (w_leases w) k) = Some (abs_holder c))
    by (unfold abs_lock; cbn [lock_holder]; unfold k; by rewrite Hc).
  assert (Hlf : lock_fence (abs_lock (w_leases w) k) = g_fence_token g)
    by (unfold abs_lock, k; cbn [lock_fence]; by rewrite (wf_lease_fence _ Hs _ _ Hc)).
  fold k in Hobs, Habs, Hne.
  rewrite (spec_release_holder _ _ _ _ _ Hlf Hh Ho) in Hobs, Habs. cbn [fst snd].
  destruct (Z.leb_spec (h_deadline (abs_holder c)) (clock (clock_readings (w_leases w)))) as [Hd|Hd];
    destruct r as [rc|e]; try discriminate Hobs; cbn [fst snd] in *;
    cbn [observe_receipt] in Hobs; [injection Hobs as ->|].
  - split_and!; [done..|]. right. split_and!; [done..|]. right. by eexists.
  - split_and!; [done..|]. left. cbn [w_leases]. by rewrite Habs.
Qed.

Lemma public_refs_of_public l :
  (∀ x, x ∈ l → _public_ref x = true) → _public_refs l = Ok tt.
Proof.
  intros H. unfold _public_refs. apply each_raise_ok. intros x Hx. specialize (H x Hx).
  unfold _public_ref in H. bool_facts.
  assert (falsy x = false) as -> by (by apply bool_decide_eq_false_2).
  repeat match goal with H : ?b = _ |- context [?b] => rewrite H; clear H end. done.
Qed.

(** What a validated result carries. *)
Record result_bound (g : GreenExecutionGrant) (r : GreenExecutionResult) : Prop := {
  rb_identity : x_operation_id r = g_operation_id g ∧ x_idempotency_key r = g_idempotency_key g ∧
    x_adapter_id r = g_adapter_id g ∧ x_target_state_ref r = g_target_state_ref g ∧
    x_fence_token r = g_fence_token g;
  rb_effects : x_effects r = env_effects (g_planner_envelope g);
  rb_touched : NoDup (x_resources r) ∧ x_resources r ⊆ env_resources (g_planner_envelope g);
  rb_reported : x_outcome r ∈ ["SUCCEEDED"; "PARTIAL"] → x_resources r ≠ [];
  rb_failed_clean : x_outcome r = "FAILED" → x_resources r = [] →
    x_before_state_ref r = x_after_state_ref r ∧ x_rollback_requested r = false;
  rb_outcome : x_outcome r ∈ ["SUCCEEDED"; "FAILED"; "PARTIAL"]
}.

Lemma touched_ok r authorized :
  validate_actual_touched_resources r authorized = Ok tt →
  NoDup (x_resources r) ∧ x_resources r ⊆ authorized ∧
  (∀ x, x ∈ x_resources r → _public_ref x = true) ∧
  (x_outcome r ∈ ["SUCCEEDED"; "PARTIAL"] → x_resources r ≠ []) ∧
  (x_outcome r ∉ ["SUCCEEDED"; "PARTIAL"] → x_resources r = [] →
    x_before_state_ref r = x_after_state_ref r ∧ x_rollback_requested r = false).
Proof.
  unfold validate_actual_touched_resources. rewrite !seq_ok, each_ok, Forall_forall.
  intros (Hd & Hall & H). inv_ok.
  assert (Hr : ∀ x, x ∈ x_resources r → _public_ref x = true ∧ x ∈ authorized).
  { intros x Hx. specialize (Hall x Hx). rewrite seq_ok, !raise_if_ok in Hall.
    destruct Hall. by bool_facts. }
  split; [done|]. split; [intros x Hx; by apply Hr|]. split; [intros x Hx; by apply Hr|].
  split.
  - intros Ho. destruct (x_resources r); [|done]. cbn [is_empty] in H.
    repeat case_bool_decide; try done. exfalso.
    rewrite !elem_of_cons, elem_of_nil in Ho. tauto.
  - intros Ho E. rewrite E in H. cbn [is_empty negb] in H.
    rewrite !elem_of_cons, elem_of_nil in Ho.
    rewrite !bool_decide_eq_false_2 in H by tauto. inv_ok. by bool_facts.
Qed.

Lemma validate_result_ok g r :
  _validate_result g r = Ok tt →
  result_bound g r ∧ _reason (x_reason_code r) = Ok tt ∧
  _public_refs (x_resources r) = Ok tt ∧
  _public_refs [x_before_state_ref r; x_after_state_ref r] = Ok tt.
Proof.
  unfold _validate_result. rewrite !seq_ok, !raise_if_ok, each_check_ok.
  intros (Ho & _ & Hreason & Hb & Ht & Hrefs). bool_facts.
  apply touched_ok in Ht as (Hd & Hsub & Hpub & Hrep & Hclean). simplify_eq.
  split_and!.
  - split; try done. intros Hf. apply Hclean. rewrite Hf. set_solver.
  - unfold _reason. apply raise_if_ok, orb_false_iff. by split.
  - by apply public_refs_of_public.
  - by apply public_refs_of_public.
Qed.

(** What [finalize] checks. *)
Record finalizable (clock : nat → Z) (g : GreenExecutionGrant) (started : GreenExecutionStarted)
    (r : GreenExecutionResult) (w : World) : Prop := {
  fz_started : started = started_of g;
  fz_reserved : grant_reserved g (Some (start_of_grant g))
    (phase_of (g_idempotency_key g) (w_ledger w));
  fz_lease : grant_lease_live clock g (w_leases w);
  fz_result : _validate_result g r = Ok tt;
  fz_status : x_validation_status r = (if x_outcome r == "SUCCEEDED" then "PASS" else "FAIL")
}.

Lemma validate_started_ok g started :
  _validate_started g started = Ok tt ↔ started = started_of g.
Proof.
  unfold _validate_started, started_of. autorewrite with py_ok py_bool.
  destruct started; simpl. split; [|by intros [= -> -> -> -> -> -> ->]].
  intros [-> H]. by simplify_eq.
Qed.

(** In a well-formed ledger the start evidence of the grant's hash is the one
    [begin] left. *)
Lemma started_evidence g s l :
  ledger_wf l → grant_reserved g (Some s) (phase_of (g_idempotency_key g) l) →
  start_execution_grant_hash s = execution_grant_hash g → s = start_of_grant g.
Proof.
  intros Hwf (res & Hp & Hid & Hsc) Hh.
  pose proof (phase_of_facts (g_idempotency_key g) l Hwf) as Hf. rewrite Hp in Hf.
  destruct Hf as (_ & Hs & _). destruct (Hs s eq_refl) as (E1 & E2 & E3).
  unfold start_of_grant. destruct s; simpl in *. congruence.
Qed.

Lemma outcome_status_ok r :
  raise_if ((x_outcome r == "SUCCEEDED") && (x_validation_status r != "PASS"))
    (err "EXECUTION_SUCCESS_REQUIRES_VALIDATION_PASS") = Ok tt ∧
  raise_if (negb (x_outcome r == "SUCCEEDED") && (x_validation_status r != "FAIL"))
    (err "EXECUTION_FAILURE_REQUIRES_VALIDATION_FAIL") = Ok tt ↔
  x_validation_status r = (if x_outcome r == "SUCCEEDED" then "PASS" else "FAIL").
Proof.
  rewrite !raise_if_ok. destruct (x_outcome r == "SUCCEEDED"); cbn [negb andb];
    rewrite negb_false_iff, bool_decide_eq_true; tauto.
Qed.

(** The terminal event [finalize] writes. *)
Definition terminal_of (g : GreenExecutionGrant) (r : GreenExecutionResult) (t : LedgerEvent)
    : Prop :=
  ev_identity t = grant_identity g ∧ ev_fence_token t = g_fence_token g ∧
  ev_event_type t = (if x_outcome r == "SUCCEEDED" then COMPLETED else FAILED) ∧
  ev_reason_code t = x_reason_code r ∧ ev_touched_resource_refs t = x_resources r ∧
  ev_before_state_ref t = Some (x_before_state_ref r) ∧
  ev_after_state_ref t = Some (x_after_state_ref r) ∧
  ev_validation_status t = Some (x_validation_status r).

(** The world after a finalization: closed, and the lease let go. *)
Definition finalized (clock : nat → Z) (g : GreenExecutionGrant) (started : GreenExecutionStarted)
    (r : GreenExecutionResult) (w : World) (rc : GreenExecutionReceipt) (w' : World) : Prop :=
  ∃ res t lane released,
    phase_of (g_idempotency_key g) (w_ledger w)
      = Live res (g_fence_token g) (Some (start_of_grant g)) ∧
    phase_of (g_idempotency_key g) (w_ledger w') = Done res t (Some (start_of_grant g)) ∧
    terminal_of g r t ∧ rc = receipt_of g started r released ∧
    lane_of_value (g_lane g) = Ok lane ∧
    let k := (lane, g_lease_scope_key g) in
    (∀ k', k' ≠ k → abs_lock (w_leases w') k' = abs_lock (w_leases w) k') ∧
    (released = true ∧ lock_holder (abs_lock (w_leases w') k) = None ∨
     released = false ∧ abs_lock (w_leases w') k = abs_lock (w_leases w) k ∧
       let_go clock (abs_lock (w_leases w) k) (S (clock_readings (w_leases w)))).

Lemma lease_live_row clock g s :
  grant_lease_live clock g s → ∃ lane, grant_lease_row g lane s.
Proof. intros (lane & ? & c & ? & ? & ? & ? & ? & ?). exists lane. split; [done|]. by exists c. Qed.

Lemma finalize_closes clock g started r w :
  world_wf w → finalizable clock g started r w →
  ∃ rc w', finalize clock g started r w = (Ok rc, w') ∧ world_wf w' ∧
    (∀ k, k ≠ g_idempotency_key g → phase_of k (w_ledger w') = phase_of k (w_ledger w)) ∧
    finalized clock g started r w rc w'.
Proof.
  intros [Hlw Hgw] [Hst Hres Hlease Hr Hstatus].
  destruct (lease_live_row _ _ _ Hlease) as [lane Hrow].
  assert (Hck : check_ledger_state g "STARTED" (Some (st_execution_grant_hash started))
      (w_ledger w) = Ok tt).
  { apply check_started_state_ok; [done|]. exists (start_of_grant g). by rewrite Hst. }
  pose proof Hres as (res & Hp & Hid & _).
  pose proof (validate_result_ok g r Hr) as (_ & Hreason & Hrefs & Hba).
  destruct (finish_live_spec (grant_identity g) (g_fence_token g) (x_outcome r == "SUCCEEDED")
    (x_reason_code r) (x_resources r) (x_before_state_ref r) (x_after_state_ref r)
    (x_validation_status r) res (Some (start_of_grant g)) (w_ledger w) Hgw Hp Hid Hreason Hrefs Hba)
    as (l' & Hfin & Hwf' & Hne & Hp').
  { rewrite Hstatus. destruct (_ == _); [by left|by right; left]. }
  set (w1 := {| w_leases := tick (w_leases w); w_ledger := l' |}).
  assert (Hrow1 : grant_lease_row g lane (w_leases w1)) by exact Hrow.
  pose proof (release_exact_spec clock g lane w1 (lease_wf_tick _ Hlw) Hrow1) as Hrel.
  unfold finalize. m_run. rewrite (proj2 (validate_started_ok g started) Hst).
  rewrite (proj2 (authoritative_ok clock g "STARTED" (Some (st_execution_grant_hash started)) w
    (tick_world w))) by done.
  rewrite Hr. destruct (proj2 (outcome_status_ok r) Hstatus) as [-> ->].
  rewrite on_ledger_run. cbn [w_ledger w_leases tick_world]. rewrite Hfin. cbn [fst snd].
  fold w1. cbv zeta in Hrel. destruct (_release_exact_lease clock g w1) as [rr w2].
  destruct Hrel as (Hlw2 & Hl2 & Hne2 & Hrel).
  assert (∃ b, rr = Ok b) as [b ->] by (destruct Hrel as [[-> _]|[-> _]]; eauto).
  exists (receipt_of g started r b), w2. split; [done|].
  split; [split; [done|by rewrite Hl2]|]. split; [by rewrite Hl2|].
  eexists res, _, lane, b. rewrite Hl2. split; [done|]. split; [exact Hp'|].
  split; [by unfold terminal_of|]. split; [done|]. split; [apply Hrow|]. split; [exact Hne2|].
  destruct Hrel as [[[= ->] ?]|([= ->] & ? & ?)]; [by left|by right].
Qed.

(** Everything [finalize] may refuse it refuses before it writes. *)
Lemma finalize_refuses clock g started r w e w' :
  world_wf w → finalize clock g started r w = (Raise e, w') →
  ¬ finalizable clock g started r w ∧ is_execution_error e ∧ w_ledger w' = w_ledger w ∧
  (w_leases w' = w_leases w ∨ w_leases w' = tick (w_leases w)).
Proof.
  intros Hw H.
  assert (Hnot : ¬ finalizable clock g started r w).
  { intros Hf. destruct (finalize_closes _ _ _ _ _ Hw Hf) as (rc & w2 & E & _). congruence. }
  split; [done|]. revert H. unfold finalize. m_run.
  destruct (_validate_started g started) as [[]|e1] eqn:E1.
  2: { intros [= <- <-]. split; [|by auto].
       apply (only_raises_elim is_execution_error (_validate_started g started)); [|done].
       unfold _validate_started. raises; by eexists. }
  destruct (_validate_authoritative_state _ _ _ _ w) as [[[]|e2] w1] eqn:E2.
  2: { intros [= <- <-]. split; [by eapply authoritative_raises; [apply Hw|]|].
       by eapply authoritative_keeps. }
  pose proof E2 as E2'. apply authoritative_ok in E2' as (Hck & Hlease & ->).
  assert (Hv : only_raises is_execution_error (_validate_result g r)).
  { unfold _validate_result, validate_actual_touched_resources. raises; by eexists. }
  destruct (_validate_result g r) as [[]|e3] eqn:E3; [|by intros [= <- <-]; auto].
  assert (Ho : ∀ b c, only_raises is_execution_error (raise_if b (err c)))
    by (intros; raises; by eexists).
  pose proof (outcome_status_ok r) as Hst.
  pose proof (Ho ((x_outcome r == "SUCCEEDED") && (x_validation_status r != "PASS"))
    "EXECUTION_SUCCESS_REQUIRES_VALIDATION_PASS") as H1.
  pose proof (Ho (negb (x_outcome r == "SUCCEEDED") && (x_validation_status r != "FAIL"))
    "EXECUTION_FAILURE_REQUIRES_VALIDATION_FAIL") as H2.
  destruct (raise_if (_ && (_ != "PASS")) _) as [[]|e4]; [|by intros [= <- <-]; auto].
  destruct (raise_if (_ && (_ != "FAIL")) _) as [[]|e5]; [|by intros [= <- <-]; auto].
  exfalso. apply Hnot. apply validate_started_ok in E1. apply check_started_state_ok in Hck; [|apply Hw].
  destruct Hck as (s & Hres & Hh). assert (s = start_of_grant g) as ->.
  { eapply started_evidence; [apply Hw|exact Hres|]. by rewrite Hh, E1. }
  split; try done. by apply Hst.
Qed.


Lemma finalize_ok_inv clock g started r w rc w' :
  world_wf w → finalize clock g started r w = (Ok rc, w') → finalizable clock g started r w.
Proof.
  intros Hw H. unfold finalize in H.
  apply M_bind_ok in H as ([] & s1 & H1 & H). apply lift_ok in H1 as [H1 ->].
  apply M_bind_ok in H as ([] & s2 & H2 & H). apply authoritative_ok in H2 as (Hck & Hlease & ->).
  apply M_bind_ok in H as ([] & s3 & H3 & H). apply lift_ok in H3 as [H3 ->].
  apply M_bind_ok in H as ([] & s4 & H4 & H). apply lift_ok in H4 as [H4 ->].
  apply M_bind_ok in H as ([] & s5 & H5 & _). apply lift_ok in H5 as [H5 _].
  apply validate_started_ok in H1 as ->.
  apply check_started_state_ok in Hck as (s & Hres & Hh); [|apply Hw].
  pose proof (started_evidence g s _ (wf_ledger _ Hw) Hres Hh) as ->.
  split; [reflexivity|exact Hres|exact Hlease|exact H3|]. apply outcome_status_ok. by split.
Qed.

(** ** A granted handoff is ready *)
Lemma granted_ready clock h authorization w :
  let e := ho_envelope h in
  ledger_wf (w_ledger w) →
  env_operation_id e = ho_operation_id h ∧ env_idempotency_key e = ho_idempotency_key h ∧
    env_adapter_id e = ho_adapter_id h ∧ env_fence_token e = ho_fence_token h →
  _public_ref (ho_lease_scope_key h) = true →
  reservation_live h (phase_of (ho_idempotency_key h) (w_ledger w)) →
  lease_live clock (w_leases w) (ho_lane h) (ho_lease_scope_key h) (ho_task_id h) (ho_node_id h)
    (ho_fence_token h) (env_target_state_ref e) →
  begin_ready clock (granted_of h authorization) w.
Proof.
  intros e Hwf (E1 & E2 & E3 & E4) Hscope (res & Hp & Hop & Htg & Hsc) Hlive. split.
  - unfold _validate_grant, granted_of. autorewrite with py_ok py_bool. done.
  - exists res. split; [done|]. split; [|done].
    pose proof (phase_of_facts (ho_idempotency_key h) (w_ledger w) Hwf) as Hf. rewrite Hp in Hf.
    destruct Hf as ((_ & Hk & _) & _). by apply identity_eq.
  - exists (ho_lane h). split; [apply lane_of_value_lane|done].
Qed.

Lemma handoff_ready clock nodes environment_registry adapter_planner task operation adapter_id
    lane scope target ttl now parent injected w w1 w2 h authorization :
  Routing.registry_wf nodes → world_wf w →
  prepare clock nodes environment_registry adapter_planner task operation adapter_id lane scope
    target ttl now parent injected w = (Ok h, w1) →
  _public_ref scope = true →
  world_wf w2 → w_ledger w2 = w_ledger w1 →
  held_by (prepare_request task lane scope target ttl (ho_node_id h)) (ho_fence_token h)
    (clock (clock_readings (w_leases w2))) (abs_lock (w_leases w2) (lane, scope)) →
  begin_ready clock (granted_of h authorization) w2.
Proof.
  intros Hnodes Hw Hrun Hscope [Hlw2 Hgw2] Hl2 Hheld.
  pose proof (prepare_spec clock nodes environment_registry adapter_planner task operation
    adapter_id lane scope target ttl now parent injected Hnodes w Hw) as H.
  rewrite Hrun in H. destruct H as (_ & _ & _ & route & env_plan & _ & _ & _ & _ & _ & Hplan & _ &
    _ & Hrf & Hh).
  apply plan_ok in Hplan as (m & _ & _ & _ & _ & _ & He).
  pose proof (held_lease_live clock _ _ _ target Hlw2 Hheld eq_refl) as Hlive.
  assert (Htg : env_target_state_ref (ho_envelope h) = target) by (by rewrite He).
  assert (Hkey : env_idempotency_key (ho_envelope h) = op_idempotency_key operation)
    by (by rewrite He).
  assert (Hf : env_fence_token (ho_envelope h) = ho_fence_token h) by (by rewrite He).
  pose proof (f_equal ho_lane Hh) as Elane. pose proof (f_equal ho_lease_scope_key Hh) as Escope.
  pose proof (f_equal ho_task_id Hh) as Etask. pose proof (f_equal ho_operation_id Hh) as Eop.
  pose proof (f_equal ho_idempotency_key Hh) as Ekey.
  pose proof (f_equal ho_adapter_id Hh) as Eadapter.
  cbn in Elane, Escope, Etask, Eop, Ekey, Eadapter, Hlive.
  apply granted_ready; [done|by rewrite Eop, Ekey, Eadapter, Hf|by rewrite Escope| |].
  - destruct Hrf as (res & Hp & _ & Hid & Hsc). exists res.
    rewrite Hl2, Ekey, Hkey, <-Hf, Eop, Hid. done.
  - by rewrite Elane, Escope, Etask, Htg.
Qed.

(** A ready grant with a bound result runs to its receipt. *)
Lemma ready_run clock g r execute w :
  (∀ w', execute g w' = (Ok r, w')) → world_wf w → begin_ready clock g w → grant_lease_live clock g (tick (w_leases w)) →
  _validate_result g r = Ok tt →
  x_validation_status r = (if x_outcome r == "SUCCEEDED" then "PASS" else "FAIL") →
  ∃ w1 rc w2, begin clock g w = (Ok (started_of g), w1) ∧
    finalize clock g (started_of g) r w1 = (Ok rc, w2) ∧
    run clock g execute w = (Ok rc, w2) ∧ world_wf w2 ∧
    w_leases w1 = tick (w_leases w) ∧ finalized clock g (started_of g) r w1 rc w2.
Proof.
  intros Hex Hw Hready Hlive Hr Hst.
  destruct (begin clock g w) as [[s|e] w1] eqn:Eb; pose proof Eb as Hb;
    apply begin_spec in Hb as (Hw1 & _ & Hb); try done; [|by destruct Hb].
  destruct Hb as (_ & -> & Hls & Hres).
  assert (Hf : finalizable clock g (started_of g) r w1) by (split; try done; by rewrite Hls).
  destruct (finalize_closes _ _ _ _ _ Hw1 Hf) as (rc & w2 & Efin & Hw2 & _ & Hfin).
  exists w1, rc, w2. split; [done|]. split; [done|].
  split; [unfold run; m_run; by rewrite Eb, Hex, Efin|]. done.
Qed.

(** ** What the hashes of a grant bind *)
Lemma grant_hash_binding g1 g2 :
  execution_grant_hash g1 = execution_grant_hash g2 →
  grant_payload g1 = grant_payload g2 ∨
  sha256_collision (dumps_canonical (grant_payload g1)) (dumps_canonical (grant_payload g2)).
Proof.
  unfold execution_grant_hash. intros H.
  apply json_hash_binding in H as [H|H];
    [left|by right|unfold grant_payload; apply json_wf_obj; by repeat constructor..].
  unfold grant_payload in H. payload_inj H. unfold grant_payload. congruence.
Qed.

Lemma envelope_hash_binding e1 e2 :
  planner_envelope_hash e1 = planner_envelope_hash e2 →
  envelope_payload e1 = envelope_payload e2 ∨
  sha256_collision (dumps_canonical (envelope_payload e1)) (dumps_canonical (envelope_payload e2)).
Proof.
  unfold planner_envelope_hash. intros H.
  apply json_hash_binding in H as [H|H];
    [left|by right|unfold envelope_payload; apply json_wf_obj;
                   repeat constructor; apply json_wf_jstrs..].
  unfold envelope_payload in H. payload_inj H. unfold envelope_payload. congruence.
Qed.

Lemma validate_grant_hash g :
  _validate_grant g = Ok tt → g_planner_envelope_hash g = planner_envelope_hash (g_planner_envelope g).
Proof. unfold _validate_grant. autorewrite with py_ok py_bool. tauto. Qed.

Lemma payload_envelope_hash g g' :
  grant_payload g = grant_payload g' → g_planner_envelope_hash g = g_planner_envelope_hash g'.
Proof. unfold grant_payload. intros [=]. done. Qed.

Lemma payload_started g g' :
  grant_payload g = grant_payload g' → started_of g = started_of g'.
Proof.
  intros E. assert (execution_grant_hash g = execution_grant_hash g') as Hh
    by (unfold execution_grant_hash; by rewrite E).
  unfold started_of. rewrite Hh. unfold grant_payload in E. injection E as ?. congruence.
Qed.

(** Injected code reaches the stores only through their operations. *)
Definition uses_stores {A} (m : M World A) : Prop :=
  ∀ w, world_wf w → world_wf (m w).2 ∧ ∃ ops, w_ledger (m w).2 = ledger_run ops (w_ledger w).

Lemma uses_stores_le {A} (m : M World A) w r w' k :
  uses_stores m → world_wf w → m w = (r, w') →
  world_wf w' ∧ phase_le (phase_of k (w_ledger w)) (phase_of k (w_ledger w')).
Proof.
  intros Hm Hw E. destruct (Hm w Hw) as (Hw' & ops & Hl). rewrite E in Hw', Hl.
  split; [done|]. cbn [snd] in Hl. rewrite Hl. apply run_le, Hw.
Qed.

Lemma uses_lift {A} (r : result A) : uses_stores (lift r).
Proof. intros w Hw. split; [done|by exists []]. Qed.

Lemma uses_query {A} (f : World → result A) : uses_stores (query f).
Proof. intros w Hw. split; [done|by exists []]. Qed.

Lemma uses_bind {A B} (m : M World A) (f : A → M World B) :
  uses_stores m → (∀ a, uses_stores (f a)) → uses_stores (m ≫= f).
Proof.
  intros Hm Hf w Hw. destruct (Hm w Hw) as [Hw1 [ops Hl]]. m_run.
  destruct (m w) as [[a|e] w1]; cbn [snd] in *; [|by split; [|exists ops]].
  destruct (Hf a w1 Hw1) as [Hw2 [ops' Hl']]. split; [done|]. exists (ops ++ ops').
  rewrite Hl', Hl. unfold ledger_run. by rewrite foldl_app.
Qed.

Lemma uses_ledger {A} (m : M OperationLedger A) op :
  (∀ l, (m l).2 = (ledger_step op l).2) → uses_stores (on_ledger m).
Proof.
  intros Hm w [Hl Hg]. rewrite on_ledger_run. cbn [snd w_ledger]. rewrite Hm.
  split; [split; [done|by apply step_spec]|by exists [op]].
Qed.

Lemma uses_leases {A} (m : M LaneLeaseStore A) :
  (∀ s, lease_wf s → lease_wf (m s).2) → uses_stores (on_leases m).
Proof.
  intros Hm w [Hl Hg]. rewrite on_leases_run. cbn [snd w_ledger w_leases].
  split; [split; [by apply Hm|done]|by exists []].
Qed.

(** [run] by cases: it refused at the start, whatever the executor, or the start
    is in the ledger, or the operation is closed with the executor's result. *)
Lemma run_spec clock g execute w r w' :
  let key := g_idempotency_key g in
  world_wf w →
  (∀ w1, world_wf w1 → world_wf (execute g w1).2 ∧
    ∃ ops, w_ledger (execute g w1).2 = ledger_run ops (w_ledger w1)) →
  run clock g execute w = (r, w') →
  world_wf w' ∧
  match r with
  | Raise e => is_execution_error e ∧
      (¬ begin_ready clock g w ∧ w_ledger w' = w_ledger w ∧
         (∀ execute', run clock g execute' w = (Raise e, w')) ∨
       ∃ res, phase_le (Live res (g_fence_token g) (Some (start_of_grant g)))
         (phase_of key (w_ledger w')))
  | Ok rc => ∃ w1 x w2 res t released, begin clock g w = (Ok (started_of g), w1) ∧
      execute g w1 = (Ok x, w2) ∧ _validate_result g x = Ok tt ∧
      rc = receipt_of g (started_of g) x released ∧
      phase_of key (w_ledger w') = Done res t (Some (start_of_grant g)) ∧ terminal_of g x t
  end.
Proof.
  intros key Hw Hex. destruct (begin clock g w) as [[s|e] w1] eqn:Eb; pose proof Eb as Hb;
    apply begin_spec in Hb as (Hw1 & _ & Hb); try done.
  2: { assert (Hrun : ∀ execute', run clock g execute' w = (Raise e, w1))
         by (intros execute'; unfold run; m_run; by rewrite Eb).
       rewrite Hrun. intros [= <- <-]. destruct Hb as (Hn & He & Hl & _).
       split; [done|]. split; [done|]. by left. }
  unfold run. m_run. rewrite Eb.
  destruct Hb as (_ & -> & _ & Hres). destruct Hres as (res & Hp & _).
  destruct (Hex w1 Hw1) as (Hw2 & ops & Hl2).
  pose proof (run_le ops (w_ledger w1) key (wf_ledger _ Hw1)) as Hle.
  rewrite <-Hl2 in Hle. unfold key in *. rewrite Hp in Hle.
  destruct (execute g w1) as [[x|e] w2] eqn:Ex; cbn [snd] in *.
  2: { intros [= <- <-]. split; [done|]. split; [by eexists|]. right. by exists res. }
  intros H. destruct r as [rc|e].
  - pose proof (finalize_ok_inv _ _ _ _ _ _ _ Hw2 H) as Hf.
    destruct (finalize_closes _ _ _ _ _ Hw2 Hf) as (rc' & w3 & E & Hw3 & _ & Hfin).
    rewrite H in E. injection E as <- <-. split; [done|].
    destruct Hfin as (res' & t & lane & released & _ & Hp' & Ht & -> & _).
    exists w1, x, w2, res', t, released. split; [done|]. split; [done|].
    split; [by apply (fz_result _ _ _ _ _ Hf)|]. done.
  - apply finalize_refuses in H as (_ & He & Hl & Hls); [|done].
    split; [split; [|by rewrite Hl; apply Hw2]|].
    { destruct Hls as [-> | ->]; [apply Hw2|apply lease_wf_tick, Hw2]. }
    split; [done|]. rewrite Hl. right. by exists res.
Qed.

(** ** Properties *)

(** C6. [begin] starts exactly what is ready, once: on a well-formed world it
    succeeds exactly when the grant is fresh and bound to its planned envelope,
    the ledger holds the unstarted reservation of that envelope at the grant's
    fence, and the node's lease is live; it then records the start evidence of
    the grant and touches no other operation.  When it refuses, the ledger is
    unchanged.  After a success, and any later run of ledger operations, no
    [begin] on the same idempotency key succeeds again. *)
Theorem begin_once clock g w r w1 :
  world_wf w → begin clock g w = (r, w1) →
  world_wf w1 ∧
  (∀ k, k ≠ g_idempotency_key g → phase_of k (w_ledger w1) = phase_of k (w_ledger w)) ∧
  match r with
  | Raise e => ¬ begin_ready clock g w ∧ is_execution_error e ∧ w_ledger w1 = w_ledger w
  | Ok started => begin_ready clock g w ∧ started = started_of g ∧
      grant_reserved g (Some (start_of_grant g)) (phase_of (g_idempotency_key g) (w_ledger w1)) ∧
      ∀ clock' g' w2 ops, world_wf w2 → w_ledger w2 = ledger_run ops (w_ledger w1) →
        g_idempotency_key g' = g_idempotency_key g →
        ∃ e w3, begin clock' g' w2 = (Raise e, w3) ∧ w_ledger w3 = w_ledger w2
  end.
Proof.
  intros Hw H. apply begin_spec in H as (Hw1 & Hne & H); [|done].
  split; [done|]. split; [done|]. destruct r as [started|e]; [|by destruct H as (? & ? & ? & _)].
  destruct H as (Hr & -> & _ & Hres). do 3 (split; [done|]).
  intros clock' g' w2 ops Hw2 Hl Hk. destruct (begin clock' g' w2) as [[s|e] w3] eqn:E;
    apply begin_spec in E as (_ & _ & E); [|done| |done].
  - exfalso. destruct E as ([_ Hr2 _] & _). rewrite Hl, Hk in Hr2.
    eapply started_stays; [exact Hres| |exact Hr2]. apply run_le, Hw1.
  - exists e, w3. by destruct E as (_ & _ & ? & _).
Qed.

(** [finalize] closes exactly what may be closed: it succeeds exactly when
    the marker is the one of the grant, the ledger holds the grant's own start,
    the lease is live and the result is bound to the grant with a validation
    status that fits its outcome.  It then writes the terminal event with the
    evidence of the result, frees the lease (or reports that it had expired),
    and changes no other operation or lane.  Otherwise it raises and leaves the
    ledger, hence the start evidence, in place. *)
Theorem finalize_exact clock g started r w rr w' :
  world_wf w → finalize clock g started r w = (rr, w') →
  match rr with
  | Ok rc => finalizable clock g started r w ∧ result_bound g r ∧ world_wf w' ∧
      (∀ k, k ≠ g_idempotency_key g → phase_of k (w_ledger w') = phase_of k (w_ledger w)) ∧
      finalized clock g started r w rc w'
  | Raise e => ¬ finalizable clock g started r w ∧ is_execution_error e ∧
      w_ledger w' = w_ledger w
  end.
Proof.
  intros Hw H. destruct rr as [rc|e]; [|by apply finalize_refuses in H as (? & ? & ? & _)].
  pose proof (finalize_ok_inv _ _ _ _ _ _ _ Hw H) as Hf.
  destruct (finalize_closes _ _ _ _ _ Hw Hf) as (rc' & w2 & E & ? & ? & ?).
  rewrite H in E. injection E as <- <-. split_and!; try done.
  apply validate_result_ok, (fz_result _ _ _ _ _ Hf).
Qed.

(** An execution belongs to one grant: when [begin] succeeds for a grant and
    a later [finalize], after any ledger operations, succeeds for a grant on
    the same idempotency key, then (unless SHA-256 collides on the two payloads)
    the two grants agree on every hashed field, the marker is the one [begin]
    returned, and the two planned envelopes agree as well. *)
Theorem one_grant_executes clock clock' g g' w s w1 w2 ops started r rc w3 :
  world_wf w → begin clock g w = (Ok s, w1) →
  world_wf w2 → w_ledger w2 = ledger_run ops (w_ledger w1) →
  g_idempotency_key g' = g_idempotency_key g → _validate_grant g' = Ok tt →
  finalize clock' g' started r w2 = (Ok rc, w3) →
  let e := g_planner_envelope g in let e' := g_planner_envelope g' in
  grant_payload g = grant_payload g' ∧ started = s ∧
    (envelope_payload e = envelope_payload e' ∨
     sha256_collision (dumps_canonical (envelope_payload e))
       (dumps_canonical (envelope_payload e'))) ∨
  sha256_collision (dumps_canonical (grant_payload g)) (dumps_canonical (grant_payload g')).
Proof.
  intros Hw Hb Hw2 Hl Hk Hv' Hf.
  apply begin_spec in Hb as (Hw1 & _ & [Hv _ _] & -> & _ & Hres); [|done].
  apply finalize_ok_inv in Hf as [-> Hres' _ _ _]; [|done].
  destruct Hres as (res & Hp & _). destruct Hres' as (res' & Hp' & _).
  pose proof (run_le ops (w_ledger w1) (g_idempotency_key g) (wf_ledger _ Hw1)) as Hle.
  rewrite <-Hl, <-Hk, Hp', Hk, Hp in Hle. cbn [phase_le] in Hle.
  destruct Hle as (_ & Hfence & Hs). apply (inj Some) in Hs.
  cbv zeta. destruct (grant_hash_binding g g' (eq_sym (f_equal start_execution_grant_hash Hs))) as [E|E]; [left|by right].
  split; [done|].
  assert (Hph : planner_envelope_hash (g_planner_envelope g)
    = planner_envelope_hash (g_planner_envelope g')).
  { apply validate_grant_hash in Hv, Hv'. rewrite <-Hv, <-Hv'. by apply payload_envelope_hash. }
  split; [by symmetry; apply payload_started|by apply envelope_hash_binding].
Qed.

(** C35. The check and the mark of [begin] are separate steps: when two runners
    hold the same ready grant and both pass the check before either marks, both
    marks succeed, since marking the same start again is idempotent, and both
    [begin] calls return the marker (so both go on to execute the effect). *)
Theorem begin_check_mark_race clock g w :
  world_wf w → begin_ready clock g w → grant_lease_live clock g (tick (w_leases w)) →
  let check := (lift (_validate_grant g);;
    _validate_authoritative_state clock g "RESERVED" None) : M World unit in
  (∀ w, begin clock g w = (check;; mark g;; mret (started_of g)) w) ∧
  ∃ w1 w2 w3, check w = (Ok tt, w1) ∧ check w1 = (Ok tt, w2) ∧
    mark g w2 = (Ok tt, w3) ∧ mark g w3 = (Ok tt, w3) ∧
    grant_reserved g (Some (start_of_grant g)) (phase_of (g_idempotency_key g) (w_ledger w3)).
Proof.
  intros Hw [Hg Hres Hlease] Hlease2. cbv zeta.
  set (check := (lift (_validate_grant g);;
    _validate_authoritative_state clock g "RESERVED" None) : M World unit).
  assert (Hc : ∀ w', world_wf w' → w_ledger w' = w_ledger w →
      grant_lease_live clock g (w_leases w') → check w' = (Ok tt, tick_world w')).
  { intros w' Hw' Hl Hlive. unfold check. m_run. rewrite Hg.
    apply authoritative_ok. split; [|done]. rewrite Hl. apply check_reserved_ok; [apply Hw|done]. }
  split.
  { intros w0. unfold check, begin. by rewrite assoc_bind. }
  destruct (mark_run g None (tick_world (tick_world w))) as (w3 & Hm & Hw3 & _ & Hres3 & _);
    [by do 2 apply tick_world_wf|done|by left|].
  destruct (mark_run g _ w3 Hw3 Hres3) as (w4 & Hm' & _ & _ & _ & _ & Hsame); [by right|].
  rewrite (Hsame eq_refl) in Hm'.
  exists (tick_world w), (tick_world (tick_world w)), w3.
  split; [by apply Hc|]. split; [by apply Hc; [apply tick_world_wf| |]|]. done.
Qed.

(** C7. [run] never loses an effect: whatever the executor does with the stores
    through their operations, [run] either refuses before the start, the ledger
    unchanged, or from the moment the start is recorded the ledger keeps the
    start evidence of the grant for ever.  A receipt is returned only once the
    operation is closed with the executor's own result, which touched nothing
    outside the planned resources; an exception of the executor surfaces as
    [EXECUTION_ADAPTER_EXCEPTION_NEEDS_RECOVERY]. *)
Theorem run_keeps_evidence clock g execute w r w' :
  let key := g_idempotency_key g in
  world_wf w →
  (∀ w1, world_wf w1 → world_wf (execute g w1).2 ∧
    ∃ ops, w_ledger (execute g w1).2 = ledger_run ops (w_ledger w1)) →
  run clock g execute w = (r, w') →
  match r with
  | Raise e => is_execution_error e ∧
      (¬ begin_ready clock g w ∧ w_ledger w' = w_ledger w ∨
       ∃ res, phase_le (Live res (g_fence_token g) (Some (start_of_grant g)))
         (phase_of key (w_ledger w')))
  | Ok rc => ∃ w1 x w2 res t released, begin clock g w = (Ok (started_of g), w1) ∧
      execute g w1 = (Ok x, w2) ∧ result_bound g x ∧ rc = receipt_of g (started_of g) x released ∧
      phase_of key (w_ledger w') = Done res t (Some (start_of_grant g)) ∧ terminal_of g x t
  end.
Proof.
  intros key Hw Hex H. apply run_spec in H as [_ H]; [|done..].
  destruct r as [rc|e].
  - destruct H as (w1 & x & w2 & res & t & released & ? & ? & Hx & ?).
    exists w1, x, w2, res, t, released. split; [done|]. split; [done|].
    split; [by apply validate_result_ok|]. done.
  - destruct H as [He [(? & ? & _)|?]]; (split; [done|]); [by left|by right].
Qed.

(** ** Witnesses *)
Definition demo_result (g : GreenExecutionGrant) : GreenExecutionResult :=
  {| x_operation_id := g_operation_id g; x_idempotency_key := g_idempotency_key g;
     x_adapter_id := g_adapter_id g; x_target_state_ref := g_target_state_ref g;
     x_fence_token := g_fence_token g; x_resources := ["repo:alpha"];
     x_effects := env_effects (g_planner_envelope g); x_outcome := "SUCCEEDED";
     x_reason_code := "DONE"; x_before_state_ref := "git:abc"; x_after_state_ref := "git:def";
     x_validation_status := "PASS"; x_rollback_requested := false |}.

Lemma demo_plan h w :
  demo_prepare demo_planner demo_world = (Ok h, w) →
  Adapters.plan "adapter:codegen" cp_task cp_operation
    (prepare_policy_input cp_task cp_operation "git:abc")
    (classify_policy (prepare_policy_input cp_task cp_operation "git:abc")) "git:abc"
    (ho_fence_token h) demo_planner = Ok (ho_envelope h).
Proof.
  intros E.
  pose proof (prepare_spec demo_clock demo_nodes demo_registry demo_planner cp_task cp_operation
    "adapter:codegen" CODEGEN "repo:alpha" "git:abc" 30000000 1000 demo_parent demo_injected
    (register_all_wf _ _ (map_Forall_empty _)) demo_world demo_world_wf) as H.
  fold (demo_prepare demo_planner) in H. rewrite E in H.
  by destruct H as (_ & _ & _ & route & env_plan & _ & _ & _ & _ & _ & Hplan & _).
Qed.

Lemma demo_resources h w :
  demo_prepare demo_planner demo_world = (Ok h, w) → env_resources (ho_envelope h) = ["repo:alpha"].
Proof. intros E. apply demo_plan, plan_ok in E as (m & _ & _ & _ & _ & _ & ->). reflexivity. Qed.

Lemma demo_result_ok h w a :
  demo_prepare demo_planner demo_world = (Ok h, w) →
  _validate_result (granted_of h a) (demo_result (granted_of h a)) = Ok tt.
Proof.
  intros E. apply demo_plan, plan_ok in E as (m & _ & _ & _ & _ & _ & He).
  unfold _validate_result, granted_of, demo_result. cbn [g_planner_envelope x_outcome
    x_validation_status x_reason_code x_operation_id x_idempotency_key x_adapter_id
    x_target_state_ref x_fence_token x_effects g_operation_id g_idempotency_key g_adapter_id
    g_target_state_ref g_fence_token x_before_state_ref x_after_state_ref].
  rewrite !seq_ok. split; [reflexivity|]. split; [reflexivity|]. split; [reflexivity|].
  split; [by rewrite bool_decide_eq_true_2|]. rewrite He. split; reflexivity.
Qed.

(** The facts the witnesses share, by the lemmas above. *)
Lemma demo_facts :
  ∃ g w s w1 rc w2 rc' w3, world_wf w ∧
    begin demo_clock g w = (Ok s, w1) ∧
    finalize demo_clock g s (demo_result g) w1 = (Ok rc, w2) ∧
    run demo_clock g (λ g, mret (demo_result g)) w = (Ok rc', w3) ∧
    begin_ready demo_clock g w ∧ grant_lease_live demo_clock g (tick (w_leases w)) ∧
    env_resources (g_planner_envelope g) = ["repo:alpha"].
Proof.
  destruct demo_handoff as (h & w & E & Hw & Hheld).
  set (g := granted_of h (demo_authorization h)).
  assert (Hr : ∀ w', world_wf w' → w_ledger w' = w_ledger w →
    lane_leases (w_leases w') = lane_leases (w_leases w) →
    lane_fences (w_leases w') = lane_fences (w_leases w) →
    (clock_readings (w_leases w') ≤ clock_readings (w_leases w) + 3)%nat →
    begin_ready demo_clock g w').
  { intros w' Hw' Hl Hls Hfs Hn.
    apply (handoff_ready demo_clock demo_nodes demo_registry demo_planner cp_task cp_operation
      "adapter:codegen" CODEGEN "repo:alpha" "git:abc" 30000000 1000 demo_parent demo_injected
      demo_world w w').
    - apply register_all_wf, map_Forall_empty.
    - apply demo_world_wf.
    - exact E.
    - reflexivity.
    - exact Hw'.
    - exact Hl.
    - specialize (Hheld _ Hn). unfold abs_lock in *. by rewrite Hls, Hfs. }
  assert (Hr0 : begin_ready demo_clock g w) by (apply Hr; [done..|lia]).
  assert (Hr1 : begin_ready demo_clock g (tick_world w))
    by (apply Hr; [by apply tick_world_wf|done..|cbn; lia]).
  destruct (ready_run demo_clock g (demo_result g) (λ g, mret (demo_result g) : M World _) w (λ _, eq_refl) Hw Hr0 (br_lease _ _ _ Hr1)
    (demo_result_ok h w _ E) eq_refl) as (w1 & rc & w2 & Eb & Ef & Er & _).
  exists g, w, (started_of g), w1, rc, w2, rc, w2.
  split; [exact Hw|]. split; [exact Eb|]. split; [exact Ef|]. split; [exact Er|].
  split; [exact Hr0|]. split; [apply Hr1|exact (demo_resources h w E)].
Qed.

Lemma begin_once_witness :
  ∃ g w s w1, begin demo_clock g w = (Ok s, w1) ∧
    ∃ e w2, begin demo_clock g w1 = (Raise e, w2) ∧ w_ledger w2 = w_ledger w1.
Proof.
  destruct demo_facts as (g & w & s & w1 & _ & _ & _ & _ & Hw & H & _).
  exists g, w, s, w1. split; [exact H|].
  pose proof (begin_once demo_clock g w (Ok s) w1 Hw H) as (Hw1 & _ & _ & _ & _ & Honce).
  apply (Honce demo_clock g w1 [] Hw1); reflexivity.
Defined.

Lemma finalize_exact_witness :
  ∃ g w s w1 rc w2, finalize demo_clock g s (demo_result g) w1 = (Ok rc, w2) ∧
    finalized demo_clock g s (demo_result g) w1 rc w2 ∧ begin demo_clock g w = (Ok s, w1).
Proof.
  destruct demo_facts as (g & w & s & w1 & rc & w2 & _ & _ & Hw & H & Hf & _).
  exists g, w, s, w1, rc, w2. split; [exact Hf|]. split; [|exact H].
  pose proof (begin_spec _ _ _ _ _ Hw H) as [Hw1 _].
  apply (finalize_exact demo_clock g s (demo_result g) w1 (Ok rc) w2 Hw1 Hf).
Defined.

Lemma one_grant_executes_witness :
  ∃ g, grant_payload g = grant_payload g ∨
    sha256_collision (dumps_canonical (grant_payload g)) (dumps_canonical (grant_payload g)).
Proof.
  destruct demo_facts as (g & w & s & w1 & rc & w2 & _ & _ & Hw & H & Hf & _).
  pose proof (begin_spec _ _ _ _ _ Hw H) as (Hw1 & _ & [Hg _ _] & _).
  exists g. destruct (one_grant_executes demo_clock demo_clock g g w s w1 w1 [] s (demo_result g)
    rc w2 Hw H Hw1 eq_refl eq_refl Hg Hf) as [[E _]|E]; [left; exact E|right; exact E].
Defined.

Lemma begin_check_mark_race_witness :
  ∃ g w w1 w2, begin_ready demo_clock g w ∧
    mark g w1 = (Ok tt, w2) ∧ mark g w2 = (Ok tt, w2).
Proof.
  destruct demo_facts as (g & w & _ & _ & _ & _ & _ & _ & Hw & _ & _ & _ & Hr & Hl & _).
  pose proof (begin_check_mark_race demo_clock g w Hw Hr Hl)
    as (_ & u1 & u2 & u3 & _ & _ & Hm & Hm' & _).
  exists g, w, u2, u3. split; [exact Hr|]. split; [exact Hm|exact Hm'].
Defined.

Lemma run_keeps_evidence_witness :
  ∃ g w rc w', run demo_clock g (λ g, mret (demo_result g)) w = (Ok rc, w') ∧
    ∃ res t, phase_of (g_idempotency_key g) (w_ledger w')
      = Done res t (Some (start_of_grant g)) ∧ terminal_of g (demo_result g) t.
Proof.
  destruct demo_facts as (g & w & _ & _ & _ & _ & rc & w' & Hw & _ & _ & H & _).
  exists g, w, rc, w'. split; [exact H|].
  assert (Hex : ∀ w1, world_wf w1 →
    world_wf ((mret (demo_result g) : M World _) w1).2 ∧
    ∃ ops, w_ledger ((mret (demo_result g) : M World _) w1).2 = ledger_run ops (w_ledger w1)).
  { intros w1 Hw1. split; [exact Hw1|]. exists []. reflexivity. }
  pose proof (run_keeps_evidence demo_clock g (λ g, mret (demo_result g)) w (Ok rc) w' Hw Hex H)
    as (w1 & x & w2 & res & t & b & _ & Hx & _ & _ & Hp & Ht).
  injection Hx as <- _. exists res, t. split; [exact Hp|exact Ht].
Defined.
