(* ===== verification/Authority.v ===== *)
(** * Authoritative routes

    [src/core/runner_vnext_authority.py]: the closed table of authoritative
    routes, the binding of a runner task or of an operator's request to a typed
    operation of its route, and the GREEN and privileged stages of the control
    plane run with the default adapters and lane environments.  The resolution of
    SQLite paths and the opening of the stores are not modelled: the stores are a
    [World]. *)

From S2P Require Import Prelude.
From S2P Require Import PyStr.
From S2P Require Import Json.
From S2P Require Import Sha256.
From S2P Require Import RunnerTask.
From S2P Require Import Contracts.
From S2P Require Import Leases.
From S2P Require Import Ledger.
From S2P Require Import Adapters.
From S2P Require Import Environment.
From S2P Require Import Routing.
From S2P Require Import Pep.
From S2P Require Import ControlPlane.
From S2P Require Import ExecutionGate.

Definition AUTHORITATIVE_MODE : string := "authoritative".
Definition ORDINARY_REPOSITORY_PRIVACY : string := "PUBLIC_SAFE_REPOSITORY_ONLY".
Definition ROUTE_CODE_GENERATION : string := "code_generation".
Definition ROUTE_VALIDATION : string := "validation".
Definition ROUTE_PUBLISH_ONLY : string := "publish_only".
Definition ROUTE_RUNTIME_ONLY : string := "runtime_only".
Definition ROUTE_RECOVERY : string := "recovery".
Definition ROUTE_MERGE : string := "merge".
Definition ROUTE_DIAGNOSTIC : string := "diagnostic".

Definition aerr (code : string) : exn := RunnerVNextAuthorityError code.

(** ** Data *)
Record RouteAuthorityBinding := {
  rb_route : string;
  rb_operation : string;
  rb_lane : Lane;
  rb_adapter_id : string;
  rb_operation_kind : string;
  rb_effects : list string;
  rb_reversibility : Reversibility;
  rb_requires_runner_task : bool;
  rb_requires_operator : bool;
  rb_requires_fresh_operator_evidence : bool
}.

Record SourceAuthorityIdentity := {
  sa_runner_task_hash : string;
  sa_source_task_ref : string;
  sa_adapter_id : string;
  sa_binding_hash : string;
  sa_task_id : string;
  sa_operation_id : string;
  sa_idempotency_key : string
}.

Record BoundRunnerOperation := {
  bo_route : string;
  bo_operation : string;
  bo_binding : RouteAuthorityBinding;
  bo_runner_task : option RunnerTask;
  bo_source_task_ref : string;
  bo_runner_task_hash : option string;
  bo_source_binding_hash : string;
  bo_universal_task : UniversalTask;
  bo_operation_ir : OperationIR;
  bo_policy_input : PolicyInput;
  bo_policy_decision : PolicyDecision;
  bo_target_state_ref : string;
  bo_lease_scope_key : string
}.

Record PrivilegedAuthorityInput := {
  pa_source_task_ref : string;
  pa_target_state_ref : string;
  pa_resources : list string;
  pa_required_capabilities : list string;
  pa_privacy : PrivacyClass;
  pa_operator_boundary_evidence : list string;
  pa_idempotency_seed : string
}.

Record RunnerVNextAuthorityReceipt := {
  ar_mode : string;
  ar_status : string;
  ar_reason_code : string;
  ar_route : string;
  ar_operation : string;
  ar_lane : option string;
  ar_adapter_id : option string;
  ar_effect_class : option string;
  ar_target_state_ref_hash : option string;
  ar_idempotency_key_hash : option string;
  ar_source_binding_hash : option string;
  ar_execution_authorized : bool;
  ar_privileged_broker_request : bool;
  ar_allow_legacy_mechanical_shell : bool;
  ar_side_effects_executed : bool
}.

Definition authority_public_mapping (r : RunnerVNextAuthorityReceipt) : json :=
  JObj [("schema", JStr "skeleton.runner_vnext_authority_receipt.v1");
        ("mode", JStr (ar_mode r)); ("status", JStr (ar_status r));
        ("reason_code", JStr (ar_reason_code r)); ("route", JStr (ar_route r));
        ("operation", JStr (ar_operation r)); ("lane", jopt (ar_lane r));
        ("adapter_id", jopt (ar_adapter_id r)); ("effect_class", jopt (ar_effect_class r));
        ("target_state_ref_hash", jopt (ar_target_state_ref_hash r));
        ("idempotency_key_hash", jopt (ar_idempotency_key_hash r));
        ("source_binding_hash", jopt (ar_source_binding_hash r));
        ("execution_authorized", JBool (ar_execution_authorized r));
        ("privileged_broker_request", JBool (ar_privileged_broker_request r));
        ("allow_legacy_mechanical_shell", JBool (ar_allow_legacy_mechanical_shell r));
        ("side_effects_executed", JBool (ar_side_effects_executed r))].

(** ** The table of routes *)
Definition _ROUTE_BINDINGS : list ((string * string) * RouteAuthorityBinding) := [
  ((ROUTE_CODE_GENERATION, "codegen"),
   {| rb_route := ROUTE_CODE_GENERATION; rb_operation := "codegen"; rb_lane := CODEGEN;
      rb_adapter_id := "adapter:repo-codegen"; rb_operation_kind := "workspace_write";
      rb_effects := ["workspace_write"]; rb_reversibility := REVERSIBLE;
      rb_requires_runner_task := true; rb_requires_operator := false;
      rb_requires_fresh_operator_evidence := false |});
  ((ROUTE_VALIDATION, "validation"),
   {| rb_route := ROUTE_VALIDATION; rb_operation := "validation"; rb_lane := VALIDATE;
      rb_adapter_id := "adapter:repo-validation"; rb_operation_kind := "validate";
      rb_effects := ["validate"; "test"]; rb_reversibility := REVERSIBLE;
      rb_requires_runner_task := true; rb_requires_operator := false;
      rb_requires_fresh_operator_evidence := false |});
  ((ROUTE_PUBLISH_ONLY, "publication"),
   {| rb_route := ROUTE_PUBLISH_ONLY; rb_operation := "publication"; rb_lane := PUBLISH;
      rb_adapter_id := "adapter:draft-publication"; rb_operation_kind := "draft_pr_open";
      rb_effects := ["draft_pr_open"]; rb_reversibility := BOUNDED_REVERSIBLE;
      rb_requires_runner_task := true; rb_requires_operator := false;
      rb_requires_fresh_operator_evidence := false |});
  ((ROUTE_DIAGNOSTIC, "diagnostic"),
   {| rb_route := ROUTE_DIAGNOSTIC; rb_operation := "diagnostic"; rb_lane := VALIDATE;
      rb_adapter_id := "adapter:harmless-diagnostic"; rb_operation_kind := "read";
      rb_effects := ["read"]; rb_reversibility := REVERSIBLE;
      rb_requires_runner_task := true; rb_requires_operator := false;
      rb_requires_fresh_operator_evidence := false |});
  ((ROUTE_RUNTIME_ONLY, "control"),
   {| rb_route := ROUTE_RUNTIME_ONLY; rb_operation := "control"; rb_lane := CONTROL;
      rb_adapter_id := "adapter:runtime-control"; rb_operation_kind := "bounded_service_restart";
      rb_effects := ["bounded_service_restart"]; rb_reversibility := BOUNDED_REVERSIBLE;
      rb_requires_runner_task := false; rb_requires_operator := true;
      rb_requires_fresh_operator_evidence := false |});
  ((ROUTE_RECOVERY, "recovery"),
   {| rb_route := ROUTE_RECOVERY; rb_operation := "recovery"; rb_lane := CONTROL;
      rb_adapter_id := "adapter:operation-recovery"; rb_operation_kind := "bounded_service_restart";
      rb_effects := ["bounded_service_restart"]; rb_reversibility := BOUNDED_REVERSIBLE;
      rb_requires_runner_task := false; rb_requires_operator := true;
      rb_requires_fresh_operator_evidence := false |});
  ((ROUTE_MERGE, "merge"),
   {| rb_route := ROUTE_MERGE; rb_operation := "merge"; rb_lane := MERGE;
      rb_adapter_id := "adapter:exact-operator-merge"; rb_operation_kind := "workspace_bind";
      rb_effects := ["protected_merge"]; rb_reversibility := IRREVERSIBLE;
      rb_requires_runner_task := false; rb_requires_operator := true;
      rb_requires_fresh_operator_evidence := true |})].

(** The order of Python's tuples of two texts. *)
Definition pair_leb (a b : string * string) : bool :=
  if a.1 == b.1 then str_leb a.2 b.2 else str_leb a.1 b.1.

Definition authoritative_route_inventory : list RouteAuthorityBinding :=
  (sort_by (λ a b, pair_leb a.1 b.1) _ROUTE_BINDINGS).*2.

Definition authoritative_route_inventory_proof : json :=
  let routes := authoritative_route_inventory in
  JObj [("schema", JStr "skeleton.runner_vnext_route_inventory.v1");
        ("authoritative_mode", JStr AUTHORITATIVE_MODE);
        ("legacy_decision_fallback", JBool false);
        ("route_count", JInt (Z.of_nat (length routes)));
        ("routes", JArr (map (λ binding, JObj [
           ("route", JStr (rb_route binding));
           ("operation", JStr (rb_operation binding));
           ("lane", JStr (lane_value (rb_lane binding)));
           ("adapter_id", JStr (rb_adapter_id binding));
           ("requires_operator", JBool (rb_requires_operator binding));
           ("requires_fresh_operator_evidence",
            JBool (rb_requires_fresh_operator_evidence binding))]) routes))].

Definition route_binding (route operation : string) : result RouteAuthorityBinding :=
  some_or (snd <$> List.find (λ e : (string * string) * RouteAuthorityBinding,
             e.1 == (route, operation)) _ROUTE_BINDINGS)
    (aerr "VNEXT_AUTHORITY_ROUTE_UNMAPPED_FAIL_CLOSED").

(** ** Checks *)
Definition _require_public_ref (value reason_code : string) : result unit :=
  raise_if (falsy value || startswith_any ["/"; "~"] value || contains "\" value
            || contains ".." value || negb (contains ":" value) || any_char isspace value)
    (aerr reason_code).

Definition _source_ref (source_task_ref : option string) (issue_number : option Z)
    : result string :=
  match source_task_ref, issue_number with
  | Some _, Some _ => Raise (aerr "VNEXT_AUTHORITY_SOURCE_TASK_REF_AMBIGUOUS")
  | Some ref, None =>
      _require_public_ref ref "VNEXT_AUTHORITY_SOURCE_TASK_REF_INVALID";; Ok ref
  | None, None => Raise (aerr "VNEXT_AUTHORITY_SOURCE_TASK_REF_REQUIRED")
  | None, Some n =>
      raise_if (n <? 1) (aerr "VNEXT_AUTHORITY_SOURCE_TASK_REF_REQUIRED");;
      text ← int_text n;
      let ref := "issue:" +:+ text in
      _require_public_ref ref "VNEXT_AUTHORITY_SOURCE_TASK_REF_INVALID";; Ok ref
  end.

Definition _runner_task_privacy (runner_task : RunnerTask) : PrivacyClass :=
  if rt_privacy_boundary runner_task == ORDINARY_REPOSITORY_PRIVACY then PUBLIC_SAFE else PRIVATE.

(** ** Binding a runner task *)
Definition identity_payload (runner_task_hash source_task_ref adapter_id route operation : string)
    : json :=
  JObj [("runner_task_sha256", JStr runner_task_hash); ("source_task_ref", JStr source_task_ref);
        ("adapter_id", JStr adapter_id); ("route", JStr route); ("operation", JStr operation)].

Definition source_authority_identity (runner_task : RunnerTask)
    (source_task_ref adapter_id route operation : string) : result SourceAuthorityIdentity :=
  _require_public_ref source_task_ref "VNEXT_AUTHORITY_SOURCE_TASK_REF_INVALID";;
  _require_public_ref adapter_id "VNEXT_AUTHORITY_ADAPTER_ID_INVALID";;
  text ← to_json runner_task;
  let runner_task_hash := text_hash text in
  let binding_hash :=
    json_hash (identity_payload runner_task_hash source_task_ref adapter_id route operation) in
  Ok {| sa_runner_task_hash := runner_task_hash; sa_source_task_ref := source_task_ref;
        sa_adapter_id := adapter_id; sa_binding_hash := binding_hash;
        sa_task_id := "task:" +:+ operation +:+ ":" +:+ binding_hash;
        sa_operation_id := "op:" +:+ operation +:+ ":" +:+ binding_hash;
        sa_idempotency_key := "idem:" +:+ operation +:+ ":" +:+ binding_hash |}.

Definition bound_task (runner_task : RunnerTask) (binding : RouteAuthorityBinding)
    (identity : SourceAuthorityIdentity) (route operation source_ref : string) : UniversalTask :=
  {| task_id := sa_task_id identity;
     task_intent := "runner:" +:+ route +:+ ":" +:+ operation;
     task_domain := "github";
     target_resources := map (λ path, "repo:" +:+ path) (rt_allowed_files runner_task);
     task_required_capabilities := rt_requested_capabilities runner_task;
     task_privacy := _runner_task_privacy runner_task;
     task_reversibility := rb_reversibility binding;
     expected_effects := rb_effects binding;
     task_validation := map (join_with " ") (rt_validation_commands runner_task);
     task_rollback := ["operator_recovery_required"];
     task_idempotency_key := sa_idempotency_key identity;
     task_operator_boundary_evidence :=
       ["runner_task_sha256:" +:+ sa_runner_task_hash identity;
        "source_task_ref:" +:+ source_ref; "adapter_id:" +:+ rb_adapter_id binding;
        "approval:" +:+ rt_approval_reference runner_task] |}.

Definition bind_runner_operation (runner_task : RunnerTask) (route operation : string)
    (source_task_ref : option string) (issue_number : option Z) : result BoundRunnerOperation :=
  binding ← route_binding route operation;
  raise_if (negb (rb_requires_runner_task binding))
    (aerr "VNEXT_AUTHORITY_TYPED_PRIVILEGED_BINDER_REQUIRED");;
  source_ref ← _source_ref source_task_ref issue_number;
  raise_if ((route == ROUTE_CODE_GENERATION)
            && (rt_privacy_boundary runner_task != ORDINARY_REPOSITORY_PRIVACY))
    (aerr "VNEXT_AUTHORITY_CODEGEN_PUBLIC_REPOSITORY_PRIVACY_REQUIRED");;
  raise_if (is_empty (rt_allowed_files runner_task)) (aerr "VNEXT_AUTHORITY_RESOURCES_REQUIRED");;
  identity ← source_authority_identity runner_task source_ref (rb_adapter_id binding) route
               operation;
  let universal_task := bound_task runner_task binding identity route operation source_ref in
  let target_state_ref := "git:" +:+ rt_base_sha runner_task in
  operation_ir ← new_OperationIR (sa_operation_id identity) (rb_operation_kind binding)
    (target_resources universal_task) (rb_effects binding) (sa_idempotency_key identity);
  let policy_input :=
    {| pi_operation := operation_ir; pi_reversibility := rb_reversibility binding;
       pi_privacy := task_privacy universal_task; pi_target_state_ref := Some target_state_ref;
       pi_operator_boundary_evidence := task_operator_boundary_evidence universal_task |} in
  Ok {| bo_route := route; bo_operation := operation; bo_binding := binding;
        bo_runner_task := Some runner_task; bo_source_task_ref := source_ref;
        bo_runner_task_hash := Some (sa_runner_task_hash identity);
        bo_source_binding_hash := sa_binding_hash identity;
        bo_universal_task := universal_task; bo_operation_ir := operation_ir;
        bo_policy_input := policy_input; bo_policy_decision := classify_policy policy_input;
        bo_target_state_ref := target_state_ref;
        bo_lease_scope_key := "repo:" +:+ rt_repo runner_task +:+ "@" +:+ rt_branch runner_task |}.

(** ** Binding an operator's request *)
Definition privileged_payload (a : PrivilegedAuthorityInput) (binding : RouteAuthorityBinding)
    (route operation : string) : json :=
  JObj [("source_task_ref", JStr (pa_source_task_ref a));
        ("adapter_id", JStr (rb_adapter_id binding)); ("route", JStr route);
        ("operation", JStr operation); ("target_state_ref", JStr (pa_target_state_ref a));
        ("resources", jstrs (pa_resources a));
        ("required_capabilities", jstrs (pa_required_capabilities a));
        ("privacy", JStr (privacy_value (pa_privacy a)));
        ("operator_boundary_evidence", jstrs (pa_operator_boundary_evidence a));
        ("idempotency_seed", JStr (pa_idempotency_seed a))].

Definition check_privileged_input (binding : RouteAuthorityBinding) (a : PrivilegedAuthorityInput)
    : result unit :=
  raise_if (rb_requires_runner_task binding) (aerr "VNEXT_AUTHORITY_RUNNER_TASK_BINDER_REQUIRED");;
  _require_public_ref (pa_source_task_ref a) "VNEXT_AUTHORITY_SOURCE_TASK_REF_INVALID";;
  _require_public_ref (pa_target_state_ref a) "VNEXT_AUTHORITY_TARGET_STATE_REF_INVALID";;
  _require_public_ref (pa_idempotency_seed a) "VNEXT_AUTHORITY_IDEMPOTENCY_SEED_INVALID";;
  raise_if (is_empty (pa_resources a)) (aerr "VNEXT_AUTHORITY_RESOURCES_REQUIRED");;
  raise_if (is_empty (pa_required_capabilities a)) (aerr "VNEXT_AUTHORITY_CAPABILITIES_REQUIRED");;
  each (λ resource, _require_public_ref resource "VNEXT_AUTHORITY_RESOURCE_REF_INVALID")
    (pa_resources a);;
  raise_if (rb_requires_operator binding && is_empty (pa_operator_boundary_evidence a))
    (aerr "VNEXT_AUTHORITY_OPERATOR_EVIDENCE_REQUIRED");;
  each (λ evidence, _require_public_ref evidence "VNEXT_AUTHORITY_OPERATOR_EVIDENCE_INVALID")
    (pa_operator_boundary_evidence a).

Definition privileged_task (a : PrivilegedAuthorityInput) (binding : RouteAuthorityBinding)
    (route operation binding_hash : string) : UniversalTask :=
  {| task_id := "task:" +:+ operation +:+ ":" +:+ binding_hash;
     task_intent := "runner:" +:+ route +:+ ":" +:+ operation;
     task_domain := "github";
     target_resources := pa_resources a;
     task_required_capabilities := pa_required_capabilities a;
     task_privacy := pa_privacy a;
     task_reversibility := rb_reversibility binding;
     expected_effects := rb_effects binding;
     task_validation := [];
     task_rollback := ["operator_recovery_required"];
     task_idempotency_key := "idem:" +:+ operation +:+ ":" +:+ binding_hash;
     task_operator_boundary_evidence := pa_operator_boundary_evidence a |}.

Definition bind_privileged_operation (route operation : string)
    (authority_input : PrivilegedAuthorityInput) : result BoundRunnerOperation :=
  binding ← route_binding route operation;
  check_privileged_input binding authority_input;;
  let binding_hash := json_hash (privileged_payload authority_input binding route operation) in
  let universal_task := privileged_task authority_input binding route operation binding_hash in
  operation_ir ← new_OperationIR ("op:" +:+ operation +:+ ":" +:+ binding_hash)
    (rb_operation_kind binding) (pa_resources authority_input) (rb_effects binding)
    (task_idempotency_key universal_task);
  let policy_input :=
    {| pi_operation := operation_ir; pi_reversibility := rb_reversibility binding;
       pi_privacy := pa_privacy authority_input;
       pi_target_state_ref := Some (pa_target_state_ref authority_input);
       pi_operator_boundary_evidence := pa_operator_boundary_evidence authority_input |} in
  let decision := classify_policy policy_input in
  raise_if (rb_requires_fresh_operator_evidence binding && (pd_effect_class decision != RED))
    (aerr "VNEXT_AUTHORITY_RED_POLICY_REQUIRED");;
  Ok {| bo_route := route; bo_operation := operation; bo_binding := binding;
        bo_runner_task := None; bo_source_task_ref := pa_source_task_ref authority_input;
        bo_runner_task_hash := None; bo_source_binding_hash := binding_hash;
        bo_universal_task := universal_task; bo_operation_ir := operation_ir;
        bo_policy_input := policy_input; bo_policy_decision := decision;
        bo_target_state_ref := pa_target_state_ref authority_input;
        bo_lease_scope_key := lane_value (rb_lane binding) +:+ ":" +:+ binding_hash |}.

(** ** The default plant *)
Definition manifest (adapter_id kind : string) (capabilities : list string)
    (classes : list EffectClass) (patterns : list string) (pep : bool)
    : string * AdapterManifest :=
  (adapter_id,
   {| am_adapter_id := adapter_id; am_operation_kinds := [kind]; am_capabilities := capabilities;
      am_allowed_effect_classes := classes; am_resource_patterns := patterns;
      am_privacy_classes := [PUBLIC_SAFE]; am_privileged_pep_required := pep |}).

Definition REPOSITORY_CAPABILITIES : list string :=
  ["repository_read"; "repository_write_allowlisted"; "test_execution"].
Definition CONTROL_CAPABILITIES : list string :=
  ["repository_maintenance"; "diagnostic_read"; "subprocess_isolated"].

Definition default_authority_manifests : list (string * AdapterManifest) := [
  manifest "adapter:repo-codegen" "workspace_write" REPOSITORY_CAPABILITIES [GREEN] ["repo:*"] false;
  manifest "adapter:repo-validation" "validate" REPOSITORY_CAPABILITIES [GREEN] ["repo:*"] false;
  manifest "adapter:draft-publication" "draft_pr_open"
    (REPOSITORY_CAPABILITIES ++ ["publish_pull_request"]) [GREEN] ["repo:*"] false;
  manifest "adapter:harmless-diagnostic" "read" REPOSITORY_CAPABILITIES [GREEN] ["repo:*"] false;
  manifest "adapter:runtime-control" "bounded_service_restart" CONTROL_CAPABILITIES
    [GREEN; YELLOW] ["service-config:*"; "control:*"; "repo:*"] true;
  manifest "adapter:operation-recovery" "bounded_service_restart" CONTROL_CAPABILITIES
    [GREEN; YELLOW] ["control:*"; "service-config:*"; "repo:*"] true;
  manifest "adapter:exact-operator-merge" "workspace_bind" ["publish_pull_request"]
    [RED] ["protected:*"; "repo:*"] true].

Definition default_lane_policy (lane : Lane) : string * LaneEnvironmentPolicy :=
  let lane_id := "lane:" +:+ lane_value lane in
  (lane_id,
   {| ep_lane_id := lane_id; inherit_keys := ["HOME"; "PATH"]; inject_keys := [];
      denied_keys := ["OPENROUTER_API_KEY"; "BWS_ACCESS_TOKEN"; "SKELETON_TG_BOT"];
      secret_keys := [] |}).

Definition default_environment_registry : result LaneEnvironmentPolicyRegistry :=
  new_LaneEnvironmentPolicyRegistry
    (map default_lane_policy [CODEGEN; VALIDATE; PUBLISH; CONTROL; MERGE; PRIVILEGED]).

(** ** The stages *)
Section stages.
Context (clock : nat → Z).

Definition prepare_green_authority (bound : BoundRunnerOperation) (nodes : NodeCapabilityRegistry)
    (ttl_seconds now : Z) (parent_environment : gmap string string)
    : M World GreenExecutionHandoff :=
  lift (raise_if (pd_effect_class (bo_policy_decision bound) != GREEN)
    (aerr "VNEXT_AUTHORITY_PRIVILEGED_OPERATION_REQUIRES_BROKER"));;
  environment_registry ← lift default_environment_registry;
  adapter_planner ← lift (new_AdapterPlanner default_authority_manifests);
  prepare clock nodes environment_registry adapter_planner (bo_universal_task bound)
    (bo_operation_ir bound) (rb_adapter_id (bo_binding bound)) (rb_lane (bo_binding bound))
    (bo_lease_scope_key bound) (bo_target_state_ref bound) ttl_seconds now parent_environment ∅.

Definition grant_green_authority (handoff : GreenExecutionHandoff) (nodes : NodeCapabilityRegistry)
    (current_ref : GreenExecutionHandoff → result string) (now : Z)
    : M World GreenExecutionGrant :=
  environment_registry ← lift default_environment_registry;
  grant clock nodes environment_registry current_ref handoff now.
End stages.

Definition bound_identity (bound : BoundRunnerOperation) : OperationIdentity :=
  {| id_operation_id := op_operation_id (bo_operation_ir bound);
     id_idempotency_key := op_idempotency_key (bo_operation_ir bound);
     id_target_state_ref := bo_target_state_ref bound |}.

(** [default_authority_manifests()[id]] and the planner of that manifest alone. *)
Definition single_planner (adapter_id : string) : result AdapterPlanner :=
  m ← some_or ((list_to_map (reverse default_authority_manifests) : gmap string AdapterManifest)
                 !! adapter_id) (KeyError adapter_id);
  new_AdapterPlanner [(am_adapter_id m, m)].

Definition reserve_privileged_authority (bound : BoundRunnerOperation) (fence_token : Z)
    : M World ExecutionEnvelope :=
  lift (raise_if (pd_effect_class (bo_policy_decision bound) == GREEN)
    (aerr "VNEXT_AUTHORITY_PRIVILEGED_EFFECT_REQUIRED"));;
  planner ← lift (single_planner (rb_adapter_id (bo_binding bound)));
  envelope ← lift (Adapters.plan (rb_adapter_id (bo_binding bound)) (bo_universal_task bound)
    (bo_operation_ir bound) (bo_policy_input bound) (bo_policy_decision bound)
    (bo_target_state_ref bound) fence_token planner);
  on_ledger (Ledger.reserve (bound_identity bound) fence_token
    (reservation_scope_fingerprint envelope) None);;
  mret envelope.

(** [except PEPError as exc: raise RunnerVNextAuthorityError(exc.reason_code)] *)
Definition or_authority_error {A} (r : result A) : result A :=
  match r with Raise (PEPError c) => Raise (RunnerVNextAuthorityError c) | r => r end.

Definition authorize_privileged_broker_request (envelope : ExecutionEnvelope)
    (ledger : OperationLedger) (authority_claim : AuthorityClaim)
    (authority_verifier : AuthorityClaim → result bool) : result PrivilegedBrokerRequest :=
  request ← or_authority_error
    (evaluate envelope ledger (Some authority_claim) (Some authority_verifier));
  match request with
  | Brokered request => Ok request
  | Authorized _ => Raise (aerr "VNEXT_AUTHORITY_PRIVILEGED_BROKER_REQUIRED")
  end.

Definition authority_receipt_from_bound (bound : BoundRunnerOperation) (status reason_code : string)
    : RunnerVNextAuthorityReceipt :=
  let effect_class := pd_effect_class (bo_policy_decision bound) in
  {| ar_mode := AUTHORITATIVE_MODE; ar_status := status; ar_reason_code := reason_code;
     ar_route := bo_route bound; ar_operation := bo_operation bound;
     ar_lane := Some (lane_value (rb_lane (bo_binding bound)));
     ar_adapter_id := Some (rb_adapter_id (bo_binding bound));
     ar_effect_class := Some (effect_value effect_class);
     ar_target_state_ref_hash := Some (text_hash (bo_target_state_ref bound));
     ar_idempotency_key_hash := Some (text_hash (op_idempotency_key (bo_operation_ir bound)));
     ar_source_binding_hash := Some (bo_source_binding_hash bound);
     ar_execution_authorized := false;
     ar_privileged_broker_request := effect_class != GREEN;
     ar_allow_legacy_mechanical_shell := false; ar_side_effects_executed := false |}.

(** ** The default plant is valid *)
Definition default_registry : LaneEnvironmentPolicyRegistry :=
  match default_environment_registry with Ok r => r | Raise _ => ∅ end.
Definition default_planner : AdapterPlanner :=
  match new_AdapterPlanner default_authority_manifests with Ok r => r | Raise _ => ∅ end.

Lemma default_registry_ok : default_environment_registry = Ok default_registry.
Proof.
  assert (is_ok default_environment_registry = true) as H by (vm_compute; reflexivity).
  unfold default_registry. by destruct default_environment_registry.
Qed.
Lemma default_planner_ok : new_AdapterPlanner default_authority_manifests = Ok default_planner.
Proof.
  assert (is_ok (new_AdapterPlanner default_authority_manifests) = true) as H
    by (vm_compute; reflexivity).
  unfold default_planner. by destruct (new_AdapterPlanner default_authority_manifests).
Qed.

(** ** Lemmas *)
Lemma route_binding_in route operation binding :
  route_binding route operation = Ok binding → ((route, operation), binding) ∈ _ROUTE_BINDINGS.
Proof.
  unfold route_binding. intros H. inv_ok. apply fmap_Some in H as ([k b] & Hf & ->).
  apply find_some in Hf as [Hin Hk]. bool_facts. simplify_eq/=. by apply list_elem_of_In.
Qed.

(** The rows a runner task may be bound to. *)
Definition runner_rows : list ((string * string) * RouteAuthorityBinding) :=
  List.filter (λ e, rb_requires_runner_task e.2) _ROUTE_BINDINGS.

(** The operation a task with the given text is bound to. *)
Definition bound_operation (t : RunnerTask) (binding : RouteAuthorityBinding)
    (route operation source text : string) : BoundRunnerOperation :=
  let hash := json_hash (identity_payload (text_hash text) source (rb_adapter_id binding) route
                           operation) in
  let identity :=
    {| sa_runner_task_hash := text_hash text; sa_source_task_ref := source;
       sa_adapter_id := rb_adapter_id binding; sa_binding_hash := hash;
       sa_task_id := "task:" +:+ operation +:+ ":" +:+ hash;
       sa_operation_id := "op:" +:+ operation +:+ ":" +:+ hash;
       sa_idempotency_key := "idem:" +:+ operation +:+ ":" +:+ hash |} in
  let task := bound_task t binding identity route operation source in
  let operation_ir :=
    {| op_operation_id := sa_operation_id identity; op_kind := rb_operation_kind binding;
       op_resources := target_resources task; op_effects := rb_effects binding;
       op_idempotency_key := sa_idempotency_key identity |} in
  let policy_input :=
    {| pi_operation := operation_ir; pi_reversibility := rb_reversibility binding;
       pi_privacy := task_privacy task;
       pi_target_state_ref := Some ("git:" +:+ rt_base_sha t);
       pi_operator_boundary_evidence := task_operator_boundary_evidence task |} in
  {| bo_route := route; bo_operation := operation; bo_binding := binding;
     bo_runner_task := Some t; bo_source_task_ref := source;
     bo_runner_task_hash := Some (text_hash text); bo_source_binding_hash := hash;
     bo_universal_task := task; bo_operation_ir := operation_ir;
     bo_policy_input := policy_input; bo_policy_decision := classify_policy policy_input;
     bo_target_state_ref := "git:" +:+ rt_base_sha t;
     bo_lease_scope_key := "repo:" +:+ rt_repo t +:+ "@" +:+ rt_branch t |}.

Record bound_from (t : RunnerTask) (route operation source text : string)
    (b : BoundRunnerOperation) : Prop := {
  bf_row : ((route, operation), bo_binding b) ∈ runner_rows;
  bf_text : to_json t = Ok text;
  bf_codegen : route = ROUTE_CODE_GENERATION → rt_privacy_boundary t = ORDINARY_REPOSITORY_PRIVACY;
  bf_files : rt_allowed_files t ≠ [];
  bf_bound : b = bound_operation t (bo_binding b) route operation source text
}.

Lemma bind_runner_inv t route operation ref issue b :
  bind_runner_operation t route operation ref issue = Ok b →
  ∃ source text, _source_ref ref issue = Ok source ∧ bound_from t route operation source text b.
Proof.
  unfold bind_runner_operation, source_authority_identity, new_OperationIR. intros H. inv_ok.
  match goal with Hs : _source_ref ref issue = Ok ?x, Ht : to_json t = Ok ?y |- _ =>
    exists x, y; split; [exact Hs|] end.
  subst. split; [|assumption| |assumption|reflexivity]; cbn [bo_binding].
  - apply list_elem_of_In, filter_In. split; [|assumption].
    by apply list_elem_of_In, route_binding_in.
  - intros ->. match goal with H : (ROUTE_CODE_GENERATION == _) && _ = false |- _ =>
      rewrite bool_decide_eq_true_2 in H by reflexivity; cbn [andb] in H end.
    by bool_facts.
Qed.

(** What every runner row says. *)
Lemma runner_row_green key binding :
  (key, binding) ∈ runner_rows →
  rb_effects binding ≠ [] ∧ (∀ e, e ∈ rb_effects binding → e ∈ GREEN_EFFECTS) ∧
  rb_reversibility binding ≠ IRREVERSIBLE ∧ rb_requires_operator binding = false ∧
  (rb_route binding, rb_operation binding) = key.
Proof.
  intros H.
  assert (Hrows : forallb (λ e : (string * string) * RouteAuthorityBinding,
      negb (is_empty (rb_effects e.2)) && bool_decide (Forall (λ x, x ∈ GREEN_EFFECTS) (rb_effects e.2))
      && (rb_reversibility e.2 != IRREVERSIBLE) && negb (rb_requires_operator e.2)
      && ((rb_route e.2, rb_operation e.2) == e.1)) runner_rows = true)
    by (vm_compute; reflexivity).
  rewrite forallb_forall in Hrows. apply list_elem_of_In in H. specialize (Hrows _ H).
  cbn [fst snd] in Hrows. bool_facts. rewrite Forall_forall in *. by split_and!.
Qed.

Lemma repo_prefix_green path :
  startswith_any (RED_RESOURCE_PREFIXES ++ YELLOW_RESOURCE_PREFIXES) ("repo:" +:+ path) = false.
Proof. reflexivity. Qed.

Lemma bound_green t binding route operation source text :
  ((route, operation), binding) ∈ runner_rows →
  green_conditions (bo_policy_input (bound_operation t binding route operation source text)).
Proof.
  intros (Hne & Hg & Hrev & _)%runner_row_green. split_and!; try assumption; cbn.
  - intros r (path & <- & _)%list_elem_of_In%in_map_iff. exact (repo_prefix_green path).
  - done.
Qed.

(** Two keys with the same row's operation name the same hash. *)
Lemma idempotency_key_inj route1 op1 b1 route2 op2 b2 h1 h2 :
  ((route1, op1), b1) ∈ runner_rows → ((route2, op2), b2) ∈ runner_rows →
  "idem:" +:+ op1 +:+ ":" +:+ h1 = "idem:" +:+ op2 +:+ ":" +:+ h2 →
  route1 = route2 ∧ op1 = op2 ∧ b1 = b2 ∧ h1 = h2.
Proof.
  unfold runner_rows. cbn [List.filter _ROUTE_BINDINGS rb_requires_runner_task snd].
  rewrite !elem_of_cons, !elem_of_nil. intros H1 H2.
  destruct_or?; try done; injection H1 as -> -> ->; injection H2 as -> -> ->;
    intros H; cbv [String.append] in H; try discriminate H; injection H as ->; by split_and!.
Qed.

Lemma identity_payload_binding h1 h2 source1 source2 adapter1 adapter2 route1 route2 op1 op2
    (p1 := identity_payload h1 source1 adapter1 route1 op1)
    (p2 := identity_payload h2 source2 adapter2 route2 op2) :
  json_hash p1 = json_hash p2 →
  h1 = h2 ∧ source1 = source2 ∨ sha256_collision (dumps_canonical p1) (dumps_canonical p2).
Proof.
  intros H. apply json_hash_binding in H as [H|H];
    [left|by right|unfold p1, p2, identity_payload; apply json_wf_obj; by repeat constructor..].
  unfold p1, p2, identity_payload in H. payload_inj H. by split.
Qed.

(** ** Properties *)

(** A runner task can only be bound to a GREEN operation: whatever the task
    asks for, a successful binding is to one of the rows for runner tasks, none
    of which needs an operator; the operation meets all the GREEN conditions
    and is classified GREEN, so that it takes the GREEN path and never the
    privileged one; its resources are exactly the task's allowed files, its
    target the task's base commit, and code generation was bound only for the
    public-repository privacy boundary. *)
Theorem bound_runner_green t route operation ref issue b :
  bind_runner_operation t route operation ref issue = Ok b →
  ((route, operation), bo_binding b) ∈ runner_rows ∧ rb_requires_operator (bo_binding b) = false ∧
  green_conditions (bo_policy_input b) ∧ pd_effect_class (bo_policy_decision b) = GREEN ∧
  op_resources (bo_operation_ir b) = map (λ path, "repo:" +:+ path) (rt_allowed_files t) ∧
  op_resources (bo_operation_ir b) ≠ [] ∧
  op_effects (bo_operation_ir b) = rb_effects (bo_binding b) ∧
  task_required_capabilities (bo_universal_task b) = rt_requested_capabilities t ∧
  bo_target_state_ref b = "git:" +:+ rt_base_sha t ∧
  (route = ROUTE_CODE_GENERATION → task_privacy (bo_universal_task b) = PUBLIC_SAFE).
Proof.
  intros (source & text & _ & [Hrow _ Hcode Hfiles Hb])%bind_runner_inv.
  split; [done|]. split; [by apply runner_row_green in Hrow as (_ & _ & _ & ? & _)|].
  pose proof (bound_green t _ route operation source text Hrow) as Hg.
  rewrite Hb. split; [exact Hg|]. split; [by apply classify_green_conditions in Hg|].
  cbn. split; [done|]. split; [by destruct (rt_allowed_files t)|].
  do 3 (split; [done|]). intros ->. unfold _runner_task_privacy. by rewrite Hcode.
Qed.

(** C28. The idempotency key identifies the work: when two well-formed tasks are
    bound under the same idempotency key, the two bound operations are the same
    - task, source, route and everything derived from them - unless SHA-256
    collides on the two task texts or on the two identity payloads. *)
Theorem binding_identity t1 t2 route1 route2 op1 op2 ref1 ref2 n1 n2 b1 b2 :
  task_ok t1 → task_ok t2 → json_wf (rt_payload t1) → json_wf (rt_payload t2) →
  bind_runner_operation t1 route1 op1 ref1 n1 = Ok b1 →
  bind_runner_operation t2 route2 op2 ref2 n2 = Ok b2 →
  op_idempotency_key (bo_operation_ir b1) = op_idempotency_key (bo_operation_ir b2) →
  b1 = b2 ∨
  ∃ text1 text2, to_json t1 = Ok text1 ∧ to_json t2 = Ok text2 ∧
    (sha256_collision text1 text2 ∨
     let payload text b := dumps_canonical (identity_payload (text_hash text)
       (bo_source_task_ref b) (rb_adapter_id (bo_binding b)) (bo_route b) (bo_operation b)) in
     sha256_collision (payload text1 b1) (payload text2 b2)).
Proof.
  intros Ht1 Ht2 Hp1 Hp2 (s1 & x1 & _ & [Hr1 Hx1 _ _ E1])%bind_runner_inv
    (s2 & x2 & _ & [Hr2 Hx2 _ _ E2])%bind_runner_inv.
  assert (Hk : ∀ t b r o s x, op_idempotency_key (bo_operation_ir (bound_operation t b r o s x))
    = "idem:" +:+ o +:+ ":" +:+ json_hash (identity_payload (text_hash x) s (rb_adapter_id b) r o))
    by reflexivity.
  rewrite E1, E2, !Hk. intros H.
  apply (idempotency_key_inj _ _ _ _ _ _ _ _ Hr1 Hr2) in H as (-> & -> & Eb & H).
  apply identity_payload_binding in H as [[Hh ->]|H].
  - destruct (decide (x1 = x2)) as [->|Hne]; [left|].
    2: { right. exists x1, x2. do 2 (split; [assumption|]). left. by split. }
    apply (task_read t1 x2 Ht1 Hp1) in Hx1. apply (task_read t2 x2 Ht2 Hp2) in Hx2.
    assert (t1 = t2) as -> by congruence. by rewrite Eb.
  - right. exists x1, x2. do 2 (split; [assumption|]). right.
    rewrite E1, E2. exact H.
Qed.

(** ** Witnesses *)
Definition demo_binding (route operation : string) : result BoundRunnerOperation :=
  bind_runner_operation RunnerTask.demo_task route operation None (Some 7).

Lemma demo_bound : ∃ b, demo_binding "code_generation" "codegen" = Ok b.
Proof.
  assert (is_ok (demo_binding "code_generation" "codegen") = true) as H by (vm_compute; reflexivity).
  destruct (demo_binding _ _) as [b|]; [by exists b|discriminate].
Qed.

Lemma bound_runner_green_witness :
  ∃ b, demo_binding "code_generation" "codegen" = Ok b ∧
    pd_effect_class (bo_policy_decision b) = GREEN ∧
    task_privacy (bo_universal_task b) = PUBLIC_SAFE.
Proof.
  destruct demo_bound as [b Hb]. exists b. split; [exact Hb|].
  destruct (bound_runner_green _ _ _ _ _ b Hb) as (_ & _ & _ & Hg & _ & _ & _ & _ & _ & Hp).
  split; [exact Hg|]. exact (Hp eq_refl).
Defined.

Lemma demo_rebound :
  match demo_binding "code_generation" "codegen",
        bind_runner_operation RunnerTask.demo_task "code_generation" "codegen" (Some "issue:7") None with
  | Ok b1, Ok b2 => op_idempotency_key (bo_operation_ir b1) == op_idempotency_key (bo_operation_ir b2)
  | _, _ => false
  end = true.
Proof. vm_compute. reflexivity. Qed.

Lemma binding_identity_witness :
  ∃ b1 b2, demo_binding "code_generation" "codegen" = Ok b1 ∧
    bind_runner_operation RunnerTask.demo_task "code_generation" "codegen" (Some "issue:7") None
      = Ok b2 ∧
    (b1 = b2 ∨ ∃ text1 text2, to_json RunnerTask.demo_task = Ok text1 ∧
      to_json RunnerTask.demo_task = Ok text2 ∧
      (sha256_collision text1 text2 ∨
       let payload text b := dumps_canonical (identity_payload (text_hash text)
         (bo_source_task_ref b) (rb_adapter_id (bo_binding b)) (bo_route b) (bo_operation b)) in
       sha256_collision (payload text1 b1) (payload text2 b2))).
Proof.
  pose proof demo_rebound as H. unfold demo_binding in *.
  destruct (bind_runner_operation _ _ _ None _) as [b1|] eqn:E1; [|discriminate].
  destruct (bind_runner_operation _ _ _ (Some _) _) as [b2|] eqn:E2; [|discriminate].
  exists b1, b2. split; [reflexivity|]. split; [reflexivity|].
  apply (binding_identity RunnerTask.demo_task RunnerTask.demo_task _ _ _ _ _ _ _ _ b1 b2
    demo_task_ok demo_task_ok ltac:(vm_compute; tauto) ltac:(vm_compute; tauto) E1 E2).
  exact (bool_decide_eq_true_1 _ H).
Defined.
