(* ===== verification/Dispatch.v ===== *)
(** * Authoritative dispatch

    [src/core/runner_vnext_authoritative_dispatch.py]: one bound operation taken
    from its node's attestation through the control plane to the mechanical
    backend and the closing receipt, replayed when the ledger already holds its
    terminal event.  The backends and the verifier of the target state are
    injected: a backend may change the stores, and the verifier may answer
    differently each time it is asked. *)

From S2P Require Import Prelude.
From S2P Require Import PyStr.
From S2P Require Import Json.
From S2P Require Import Sha256.
From S2P Require Import Contracts.
From S2P Require Import Leases.
From S2P Require Import Ledger.
From S2P Require Import Adapters.
From S2P Require Import Environment.
From S2P Require Import Routing.
From S2P Require Import Pep.
From S2P Require Import ControlPlane.
From S2P Require Import ExecutionGate.
From S2P Require Import Execution.
From S2P Require Import Authority.

Definition PRIVILEGED_GLOBAL_LEASE_SCOPE_KEY : string := "authority:privileged-global".

Definition derr (code : string) : exn := RunnerVNextDispatchError code.

(** ** Data *)
Record MechanicalResult := {
  mr_succeeded : bool;
  mr_reason_code : string;
  mr_touched_resources : list string;
  mr_before_state_ref : string;
  mr_after_state_ref : string;
  mr_validation_status : string;
  mr_rollback_requested : bool
}.

Record PrivilegedExecutionGrant := {
  pg_adapter_id : string;
  pg_operation_id : string;
  pg_target_state_ref : string;
  pg_fence_token : Z;
  pg_idempotency_key : string;
  pg_resources : list string;
  pg_effects : list string;
  pg_effect_class : EffectClass;
  pg_policy_reason_code : string;
  pg_approval_evidence_refs : list string;
  pg_execution_authorized : bool
}.

Record AuthoritativeDispatchReceipt := {
  ad_operation_id : string;
  ad_idempotency_key : string;
  ad_route : string;
  ad_operation : string;
  ad_lane : string;
  ad_adapter_id : string;
  ad_terminal_status : string;
  ad_reason_code : string;
  ad_validation_status : string;
  ad_touched_resources : list string;
  ad_before_state_ref : string;
  ad_after_state_ref : string;
  ad_replayed : bool;
  ad_execution_started : bool;
  ad_lease_released : bool
}.

Definition dispatch_public_mapping (r : AuthoritativeDispatchReceipt) : json :=
  JObj [("schema", JStr "skeleton.runner_vnext_authoritative_dispatch_receipt.v1");
        ("operation_id_hash", JStr (text_hash (ad_operation_id r)));
        ("idempotency_key_hash", JStr (text_hash (ad_idempotency_key r)));
        ("route", JStr (ad_route r)); ("operation", JStr (ad_operation r));
        ("lane", JStr (ad_lane r)); ("adapter_id", JStr (ad_adapter_id r));
        ("terminal_status", JStr (ad_terminal_status r));
        ("reason_code", JStr (ad_reason_code r));
        ("validation_status", JStr (ad_validation_status r));
        ("touched_resource_count", JInt (Z.of_nat (length (ad_touched_resources r))));
        ("touched_resource_hash", JStr (_refs_hash (ad_touched_resources r)));
        ("before_state_ref_hash", JStr (text_hash (ad_before_state_ref r)));
        ("after_state_ref_hash", JStr (text_hash (ad_after_state_ref r)));
        ("replayed", JBool (ad_replayed r));
        ("execution_started", JBool (ad_execution_started r));
        ("lease_released", JBool (ad_lease_released r))].

(** [ExactAuthorityVerifier(expected).verify] *)
Definition exact_authority_verify (expected : list string) (claim : AuthorityClaim) : result bool :=
  Ok (ac_evidence_refs claim == expected).

Definition _public_ref (value : string) : bool :=
  truthy value && negb (startswith_any ["/"; "~"] value) && negb (contains "\" value)
  && negb (contains ".." value) && contains ":" value && negb (any_char isspace value).

(** ** The node *)

(** The attested snapshot declares exactly what the operation needs. *)
Definition exact_scope (bound : BoundRunnerOperation) (snapshot : NodeCapabilitySnapshot) : bool :=
  let task := bo_universal_task bound in
  (ns_capabilities snapshot, ns_supported_adapters snapshot, ns_supported_lanes snapshot,
   ns_privacy_classes snapshot, ns_resource_patterns snapshot)
  == (task_required_capabilities task, [rb_adapter_id (bo_binding bound)],
      [rb_lane (bo_binding bound)], [task_privacy task], target_resources task).

Definition _exact_node_registry (bound : BoundRunnerOperation) (snapshot : NodeCapabilitySnapshot)
    (now : Z) : result NodeCapabilityRegistry :=
  raise_if (negb (exact_scope bound snapshot)) (derr "VNEXT_DISPATCH_NODE_EVIDENCE_SCOPE_MISMATCH");;
  raise_if (negb (startswith "attestation:" (ns_attestation_ref snapshot)))
    (derr "VNEXT_DISPATCH_NODE_ATTESTATION_REQUIRED");;
  match register snapshot now ∅ with
  | (Ok _, registry) => Ok registry
  | (Raise e, _) =>
      Raise (derr (default "VNEXT_DISPATCH_NODE_EVIDENCE_INVALID" (reason_code e)))
  end.

(** ** Replays *)
Definition _validate_terminal_identity (bound : BoundRunnerOperation) (event : LedgerEvent)
    : result unit :=
  raise_if ((id_operation_id (ev_identity event) != op_operation_id (bo_operation_ir bound))
            || (id_idempotency_key (ev_identity event)
                != op_idempotency_key (bo_operation_ir bound))
            || (id_target_state_ref (ev_identity event) != bo_target_state_ref bound))
    (derr "VNEXT_DISPATCH_TERMINAL_IDENTITY_MISMATCH").

(** [value or default] for an optional text. *)
Definition or_text (o : option string) (d : string) : string :=
  match o with Some s => if falsy s then d else s | None => d end.

Definition replay_receipt (bound : BoundRunnerOperation) (terminal : LedgerEvent)
    : AuthoritativeDispatchReceipt :=
  {| ad_operation_id := id_operation_id (ev_identity terminal);
     ad_idempotency_key := id_idempotency_key (ev_identity terminal);
     ad_route := bo_route bound; ad_operation := bo_operation bound;
     ad_lane := lane_value (rb_lane (bo_binding bound));
     ad_adapter_id := rb_adapter_id (bo_binding bound);
     ad_terminal_status := event_type_value (ev_event_type terminal);
     ad_reason_code := ev_reason_code terminal;
     ad_validation_status := or_text (ev_validation_status terminal) "FAIL";
     ad_touched_resources := ev_touched_resource_refs terminal;
     ad_before_state_ref := or_text (ev_before_state_ref terminal) (bo_target_state_ref bound);
     ad_after_state_ref := or_text (ev_after_state_ref terminal) (bo_target_state_ref bound);
     ad_replayed := true; ad_execution_started := true; ad_lease_released := true |}.

Definition _terminal_replay (bound : BoundRunnerOperation) (ledger : OperationLedger)
    : result (option AuthoritativeDispatchReceipt) :=
  let key := op_idempotency_key (bo_operation_ir bound) in
  st ← status key ledger;
  if st ∉? [Some "COMPLETED"; Some "FAILED"] then Ok None
  else
    events ← history key ledger;
    terminal ← some_or (last (filter (λ ev, ev_event_type ev ∈ [COMPLETED; FAILED]) events))
      (RuntimeError "StopIteration");
    _validate_terminal_identity bound terminal;;
    Ok (Some (replay_receipt bound terminal)).

Definition _fail_closed_on_started (bound : BoundRunnerOperation) (ledger : OperationLedger)
    : result unit :=
  st ← status (op_idempotency_key (bo_operation_ir bound)) ledger;
  raise_if (st == Some "STARTED") (derr "VNEXT_DISPATCH_STARTED_NEEDS_RECOVERY").

(** ** The GREEN dispatch *)
Definition _validate_green_grant (bound : BoundRunnerOperation) (g : GreenExecutionGrant)
    : result unit :=
  let e := g_planner_envelope g in
  raise_if ((g_task_id g, g_operation_id g, g_idempotency_key g, g_adapter_id g,
             g_target_state_ref g, env_resources e, env_effects e, env_required_capabilities e)
            != (task_id (bo_universal_task bound), op_operation_id (bo_operation_ir bound),
                op_idempotency_key (bo_operation_ir bound), rb_adapter_id (bo_binding bound),
                bo_target_state_ref bound, op_resources (bo_operation_ir bound),
                op_effects (bo_operation_ir bound),
                task_required_capabilities (bo_universal_task bound)))
    (derr "VNEXT_DISPATCH_GRANT_SCOPE_MISMATCH").

Definition green_result (g : GreenExecutionGrant) (r : MechanicalResult) : GreenExecutionResult :=
  {| x_operation_id := g_operation_id g; x_idempotency_key := g_idempotency_key g;
     x_adapter_id := g_adapter_id g; x_target_state_ref := g_target_state_ref g;
     x_fence_token := g_fence_token g; x_resources := mr_touched_resources r;
     x_effects := env_effects (g_planner_envelope g);
     x_outcome := if mr_succeeded r then "SUCCEEDED" else "FAILED";
     x_reason_code := mr_reason_code r; x_before_state_ref := mr_before_state_ref r;
     x_after_state_ref := mr_after_state_ref r; x_validation_status := mr_validation_status r;
     x_rollback_requested := mr_rollback_requested r |}.

(** [_GreenMechanicalAdapter.execute] *)
Definition green_adapter (bound : BoundRunnerOperation)
    (backend : BoundRunnerOperation → GreenExecutionGrant → M World MechanicalResult)
    (g : GreenExecutionGrant) : M World GreenExecutionResult :=
  lift (_validate_green_grant bound g);;
  r ← backend bound g;
  mret (green_result g r).

Definition _from_green_receipt (bound : BoundRunnerOperation) (r : GreenExecutionReceipt)
    : AuthoritativeDispatchReceipt :=
  {| ad_operation_id := rc_operation_id r; ad_idempotency_key := rc_idempotency_key r;
     ad_route := bo_route bound; ad_operation := bo_operation bound; ad_lane := rc_lane r;
     ad_adapter_id := rc_adapter_id r; ad_terminal_status := rc_terminal_status r;
     ad_reason_code := rc_reason_code r; ad_validation_status := rc_validation_status r;
     ad_touched_resources := rc_touched_resource_refs r;
     ad_before_state_ref := rc_before_state_ref r; ad_after_state_ref := rc_after_state_ref r;
     ad_replayed := false; ad_execution_started := rc_effect_execution_started r;
     ad_lease_released := rc_lease_released r |}.

(** The exceptions both dispatches turn into their own. *)
Definition dispatch_error (e : exn) : exn :=
  match e with
  | RunnerVNextAuthorityError c | GreenExecutionError c | LedgerError c | LeaseError c => derr c
  | e => e
  end.

Section dispatch.
Context (clock : nat → Z).

(** The [try] block: prepare, gate and run. *)
Definition green_stages (bound : BoundRunnerOperation) (nodes : NodeCapabilityRegistry)
    (current_ref : GreenExecutionHandoff → result string)
    (backend : BoundRunnerOperation → GreenExecutionGrant → M World MechanicalResult)
    (now ttl_seconds : Z) (parent_environment : gmap string string)
    : M World GreenExecutionReceipt :=
  handoff ← prepare_green_authority clock bound nodes ttl_seconds now parent_environment;
  g ← grant_green_authority clock handoff nodes current_ref now;
  run clock g (green_adapter bound backend).

Definition run_green_authoritative_dispatch (bound : BoundRunnerOperation)
    (node_snapshot : NodeCapabilitySnapshot)
    (current_ref : GreenExecutionHandoff → result string)
    (backend : BoundRunnerOperation → GreenExecutionGrant → M World MechanicalResult)
    (now ttl_seconds : Z) (parent_environment : gmap string string)
    : M World AuthoritativeDispatchReceipt :=
  lift (raise_if (pd_effect_class (bo_policy_decision bound) != GREEN)
    (derr "VNEXT_DISPATCH_GREEN_POLICY_REQUIRED"));;
  replay ← query (λ w, _terminal_replay bound (w_ledger w));
  match replay with
  | Some receipt => mret receipt
  | None =>
      query (λ w, _fail_closed_on_started bound (w_ledger w));;
      nodes ← lift (_exact_node_registry bound node_snapshot now);
      execution ← catch (green_stages bound nodes current_ref backend now ttl_seconds
                           parent_environment) (λ e, raise (dispatch_error e));
      mret (_from_green_receipt bound execution)
  end.

(** ** The privileged dispatch *)
Definition _privileged_execution_grant (request : PrivilegedBrokerRequest)
    (evidence_refs : list string) : result PrivilegedExecutionGrant :=
  raise_if (pb_execution_authorized request) (derr "VNEXT_DISPATCH_BROKER_REQUEST_STATE_INVALID");;
  raise_if ((pb_approval_evidence_refs request != evidence_refs) || is_empty evidence_refs)
    (derr "VNEXT_DISPATCH_BROKER_EVIDENCE_MISMATCH");;
  Ok {| pg_adapter_id := pb_adapter_id request; pg_operation_id := pb_operation_id request;
        pg_target_state_ref := pb_target_state_ref request;
        pg_fence_token := pb_fence_token request;
        pg_idempotency_key := pb_idempotency_key request; pg_resources := pb_resources request;
        pg_effects := pb_effects request; pg_effect_class := pb_effect_class request;
        pg_policy_reason_code := pb_policy_reason_code request;
        pg_approval_evidence_refs := pb_approval_evidence_refs request;
        pg_execution_authorized := true |}.

Definition privileged_grant_payload (g : PrivilegedExecutionGrant) : json :=
  JObj [("adapter_id", JStr (pg_adapter_id g)); ("operation_id", JStr (pg_operation_id g));
        ("target_state_ref", JStr (pg_target_state_ref g));
        ("fence_token", JInt (pg_fence_token g));
        ("idempotency_key", JStr (pg_idempotency_key g));
        ("resources", jstrs (pg_resources g)); ("effects", jstrs (pg_effects g));
        ("effect_class", JStr (effect_value (pg_effect_class g)));
        ("policy_reason_code", JStr (pg_policy_reason_code g));
        ("approval_evidence_refs", jstrs (pg_approval_evidence_refs g));
        ("execution_authorized", JBool (pg_execution_authorized g))].

Definition _privileged_grant_hash (g : PrivilegedExecutionGrant) : string :=
  json_hash (privileged_grant_payload g).

Definition _validate_privileged_mechanical_result (bound : BoundRunnerOperation)
    (g : PrivilegedExecutionGrant) (r : MechanicalResult) : result unit :=
  let touched := mr_touched_resources r in
  raise_if (negb (pg_execution_authorized g)) (derr "VNEXT_DISPATCH_PRIVILEGED_GRANT_REQUIRED");;
  raise_if (mr_validation_status r ∉? ["PASS"; "FAIL"])
    (derr "VNEXT_DISPATCH_RESULT_VALIDATION_INVALID");;
  raise_if (mr_succeeded r != (mr_validation_status r == "PASS"))
    (derr "VNEXT_DISPATCH_RESULT_VALIDATION_MISMATCH");;
  raise_if (falsy (mr_reason_code r)
            || any_char (λ ch, negb (char_in "ABCDEFGHIJKLMNOPQRSTUVWXYZ0123456789_" ch))
                 (mr_reason_code r)) (derr "VNEXT_DISPATCH_RESULT_REASON_INVALID");;
  raise_if (mr_before_state_ref r != bo_target_state_ref bound)
    (derr "VNEXT_DISPATCH_RESULT_BEFORE_STATE_MISMATCH");;
  raise_if (negb (_public_ref (mr_before_state_ref r)) || negb (_public_ref (mr_after_state_ref r)))
    (derr "VNEXT_DISPATCH_RESULT_STATE_REF_INVALID");;
  raise_if (has_dup touched) (derr "VNEXT_DISPATCH_RESULT_RESOURCE_DUPLICATE");;
  raise_if (existsb (λ resource, negb (_public_ref resource) || (resource ∉? pg_resources g)) touched)
    (derr "VNEXT_DISPATCH_RESULT_RESOURCE_OUT_OF_SCOPE");;
  raise_if (mr_succeeded r && is_empty touched) (derr "VNEXT_DISPATCH_RESULT_RESOURCE_REQUIRED");;
  raise_if (negb (mr_succeeded r) && is_empty touched
            && ((mr_before_state_ref r != mr_after_state_ref r) || mr_rollback_requested r))
    (derr "VNEXT_DISPATCH_FAILED_MUTATION_RESOURCE_REQUIRED").

Definition privileged_request (bound : BoundRunnerOperation) (owner : string) (ttl_seconds : Z)
    : LaneRequest :=
  {| lr_task_id := task_id (bo_universal_task bound); lr_lane := PRIVILEGED; lr_owner := owner;
     lr_scope_key := PRIVILEGED_GLOBAL_LEASE_SCOPE_KEY; lr_ttl_seconds := ttl_seconds;
     lr_target_state_ref := Some (bo_target_state_ref bound) |}.

Definition privileged_receipt (bound : BoundRunnerOperation) (r : MechanicalResult)
    (released : bool) : AuthoritativeDispatchReceipt :=
  {| ad_operation_id := op_operation_id (bo_operation_ir bound);
     ad_idempotency_key := op_idempotency_key (bo_operation_ir bound);
     ad_route := bo_route bound; ad_operation := bo_operation bound;
     ad_lane := lane_value (rb_lane (bo_binding bound));
     ad_adapter_id := rb_adapter_id (bo_binding bound);
     ad_terminal_status := if mr_succeeded r then "COMPLETED" else "FAILED";
     ad_reason_code := mr_reason_code r; ad_validation_status := mr_validation_status r;
     ad_touched_resources := mr_touched_resources r;
     ad_before_state_ref := mr_before_state_ref r; ad_after_state_ref := mr_after_state_ref r;
     ad_replayed := false; ad_execution_started := true; ad_lease_released := released |}.

(** [except RunnerVNextDispatchError: raise], [except (...) as exc: ...],
    [except Exception: ...] *)
Definition privileged_error (e : exn) : exn :=
  match e with
  | RunnerVNextDispatchError c | RunnerVNextAuthorityError c | LedgerError c
  | LeaseError c => derr c
  | _ => derr "VNEXT_DISPATCH_PRIVILEGED_BACKEND_EXCEPTION"
  end.

Section privileged.
Context (bound : BoundRunnerOperation) (owner : string)
  (current_ref : result string)
  (backend : BoundRunnerOperation → PrivilegedExecutionGrant → M World MechanicalResult)
  (evidence_refs : list string) (fresh_authority : bool) (ttl_seconds : Z).

(** [target_state_verifier.current_ref(bound) != bound.target_state_ref] *)
Definition check_target (current : result string) : result unit :=
  ref ← current;
  raise_if (ref != bo_target_state_ref bound) (derr "VNEXT_DISPATCH_TARGET_STATE_STALE").

Definition privileged_claim (envelope : ExecutionEnvelope) : AuthorityClaim :=
  {| ac_evidence_refs := evidence_refs; ac_operation_id := env_operation_id envelope;
     ac_target_state_ref := env_target_state_ref envelope;
     ac_effect_class := env_effect_class envelope; ac_resources := env_resources envelope;
     ac_fresh := fresh_authority |}.

(** Lease, reservation, authorization: what happens before the start is marked.
    [current_ref] is the verifier's second answer. *)
Definition privileged_authorize : M World (Z * PrivilegedExecutionGrant) :=
  lease ← on_leases (Leases.reserve clock (privileged_request bound owner ttl_seconds));
  let fence := receipt_fence_token lease in
  envelope ← reserve_privileged_authority bound fence;
  request ← query (λ w, authorize_privileged_broker_request envelope (w_ledger w)
    (privileged_claim envelope) (exact_authority_verify evidence_refs));
  g ← lift (_privileged_execution_grant request evidence_refs);
  lift (check_target current_ref);;
  mret (fence, g).

(** What follows the start: the effect, its checked result, the terminal event
    and the release of the lease. *)
Definition privileged_effect (fence : Z) (g : PrivilegedExecutionGrant)
    : M World (MechanicalResult * bool) :=
  r ← backend bound g;
  lift (_validate_privileged_mechanical_result bound g r);;
  on_ledger (finish (bound_identity bound) fence (mr_succeeded r) (mr_reason_code r)
    (mr_touched_resources r) (mr_before_state_ref r) (mr_after_state_ref r)
    (mr_validation_status r));;
  released ← on_leases (release_exact clock PRIVILEGED PRIVILEGED_GLOBAL_LEASE_SCOPE_KEY owner fence);
  mret (r, receipt_status released == "RELEASED").

(** The [try] block. *)
Definition privileged_stages : M World (MechanicalResult * bool) :=
  '(fence, g) ← privileged_authorize;
  on_ledger (mark_started (bound_identity bound) fence (_privileged_grant_hash g));;
  privileged_effect fence g.
End privileged.

Definition run_privileged_authoritative_dispatch (bound : BoundRunnerOperation)
    (node_snapshot : NodeCapabilitySnapshot) (first_ref second_ref : result string)
    (backend : BoundRunnerOperation → PrivilegedExecutionGrant → M World MechanicalResult)
    (evidence_refs : list string) (fresh_authority : bool) (now ttl_seconds : Z)
    : M World AuthoritativeDispatchReceipt :=
  lift (raise_if (pd_effect_class (bo_policy_decision bound) == GREEN)
    (derr "VNEXT_DISPATCH_PRIVILEGED_POLICY_REQUIRED"));;
  replay ← query (λ w, _terminal_replay bound (w_ledger w));
  match replay with
  | Some receipt => mret receipt
  | None =>
      query (λ w, _fail_closed_on_started bound (w_ledger w));;
      nodes ← lift (_exact_node_registry bound node_snapshot now);
      route ← lift (Routing.plan nodes (bo_universal_task bound) (rb_adapter_id (bo_binding bound))
                      (rb_lane (bo_binding bound)) now);
      lift (raise_if ((rp_status route != "ROUTED")
                      || (rp_selected_node_id route != Some (ns_node_id node_snapshot)))
        (derr (rp_reason_code route)));;
      lift (check_target bound first_ref);;
      '(r, released) ← catch (privileged_stages bound (ns_node_id node_snapshot) second_ref backend
                        evidence_refs fresh_authority ttl_seconds) (λ e, raise (privileged_error e));
      mret (privileged_receipt bound r released)
  end.
End dispatch.

(** ** What the ledger has settled *)

(** The operation was started or closed. *)
Definition settled (p : phase) : Prop :=
  match p with Live _ _ (Some _) | Done _ _ _ => True | _ => False end.

#[global] Instance settled_dec p : Decision (settled p).
Proof. destruct p as [|? ? [?|]|]; [by right; intros []|by left|by right; intros []|by left]. Defined.

Lemma settled_le p q : settled p → phase_le p q → settled q.
Proof. destruct p as [|? ? [?|]|], q as [|? ? [?|]|]; simpl; naive_solver. Qed.

Lemma started_settled res f s p : phase_le (Live res f (Some s)) p → settled p.
Proof. by apply settled_le. Qed.

(** What both dispatches answer once the operation is settled. *)
Definition settled_reply (bound : BoundRunnerOperation) (p : phase)
    : result AuthoritativeDispatchReceipt :=
  match p with
  | Done _ t _ => _validate_terminal_identity bound t;; Ok (replay_receipt bound t)
  | _ => Raise (derr "VNEXT_DISPATCH_STARTED_NEEDS_RECOVERY")
  end.

Notation key_of bound := (op_idempotency_key (bo_operation_ir bound)).
Notation phase_at bound w := (phase_of (key_of bound) (w_ledger w)).

Lemma terminal_replay_run bound l :
  ledger_wf l →
  _terminal_replay bound l =
    match phase_of (key_of bound) l with
    | Done _ t _ => _validate_terminal_identity bound t;; Ok (Some (replay_receipt bound t))
    | _ => Ok None
    end.
Proof.
  intros Hwf. unfold _terminal_replay. rewrite status_run by done. cbn [mbind result_bind].
  destruct (phase_of (key_of bound) l) as [|r f [s|]|r t s] eqn:Hp; cbn [phase_status];
    [reflexivity..|].
  pose proof (phase_of_facts (key_of bound) l Hwf) as Hf. rewrite Hp in Hf.
  destruct Hf as (_ & _ & Hty & _).
  assert (Hin : Some (event_type_value (ev_event_type t)) ∈ [Some "COMPLETED"; Some "FAILED"])
    by (destruct Hty as [-> | ->]; [by left|by right; left]).
  rewrite (bool_decide_eq_true_2 _ Hin). cbn [negb].
  rewrite history_run by done. cbn [mbind result_bind].
  destruct (wf_phases _ Hwf (key_of bound)) as (p & Hrep & _).
  pose proof (replay_rows _ _ Hrep) as Hrows. rewrite (terminal_events _ _ _ Hrep).
  unfold phase_of in Hp. rewrite Hrep in Hp.
  destruct p as [|r' f|r' t']; cbn [life_phase] in Hp; [done..|].
  injection Hp as <- <- _. destruct Hrows as (_ & Ht & _ & _).
  by rewrite Ht.
Qed.

Lemma fail_closed_run bound l :
  ledger_wf l →
  _fail_closed_on_started bound l =
    match phase_of (key_of bound) l with
    | Live _ _ (Some _) => Raise (derr "VNEXT_DISPATCH_STARTED_NEEDS_RECOVERY")
    | _ => Ok tt
    end.
Proof.
  intros Hwf. unfold _fail_closed_on_started. rewrite status_run by done. cbn [mbind result_bind].
  destruct (phase_of (key_of bound) l) as [|r f [s|]|r t s] eqn:Hp; cbn [phase_status]; try done.
  pose proof (phase_of_facts (key_of bound) l Hwf) as Hf. rewrite Hp in Hf.
  destruct Hf as (_ & _ & [-> | ->] & _); done.
Qed.

(** What precedes the stages of both dispatches, by the phase. *)
Lemma replay_prefix {A} bound (m : M World A) (f : AuthoritativeDispatchReceipt → M World A) w :
  world_wf w →
  (replay ← query (λ w, _terminal_replay bound (w_ledger w));
   match replay with
   | Some receipt => f receipt
   | None => query (λ w, _fail_closed_on_started bound (w_ledger w));; m
   end) w =
  if decide (settled (phase_at bound w))
  then (receipt ← lift (settled_reply bound (phase_at bound w)); f receipt) w
  else m w.
Proof.
  intros [_ Hw]. m_run. rewrite terminal_replay_run by done.
  pose proof (fail_closed_run bound _ Hw) as Hfc.
  destruct (phase_at bound w) as [|r f' [s|]|r t s]; cbn [settled settled_reply] in *.
  - rewrite decide_False by tauto. by rewrite Hfc.
  - rewrite decide_True by done. by rewrite Hfc.
  - rewrite decide_False by tauto. by rewrite Hfc.
  - rewrite decide_True by done. by destruct (_validate_terminal_identity bound t) as [[]|].
Qed.

(** ** The GREEN dispatch *)
Lemma exact_registry_wf bound snapshot now nodes :
  _exact_node_registry bound snapshot now = Ok nodes → registry_wf nodes.
Proof.
  unfold _exact_node_registry. rewrite !seq_ok. intros (_ & _ & H).
  assert (Hwf : registry_wf (register snapshot now ∅).2) by by apply register_wf.
  destruct (register snapshot now ∅) as [[?|e] registry]; [|done]. by injection H as <-.
Qed.

(** The receipt a later replay of [r]'s operation gives. *)
Definition as_replay (r : AuthoritativeDispatchReceipt) : AuthoritativeDispatchReceipt :=
  {| ad_operation_id := ad_operation_id r; ad_idempotency_key := ad_idempotency_key r;
     ad_route := ad_route r; ad_operation := ad_operation r; ad_lane := ad_lane r;
     ad_adapter_id := ad_adapter_id r; ad_terminal_status := ad_terminal_status r;
     ad_reason_code := ad_reason_code r; ad_validation_status := ad_validation_status r;
     ad_touched_resources := ad_touched_resources r;
     ad_before_state_ref := ad_before_state_ref r; ad_after_state_ref := ad_after_state_ref r;
     ad_replayed := true; ad_execution_started := true; ad_lease_released := true |}.

(** The ledger closed the operation with the receipt's own evidence. *)
Definition closed_as (bound : BoundRunnerOperation) (r : AuthoritativeDispatchReceipt) (p : phase)
    : Prop :=
  ad_replayed r = false ∧ ad_execution_started r = true ∧
  ∃ res t start, p = Done res t (Some start) ∧ settled_reply bound p = Ok (as_replay r).

Lemma or_text_public x d : _public_refs [x] = Ok tt → or_text (Some x) d = x.
Proof.
  unfold _public_refs, or_text. rewrite each_raise_ok.
  intros H. specialize (H x (list_elem_of_here _ _)). bool_facts. by destruct (falsy x).
Qed.

(** The terminal event carries what [finish] was called with. *)
Definition evidence_of (t : LedgerEvent) (i : OperationIdentity) (ok : bool) (reason : string)
    (refs : list string) (b a v : string) : Prop :=
  ev_identity t = i ∧ ev_event_type t = (if ok then COMPLETED else FAILED) ∧
  ev_reason_code t = reason ∧ ev_touched_resource_refs t = refs ∧
  ev_before_state_ref t = Some b ∧ ev_after_state_ref t = Some a ∧
  ev_validation_status t = Some v.

(** The receipt of a closed operation, and its replay. *)
Lemma evidence_closed bound r res t start ok reason refs b a v :
  evidence_of t (bound_identity bound) ok reason refs b a v → _public_refs [b; a] = Ok tt →
  v ∈ ["PASS"; "FAIL"] →
  as_replay r = {| ad_operation_id := op_operation_id (bo_operation_ir bound);
    ad_idempotency_key := key_of bound; ad_route := bo_route bound;
    ad_operation := bo_operation bound; ad_lane := lane_value (rb_lane (bo_binding bound));
    ad_adapter_id := rb_adapter_id (bo_binding bound);
    ad_terminal_status := if (ok : bool) then "COMPLETED" else "FAILED";
    ad_reason_code := reason; ad_validation_status := v; ad_touched_resources := refs;
    ad_before_state_ref := b; ad_after_state_ref := a; ad_replayed := true;
    ad_execution_started := true; ad_lease_released := true |} →
  ad_replayed r = false → ad_execution_started r = true →
  closed_as bound r (Done res t (Some start)).
Proof.
  intros (Hid & Hty & Hreason & Hrefs & Hb & Ha & Hv) Hba Hval Hr H1 H2.
  split; [done|]. split; [done|]. exists res, t, start. split; [done|]. rewrite Hr. clear Hr H1 H2.
  cbn [settled_reply]. unfold _validate_terminal_identity, replay_receipt. rewrite Hid.
  cbn [bound_identity id_operation_id id_idempotency_key id_target_state_ref].
  rewrite !bool_decide_eq_true_2 by reflexivity. cbn [negb orb raise_if mbind result_bind].
  assert (Hpub : ∀ y d, y ∈ [b; a] → or_text (Some y) d = y).
  { intros y d Hy. apply or_text_public. unfold _public_refs in *. rewrite each_raise_ok in *.
    intros z ->%list_elem_of_singleton. by apply Hba. }
  assert (Hvt : or_text (Some v) "FAIL" = v).
  { rewrite !elem_of_cons, elem_of_nil in Hval. by destruct Hval as [-> | [-> | []]]. }
  rewrite Hb, Ha, Hv, Hvt, !Hpub, Hreason, Hrefs, Hty by (rewrite !elem_of_cons; tauto).
  by destruct ok.
Qed.

Lemma green_receipt_closed bound g x res t released :
  _validate_green_grant bound g = Ok tt → _validate_result g x = Ok tt →
  terminal_of g x t → g_lane g = lane_value (rb_lane (bo_binding bound)) →
  closed_as bound (_from_green_receipt bound (receipt_of g (started_of g) x released))
    (Done res t (Some (start_of_grant g))).
Proof.
  intros Hg Hx (Hid & _ & Hty & Hreason & Hrefs & Hb & Ha & Hv) Hlane.
  apply validate_result_ok in Hx as Hx'. destruct Hx' as (_ & _ & _ & Hba).
  unfold _validate_green_grant in Hg. apply raise_if_ok in Hg. bool_facts. simplify_eq.
  assert (Hval : x_validation_status x ∈ ["PASS"; "FAIL"]).
  { unfold _validate_result in Hx. rewrite !seq_ok, !raise_if_ok in Hx.
    destruct Hx as (_ & Hx & _). by bool_facts. }
  apply (evidence_closed _ _ _ _ _ (x_outcome x == "SUCCEEDED") (x_reason_code x) (x_resources x)
    (x_before_state_ref x) (x_after_state_ref x) (x_validation_status x)); try assumption.
  - split_and!; try assumption. rewrite Hid. unfold bound_identity, grant_identity. congruence.
  - unfold as_replay. cbn. rewrite Hlane. congruence.
  - reflexivity.
  - reflexivity.
Qed.

Lemma green_adapter_uses bound backend g :
  uses_stores (backend bound g) → uses_stores (green_adapter bound backend g).
Proof.
  intros Hb w Hw. unfold green_adapter. m_run.
  destruct (_validate_green_grant bound g) as [[]|e]; [|by split; [|exists []]].
  specialize (Hb w Hw). by destruct (backend bound g w) as [[r|e] w1].
Qed.

Lemma prepare_green_run clock bound nodes ttl now parent w :
  pd_effect_class (bo_policy_decision bound) = GREEN →
  prepare_green_authority clock bound nodes ttl now parent w =
  prepare clock nodes default_registry default_planner (bo_universal_task bound)
    (bo_operation_ir bound) (rb_adapter_id (bo_binding bound)) (rb_lane (bo_binding bound))
    (bo_lease_scope_key bound) (bo_target_state_ref bound) ttl now parent ∅ w.
Proof.
  intros Hg. unfold prepare_green_authority. rewrite Hg, default_registry_ok, default_planner_ok.
  reflexivity.
Qed.

Lemma grant_green_run clock handoff nodes current_ref now w :
  grant_green_authority clock handoff nodes current_ref now w =
  grant clock nodes default_registry current_ref handoff now w.
Proof. unfold grant_green_authority. by rewrite default_registry_ok. Qed.

(** The stages by cases: they refused, whatever the backend, or the start is in
    the ledger, or the operation is closed. *)
Lemma green_stages_spec clock bound nodes current_ref backend now ttl parent w r w' :
  world_wf w → registry_wf nodes → (∀ g, uses_stores (backend bound g)) →
  pd_effect_class (bo_policy_decision bound) = GREEN →
  let stages backend := green_stages clock bound nodes current_ref backend now ttl parent in
  stages backend w = (r, w') →
  world_wf w' ∧
  match r with
  | Ok rc => closed_as bound (_from_green_receipt bound rc) (phase_at bound w')
  | Raise e => (∀ backend', stages backend' w = (Raise e, w')) ∨ settled (phase_at bound w')
  end.
Proof.
  intros Hw Hn Hback Hg stages. unfold stages, green_stages. m_run.
  rewrite prepare_green_run by done.
  pose proof (prepare_spec clock nodes default_registry default_planner (bo_universal_task bound)
    (bo_operation_ir bound) (rb_adapter_id (bo_binding bound)) (rb_lane (bo_binding bound))
    (bo_lease_scope_key bound) (bo_target_state_ref bound) ttl now parent ∅ Hn w Hw) as Hp.
  destruct (prepare _ _ _ _ _ _ _ _ _ _ _ _ _ _ w) as [[h|e] w1]; destruct Hp as (Hw1 & _ & _ & Hp).
  2: { intros [= <- <-]. split; [done|]. by left. }
  destruct Hp as (route & env_plan & _ & _ & _ & _ & _ & Hplan & _ & _ & _ & Hh).
  rewrite grant_green_run.
  pose proof (grant_keeps clock nodes default_registry current_ref h now w1) as Hkeep.
  cbv zeta in Hkeep.
  destruct (grant _ _ _ _ _ _ w1) as [[g|e] w2] eqn:Eg; cbn [snd] in Hkeep;
    (assert (Hw2 : world_wf w2) by (destruct Hkeep as [El Els]; split;
      [destruct Els as [-> | ->]; [apply Hw1|apply lease_wf_tick, Hw1]|rewrite El; apply Hw1])).
  2: { intros [= <- <-]. split; [done|]. by left. }
  apply grant_inv in Eg as (_ & _ & receipt & _ & ->); [|done].
  set (g := granted_of h receipt). intros H.
  assert (Hkey : g_idempotency_key g = key_of bound).
  { cbn. rewrite Hh. cbn. by apply plan_ok in Hplan as (m & _ & _ & _ & _ & _ & ->). }
  assert (Hlane : g_lane g = lane_value (rb_lane (bo_binding bound))) by (cbn; by rewrite Hh).
  apply run_spec in H as [Hw' H]; [|done|by apply green_adapter_uses, Hback].
  split; [done|]. rewrite Hkey in H. destruct r as [rc|e].
  - destruct H as (w3 & x & w4 & res & t & released & _ & Hex & Hx & -> & -> & Ht).
    apply (green_receipt_closed bound g x res t released); [|assumption..].
    unfold green_adapter in Hex. apply M_bind_ok in Hex as ([] & s & Hv & _).
    by apply lift_ok in Hv as [Hv _].
  - destruct H as [_ [(_ & _ & Hall)|(res & Hle)]]; [|right; by eapply started_settled].
    left. intros backend'. apply Hall.
Qed.

(** A GREEN dispatch by its stages. *)
Lemma green_dispatch_run clock bound node current_ref backend now ttl parent w :
  world_wf w → pd_effect_class (bo_policy_decision bound) = GREEN →
  run_green_authoritative_dispatch clock bound node current_ref backend now ttl parent w =
  if decide (settled (phase_at bound w)) then (settled_reply bound (phase_at bound w), w)
  else match _exact_node_registry bound node now with
       | Raise e => (Raise e, w)
       | Ok nodes =>
           match green_stages clock bound nodes current_ref backend now ttl parent w with
           | (Ok execution, w') => (Ok (_from_green_receipt bound execution), w')
           | (Raise e, w') => (Raise (dispatch_error e), w')
           end
       end.
Proof.
  intros Hw Hg. unfold run_green_authoritative_dispatch.
  rewrite (bool_decide_eq_true_2 _ Hg). cbn [negb raise_if].
  change ((lift (Ok tt) ≫= ?f) w) with (f tt w). cbv beta. rewrite replay_prefix by done.
  destruct (decide _); m_run; [by destruct (settled_reply _ _)|].
  destruct (_exact_node_registry _ _ _) as [nodes|e]; [|done].
  by destruct (green_stages _ _ _ _ _ _ _ _ w) as [[x|e] w'].
Qed.

(** What a GREEN dispatch leaves. *)
Lemma green_dispatch_spec clock bound node current_ref backend now ttl parent w r w' :
  world_wf w → (∀ g, uses_stores (backend bound g)) →
  let dispatch backend :=
    run_green_authoritative_dispatch clock bound node current_ref backend now ttl parent in
  dispatch backend w = (r, w') →
  world_wf w' ∧
  ((∀ backend', dispatch backend' w = (r, w')) ∨ settled (phase_at bound w')) ∧
  ∀ rc, r = Ok rc →
    pd_effect_class (bo_policy_decision bound) = GREEN ∧
    (settled_reply bound (phase_at bound w) = Ok rc ∧ settled (phase_at bound w) ∧ w' = w ∨
     closed_as bound rc (phase_at bound w')).
Proof.
  intros Hw Hback dispatch. unfold dispatch.
  destruct (decide (pd_effect_class (bo_policy_decision bound) = GREEN)) as [Hg|Hg].
  2: { unfold run_green_authoritative_dispatch. rewrite (bool_decide_eq_false_2 _ Hg). m_run.
       intros [= <- <-]. split; [done|]. split; [by left|done]. }
  rewrite green_dispatch_run by done.
  assert (Hrun : ∀ backend', _) by (intros backend'; by apply
    (green_dispatch_run clock bound node current_ref backend' now ttl parent w)).
  destruct (decide (settled _)) as [Hs|Hs].
  { intros [= <- <-]. split; [done|]. split; [by left|]. intros rc Hrc. split; [done|]. by left. }
  destruct (_exact_node_registry bound node now) as [nodes|e] eqn:En.
  2: { intros [= <- <-]. split; [done|]. split; [by left|done]. }
  apply exact_registry_wf in En.
  destruct (green_stages _ _ _ _ _ _ _ _ w) as [[x|e] w1] eqn:Es;
    apply green_stages_spec in Es as [Hw1 Es]; try assumption; intros [= <- <-]; (split; [done|]).
  - split; [|by intros rc [= <-]; auto]. right. by destruct Es as (_ & _ & ? & ? & ? & -> & _).
  - split; [|done]. destruct Es as [Hall|?]; [left|by right]. intros backend'.
    by rewrite Hrun, Hall.
Qed.

(** ** The privileged dispatch *)
Lemma mark_started_ok i f g l st l' :
  ledger_wf l → mark_started i f g l = (Ok st, l') →
  ledger_wf l' ∧ start_execution_grant_hash st = g ∧
  ∃ res, phase_of (id_idempotency_key i) l' = Live res f (Some st) ∧ ev_identity res = i.
Proof.
  intros Hwf H. pose proof (implements_elim _ _ _ _ Hwf (start_implements i f g l Hwf)) as Hi.
  rewrite H in Hi. cbn [fst snd] in Hi. destruct Hi as (Hwf' & _ & Hi). split; [done|].
  destruct (spec_start i f g _) as [[s q]|e] eqn:E; [|by destruct Hi].
  destruct Hi as [[= ->] Hp]. apply spec_start_ok in E as (res & st' & _ & Hid & -> & _ & ->).
  split; [done|]. by exists res.
Qed.

Lemma finish_ok i f (ok : bool) reason refs b a v l t l' :
  ledger_wf l → finish i f ok reason refs b a v l = (Ok t, l') →
  ledger_wf l' ∧ _public_refs [b; a] = Ok tt ∧
  ∃ res start, phase_of (id_idempotency_key i) l' = Done res t start ∧
    evidence_of t i ok reason refs b a v.
Proof.
  intros Hwf H.
  pose proof (implements_elim _ _ _ _ Hwf (finish_implements i f ok reason refs b a v l Hwf)) as Hi.
  rewrite H in Hi. cbn [fst snd] in Hi. destruct Hi as (Hwf' & _ & Hi). split; [done|].
  pose proof (phase_of_facts (id_idempotency_key i) l Hwf) as Hf.
  destruct (spec_finish _ _ _ _ _ _ _ _ _ _) as [[s q]|e] eqn:E; [|by destruct Hi].
  destruct Hi as [[= ->] Hp]. rewrite Hp. clear H Hp. unfold spec_finish in E. inv_ok.
  split; [done|].
  destruct (phase_of (id_idempotency_key i) l) as [|r f' s'|r t' s'];
    cbn [spec_reservation] in *; inv_ok; simplify_eq; eexists _, _; (split; [reflexivity|]);
    [done|].
  destruct Hf as (_ & _ & _ & Hid). cbn [ev_event_type new_event] in *. by split_and!; [congruence|..].
Qed.

Lemma uses_mark i f g : uses_stores (on_ledger (mark_started i f g)).
Proof.
  apply (uses_ledger _ (OpStart i f g)). intros l. cbn. m_run.
  by destruct (mark_started i f g l) as [[|] ?].
Qed.

Lemma uses_finish i f ok reason refs b a v :
  uses_stores (on_ledger (finish i f ok reason refs b a v)).
Proof.
  apply (uses_ledger _ (OpFinish i f ok reason refs b a v)). intros l. cbn. m_run.
  by destruct (finish i f ok reason refs b a v l) as [[|] ?].
Qed.

Lemma uses_ledger_reserve i f s n : uses_stores (on_ledger (Ledger.reserve i f s n)).
Proof.
  apply (uses_ledger _ (OpReserve i f s n)). intros l. cbn. m_run.
  by destruct (Ledger.reserve i f s n l) as [[|] ?].
Qed.

Lemma uses_acquire clock req : uses_stores (on_leases (Leases.reserve clock req)).
Proof.
  apply uses_leases. intros s Hs. destruct (Leases.reserve clock req s) as [r s'] eqn:E.
  by apply lease_reserve_spec in E as [? _].
Qed.

Lemma uses_release clock lane scope owner f :
  uses_stores (on_leases (release_exact clock lane scope owner f)).
Proof.
  apply uses_leases. intros s Hs. destruct (release_exact clock lane scope owner f s) as [r s'] eqn:E.
  by apply release_refines in E as [? _].
Qed.

Lemma uses_reserve_authority bound f : uses_stores (reserve_privileged_authority bound f).
Proof.
  unfold reserve_privileged_authority.
  repeat (apply uses_bind; [first [apply uses_lift|apply uses_ledger_reserve]|intros ?]).
  apply uses_lift.
Qed.

Section privileged_lemmas.
Context (clock : nat → Z) (bound : BoundRunnerOperation) (owner : string)
  (current_ref : result string) (evidence_refs : list string) (fresh_authority : bool)
  (ttl_seconds : Z).
Notation authorize := (privileged_authorize clock bound owner current_ref evidence_refs
  fresh_authority ttl_seconds).
Notation stages backend := (privileged_stages clock bound owner current_ref backend evidence_refs
  fresh_authority ttl_seconds).

Lemma uses_authorize : uses_stores authorize.
Proof.
  unfold privileged_authorize.
  repeat (apply uses_bind; [first [apply uses_lift|apply uses_query|apply uses_acquire
    |apply uses_reserve_authority]|intros ?]).
  apply uses_lift.
Qed.

(** What the grant of a privileged operation binds. *)
Record privileged_grant_of (g : PrivilegedExecutionGrant) : Prop := {
  pgo_operation : pg_operation_id g = op_operation_id (bo_operation_ir bound);
  pgo_key : pg_idempotency_key g = key_of bound;
  pgo_adapter : pg_adapter_id g = rb_adapter_id (bo_binding bound);
  pgo_target : pg_target_state_ref g = bo_target_state_ref bound;
  pgo_resources : pg_resources g = op_resources (bo_operation_ir bound);
  pgo_effects : pg_effects g = op_effects (bo_operation_ir bound);
  pgo_class : pg_effect_class g = pd_effect_class (bo_policy_decision bound);
  pgo_evidence : pg_approval_evidence_refs g = evidence_refs
}.

(** Operator evidence was given for it, fresh when RED. *)
Definition evidenced : Prop :=
  evidence_refs ≠ [] ∧ (∀ ref, ref ∈ evidence_refs → Pep._public_ref ref = true) ∧
  (pd_effect_class (bo_policy_decision bound) = RED → fresh_authority = true).

Lemma evaluate_brokered envelope ledger claim verify r :
  evaluate envelope ledger (Some claim) (Some verify) = Ok (Brokered r) →
  pb_adapter_id r = env_adapter_id envelope ∧ pb_operation_id r = env_operation_id envelope ∧
  pb_target_state_ref r = env_target_state_ref envelope ∧
  pb_fence_token r = env_fence_token envelope ∧
  pb_idempotency_key r = env_idempotency_key envelope ∧
  pb_effect_class r = env_effect_class envelope.
Proof.
  unfold evaluate. intros H. inv_ok. destruct a0 as [[? ?] ?]. inv_ok.
  destruct (env_effect_class envelope == GREEN); [by inv_ok|]. inv_ok. by simplify_eq.
Qed.

Lemma authorize_inv w f g w' :
  world_wf w → authorize w = (Ok (f, g), w') →
  world_wf w' ∧ current_ref = Ok (bo_target_state_ref bound) ∧ privileged_grant_of g ∧
  evidenced ∧ pg_fence_token g = f ∧ pd_effect_class (bo_policy_decision bound) ≠ GREEN.
Proof.
  intros Hw H. destruct (uses_authorize w Hw) as [Hw' _]. rewrite H in Hw'. split; [done|].
  unfold privileged_authorize in H. inv_ok. injection H as <- <- <-.
  match goal with H : on_leases _ w = (_, ?s1), H' : reserve_privileged_authority _ _ ?s1 = (_, ?s2)
    |- _ => rename s1 into w1, s2 into w2, H into Hlease, H' into Hres end.
  assert (Hw2 : world_wf w2).
  { destruct (uses_acquire clock (privileged_request bound owner ttl_seconds) w Hw) as [Hw1 _]. rewrite Hlease in Hw1.
    destruct (uses_reserve_authority bound (receipt_fence_token a) w1 Hw1) as [Hw2 _].
    by rewrite Hres in Hw2. }
  unfold reserve_privileged_authority in Hres. inv_ok. injection Hres as <- <-.
  unfold authorize_privileged_broker_request in Hr1. apply result_bind_ok in Hr1 as (out & Hev & Hout).
  destruct out as [|request]; [done|]. injection Hout as ->.
  unfold or_authority_error in Hev.
  destruct (evaluate _ _ _ _) as [out|e] eqn:E; [|by destruct e]. injection Hev as ->.
  apply evaluate_brokered in E as Hpb. apply evaluate_ok in E as (_ & _ & Hng & _ & Hpr & Hpe & c & v &
    [= <-] & [= <-] & (He1 & He2 & _ & _ & _ & _ & Hfresh & _) & Hev2); [|apply Hw2].
  unfold _privileged_execution_grant in Hr2. rewrite !seq_ok in Hr2.
  destruct Hr2 as (_ & _ & Hr2). injection Hr2 as <-.
  unfold check_target in Hr3. inv_ok. apply plan_ok in Hr4 as (m & _ & _ & _ & _ & _ & ->).
  destruct Hpb as (P1 & P2 & P3 & P4 & P5 & P6). split; [congruence|].
  split; [by split|]. by split_and!.
Qed.

(** The effect closes the operation with its validated result, or raises and
    keeps the start. *)
Lemma privileged_effect_spec backend f g w r w' res st :
  world_wf w → uses_stores (backend bound g) → phase_at bound w = Live res f (Some st) →
  privileged_effect clock bound owner backend f g w = (r, w') →
  world_wf w' ∧ phase_le (Live res f (Some st)) (phase_at bound w') ∧
  ∀ mr released, r = Ok (mr, released) →
    _validate_privileged_mechanical_result bound g mr = Ok tt ∧
    ∃ t, phase_at bound w' = Done res t (Some st) ∧
      closed_as bound (privileged_receipt bound mr released) (phase_at bound w').
Proof.
  intros Hw Hback Hp H.
  assert (Huses : uses_stores (privileged_effect clock bound owner backend f g)).
  { unfold privileged_effect. repeat (apply uses_bind; [first [assumption|apply uses_lift
      |apply uses_finish|apply uses_release]|intros ?]). apply uses_lift. }
  destruct (uses_stores_le _ _ _ _ (key_of bound) Huses Hw H) as [Hw' Hle]. rewrite Hp in Hle.
  split; [done|]. split; [done|]. intros mr released ->.
  unfold privileged_effect in H. inv_ok. injection H as <- <- <-.
  match goal with Hb : backend bound g w = (Ok ?x, ?s), Hf : on_ledger _ ?s = (Ok ?e, ?s') |- _ =>
    rename x into mr, s into w1, s' into w2, Hb into Hb, Hf into Hfin end.
  destruct (uses_stores_le _ _ _ _ (key_of bound) Hback Hw Hr) as [Hw1 _].
  rewrite on_ledger_run in Hfin. rewrite on_leases_run in Hr2.
  destruct (finish _ _ _ _ _ _ _ _ _) as [rf l2] eqn:Ef. cbn [fst snd] in Hfin.
  injection Hfin as -> <-. injection Hr2 as _ <-. cbn [w_ledger] in *.
  apply finish_ok in Ef as (_ & Hba & res' & start & Hd & Hev); [|apply Hw1].
  cbn [bound_identity id_idempotency_key] in Hd. rewrite Hd in Hle |- *.
  destruct Hle as (<- & _ & ->). split; [done|]. exists a1. split; [done|].
  apply (evidence_closed _ _ _ _ _ (mr_succeeded mr) (mr_reason_code mr) (mr_touched_resources mr)
    (mr_before_state_ref mr) (mr_after_state_ref mr) (mr_validation_status mr));
    try assumption; try reflexivity.
  unfold _validate_privileged_mechanical_result in Hr0. rewrite !seq_ok, !raise_if_ok in Hr0.
  destruct Hr0 as (_ & Hr0 & _). by bool_facts.
Qed.

(** The stages by cases: they refused before the start, whatever the backend, or
    the start of an authorized grant is in the ledger; they return only once the
    operation is closed with the backend's validated result. *)
Lemma privileged_stages_spec backend w r w' :
  world_wf w → (∀ g, uses_stores (backend bound g)) →
  stages backend w = (r, w') →
  world_wf w' ∧
  ((∀ backend', stages backend' w = (r, w')) ∨ settled (phase_at bound w')) ∧
  ∀ mr released, r = Ok (mr, released) → ∃ g res t st,
    privileged_grant_of g ∧ evidenced ∧ current_ref = Ok (bo_target_state_ref bound) ∧
    pd_effect_class (bo_policy_decision bound) ≠ GREEN ∧
    _validate_privileged_mechanical_result bound g mr = Ok tt ∧
    phase_at bound w' = Done res t (Some st) ∧
    start_execution_grant_hash st = _privileged_grant_hash g ∧
    closed_as bound (privileged_receipt bound mr released) (phase_at bound w').
Proof.
  intros Hw Hback. unfold privileged_stages. m_run.
  destruct (authorize w) as [[[f g]|e] w1] eqn:Ha.
  2: { intros [= <- <-]. destruct (uses_authorize w Hw) as [Hw1 _]. rewrite Ha in Hw1.
       split; [done|]. split; [by left|done]. }
  apply authorize_inv in Ha as (Hw1 & Hcur & Hg & Hev & Hf & Hng); [|done].
  destruct (uses_mark (bound_identity bound) f (_privileged_grant_hash g) w1 Hw1) as [Hw2 _].
  destruct (on_ledger _ w1) as [[st|e] w2] eqn:Em; cbn [snd] in Hw2.
  2: { intros [= <- <-]. split; [done|]. split; [by left|done]. }
  rewrite on_ledger_run in Em.
  destruct (mark_started _ _ _ _) as [rm l2] eqn:Em'; cbn [fst snd] in Em. injection Em as -> <-.
  apply mark_started_ok in Em' as (_ & Hsh & res & Hp2 & _); [|apply Hw1].
  intros H. apply (privileged_effect_spec backend f g _ r w' res st) in H as (Hw' & Hle & Hok);
    [|assumption|apply Hback|assumption].
  split; [done|]. split; [right; by eapply started_settled|].
  intros mr released Hr. destruct (Hok mr released Hr) as (Hv & t & Hd & Hc).
  exists g, res, t, st. split_and!; assumption.
Qed.
End privileged_lemmas.

(** The checks between the replay and the stages. *)
Definition privileged_route (bound : BoundRunnerOperation) (node_snapshot : NodeCapabilitySnapshot)
    (first_ref : result string) (now : Z) : result unit :=
  nodes ← _exact_node_registry bound node_snapshot now;
  route ← Routing.plan nodes (bo_universal_task bound) (rb_adapter_id (bo_binding bound))
    (rb_lane (bo_binding bound)) now;
  raise_if ((rp_status route != "ROUTED")
            || (rp_selected_node_id route != Some (ns_node_id node_snapshot)))
    (derr (rp_reason_code route));;
  check_target bound first_ref.

(** A privileged dispatch by its stages. *)
Lemma privileged_dispatch_run clock bound node first second backend evidence fresh now ttl w :
  world_wf w → pd_effect_class (bo_policy_decision bound) ≠ GREEN →
  run_privileged_authoritative_dispatch clock bound node first second backend evidence fresh now
    ttl w =
  if decide (settled (phase_at bound w)) then (settled_reply bound (phase_at bound w), w)
  else match privileged_route bound node first now with
       | Raise e => (Raise e, w)
       | Ok _ =>
           match privileged_stages clock bound (ns_node_id node) second backend evidence fresh ttl w
           with
           | (Ok (r, released), w') => (Ok (privileged_receipt bound r released), w')
           | (Raise e, w') => (Raise (privileged_error e), w')
           end
       end.
Proof.
  intros Hw Hg. unfold run_privileged_authoritative_dispatch, privileged_route.
  rewrite (bool_decide_eq_false_2 _ Hg). cbn [raise_if].
  change ((lift (Ok tt) ≫= ?f) w) with (f tt w). cbv beta. rewrite replay_prefix by done.
  destruct (decide _); m_run; [by destruct (settled_reply _ _)|].
  destruct (_exact_node_registry _ _ _) as [nodes|e]; [|done].
  destruct (Routing.plan _ _ _ _ _) as [route|e]; [|done].
  destruct (raise_if _ _) as [u|e]; [|done].
  destruct (check_target _ _) as [u'|e]; [|done].
  by destruct (privileged_stages _ _ _ _ _ _ _ _ w) as [[[r released]|e] w'].
Qed.

(** What a privileged dispatch leaves. *)
Lemma privileged_dispatch_spec clock bound node first second backend evidence fresh now ttl w r w' :
  world_wf w → (∀ g, uses_stores (backend bound g)) →
  let dispatch backend := run_privileged_authoritative_dispatch clock bound node first second
    backend evidence fresh now ttl in
  dispatch backend w = (r, w') →
  world_wf w' ∧
  ((∀ backend', dispatch backend' w = (r, w')) ∨ settled (phase_at bound w')) ∧
  ∀ rc, r = Ok rc →
    pd_effect_class (bo_policy_decision bound) ≠ GREEN ∧
    (settled_reply bound (phase_at bound w) = Ok rc ∧ settled (phase_at bound w) ∧ w' = w ∨
     ∃ mr released g res t st, rc = privileged_receipt bound mr released ∧
       first = Ok (bo_target_state_ref bound) ∧ second = Ok (bo_target_state_ref bound) ∧
       privileged_grant_of bound evidence g ∧ evidenced bound evidence fresh ∧
       _validate_privileged_mechanical_result bound g mr = Ok tt ∧
       phase_at bound w' = Done res t (Some st) ∧
       start_execution_grant_hash st = _privileged_grant_hash g ∧
       closed_as bound rc (phase_at bound w')).
Proof.
  intros Hw Hback dispatch. unfold dispatch.
  destruct (decide (pd_effect_class (bo_policy_decision bound) = GREEN)) as [Hg|Hg].
  { unfold run_privileged_authoritative_dispatch. rewrite (bool_decide_eq_true_2 _ Hg). m_run.
    intros [= <- <-]. split; [done|]. split; [by left|done]. }
  rewrite privileged_dispatch_run by done.
  assert (Hrun : ∀ backend', _) by (intros backend'; by apply
    (privileged_dispatch_run clock bound node first second backend' evidence fresh now ttl w)).
  destruct (decide (settled _)) as [Hs|Hs].
  { intros [= <- <-]. split; [done|]. split; [by left|]. intros rc Hrc. split; [done|]. by left. }
  destruct (privileged_route bound node first now) as [u|e] eqn:Er.
  2: { intros [= <- <-]. split; [done|]. split; [by left|done]. }
  assert (Hfirst : first = Ok (bo_target_state_ref bound)).
  { unfold privileged_route, check_target in Er. inv_ok. by subst. }
  destruct (privileged_stages _ _ _ _ _ _ _ _ w) as [[[mr released]|e] w1] eqn:Es;
    apply privileged_stages_spec in Es as (Hw1 & Hor & Hok); try assumption;
    intros [= <- <-]; (split; [done|]).
  - split; [destruct Hor as [Hall|?]; [left|by right]; intros backend'; by rewrite Hrun, Hall|].
    intros rc [= <-]. split; [done|]. right.
    destruct (Hok mr released eq_refl) as (g & res & t & st & ? & ? & ? & _ & ? & ? & ? & ?).
    exists mr, released, g, res, t, st. split_and!; assumption || reflexivity.
  - split; [|done]. destruct Hor as [Hall|?]; [left|by right]. intros backend'.
    by rewrite Hrun, Hall.
Qed.

(** ** A privileged reservation that lost its fence *)
Definition privileged_lock (w : World) : lock :=
  abs_lock (w_leases w) (PRIVILEGED, PRIVILEGED_GLOBAL_LEASE_SCOPE_KEY).

(** The operation is reserved at a fence the global lease has passed. *)
Definition outrun (bound : BoundRunnerOperation) (w : World) : Prop :=
  world_wf w ∧ ∃ res f, phase_at bound w = Live res f None ∧ f < lock_fence (privileged_lock w).

Lemma outrun_reserve bound f w r w' :
  outrun bound w → lock_fence (privileged_lock w) = f → 1 ≤ f < 2 ^ 63 →
  reserve_privileged_authority bound f w = (r, w') →
  outrun bound w' ∧ ∀ envelope, r = Ok envelope → ∃ planner,
    Adapters.plan (rb_adapter_id (bo_binding bound)) (bo_universal_task bound)
      (bo_operation_ir bound) (bo_policy_input bound) (bo_policy_decision bound)
      (bo_target_state_ref bound) f planner = Ok envelope ∧ w_leases w' = w_leases w.
Proof.
  intros [[Hlw Hgw] (res & f0 & Hp & Hlt)] Hf Hrange.
  assert (Hout : outrun bound w) by (split; [done|by exists res, f0]).
  unfold reserve_privileged_authority. m_run.
  destruct (raise_if _ _) as [[]|e]; [|by intros [= <- <-]].
  destruct (single_planner _) as [planner|e]; [|by intros [= <- <-]].
  destruct (Adapters.plan _ _ _ _ _ _ _ _) as [envelope|e] eqn:Hplan; [|by intros [= <- <-]].
  rewrite on_ledger_run.
  pose proof (ledger_reserve_spec (bo_operation_ir bound) (bo_target_state_ref bound) f
    (reservation_scope_fingerprint envelope) _ Hgw Hrange) as H.
  change (prepare_identity (bo_operation_ir bound) (bo_target_state_ref bound))
    with (bound_identity bound) in H.
  destruct (Ledger.reserve _ _ _ _ _) as [rr l']. cbn [fst snd]. destruct H as (Hwf' & _ & H).
  assert (Hp' : phase_of (key_of bound) l' = Live res f0 None).
  { destruct rr as [ev|e]; [|by destruct H as [_ ->]]. destruct H as [_ H]. by rewrite Hp in H. }
  assert (Hout' : outrun bound {| w_leases := w_leases w; w_ledger := l' |})
    by (split; [done|by exists res, f0]).
  destruct rr as [ev|e]; intros [= <- <-]; (split; [exact Hout'|]); [|done].
  intros envelope' [= <-]. exists planner. by split.
Qed.

Lemma outrun_authorize clock bound owner second evidence fresh ttl w r w' :
  outrun bound w →
  privileged_authorize clock bound owner second evidence fresh ttl w = (r, w') →
  outrun bound w' ∧ ∃ e, r = Raise e.
Proof.
  intros [[Hlw Hgw] (res & f0 & Hp & Hlt)]. unfold privileged_authorize. m_run. rewrite on_leases_run.
  destruct (Leases.reserve clock (privileged_request bound owner ttl) (w_leases w)) as [rl s1] eqn:El.
  apply lease_reserve_spec in El as (Hs1 & _ & El); [|done]. cbn [fst snd].
  change (request_key (privileged_request bound owner ttl))
    with (PRIVILEGED, PRIVILEGED_GLOBAL_LEASE_SCOPE_KEY) in El.
  set (w1 := {| w_leases := s1; w_ledger := w_ledger w |}).
  assert (Hw1 : lock_fence (privileged_lock w) ≤ lock_fence (privileged_lock w1) → outrun bound w1).
  { intros Hle. split; [done|]. exists res, f0. split; [done|lia]. }
  unfold privileged_lock in Hw1. cbn [w_leases w1] in Hw1.
  destruct rl as [rc|e].
  2: { destruct El as [El _]. intros [= <- <-]. split; [apply Hw1; by rewrite El|by eexists]. }
  destruct El as ([Hf _] & Hrange & Hcase).
  assert (Hout1 : outrun bound w1)
    by (apply Hw1; destruct Hcase as [(_ & _ & ?)|[_ ->]]; [rewrite Hf; lia|lia]).
  destruct (reserve_privileged_authority bound (receipt_fence_token rc) w1) as [rr w2] eqn:Er.
  apply outrun_reserve in Er as [Hout2 Henv]; try assumption.
  destruct rr as [envelope|e]; [|intros [= <- <-]; split; [exact Hout2|by eexists]].
  destruct (Henv envelope eq_refl) as (planner & Hplan & Hl2).
  unfold authorize_privileged_broker_request. m_run.
  destruct (evaluate envelope (w_ledger w2) _ _) as [out|e] eqn:Ee.
  { exfalso. destruct Hout2 as [Hw2 (res2 & f2 & Hp2 & Hlt2)].
    apply evaluate_ok in Ee as (_ & (res3 & Hp3 & _) & _); [|apply Hw2].
    apply plan_ok in Hplan as (m & _ & _ & _ & _ & _ & ->).
    cbn [env_idempotency_key env_fence_token] in Hp3. rewrite Hp2 in Hp3.
    injection Hp3 as _ ->. unfold privileged_lock in Hlt2. rewrite Hl2 in Hlt2.
    cbn [w_leases w1] in Hlt2. lia. }
  unfold or_authority_error. destruct e; intros [= <- <-]; (split; [exact Hout2|by eexists]).
Qed.

(** ** Later worlds *)

(** The stores after further ledger calls; the leases are arbitrary. *)
Definition later (w w' : World) : Prop :=
  world_wf w' ∧ ∃ ops, w_ledger w' = ledger_run ops (w_ledger w).

Lemma later_le bound w w' :
  world_wf w → later w w' → phase_le (phase_at bound w) (phase_at bound w').
Proof. intros Hw [_ [ops ->]]. apply run_le, Hw. Qed.

Lemma later_settled bound w w' :
  world_wf w → later w w' → settled (phase_at bound w) → settled (phase_at bound w').
Proof. intros Hw Hl Hs. by eapply settled_le, later_le. Qed.

Lemma later_refl w : world_wf w → later w w.
Proof. intros Hw. split; [done|by exists []]. Qed.

(** A dispatched receipt, as every later dispatch replays it. *)
Lemma later_reply bound w w' w2 rc :
  world_wf w' → later w' w2 →
  settled_reply bound (phase_at bound w) = Ok rc ∧ settled (phase_at bound w) ∧ w' = w ∨
    closed_as bound rc (phase_at bound w') →
  settled (phase_at bound w2) ∧ settled_reply bound (phase_at bound w2) = Ok (as_replay rc).
Proof.
  intros Hw' Hl Hcase. pose proof (later_le bound _ _ Hw' Hl) as Hle.
  assert (∃ res t s, phase_at bound w' = Done res t s ∧
    settled_reply bound (Done res t s) = Ok (as_replay rc)) as (res & t & s & Hd & Hr).
  { destruct Hcase as [(Hr & Hs & ->)|(_ & _ & res & t & st & Hd & Hr)].
    - destruct (phase_at bound w) as [|? ? ?|res t s]; [done|done|]. exists res, t, s.
      split; [done|]. cbn [settled_reply] in Hr |- *. apply seq_ok in Hr as [Hi Hr].
      rewrite Hi. by injection Hr as <-.
    - rewrite Hd in Hr. by exists res, t, (Some st). }
  rewrite Hd in Hle. cbn [phase_le] in Hle. by rewrite <-Hle.
Qed.

(** ** Properties *)

(** C2. A GREEN effect happens at most once: whatever the backend does with the
    stores through their operations, a dispatch either never reached it - its
    outcome is the same for every backend - or the operation is settled, and
    then every later dispatch of it, under any clock, node, verifier and
    backend and after any further ledger calls, answers from the ledger alone:
    the recorded terminal evidence, or
    [VNEXT_DISPATCH_STARTED_NEEDS_RECOVERY], with no change to the stores. *)
Theorem green_executes_once clock bound node current_ref backend now ttl parent w r w' :
  world_wf w → (∀ g, uses_stores (backend bound g)) →
  run_green_authoritative_dispatch clock bound node current_ref backend now ttl parent w = (r, w') →
  (∀ backend', run_green_authoritative_dispatch clock bound node current_ref backend' now ttl parent
     w = (r, w')) ∨
  settled (phase_at bound w') ∧
  ∀ clock2 node2 current_ref2 backend2 now2 ttl2 parent2 w2, later w' w2 →
    run_green_authoritative_dispatch clock2 bound node2 current_ref2 backend2 now2 ttl2 parent2 w2
      = (settled_reply bound (phase_at bound w2), w2).
Proof.
  intros Hw Hback H.
  destruct (decide (pd_effect_class (bo_policy_decision bound) = GREEN)) as [Hg|Hg].
  2: { left. intros backend'. rewrite <-H. unfold run_green_authoritative_dispatch.
       by rewrite (bool_decide_eq_false_2 _ Hg). }
  apply green_dispatch_spec in H as (Hw' & [Hall|Hs] & _); [by left| |done..].
  right. split; [done|]. intros * Hl. rewrite green_dispatch_run; [|apply Hl|done].
  by rewrite decide_True by (by eapply later_settled).
Qed.

(** A GREEN receipt is the ledger's: when a dispatch returns a fresh receipt,
    the ledger holds the start and the terminal event of the operation, and
    every dispatch of it from then on - other nodes, clocks, verifiers and
    backends, and any ledger calls in between - returns the same receipt
    again, marked as a replay, and leaves the stores as they are. *)
Theorem green_dispatch_replays clock bound node current_ref backend now ttl parent w rc w' :
  world_wf w → (∀ g, uses_stores (backend bound g)) →
  run_green_authoritative_dispatch clock bound node current_ref backend now ttl parent w
    = (Ok rc, w') →
  (ad_replayed rc = false → ad_execution_started rc = true ∧
     ∃ res t st, phase_at bound w' = Done res t (Some st)) ∧
  ∀ clock2 node2 current_ref2 backend2 now2 ttl2 parent2 w2, later w' w2 →
    run_green_authoritative_dispatch clock2 bound node2 current_ref2 backend2 now2 ttl2 parent2 w2
      = (Ok (as_replay rc), w2).
Proof.
  intros Hw Hback H. apply green_dispatch_spec in H as (Hw' & _ & H); [|done..].
  destruct (H rc eq_refl) as [Hg Hcase]. split.
  - intros Hr. destruct Hcase as [(Hr' & Hs & _)|(_ & ? & res & t & st & ? & _)]; [|by eauto].
    exfalso. destruct (phase_at bound w); [done|done|]. cbn [settled_reply] in Hr'.
    apply seq_ok in Hr' as [_ Hr']. injection Hr' as <-. discriminate Hr.
  - intros * Hl. rewrite green_dispatch_run; [|apply Hl|done].
    destruct (later_reply _ _ _ _ _ Hw' Hl Hcase) as [Hs Hr]. by rewrite decide_True, Hr by done.
Qed.

(** C27. A privileged effect happens at most once as well: a privileged dispatch
    either never reached its backend or leaves the operation settled, and then
    every later dispatch of it answers from the ledger alone and changes
    nothing. *)
Theorem privileged_executes_once clock bound node first second backend evidence fresh now ttl w r w' :
  world_wf w → (∀ g, uses_stores (backend bound g)) →
  run_privileged_authoritative_dispatch clock bound node first second backend evidence fresh now ttl
    w = (r, w') →
  (∀ backend', run_privileged_authoritative_dispatch clock bound node first second backend' evidence
     fresh now ttl w = (r, w')) ∨
  settled (phase_at bound w') ∧
  ∀ clock2 node2 first2 second2 backend2 evidence2 fresh2 now2 ttl2 w2, later w' w2 →
    run_privileged_authoritative_dispatch clock2 bound node2 first2 second2 backend2 evidence2 fresh2
      now2 ttl2 w2 = (settled_reply bound (phase_at bound w2), w2).
Proof.
  intros Hw Hback H.
  destruct (decide (pd_effect_class (bo_policy_decision bound) = GREEN)) as [Hg|Hg].
  { left. intros backend'. rewrite <-H. unfold run_privileged_authoritative_dispatch.
    by rewrite (bool_decide_eq_true_2 _ Hg). }
  apply privileged_dispatch_spec in H as (Hw' & [Hall|Hs] & _); [by left| |done..].
  right. split; [done|]. intros * Hl. rewrite privileged_dispatch_run; [|apply Hl|done].
  by rewrite decide_True by (by eapply later_settled).
Qed.

(** C5. A privileged effect has authority: when a privileged dispatch returns a
    fresh receipt, the effect is not GREEN; public operator evidence was given,
    fresh when the class is RED; the verifier answered the bound target both
    before the lease and after the authorization; the backend's result passed
    the validation against a grant that binds the operation, adapter, target,
    resources, effects, class and evidence; and the ledger holds the start of
    exactly that grant and the terminal event every later replay of the
    receipt is read from. *)
Theorem privileged_dispatch_sound clock bound node first second backend evidence fresh now ttl w rc w' :
  world_wf w → (∀ g, uses_stores (backend bound g)) →
  run_privileged_authoritative_dispatch clock bound node first second backend evidence fresh now ttl
    w = (Ok rc, w') →
  ad_replayed rc = false →
  pd_effect_class (bo_policy_decision bound) ≠ GREEN ∧
  evidenced bound evidence fresh ∧
  first = Ok (bo_target_state_ref bound) ∧ second = Ok (bo_target_state_ref bound) ∧
  ∃ mr g res t st, privileged_grant_of bound evidence g ∧
    _validate_privileged_mechanical_result bound g mr = Ok tt ∧
    rc = privileged_receipt bound mr (ad_lease_released rc) ∧
    phase_at bound w' = Done res t (Some st) ∧
    start_execution_grant_hash st = _privileged_grant_hash g ∧
    settled_reply bound (phase_at bound w') = Ok (as_replay rc).
Proof.
  intros Hw Hback H Hr. apply privileged_dispatch_spec in H as (_ & _ & H); [|done..].
  destruct (H rc eq_refl) as [Hng [(Hr' & Hs & _)|Hcase]].
  - exfalso. destruct (phase_at bound w); [done|done|]. cbn [settled_reply] in Hr'.
    apply seq_ok in Hr' as [_ Hr']. injection Hr' as <-. discriminate Hr.
  - destruct Hcase as (mr & released & g & res & t & st & -> & ? & ? & ? & ? & ? & ? & ? &
      (_ & _ & ? & ? & ? & ? & ?)).
    do 4 (split; [assumption|]). exists mr, g, res, t, st. split_and!; assumption || reflexivity.
Qed.

(** C29. A privileged reservation that lost its fence is lost: once the global
    privileged lease has moved past the fence an operation was reserved at -
    its first attempt failed between the reservation and the start, and the
    lease was taken again - every dispatch of the operation raises and leaves
    it so, since the reservation is never rebound to the new fence. *)
Theorem privileged_retry_stuck clock bound node first second backend evidence fresh now ttl w r w' :
  outrun bound w →
  run_privileged_authoritative_dispatch clock bound node first second backend evidence fresh now ttl
    w = (r, w') →
  (∃ e, r = Raise e) ∧ outrun bound w'.
Proof.
  intros Hout H. pose proof Hout as [Hw (res & f & Hp & _)].
  destruct (decide (pd_effect_class (bo_policy_decision bound) = GREEN)) as [Hg|Hg].
  { revert H. unfold run_privileged_authoritative_dispatch. rewrite (bool_decide_eq_true_2 _ Hg).
    m_run. intros [= <- <-]. by eauto. }
  rewrite privileged_dispatch_run, decide_False in H by (done || by rewrite Hp; intros []).
  destruct (privileged_route _ _ _ _) as [u|e]; [|injection H as <- <-; by eauto].
  unfold privileged_stages in H.
  destruct (privileged_authorize clock bound (ns_node_id node) second evidence fresh ttl w)
    as [ra w1] eqn:Ea. apply outrun_authorize in Ea as Ho; [|done].
  destruct Ho as [Hout1 [e ->]]. revert H. m_run. rewrite Ea. intros [= <- <-]. by eauto.
Qed.

(** ** Witnesses *)
Definition demo_node (bound : BoundRunnerOperation) (generation : Z) : NodeCapabilitySnapshot :=
  {| ns_node_id := "node:a"; ns_generation := generation; ns_route_rank := 0;
     ns_capabilities := task_required_capabilities (bo_universal_task bound);
     ns_supported_adapters := [rb_adapter_id (bo_binding bound)];
     ns_supported_lanes := [rb_lane (bo_binding bound)];
     ns_privacy_classes := [task_privacy (bo_universal_task bound)];
     ns_resource_patterns := target_resources (bo_universal_task bound);
     ns_observed_at := 0; ns_expires_at := 60000000;
     ns_attestation_ref := "attestation:a" |}.

Definition demo_mechanical (bound : BoundRunnerOperation) : MechanicalResult :=
  {| mr_succeeded := true; mr_reason_code := "DONE";
     mr_touched_resources := op_resources (bo_operation_ir bound);
     mr_before_state_ref := bo_target_state_ref bound; mr_after_state_ref := "git:after";
     mr_validation_status := "PASS"; mr_rollback_requested := false |}.

Definition demo_green_bound : result BoundRunnerOperation :=
  bind_runner_operation RunnerTask.demo_task "validation" "validation" (Some "issue:1") None.

Definition demo_green_dispatch (bound : BoundRunnerOperation)
    : M World AuthoritativeDispatchReceipt :=
  run_green_authoritative_dispatch demo_clock bound (demo_node bound 1)
    (λ _, Ok (bo_target_state_ref bound)) (λ bound _, mret (demo_mechanical bound)) 1000 60000000 ∅.

Lemma demo_green_facts :
  ∃ bound rc w, demo_green_dispatch bound demo_world = (Ok rc, w) ∧ ad_replayed rc = false.
Proof.
  assert (match demo_green_bound with
          | Ok bound => match (demo_green_dispatch bound demo_world).1 with
                        | Ok rc => negb (ad_replayed rc) | Raise _ => false end
          | Raise _ => false
          end = true) as H by (vm_compute; reflexivity).
  destruct demo_green_bound as [bound|e]; [|discriminate].
  exists bound. destruct (demo_green_dispatch bound demo_world) as [[rc|e] w]; [|discriminate].
  exists rc, w. split; [reflexivity|]. by apply negb_true_iff in H.
Qed.


Definition demo_merge : PrivilegedAuthorityInput :=
  {| pa_source_task_ref := "issue:2"; pa_target_state_ref := "git:abc";
     pa_resources := ["protected:main"]; pa_required_capabilities := ["publish_pull_request"];
     pa_privacy := PUBLIC_SAFE; pa_operator_boundary_evidence := ["operator:ok"];
     pa_idempotency_seed := "seed:1" |}.

Definition demo_privileged_bound : result BoundRunnerOperation :=
  bind_privileged_operation "merge" "merge" demo_merge.

Definition demo_privileged_dispatch (bound : BoundRunnerOperation) (clock : nat → Z)
    (second : result string) : M World AuthoritativeDispatchReceipt :=
  run_privileged_authoritative_dispatch clock bound (demo_node bound 1)
    (Ok (bo_target_state_ref bound)) second (λ bound _, mret (demo_mechanical bound))
    ["operator:ok"] true 1000 60000000.

(** The first attempt finds the target moved; the second, once the lease has
    run out, takes the lease at the next fence. *)
Definition late_clock (n : nat) : Z := 1000000000 + Z.of_nat n.

Definition demo_outrun (bound : BoundRunnerOperation) : World :=
  let w := (demo_privileged_dispatch bound demo_clock (Ok "git:moved") demo_world).2 in
  (demo_privileged_dispatch bound late_clock (Ok (bo_target_state_ref bound)) w).2.

Lemma demo_uses bound : uses_stores (mret (demo_mechanical bound) : M World _).
Proof. intros w Hw. split; [exact Hw|by exists []]. Qed.

Lemma demo_privileged_wf bound clock second w :
  world_wf w → world_wf (demo_privileged_dispatch bound clock second w).2.
Proof.
  intros Hw. destruct (demo_privileged_dispatch bound clock second w) as [r w'] eqn:E.
  apply privileged_dispatch_spec in E as [Hw' _]; [exact Hw'|exact Hw|].
  intros g. apply demo_uses.
Qed.

Lemma demo_privileged_facts :
  ∃ bound rc w, demo_privileged_dispatch bound demo_clock (Ok (bo_target_state_ref bound)) demo_world
      = (Ok rc, w) ∧ ad_replayed rc = false ∧ outrun bound (demo_outrun bound).
Proof.
  assert (match demo_privileged_bound with
          | Ok bound =>
              match (demo_privileged_dispatch bound demo_clock (Ok (bo_target_state_ref bound))
                       demo_world).1 with
              | Ok rc => negb (ad_replayed rc) | Raise _ => false end
              && match phase_at bound (demo_outrun bound) with
                 | Live _ f None => f <? lock_fence (privileged_lock (demo_outrun bound))
                 | _ => false end
          | Raise _ => false
          end = true) as H by (vm_compute; reflexivity).
  destruct demo_privileged_bound as [bound|e]; [|discriminate]. apply andb_true_iff in H as [H Ho].
  exists bound. destruct (demo_privileged_dispatch bound demo_clock _ demo_world)
    as [[rc|e] w]; [|discriminate].
  exists rc, w. split; [reflexivity|]. split; [by apply negb_true_iff in H|].
  split; [do 2 apply demo_privileged_wf; exact demo_world_wf|].
  destruct (phase_at bound (demo_outrun bound)) as [|res f [s|]|]; try discriminate.
  exists res, f. split; [reflexivity|]. by apply Z.ltb_lt.
Qed.

Lemma green_executes_once_witness :
  ∃ bound rc w, demo_green_dispatch bound demo_world = (Ok rc, w) ∧
    ((∀ backend, run_green_authoritative_dispatch demo_clock bound (demo_node bound 1)
        (λ _, Ok (bo_target_state_ref bound)) backend 1000 60000000 ∅ demo_world = (Ok rc, w)) ∨
     settled (phase_at bound w)).
Proof.
  destruct demo_green_facts as (bound & rc & w & H & _). exists bound, rc, w. split; [exact H|].
  destruct (green_executes_once demo_clock bound (demo_node bound 1) _ _ _ _ _ demo_world _ w
    demo_world_wf (λ _, demo_uses bound) H) as [Hall|[Hs _]]; [left; exact Hall|right; exact Hs].
Defined.

Lemma green_dispatch_replays_witness :
  ∃ bound rc w, demo_green_dispatch bound demo_world = (Ok rc, w) ∧
    demo_green_dispatch bound w = (Ok (as_replay rc), w).
Proof.
  destruct demo_green_facts as (bound & rc & w & H & _). exists bound, rc, w. split; [exact H|].
  pose proof (green_dispatch_spec _ _ _ _ _ _ _ _ _ _ _ demo_world_wf
    (λ _, demo_uses bound) H) as [Hw _].
  destruct (green_dispatch_replays demo_clock bound (demo_node bound 1) _ _ _ _ _ demo_world rc w
    demo_world_wf (λ _, demo_uses bound) H) as [_ Hl].
  apply Hl, later_refl, Hw.
Defined.

Lemma privileged_executes_once_witness :
  ∃ bound rc w, demo_privileged_dispatch bound demo_clock (Ok (bo_target_state_ref bound)) demo_world
      = (Ok rc, w) ∧
    ((∀ backend, run_privileged_authoritative_dispatch demo_clock bound (demo_node bound 1)
        (Ok (bo_target_state_ref bound)) (Ok (bo_target_state_ref bound)) backend
        ["operator:ok"] true 1000 60000000 demo_world = (Ok rc, w)) ∨
     settled (phase_at bound w)).
Proof.
  destruct demo_privileged_facts as (bound & rc & w & H & _). exists bound, rc, w.
  split; [exact H|].
  destruct (privileged_executes_once demo_clock bound (demo_node bound 1) _ _ _ _ _ _ _ demo_world
    _ w demo_world_wf (λ _, demo_uses bound) H) as [Hall|[Hs _]];
    [left; exact Hall|right; exact Hs].
Defined.

Lemma privileged_dispatch_sound_witness :
  ∃ bound rc w, demo_privileged_dispatch bound demo_clock (Ok (bo_target_state_ref bound)) demo_world
      = (Ok rc, w) ∧ evidenced bound ["operator:ok"] true ∧
    settled_reply bound (phase_at bound w) = Ok (as_replay rc).
Proof.
  destruct demo_privileged_facts as (bound & rc & w & H & Hr & _). exists bound, rc, w.
  split; [exact H|].
  destruct (privileged_dispatch_sound demo_clock bound (demo_node bound 1) _ _ _ _ _ _ _ demo_world
    rc w demo_world_wf (λ _, demo_uses bound) H Hr)
    as (_ & He & _ & _ & mr & g & res & t & st & _ & _ & _ & _ & _ & Hs).
  split; [exact He|exact Hs].
Defined.

Lemma privileged_retry_stuck_witness :
  ∃ bound r w, demo_privileged_dispatch bound late_clock (Ok (bo_target_state_ref bound))
      (demo_outrun bound) = (r, w) ∧ (∃ e, r = Raise e) ∧ outrun bound w.
Proof.
  destruct demo_privileged_facts as (bound & _ & _ & _ & _ & Hout).
  destruct (demo_privileged_dispatch bound late_clock (Ok (bo_target_state_ref bound))
    (demo_outrun bound)) as [r w] eqn:E.
  exists bound, r, w. split; [exact E|].
  exact (privileged_retry_stuck late_clock bound (demo_node bound 1) _ _ _ _ _ _ _ _ r w Hout E).
Defined.
