(* ===== verification/RunnerLeases.v ===== *)
(** * Runner leases

    [src/core/runner_lease_store.py]: the local ledger of the legacy runner, one
    row per attempt at a task, in SQLite.  The rows are a list in the order of
    their AUTOINCREMENT ids; no row is ever deleted.  Times are floats of seconds
    that the caller gives or the injected clock shows; the clock and the token
    factory are streams of readings the store counts.  One transaction is one
    atomic step. *)

From S2P Require Import Prelude.
From S2P Require Import PyStr.
From S2P Require Import Json.
From S2P Require Import PyFloat.
From S2P Require Import Sha256.
From S2P Require Import Frozen.
From Stdlib Require Import SpecFloat.

(** ** Constants *)
Definition RUNNER_LEASE_SCHEMA_VERSION : string := "1".
Definition ACTIVE_STATUSES : list string := ["leased"; "running"].
Definition TERMINAL_STATUSES : list string := ["completed"; "failed"; "abandoned"].
Definition ALL_STATUSES : list string := ACTIVE_STATUSES ++ TERMINAL_STATUSES.
Definition MAX_LEASE_SECONDS : Z := 7 * 24 * 60 * 60.
Definition MAX_CHECKPOINT_BYTES : Z := 32 * 1024.
Definition HEX_DIGITS : string := "0123456789abcdefABCDEF".

Definition serr (reason_code : string) : exn := RunnerLeaseStoreError reason_code.

(** ** Rows and records *)
Record lease_row := {
  row_id : Z;
  row_key : string;
  row_task_reference : string;
  row_repo : string;
  row_branch : string;
  row_base_sha : string;
  row_attempt : Z;
  row_status : string;
  row_token : string;
  row_acquired_at : spec_float;
  row_heartbeat_at : spec_float;
  row_expires_at : spec_float;
  row_pid : option Z;
  row_checkpoint_json : option string;
  row_receipt_hash : option string;
  row_terminal_reason : option string;
  row_updated_at : spec_float
}.

#[global] Instance lease_row_eq_dec : EqDecision lease_row.
Proof. solve_decision. Defined.

Record RunnerLeaseRecord := {
  idempotency_key : string;
  task_reference : string;
  repo : string;
  branch : string;
  base_sha : string;
  attempt : Z;
  status : string;
  lease_token : string;
  acquired_at : spec_float;
  heartbeat_at : spec_float;
  expires_at : spec_float;
  pid : option Z;
  checkpoint : option (list (string * json));
  receipt_hash : option string;
  terminal_reason : option string;
  updated_at : spec_float
}.

(** [schema_version] is that row of [runner_lease_meta]; [closed] belongs to the
    object, the rest to the database. *)
Record RunnerLeaseStore := {
  schema_version : option string;
  lease_rows : list lease_row;
  closed : bool;
  clock_readings : nat;
  tokens_drawn : nat
}.

Definition set_rows (f : list lease_row → list lease_row) (s : RunnerLeaseStore) : RunnerLeaseStore :=
  {| schema_version := schema_version s; lease_rows := f (lease_rows s); closed := closed s;
     clock_readings := clock_readings s; tokens_drawn := tokens_drawn s |}.
Definition set_closed (b : bool) (s : RunnerLeaseStore) : RunnerLeaseStore :=
  {| schema_version := schema_version s; lease_rows := lease_rows s; closed := b;
     clock_readings := clock_readings s; tokens_drawn := tokens_drawn s |}.
Definition set_schema (v : string) (s : RunnerLeaseStore) : RunnerLeaseStore :=
  {| schema_version := Some v; lease_rows := lease_rows s; closed := closed s;
     clock_readings := clock_readings s; tokens_drawn := tokens_drawn s |}.

(** ** Validation

    The [isinstance] tests of strings hold at the declared types. *)
Definition _text (max_length : Z) (value : string) : result string :=
  raise_if (falsy value || (strip value != value)) (serr "INVALID_METADATA");;
  raise_if ((max_length <? Z.of_nat (length (chars value))) || any_char (λ c, ord c <? 32) value)
    (serr "INVALID_METADATA");;
  Ok value.

Definition _sha (value : string) : result string :=
  text ← _text 40 value;
  raise_if ((Z.of_nat (length (chars text)) != 40) || negb (all_chars (char_in HEX_DIGITS) text))
    (serr "INVALID_METADATA");;
  Ok (lower text).

Definition _receipt_hash (value : string) : result string :=
  text ← _text 64 value;
  raise_if ((Z.of_nat (length (chars text)) != 64) || negb (all_chars (char_in HEX_DIGITS) text))
    (serr "INVALID_RECEIPT_HASH");;
  Ok (lower text).

(** [isinstance(v, (int, float)) and not isinstance(v, bool)] *)
Definition is_number (v : number) : bool :=
  match v with PyInt _ | PyFloat _ => true | _ => false end.

Definition _lease_seconds (value : number) : result spec_float :=
  raise_if (negb (is_number value)) (serr "INVALID_LEASE_DURATION");;
  duration ← to_float value;
  raise_if (negb (isfinite duration) || SFleb duration f64_zero
            || SFltb (f64_of_int MAX_LEASE_SECONDS) duration) (serr "INVALID_LEASE_DURATION");;
  Ok duration.

Definition check_timestamp (value : number) : result spec_float :=
  raise_if (negb (is_number value)) (serr "INVALID_TIMESTAMP");;
  timestamp ← to_float value;
  raise_if (negb (isfinite timestamp) || SFltb timestamp f64_zero) (serr "INVALID_TIMESTAMP");;
  Ok timestamp.

Definition _checkpoint_json (value : json) : result string :=
  match value with
  | JObj _ =>
      raise_if (existsb too_long (json_ints value)) (serr "INVALID_CHECKPOINT");;
      let encoded := dumps_unicode value in
      raise_if (MAX_CHECKPOINT_BYTES <? Z.of_nat (length (utf8 encoded))) (serr "INVALID_CHECKPOINT");;
      decoded ← json_loads encoded;
      match decoded with JObj _ => Ok encoded | _ => Raise (serr "INVALID_CHECKPOINT") end
  | _ => Raise (serr "INVALID_CHECKPOINT")
  end.

Definition _key_set (values : list string) : result (list string) :=
  normalized ← collect (_text 512) values;
  raise_if (has_dup normalized) (serr "INVALID_AUTHORITATIVE_SNAPSHOT");;
  Ok normalized.

Definition load_checkpoint (text : string) : result (list (string * json)) :=
  match json_loads text with
  | Ok (JObj d) => Ok d
  | _ => Raise (serr "CHECKPOINT_CORRUPT")
  end.

Definition _record (row : lease_row) : result RunnerLeaseRecord :=
  ckpt ← match row_checkpoint_json row with
         | None => Ok None
         | Some text => d ← load_checkpoint text; Ok (Some d)
         end;
  raise_if (row_status row ∉? ALL_STATUSES) (serr "STATUS_CORRUPT");;
  Ok {| idempotency_key := row_key row; task_reference := row_task_reference row;
        repo := row_repo row; branch := row_branch row; base_sha := row_base_sha row;
        attempt := row_attempt row; status := row_status row; lease_token := row_token row;
        acquired_at := row_acquired_at row; heartbeat_at := row_heartbeat_at row;
        expires_at := row_expires_at row; pid := row_pid row; checkpoint := ckpt;
        receipt_hash := row_receipt_hash row; terminal_reason := row_terminal_reason row;
        updated_at := row_updated_at row |}.

(** ** Statements *)

(** [ORDER BY attempt DESC LIMIT 1] over the rows of a key. *)
Definition later (best : option lease_row) (row : lease_row) : option lease_row :=
  match best with
  | Some b => if row_attempt b <? row_attempt row then Some row else Some b
  | None => Some row
  end.
Definition attempts_of (key : string) (rows : list lease_row) : list lease_row :=
  filter (λ row, row_key row = key) rows.
Definition latest (key : string) (rows : list lease_row) : option lease_row :=
  foldl later None (attempts_of key rows).

Definition _latest_row (key : string) : M RunnerLeaseStore (option lease_row) :=
  gets (λ s, latest key (lease_rows s)).

(** [SELECT * FROM runner_leases WHERE id = ?] *)
Definition find_row (id : Z) (rows : list lease_row) : option lease_row :=
  List.find (λ row, row_id row =? id) rows.

Definition _record_by_id (id : Z) : M RunnerLeaseStore RunnerLeaseRecord :=
  row ← gets (λ s, find_row id (lease_rows s));
  row ← lift (some_or row (RuntimeError "AssertionError"));
  lift (_record row).

(** The five UPDATE statements of the store, each [WHERE id = ?]. *)
Inductive update :=
  | SetAbandoned (reason : string) (now : spec_float)
  | SetHeartbeat (now expires : spec_float)
  | SetRunning (pid : Z) (now : spec_float)
  | SetCheckpoint (text : string) (now : spec_float)
  | SetFinished (status : string) (receipt reason : option string) (now : spec_float).

Definition row_with (row : lease_row) (status : string) (heartbeat_at expires_at : spec_float)
    (pid : option Z) (checkpoint_json receipt_hash terminal_reason : option string)
    (updated_at : spec_float) : lease_row :=
  {| row_id := row_id row; row_key := row_key row; row_task_reference := row_task_reference row;
     row_repo := row_repo row; row_branch := row_branch row; row_base_sha := row_base_sha row;
     row_attempt := row_attempt row; row_status := status; row_token := row_token row;
     row_acquired_at := row_acquired_at row; row_heartbeat_at := heartbeat_at;
     row_expires_at := expires_at; row_pid := pid; row_checkpoint_json := checkpoint_json;
     row_receipt_hash := receipt_hash; row_terminal_reason := terminal_reason;
     row_updated_at := updated_at |}.

Definition apply_update (u : update) (r : lease_row) : lease_row :=
  match u with
  | SetAbandoned reason now =>
      row_with r "abandoned" (row_heartbeat_at r) (row_expires_at r) (row_pid r)
        (row_checkpoint_json r) (row_receipt_hash r) (Some reason) now
  | SetHeartbeat now expires =>
      row_with r (row_status r) now expires (row_pid r) (row_checkpoint_json r)
        (row_receipt_hash r) (row_terminal_reason r) now
  | SetRunning pid now =>
      row_with r "running" (row_heartbeat_at r) (row_expires_at r) (Some pid)
        (row_checkpoint_json r) (row_receipt_hash r) (row_terminal_reason r) now
  | SetCheckpoint text now =>
      row_with r (row_status r) (row_heartbeat_at r) (row_expires_at r) (row_pid r)
        (Some text) (row_receipt_hash r) (row_terminal_reason r) now
  | SetFinished status receipt reason now =>
      row_with r status (row_heartbeat_at r) now (row_pid r) (row_checkpoint_json r)
        receipt reason now
  end.

(** The values SQLite receives for the parameters of a statement. *)
Definition bind_update (u : update) : result update :=
  match u with
  | SetAbandoned reason now => now ← sqlite_real now; Ok (SetAbandoned reason now)
  | SetHeartbeat now expires =>
      now ← sqlite_real now; expires ← sqlite_real expires; Ok (SetHeartbeat now expires)
  | SetRunning pid now => pid ← sqlite_int pid; now ← sqlite_real now; Ok (SetRunning pid now)
  | SetCheckpoint text now => now ← sqlite_real now; Ok (SetCheckpoint text now)
  | SetFinished status receipt reason now =>
      now ← sqlite_real now; Ok (SetFinished status receipt reason now)
  end.

Definition update_rows (id : Z) (u : update) : list lease_row → list lease_row :=
  map (λ row, if row_id row =? id then apply_update u row else row).

Definition execute (id : Z) (u : update) : M RunnerLeaseStore unit :=
  u ← lift (bind_update u); modify (set_rows (update_rows id u)).

(** The row an INSERT makes: its unnamed columns are NULL. *)
Definition new_row (id : Z) (key reference repo branch sha : string) (attempt : Z) (token : string)
    (now expires : spec_float) : lease_row :=
  {| row_id := id; row_key := key; row_task_reference := reference; row_repo := repo;
     row_branch := branch; row_base_sha := sha; row_attempt := attempt; row_status := "leased";
     row_token := token; row_acquired_at := now; row_heartbeat_at := now; row_expires_at := expires;
     row_pid := None; row_checkpoint_json := None; row_receipt_hash := None;
     row_terminal_reason := None; row_updated_at := now |}.

(** [INSERT INTO runner_leases]: AUTOINCREMENT, the CHECK of [attempt] and the two
    UNIQUE constraints. *)
Definition insert_row (key reference repo branch sha : string) (attempt : Z) (token : string)
    (timestamp expires : spec_float) : M RunnerLeaseStore unit :=
  attempt ← lift (sqlite_int attempt);
  now ← lift (sqlite_real timestamp);
  expires ← lift (sqlite_real expires);
  rows ← gets lease_rows;
  lift (raise_if (attempt <=? 0) (IntegrityError "CHECK constraint failed"));;
  lift (raise_if (token ∈? map row_token rows)
    (IntegrityError "UNIQUE constraint failed: runner_leases.lease_token"));;
  lift (raise_if ((key, attempt) ∈? map (λ row, (row_key row, row_attempt row)) rows)
    (IntegrityError "UNIQUE constraint failed: runner_leases.idempotency_key, runner_leases.attempt"));;
  modify (set_rows (λ rows, rows ++
    [new_row (Z.of_nat (length rows) + 1) key reference repo branch sha attempt token now expires])).

(** [except sqlite3.IntegrityError] *)
Definition on_integrity_error {A} (m : M RunnerLeaseStore A) (e : exn) : M RunnerLeaseStore A :=
  catch m (λ e', match e' with IntegrityError _ => raise e | _ => raise e' end).

(** ** Transactions *)
Definition _ensure_open (s : RunnerLeaseStore) : result unit :=
  raise_if (closed s) (serr "STORE_CLOSED").

Definition _verify_schema (s : RunnerLeaseStore) : result unit :=
  raise_if (schema_version s != Some RUNNER_LEASE_SCHEMA_VERSION) (serr "SCHEMA_VERSION_MISMATCH").

(** An expired lease is abandoned even though the call raises. *)
Definition commits (e : exn) : bool := e == serr "LEASE_EXPIRED".

(** [Transaction.__exit__] *)
Definition commit_or_rollback {A} (body : M RunnerLeaseStore A) : M RunnerLeaseStore A := λ s,
  match body s with
  | (Ok a, s') => (Ok a, s')
  | (Raise e, s') => (Raise e, if commits e then s' else s)
  end.

Definition _transaction {A} (body : M RunnerLeaseStore A) : M RunnerLeaseStore A :=
  query _ensure_open;;
  query _verify_schema;;
  commit_or_rollback body.

(** [CREATE TABLE IF NOT EXISTS] leaves the rows of an existing table alone. *)
Definition _initialize_schema : M RunnerLeaseStore unit :=
  version ← gets schema_version;
  match version with
  | None => modify (set_schema RUNNER_LEASE_SCHEMA_VERSION)
  | Some v => lift (raise_if (v != RUNNER_LEASE_SCHEMA_VERSION) (serr "SCHEMA_VERSION_MISMATCH"))
  end.

(** [RunnerLeaseStore.__init__] on a database. *)
Definition open_store (busy_timeout_ms : number) : M RunnerLeaseStore unit :=
  lift (raise_if (match busy_timeout_ms with
                  | PyInt z => z <? 0 | PyBool _ => false | _ => true end)
    (ValueError "busy_timeout_ms must be a non-negative integer"));;
  modify (set_closed false);;
  _initialize_schema.

Definition close : M RunnerLeaseStore unit := modify (set_closed true).

(** ** Operations *)
Section store.
Context (clock : nat → number) (token_factory : nat → string).

Definition read_clock : M RunnerLeaseStore number := λ s,
  (Ok (clock (clock_readings s)),
   {| schema_version := schema_version s; lease_rows := lease_rows s; closed := closed s;
      clock_readings := S (clock_readings s); tokens_drawn := tokens_drawn s |}).

Definition draw_token : M RunnerLeaseStore string := λ s,
  (Ok (token_factory (tokens_drawn s)),
   {| schema_version := schema_version s; lease_rows := lease_rows s; closed := closed s;
      clock_readings := clock_readings s; tokens_drawn := S (tokens_drawn s) |}).

Definition _timestamp (value : option number) : M RunnerLeaseStore spec_float :=
  timestamp ← match value with None => read_clock | Some v => mret v end;
  lift (check_timestamp timestamp).

(** [lease_token or self._token_factory()] *)
Definition choose_token (lease_token : option string) : M RunnerLeaseStore string :=
  match lease_token with
  | Some t => if truthy t then mret t else draw_token
  | None => draw_token
  end.

(** The start of [acquire]'s transaction: the number of the new attempt. *)
Definition next_attempt (key reference repo branch sha : string) (timestamp : spec_float)
    : M RunnerLeaseStore Z :=
  row ← _latest_row key;
  match row with
  | None => mret 1
  | Some row =>
      lift (raise_if ((row_task_reference row, row_repo row, row_branch row, row_base_sha row)
                      != (reference, repo, branch, sha)) (serr "IDEMPOTENCY_METADATA_MISMATCH"));;
      lift (raise_if (row_status row == "completed") (serr "COMPLETED_REPLAY_BLOCKED"));;
      (if row_status row ∈? ACTIVE_STATUSES then
         lift (raise_if (SFltb timestamp (row_expires_at row)) (serr "LEASE_CONFLICT"));;
         execute (row_id row) (SetAbandoned "lease expired before reacquire" timestamp)
       else mret tt);;
      mret (row_attempt row + 1)
  end.

Definition acquire (idempotency_key task_reference repo branch base_sha : string)
    (lease_seconds : number) (now : option number) (lease_token : option string)
    : M RunnerLeaseStore RunnerLeaseRecord :=
  key ← lift (_text 512 idempotency_key);
  reference ← lift (_text 512 task_reference);
  normalized_repo ← lift (_text 512 repo);
  normalized_branch ← lift (_text 512 branch);
  normalized_sha ← lift (_sha base_sha);
  duration ← lift (_lease_seconds lease_seconds);
  timestamp ← _timestamp now;
  token ← choose_token lease_token;
  token ← lift (_text 512 token);
  _transaction (
    attempt ← next_attempt key reference normalized_repo normalized_branch normalized_sha timestamp;
    on_integrity_error
      (insert_row key reference normalized_repo normalized_branch normalized_sha attempt token
        timestamp (f64_add timestamp duration)) (serr "LEASE_CONFLICT");;
    row ← _latest_row key;
    row ← lift (some_or row (RuntimeError "AssertionError"));
    lift (_record row)).

Definition _active_row (idempotency_key lease_token : string) (now : spec_float)
    : M RunnerLeaseStore lease_row :=
  key ← lift (_text 512 idempotency_key);
  token ← lift (_text 512 lease_token);
  row ← _latest_row key;
  row ← lift (some_or row (serr "LEASE_NOT_ACTIVE"));
  lift (raise_if (row_status row ∉? ACTIVE_STATUSES) (serr "LEASE_NOT_ACTIVE"));;
  lift (raise_if (row_token row != token) (serr "LEASE_TOKEN_MISMATCH"));;
  if SFleb (row_expires_at row) now then
    execute (row_id row) (SetAbandoned "lease expired" now);;
    raise (serr "LEASE_EXPIRED")
  else mret row.

(** The transaction of the operations of a lease's holder. *)
Definition hold (idempotency_key lease_token : string) (timestamp : spec_float) (u : update)
    : M RunnerLeaseStore RunnerLeaseRecord :=
  _transaction (
    row ← _active_row idempotency_key lease_token timestamp;
    execute (row_id row) u;;
    _record_by_id (row_id row)).

Definition heartbeat (idempotency_key lease_token : string) (lease_seconds : number)
    (now : option number) : M RunnerLeaseStore RunnerLeaseRecord :=
  duration ← lift (_lease_seconds lease_seconds);
  timestamp ← _timestamp now;
  hold idempotency_key lease_token timestamp (SetHeartbeat timestamp (f64_add timestamp duration)).

Definition set_running_pid (idempotency_key lease_token : string) (pid : number)
    (now : option number) : M RunnerLeaseStore RunnerLeaseRecord :=
  pid ← lift (match pid with
              | PyInt z => raise_if (z <=? 0) (serr "INVALID_PID");; Ok z
              | _ => Raise (serr "INVALID_PID")
              end);
  timestamp ← _timestamp now;
  hold idempotency_key lease_token timestamp (SetRunning pid timestamp).

Definition save_checkpoint (idempotency_key lease_token : string) (checkpoint : json)
    (now : option number) : M RunnerLeaseStore RunnerLeaseRecord :=
  checkpoint_json ← lift (_checkpoint_json checkpoint);
  timestamp ← _timestamp now;
  hold idempotency_key lease_token timestamp (SetCheckpoint checkpoint_json timestamp).

Definition _finish (idempotency_key lease_token status : string)
    (receipt_hash terminal_reason : option string) (now : option number)
    : M RunnerLeaseStore RunnerLeaseRecord :=
  lift (raise_if (status ∉? ["completed"; "failed"]) (ValueError "unsupported terminal status"));;
  timestamp ← _timestamp now;
  hold idempotency_key lease_token timestamp
    (SetFinished status receipt_hash terminal_reason timestamp).

Definition complete (idempotency_key lease_token receipt_hash : string) (now : option number)
    : M RunnerLeaseStore RunnerLeaseRecord :=
  receipt_hash ← lift (_receipt_hash receipt_hash);
  _finish idempotency_key lease_token "completed" (Some receipt_hash) None now.

Definition fail (idempotency_key lease_token reason : string) (now : option number)
    : M RunnerLeaseStore RunnerLeaseRecord :=
  reason ← lift (_text 2048 reason);
  _finish idempotency_key lease_token "failed" None (Some reason) now.

Definition get_latest (idempotency_key : string) : M RunnerLeaseStore (option RunnerLeaseRecord) :=
  key ← lift (_text 512 idempotency_key);
  query _ensure_open;;
  query _verify_schema;;
  row ← _latest_row key;
  match row with
  | None => mret None
  | Some row => record ← lift (_record row); mret (Some record)
  end.

(** [ORDER BY idempotency_key, attempt] *)
Definition row_leb (a b : lease_row) : bool :=
  if row_key a == row_key b then row_attempt a <=? row_attempt b
  else str_leb (row_key a) (row_key b).

Definition active_rows (p : lease_row → bool) (rows : list lease_row) : list lease_row :=
  sort_by row_leb (List.filter (λ row, (row_status row ∈? ACTIVE_STATUSES) && p row) rows).

Definition list_active (now : option number) : M RunnerLeaseStore (list RunnerLeaseRecord) :=
  timestamp ← _timestamp now;
  query _ensure_open;;
  query _verify_schema;;
  rows ← gets (λ s, active_rows (λ row, SFltb timestamp (row_expires_at row)) (lease_rows s));
  lift (collect _record rows).

(** The body of [reconcile]'s loop, with the keys abandoned so far. *)
Fixpoint reconcile_rows (active_keys : list string) (timestamp : spec_float)
    (rows : list lease_row) (abandoned : list string) : M RunnerLeaseStore (list string) :=
  match rows with
  | [] => mret abandoned
  | row :: rows =>
      let expired := SFleb (row_expires_at row) timestamp in
      let missing_from_github := row_key row ∉? active_keys in
      if negb expired && negb missing_from_github
      then reconcile_rows active_keys timestamp rows abandoned
      else
        execute (row_id row) (SetAbandoned
          (if expired then "lease expired during reconciliation"
           else "task no longer active in GitHub snapshot") timestamp);;
        reconcile_rows active_keys timestamp rows (abandoned ++ [row_key row])
  end.

Definition reconcile (authoritative_active_keys : list string) (now : option number)
    : M RunnerLeaseStore (list string) :=
  active_keys ← lift (_key_set authoritative_active_keys);
  timestamp ← _timestamp now;
  abandoned ← _transaction (
    rows ← gets (λ s, active_rows (λ _, true) (lease_rows s));
    reconcile_rows active_keys timestamp rows []);
  mret (sort_strs abandoned).
End store.

(** ** Invariant *)
Definition active (r : lease_row) : bool := row_status r ∈? ACTIVE_STATUSES.
Definition identity (r : lease_row) : string * string * string * string :=
  (row_task_reference r, row_repo r, row_branch r, row_base_sha r).

Lemma past_inactive r : row_status r ∈ ["failed"; "abandoned"] → active r = false.
Proof.
  unfold active. intros [E|[E|[]%not_elem_of_nil]%elem_of_cons]%elem_of_cons; by rewrite E.
Qed.

Record row_wf (r : lease_row) : Prop := {
  rw_status : row_status r ∈ ALL_STATUSES;
  rw_expires : isnan (row_expires_at r) = false;
  rw_checkpoint : ∀ t, row_checkpoint_json r = Some t → ∃ d, load_checkpoint t = Ok d;
  rw_pid : ∀ p, row_pid r = Some p → 0 < p < 2 ^ 63;
  rw_running : row_status r = "running" → is_Some (row_pid r);
  rw_receipt : is_Some (row_receipt_hash r) ↔ row_status r = "completed";
  rw_reason : is_Some (row_terminal_reason r) ↔ row_status r ∈ ["failed"; "abandoned"]
}.

(** The attempts at one key: numbered from one, all but the last failed or
    abandoned, all for the same task. *)
Record history_wf (h : list lease_row) : Prop := {
  hw_attempt : ∀ i r, h !! i = Some r → row_attempt r = Z.of_nat i + 1;
  hw_past : ∀ i r, h !! i = Some r → (S i < length h)%nat → row_status r ∈ ["failed"; "abandoned"];
  hw_identity : ∀ r r', r ∈ h → r' ∈ h → identity r = identity r'
}.

Record rows_wf (l : list lease_row) : Prop := {
  ws_rows : ∀ r, r ∈ l → row_wf r;
  ws_ids : ∀ i r, l !! i = Some r → row_id r = Z.of_nat i + 1;
  ws_tokens : NoDup (map row_token l);
  ws_histories : ∀ k, history_wf (attempts_of k l)
}.

Record store_wf (s : RunnerLeaseStore) : Prop := {
  sw_open : closed s = false;
  sw_schema : schema_version s = Some RUNNER_LEASE_SCHEMA_VERSION;
  sw_rows : rows_wf (lease_rows s)
}.

(** What any operation may do to a row: a terminal row is frozen, and of an
    active one the identity, attempt, token and start stay. *)
Record evolves (r r' : lease_row) : Prop := {
  ev_id : row_id r' = row_id r;
  ev_key : row_key r' = row_key r;
  ev_identity : identity r' = identity r;
  ev_attempt : row_attempt r' = row_attempt r;
  ev_token : row_token r' = row_token r;
  ev_acquired : row_acquired_at r' = row_acquired_at r;
  ev_frozen : active r = false → r' = r
}.

Definition grows (l l' : list lease_row) : Prop :=
  ∀ i r, l !! i = Some r → ∃ r', l' !! i = Some r' ∧ evolves r r'.

Lemma evolves_refl r : evolves r r.
Proof. by constructor. Qed.

Lemma evolves_trans r1 r2 r3 : evolves r1 r2 → evolves r2 r3 → evolves r1 r3.
Proof.
  intros [] []. constructor; try congruence. intros Ha.
  assert (r2 = r1) as -> by auto. auto.
Qed.

Lemma grows_refl l : grows l l.
Proof. intros i r H. eauto using evolves_refl. Qed.

Lemma grows_trans l1 l2 l3 : grows l1 l2 → grows l2 l3 → grows l1 l3.
Proof.
  intros H12 H23 i r (r2 & H2 & ?)%H12. apply H23 in H2 as (r3 & ? & ?).
  eauto using evolves_trans.
Qed.

Lemma grows_app l l' : grows l (l ++ l').
Proof. intros i r H. exists r. split; [by apply lookup_app_l_Some|apply evolves_refl]. Qed.

Lemma grows_map (g : lease_row → lease_row) l :
  (∀ r, r ∈ l → evolves r (g r)) → grows l (map g l).
Proof.
  intros Hg i r H. exists (g r). split.
  - change (map g l) with (g <$> l). rewrite list_lookup_fmap, H. done.
  - apply Hg. by eapply list_elem_of_lookup_2.
Qed.

(** ** Attempts of a key *)
Lemma attempts_of_app k l l' : attempts_of k (l ++ l') = attempts_of k l ++ attempts_of k l'.
Proof. apply filter_app. Qed.

Lemma attempts_of_map g k l :
  (∀ r, r ∈ l → row_key (g r) = row_key r) → attempts_of k (map g l) = map g (attempts_of k l).
Proof.
  unfold attempts_of. induction l as [|r l IH]; intros Hg; [done|].
  rewrite map_cons, !filter_cons, IH by (intros; apply Hg; by right).
  rewrite (Hg r) by left. by destruct (decide _).
Qed.

Lemma attempts_elem k l r : r ∈ attempts_of k l ↔ row_key r = k ∧ r ∈ l.
Proof. unfold attempts_of. by rewrite list_elem_of_filter. Qed.

Lemma latest_last k l : history_wf (attempts_of k l) → latest k l = last (attempts_of k l).
Proof.
  unfold latest. generalize (attempts_of k l) as h. intros h.
  induction h as [|r h IH] using rev_ind; intros Hh; [done|].
  rewrite foldl_app, last_snoc. cbn. rewrite IH.
  - destruct (last h) as [b|] eqn:E; [|done]. cbn.
    destruct Hh as [Ha _ _]. rewrite last_lookup in E.
    assert (E' : (h ++ [r]) !! pred (length h) = Some b) by (by apply lookup_app_l_Some).
    apply Ha in E'. rewrite (Ha (length h) r) by (by apply list_lookup_middle).
    rewrite (proj2 (Z.ltb_lt _ _)); [done|].
    destruct h; [done|]. cbn in *. lia.
  - destruct Hh as [Ha Hp Hi]. constructor.
    + intros i x Hx. apply Ha. by apply lookup_app_l_Some.
    + intros i x Hx Hlt. apply (Hp i); [by apply lookup_app_l_Some|]. rewrite length_app. cbn. lia.
    + intros x y Hx Hy. apply Hi; apply elem_of_app; by left.
Qed.

Lemma latest_elem k l r : rows_wf l → latest k l = Some r → row_key r = k ∧ r ∈ l.
Proof.
  intros Hl. rewrite latest_last by apply Hl. intros H.
  apply attempts_elem. rewrite last_lookup in H. by eapply list_elem_of_lookup_2.
Qed.

(** The last attempt carries the number of attempts. *)
Lemma latest_attempt k l r : rows_wf l → latest k l = Some r →
  row_attempt r = Z.of_nat (length (attempts_of k l)).
Proof.
  intros Hl. rewrite latest_last by apply Hl. intros H. rewrite last_lookup in H.
  rewrite (hw_attempt _ (ws_histories _ Hl k) _ _ H). apply lookup_lt_Some in H. lia.
Qed.

Lemma id_inj l r r' : rows_wf l → r ∈ l → r' ∈ l → row_id r = row_id r' → r = r'.
Proof.
  intros Hl [i Hi]%list_elem_of_lookup [j Hj]%list_elem_of_lookup E.
  rewrite (ws_ids _ Hl _ _ Hi), (ws_ids _ Hl _ _ Hj) in E.
  assert (i = j) as -> by lia. congruence.
Qed.

Lemma find_row_elem l r : rows_wf l → r ∈ l → find_row (row_id r) l = Some r.
Proof.
  intros Hl Hr. unfold find_row. destruct (List.find _ l) as [r'|] eqn:E.
  - apply find_some in E as [Hin E]. apply Z.eqb_eq in E. f_equal.
    eapply id_inj; eauto. by apply list_elem_of_In.
  - apply list_elem_of_In in Hr. apply (find_none _ _ E) in Hr. rewrite Z.eqb_refl in Hr. done.
Qed.

(** ** Updates *)
Lemma rows_wf_map g l : rows_wf l →
  (∀ r, r ∈ l → evolves r (g r) ∧ row_wf (g r)) → rows_wf (map g l).
Proof.
  intros Hl Hg. change (map g l) with (g <$> l). constructor.
  - intros r (x & -> & Hx)%list_elem_of_fmap. by apply Hg.
  - intros i r H. rewrite list_lookup_fmap in H.
    destruct (l !! i) as [x|] eqn:E; [|done]. cbn in H. simplify_eq.
    destruct (Hg x) as [[] _]; [by eapply list_elem_of_lookup_2|]. by rewrite ev_id0, (ws_ids _ Hl _ _ E).
  - assert (map row_token (g <$> l) = map row_token l) as ->; [|apply Hl].
    change (row_token <$> (g <$> l) = row_token <$> l). rewrite <-list_fmap_compose.
    apply list_fmap_ext. intros i x Hx. cbn. apply Hg. by eapply list_elem_of_lookup_2.
  - intros k. change (g <$> l) with (map g l). rewrite attempts_of_map by (intros r Hr; apply Hg, Hr).
    change (map g (attempts_of k l)) with (g <$> attempts_of k l).
    destruct (ws_histories _ Hl k) as [Ha Hp Hi].
    assert (Hin : ∀ i r, attempts_of k l !! i = Some r → r ∈ l).
    { intros i r H%list_elem_of_lookup_2. by apply attempts_elem in H as [_ ?]. }
    constructor.
    + intros i r H. rewrite list_lookup_fmap in H.
      destruct (attempts_of k l !! i) as [x|] eqn:E; [|done]. cbn in H. simplify_eq.
      rewrite (ev_attempt _ _ (proj1 (Hg x (Hin _ _ E)))). by apply Ha.
    + intros i r H Hlt. rewrite length_fmap in Hlt. rewrite list_lookup_fmap in H.
      destruct (attempts_of k l !! i) as [x|] eqn:E; [|done]. cbn in H. simplify_eq.
      pose proof (Hp _ _ E Hlt) as Hs. rewrite (ev_frozen _ _ (proj1 (Hg x (Hin _ _ E)))); [done|].
      by apply past_inactive.
    + intros r r' (x & -> & Hx)%list_elem_of_fmap (y & -> & Hy)%list_elem_of_fmap.
      apply attempts_elem in Hx as Hx', Hy as Hy'.
      rewrite (ev_identity _ _ (proj1 (Hg x (proj2 Hx')))),
        (ev_identity _ _ (proj1 (Hg y (proj2 Hy')))). by apply Hi.
Qed.

Lemma apply_update_evolves u r : active r = true → evolves r (apply_update u r).
Proof. intros Ha. destruct u; constructor; try done; congruence. Qed.

Definition upd (id : Z) (u : update) (row : lease_row) : lease_row :=
  if row_id row =? id then apply_update u row else row.

Lemma upd_evolves l r u x : rows_wf l → r ∈ l → active r = true → row_wf (apply_update u r) →
  x ∈ l → evolves x (upd (row_id r) u x) ∧ row_wf (upd (row_id r) u x).
Proof.
  intros Hl Hr Ha Hu Hx. unfold upd. destruct (Z.eqb_spec (row_id x) (row_id r)) as [E|_].
  - apply (id_inj l) in E as ->; [|done..]. by split; [apply apply_update_evolves|].
  - split; [apply evolves_refl|by apply Hl].
Qed.

(** Updating the latest row of a key. *)
Lemma update_latest k l r u : rows_wf l → latest k l = Some r → active r = true →
  row_wf (apply_update u r) →
  let l' := update_rows (row_id r) u l in
  rows_wf l' ∧ grows l l' ∧ latest k l' = Some (apply_update u r) ∧
  ∀ k', k' ≠ k → latest k' l' = latest k' l.
Proof.
  intros Hl Hr Ha Hu l'. destruct (latest_elem _ _ _ Hl Hr) as [Hk Hin].
  assert (Hg : ∀ x, x ∈ l → evolves x (upd (row_id r) u x) ∧ row_wf (upd (row_id r) u x))
    by (intros; by eapply upd_evolves).
  assert (Hl' : rows_wf l') by (by apply rows_wf_map).
  assert (Hat : ∀ k', attempts_of k' l' = map (upd (row_id r) u) (attempts_of k' l))
    by (intros; apply attempts_of_map; intros x Hx; apply Hg, Hx).
  split_and!; [done|by apply grows_map; intros x Hx; apply Hg| |].
  - rewrite latest_last in Hr |- * by (apply Hl || apply Hl'). rewrite Hat.
    change (map ?g ?x) with (g <$> x). rewrite fmap_last, Hr. cbn. unfold upd. by rewrite Z.eqb_refl.
  - intros k' Hk'. rewrite !latest_last by (apply Hl || apply Hl'). rewrite Hat. f_equal.
    rewrite <-(map_id (attempts_of k' l)) at 2. apply map_ext_in. intros x Hx.
    apply list_elem_of_In, attempts_elem in Hx as [Hkx Hx]. unfold upd.
    destruct (Z.eqb_spec (row_id x) (row_id r)) as [E|]; [|done].
    apply (id_inj l) in E; [|done..]. congruence.
Qed.

(** ** A new attempt *)
Lemma insert_latest l r : rows_wf l → row_wf r → active r = true →
  row_id r = Z.of_nat (length l) + 1 → row_token r ∉ map row_token l →
  row_attempt r = Z.of_nat (length (attempts_of (row_key r) l)) + 1 →
  (∀ x, latest (row_key r) l = Some x →
     row_status x ∈ ["failed"; "abandoned"] ∧ identity x = identity r) →
  rows_wf (l ++ [r]) ∧ latest (row_key r) (l ++ [r]) = Some r ∧
  ∀ k, k ≠ row_key r → latest k (l ++ [r]) = latest k l.
Proof.
  intros Hl Hr Hact Hid Htok Hatt Hlast.
  assert (Hsame : attempts_of (row_key r) (l ++ [r]) = attempts_of (row_key r) l ++ [r]).
  { rewrite attempts_of_app. unfold attempts_of at 2. by rewrite filter_cons_True. }
  assert (Hother : ∀ k, k ≠ row_key r → attempts_of k (l ++ [r]) = attempts_of k l).
  { intros k Hk. rewrite attempts_of_app. unfold attempts_of at 2.
    rewrite filter_cons_False by done. apply app_nil_r. }
  assert (Hwf : rows_wf (l ++ [r])).
  { constructor.
    - intros x [Hx|Hx]%elem_of_app; [by apply Hl|]. by apply list_elem_of_singleton in Hx as ->.
    - intros i x [Hx|[Hi Hx]]%lookup_app_Some; [by apply Hl|].
      apply list_lookup_singleton_Some in Hx as [? <-]. rewrite Hid. lia.
    - rewrite map_app. apply NoDup_app. split_and!; [apply Hl| |apply NoDup_singleton].
      intros x Hx ->%list_elem_of_singleton. done.
    - intros k. destruct (decide (k = row_key r)) as [->|Hk]; [|rewrite Hother by done; apply Hl].
      rewrite Hsame. pose proof (ws_histories _ Hl (row_key r)) as Hh.
      rewrite latest_last in Hlast by done. destruct Hh as [Ha Hp Hi]. constructor.
      + intros i x [Hx|[Hi' Hx]]%lookup_app_Some; [by apply Ha|].
        apply list_lookup_singleton_Some in Hx as [? <-]. rewrite Hatt. lia.
      + intros i x [Hx|[Hi' Hx]]%lookup_app_Some Hlt; rewrite length_app in Hlt; cbn in Hlt;
          [|apply list_lookup_singleton_Some in Hx as [? <-]; lia].
        destruct (decide (S i = length (attempts_of (row_key r) l))) as [E|Hne].
        * apply Hlast. rewrite last_lookup, <-E. done.
        * apply (Hp i); [done|]. apply lookup_lt_Some in Hx. lia.
      + assert (Hr' : ∀ x, x ∈ attempts_of (row_key r) l → identity x = identity r).
        { intros x Hx. destruct (last (attempts_of (row_key r) l)) as [y|] eqn:E.
          - destruct (Hlast y eq_refl) as [_ <-]. apply Hi; [done|].
            rewrite last_lookup in E. by eapply list_elem_of_lookup_2.
          - apply last_None in E. rewrite E in Hx. by apply not_elem_of_nil in Hx. }
        intros x y [Hx|Hx%list_elem_of_singleton]%elem_of_app
          [Hy|Hy%list_elem_of_singleton]%elem_of_app; subst; auto. symmetry. auto. }
  split_and!; [done| |].
  - rewrite latest_last, Hsame by apply Hwf. apply last_snoc.
  - intros k Hk. rewrite !latest_last, Hother by (done || apply Hwf || apply Hl). done.
Qed.

(** ** Runs of the store *)

(** The calls that write one key and return its record. *)
Inductive key_op :=
  | Acquire (key reference repo branch sha : string) (lease_seconds : number)
      (now : option number) (token : option string)
  | Heartbeat (key token : string) (lease_seconds : number) (now : option number)
  | SetRunningPid (key token : string) (pid : number) (now : option number)
  | SaveCheckpoint (key token : string) (checkpoint : json) (now : option number)
  | Complete (key token receipt : string) (now : option number)
  | Fail (key token reason : string) (now : option number).

Inductive store_op :=
  | Write (op : key_op)
  | GetLatest (key : string)
  | ListActive (now : option number)
  | Reconcile (keys : list string) (now : option number).

Inductive answer :=
  | ARecord (r : RunnerLeaseRecord)
  | ALatest (r : option RunnerLeaseRecord)
  | AActive (l : list RunnerLeaseRecord)
  | AAbandoned (l : list string).

(** ** The abstract ledger

    What the store promises for one key: the last attempt, held by the token
    that claimed it until its deadline, or closed. *)
Inductive phase :=
  | Leased
  | Running (pid : Z)
  | Completed (receipt : string)
  | Failed (reason : string)
  | Abandoned (reason : string).

Record task := {
  t_identity : string * string * string * string;
  t_attempt : Z;
  t_token : string;
  t_deadline : spec_float;
  t_checkpoint : option (list (string * json));
  t_phase : phase
}.

Definition held (t : task) : bool :=
  match t_phase t with Leased | Running _ => true | _ => false end.

Definition completed (t : task) : bool :=
  match t_phase t with Completed _ => true | _ => false end.

Definition phase_of (status : string) (pid : option Z) (receipt reason : option string) : phase :=
  if status == "leased" then Leased
  else if status == "running" then Running (default 0 pid)
  else if status == "completed" then Completed (default "" receipt)
  else if status == "failed" then Failed (default "" reason)
  else Abandoned (default "" reason).

Definition task_of (r : RunnerLeaseRecord) : task :=
  {| t_identity := (task_reference r, repo r, branch r, base_sha r); t_attempt := attempt r;
     t_token := lease_token r; t_deadline := expires_at r; t_checkpoint := checkpoint r;
     t_phase := phase_of (status r) (pid r) (receipt_hash r) (terminal_reason r) |}.

Definition row_task (row : lease_row) : option task :=
  match _record row with Ok r => Some (task_of r) | Raise _ => None end.
Definition task_at (l : list lease_row) (k : string) : option task := latest k l ≫= row_task.

Definition with_phase (p : phase) (t : task) : task :=
  {| t_identity := t_identity t; t_attempt := t_attempt t; t_token := t_token t;
     t_deadline := t_deadline t; t_checkpoint := t_checkpoint t; t_phase := p |}.
Definition with_deadline (d : spec_float) (t : task) : task :=
  {| t_identity := t_identity t; t_attempt := t_attempt t; t_token := t_token t;
     t_deadline := d; t_checkpoint := t_checkpoint t; t_phase := t_phase t |}.
Definition with_checkpoint (c : list (string * json)) (t : task) : task :=
  {| t_identity := t_identity t; t_attempt := t_attempt t; t_token := t_token t;
     t_deadline := t_deadline t; t_checkpoint := Some c; t_phase := t_phase t |}.

(** What the holder of a lease asks for at a time. *)
Inductive act :=
  | Beat (deadline : spec_float)
  | Start (pid : Z)
  | Save (checkpoint : list (string * json))
  | Finish (p : phase).

Inductive request :=
  | Claim (identity : string * string * string * string) (token : string)
      (now deadline : spec_float)
  | Act (token : string) (now : spec_float) (a : act).

Definition do_act (now : spec_float) (a : act) (t : task) : result task :=
  match a with
  | Beat deadline => Ok (with_deadline (stored deadline) t)
  | Start pid => pid ← sqlite_int pid; Ok (with_phase (Running pid) t)
  | Save c => Ok (with_checkpoint c t)
  | Finish p => Ok (with_deadline (stored now) (with_phase p t))
  end.

(** A new attempt needs a token that no attempt at any key had. *)
Definition spec_start (fresh : bool) (identity : string * string * string * string)
    (token : string) (deadline : spec_float) (n : Z) (t : option task)
    : result task * option task :=
  match sqlite_int n with
  | Raise e => (Raise e, t)
  | Ok n =>
      let new := {| t_identity := identity; t_attempt := n; t_token := token;
                    t_deadline := stored deadline; t_checkpoint := None; t_phase := Leased |} in
      if fresh then (Ok new, Some new) else (Raise (serr "LEASE_CONFLICT"), t)
  end.

Definition spec_claim (fresh : bool) (identity : string * string * string * string)
    (token : string) (now deadline : spec_float) (t : option task) : result task * option task :=
  match t with
  | None => spec_start fresh identity token deadline 1 t
  | Some a =>
      if t_identity a != identity then (Raise (serr "IDEMPOTENCY_METADATA_MISMATCH"), t)
      else if completed a then (Raise (serr "COMPLETED_REPLAY_BLOCKED"), t)
      else if held a && SFltb now (t_deadline a) then (Raise (serr "LEASE_CONFLICT"), t)
      else spec_start fresh identity token deadline (t_attempt a + 1) t
  end.

Definition spec_act (token : string) (now : spec_float) (a : act) (t : option task)
    : result task * option task :=
  match t with
  | Some x =>
      if negb (held x) then (Raise (serr "LEASE_NOT_ACTIVE"), t)
      else if t_token x != token then (Raise (serr "LEASE_TOKEN_MISMATCH"), t)
      else if SFleb (t_deadline x) now
      then (Raise (serr "LEASE_EXPIRED"), Some (with_phase (Abandoned "lease expired") x))
      else match do_act now a x with
           | Ok y => (Ok y, Some y)
           | Raise e => (Raise e, t)
           end
  | None => (Raise (serr "LEASE_NOT_ACTIVE"), t)
  end.

Definition spec_step (fresh : string → bool) (q : request) (t : option task)
    : result task * option task :=
  match q with
  | Claim i token now d => spec_claim (fresh token) i token now d t
  | Act token now a => spec_act token now a t
  end.

Definition fresh_in (l : list lease_row) (token : string) : bool := token ∉? map row_token l.

Section runs.
Context (clock : nat → number) (token_factory : nat → string).

Definition run_key_op (op : key_op) : M RunnerLeaseStore RunnerLeaseRecord :=
  match op with
  | Acquire k r p b h d now t => acquire clock token_factory k r p b h d now t
  | Heartbeat k t d now => heartbeat clock k t d now
  | SetRunningPid k t p now => set_running_pid clock k t p now
  | SaveCheckpoint k t c now => save_checkpoint clock k t c now
  | Complete k t h now => complete clock k t h now
  | Fail k t r now => fail clock k t r now
  end.

Definition run_op (op : store_op) : M RunnerLeaseStore answer :=
  match op with
  | Write op => r ← run_key_op op; mret (ARecord r)
  | GetLatest k => r ← get_latest k; mret (ALatest r)
  | ListActive now => l ← list_active clock now; mret (AActive l)
  | Reconcile keys now => l ← reconcile clock keys now; mret (AAbandoned l)
  end.

Fixpoint run_ops (ops : list store_op) (s : RunnerLeaseStore)
    : list (store_op * result answer) * RunnerLeaseStore :=
  match ops with
  | [] => ([], s)
  | op :: ops =>
      let '(r, s1) := run_op op s in
      let '(rs, s2) := run_ops ops s1 in
      ((op, r) :: rs, s2)
  end.

(** The time a call gives, or else the clock shows. *)
Definition time_of (s : RunnerLeaseStore) (now : option number) : result spec_float :=
  check_timestamp (default (clock (clock_readings s)) now).

Definition token_of (s : RunnerLeaseStore) (token : option string) : string :=
  match token with
  | Some t => if truthy t then t else token_factory (tokens_drawn s)
  | None => token_factory (tokens_drawn s)
  end.

(** The request a call amounts to, once its arguments are checked in the order
    of the code, for the key it names. *)
Definition holder_request (k t : string) (now : spec_float) (a : act) : result (string * request) :=
  key ← _text 512 k; token ← _text 512 t; Ok (key, Act token now a).

Definition request_of (s : RunnerLeaseStore) (op : key_op) : result (string * request) :=
  match op with
  | Acquire k r p b h d now t =>
      key ← _text 512 k; r ← _text 512 r; p ← _text 512 p; b ← _text 512 b; h ← _sha h;
      d ← _lease_seconds d; now ← time_of s now; token ← _text 512 (token_of s t);
      Ok (key, Claim (r, p, b, h) token now (f64_add now d))
  | Heartbeat k t d now =>
      d ← _lease_seconds d; now ← time_of s now;
      holder_request k t now (Beat (f64_add now d))
  | SetRunningPid k t p now =>
      p ← match p with
          | PyInt z => raise_if (z <=? 0) (serr "INVALID_PID");; Ok z
          | _ => Raise (serr "INVALID_PID")
          end;
      now ← time_of s now; holder_request k t now (Start p)
  | SaveCheckpoint k t c now =>
      text ← _checkpoint_json c; now ← time_of s now; c ← load_checkpoint text;
      holder_request k t now (Save c)
  | Complete k t h now =>
      h ← _receipt_hash h; now ← time_of s now; holder_request k t now (Finish (Completed h))
  | Fail k t r now =>
      r ← _text 2048 r; now ← time_of s now; holder_request k t now (Finish (Failed r))
  end.
End runs.

(** ** Rows as tasks *)
Definition checkpoint_of (r : lease_row) : option (list (string * json)) :=
  match row_checkpoint_json r with
  | None => None
  | Some t => match load_checkpoint t with Ok d => Some d | Raise _ => None end
  end.

Definition row_view (r : lease_row) : task :=
  {| t_identity := identity r; t_attempt := row_attempt r; t_token := row_token r;
     t_deadline := row_expires_at r; t_checkpoint := checkpoint_of r;
     t_phase := phase_of (row_status r) (row_pid r) (row_receipt_hash r) (row_terminal_reason r) |}.

Lemma record_view r : row_wf r → ∃ rec, _record r = Ok rec ∧ task_of rec = row_view r.
Proof.
  intros Hr. unfold _record. rewrite bool_decide_eq_true_2 by apply Hr.
  unfold row_view, checkpoint_of. destruct (row_checkpoint_json r) as [t|] eqn:E.
  - destruct (rw_checkpoint _ Hr t E) as [d Hd]. rewrite Hd. eexists. by split.
  - eexists. by split.
Qed.

Lemma row_task_view r : row_wf r → row_task r = Some (row_view r).
Proof. intros (rec & Hrec & Ht)%record_view. unfold row_task. by rewrite Hrec, Ht. Qed.

Lemma task_at_latest l k : rows_wf l → task_at l k = row_view <$> latest k l.
Proof.
  intros Hl. unfold task_at. destruct (latest k l) as [r|] eqn:E; [|done]. cbn.
  apply row_task_view, Hl. by eapply latest_elem.
Qed.

Lemma past_spec x : x ∈ ["failed"; "abandoned"] ↔ x = "failed" ∨ x = "abandoned".
Proof. rewrite !elem_of_cons, elem_of_nil. tauto. Qed.

Lemma status_cases r : row_wf r →
  row_status r = "leased" ∨ row_status r = "running" ∨ row_status r = "completed" ∨
  row_status r = "failed" ∨ row_status r = "abandoned".
Proof.
  intros Hr. pose proof (rw_status _ Hr) as H. unfold ALL_STATUSES, ACTIVE_STATUSES, TERMINAL_STATUSES in H. cbn [app] in H.
  rewrite !elem_of_cons, elem_of_nil in H. tauto.
Qed.

Lemma held_active r : row_wf r → held (row_view r) = active r.
Proof.
  intros Hr. unfold held, row_view, phase_of, active. cbn [t_phase].
  by destruct (status_cases r Hr) as [E|[E|[E|[E|E]]]]; rewrite E.
Qed.

(** ** The state of one call *)
Definition same_db (s s1 : RunnerLeaseStore) : Prop :=
  schema_version s1 = schema_version s ∧ lease_rows s1 = lease_rows s ∧ closed s1 = closed s.

Lemma same_db_wf s s1 : same_db s s1 → store_wf s → store_wf s1.
Proof. intros (E1 & E2 & E3) []. constructor; congruence. Qed.

Lemma set_rows_wf f s : store_wf s → rows_wf (f (lease_rows s)) → store_wf (set_rows f s).
Proof. intros [] Hf. by constructor. Qed.

Lemma transaction_run {A} (body : M RunnerLeaseStore A) s : store_wf s →
  _transaction body s = commit_or_rollback body s.
Proof.
  intros [Ho Hv _]. unfold _transaction. m_run. unfold _ensure_open, _verify_schema.
  rewrite Ho, Hv. done.
Qed.

Definition observe (r : result RunnerLeaseRecord) : result task :=
  match r with Ok rec => Ok (task_of rec) | Raise e => Raise e end.

(** One step of the abstract ledger at [k], and nothing elsewhere. *)
Record steps_at (k : string) (spec : result task * option task)
    (s : RunnerLeaseStore) (r : result RunnerLeaseRecord) (s' : RunnerLeaseStore) : Prop := {
  st_wf : store_wf s';
  st_grows : grows (lease_rows s) (lease_rows s');
  st_answer : observe r = spec.1;
  st_task : task_at (lease_rows s') k = spec.2;
  st_others : ∀ k', k' ≠ k → task_at (lease_rows s') k' = task_at (lease_rows s) k'
}.

Lemma steps_stay k s e : store_wf s →
  steps_at k (Raise e, task_at (lease_rows s) k) s (Raise e) s.
Proof. intros Hs. by constructor; try apply grows_refl. Qed.

Lemma steps_same_db k spec s s1 r s' :
  same_db s s1 → steps_at k spec s1 r s' → steps_at k spec s r s'.
Proof. intros (_ & E & _) []. constructor; try done; by rewrite <-E. Qed.

(** ** The calls of a holder *)

(** An update does on rows what an act does on tasks. *)
Definition acts (now : spec_float) (u : update) (a : act) : Prop :=
  ∀ r, active r = true → row_wf r →
  match bind_update u with
  | Ok u' => row_wf (apply_update u' r) ∧ do_act now a (row_view r) = Ok (row_view (apply_update u' r))
  | Raise e => commits e = false ∧ do_act now a (row_view r) = Raise e
  end.

Lemma active_not_done r : active r = true → row_wf r →
  row_receipt_hash r = None ∧ row_terminal_reason r = None ∧
  (row_status r = "leased" ∨ row_status r = "running").
Proof.
  intros Ha Hr. unfold active in Ha. bool_facts. unfold ACTIVE_STATUSES in Ha.
  assert (Hs : row_status r = "leased" ∨ row_status r = "running")
    by (rewrite !elem_of_cons, elem_of_nil in Ha; tauto).
  split_and!; [| |done].
  - destruct (row_receipt_hash r) eqn:E; [|done].
    assert (row_status r = "completed") as E' by (apply Hr; by rewrite E).
    destruct Hs; congruence.
  - destruct (row_terminal_reason r) eqn:E; [|done].
    assert (row_status r ∈ ["failed"; "abandoned"]) as E' by (apply Hr; by rewrite E).
    apply past_spec in E'. destruct Hs, E'; congruence.
Qed.

Lemma closed_wf r status receipt reason expires now :
  row_wf r → isnan expires = false → status ∈ TERMINAL_STATUSES →
  (is_Some receipt ↔ status = "completed") → (is_Some reason ↔ status ∈ ["failed"; "abandoned"]) →
  row_wf (row_with r status (row_heartbeat_at r) expires (row_pid r) (row_checkpoint_json r)
    receipt reason now).
Proof.
  intros Hr He Hs H1 H2. constructor; cbn; try done; try apply Hr.
  - do 2 apply list_elem_of_further. exact Hs.
  - intros ->. exfalso. revert Hs. by_decide.
Qed.

Lemma abandon_wf reason now r : active r = true → row_wf r →
  row_wf (apply_update (SetAbandoned reason now) r) ∧
  row_view (apply_update (SetAbandoned reason now) r) = with_phase (Abandoned reason) (row_view r).
Proof.
  intros Ha Hr.
  destruct (active_not_done r Ha Hr) as (Hrh & Htr & _). split; [|done].
  cbn [apply_update]. rewrite Hrh. apply closed_wf; [done|apply Hr|by_decide|..].
  - split; [by intros []|done].
  - split; [intros _; by_decide|by eexists].
Qed.

Lemma acts_beat now expires : isnan now = false → isnan expires = false →
  acts now (SetHeartbeat now expires) (Beat expires).
Proof.
  intros Hn He r Ha Hr. cbn [bind_update]. rewrite !sqlite_real_number by done.
  cbn [mbind result_bind]. split; [|done].
  destruct Hr. constructor; cbn; try done. by apply stored_number.
Qed.

Lemma sqlite_int_raise z e : sqlite_int z = Raise e →
  e = OverflowError "Python int too large to convert to SQLite INTEGER".
Proof. unfold sqlite_int, raise_if. by destruct (_ || _); intros; simplify_eq/=. Qed.

Lemma acts_start now pid : isnan now = false → 0 < pid →
  acts now (SetRunning pid now) (Start pid).
Proof.
  intros Hn Hp r Ha Hr. cbn [bind_update do_act].
  destruct (sqlite_int pid) as [p|e] eqn:E; cbn [mbind result_bind].
  - rewrite sqlite_real_number by done. cbn [mbind result_bind]. split; [|done].
    destruct (active_not_done r Ha Hr) as (Hrh & Htr & _). apply sqlite_int_ok in E as [Hlt ->].
    constructor; cbn; rewrite ?Hrh, ?Htr; try apply Hr.
    + by_decide.
    + intros p [= <-]. lia.
    + by eexists.
    + split; [by intros []|done].
    + split; [by intros []|]. intros H%past_spec. destruct H; congruence.
  - split; [|done]. apply sqlite_int_raise in E as ->. done.
Qed.

Lemma acts_save now text d : isnan now = false → load_checkpoint text = Ok d →
  acts now (SetCheckpoint text now) (Save d).
Proof.
  intros Hn Hd r Ha Hr. cbn [bind_update do_act]. rewrite sqlite_real_number by done.
  cbn [mbind result_bind]. split.
  - destruct Hr. constructor; cbn; try done. intros t [= <-]. by exists d.
  - unfold row_view, with_checkpoint, checkpoint_of. cbn. by rewrite Hd.
Qed.

Lemma acts_complete now receipt : isnan now = false →
  acts now (SetFinished "completed" (Some receipt) None now) (Finish (Completed receipt)).
Proof.
  intros Hn r Ha Hr. cbn [bind_update do_act]. rewrite sqlite_real_number by done.
  cbn [mbind result_bind]. split; [|done].
  apply closed_wf; [done|by apply stored_number|by_decide|..].
  - split; [done|by eexists].
  - split; [by intros []|]. intros H. exfalso. revert H. by_decide.
Qed.

Lemma acts_fail now reason : isnan now = false →
  acts now (SetFinished "failed" None (Some reason) now) (Finish (Failed reason)).
Proof.
  intros Hn r Ha Hr. cbn [bind_update do_act]. rewrite sqlite_real_number by done.
  cbn [mbind result_bind]. split; [|done].
  apply closed_wf; [done|by apply stored_number|by_decide|..].
  - split; [by intros []|done].
  - split; [intros _; by_decide|by eexists].
Qed.

Lemma if_same {A} (b : bool) (x : A) : (if b then x else x) = x.
Proof. by destruct b. Qed.

Lemma apply_update_id u r : row_id (apply_update u r) = row_id r.
Proof. by destruct u. Qed.

Lemma execute_run id u s :
  execute id u s = match bind_update u with
                   | Ok u' => (Ok tt, set_rows (update_rows id u') s)
                   | Raise e => (Raise e, s)
                   end.
Proof. unfold execute. m_run. by destruct (bind_update u). Qed.

(** Writing the latest row of a key is a step at that key. *)
Lemma update_steps k u x rec s :
  store_wf s → latest k (lease_rows s) = Some x → active x = true →
  row_wf (apply_update u x) → _record (apply_update u x) = Ok rec →
  steps_at k (Ok (row_view (apply_update u x)), Some (row_view (apply_update u x))) s (Ok rec)
    (set_rows (update_rows (row_id x) u) s).
Proof.
  intros Hs Hx Ha Hu Hrec. pose proof (sw_rows _ Hs) as Hl.
  destruct (update_latest _ _ _ _ Hl Hx Ha Hu) as (Hwf & Hg & Hk & Ho).
  constructor; cbn [lease_rows set_rows fst snd].
  - by apply set_rows_wf.
  - done.
  - destruct (record_view _ Hu) as (rec' & Hrec' & Ht). cbn. congruence.
  - by rewrite task_at_latest, Hk.
  - intros k' Hk'. by rewrite !task_at_latest, Ho.
Qed.

Lemma hold_steps key0 tok0 now u a s r s' :
  store_wf s → isnan now = false → acts now u a →
  hold key0 tok0 now u s = (r, s') →
  match holder_request key0 tok0 now a with
  | Ok (k, q) =>
      steps_at k (spec_step (fresh_in (lease_rows s)) q (task_at (lease_rows s) k)) s r s'
  | Raise e => r = Raise e ∧ s' = s
  end.
Proof.
  intros Hs Hnow Hacts. pose proof (sw_rows _ Hs) as Hl. unfold hold. rewrite transaction_run by done.
  unfold commit_or_rollback, _active_row, holder_request, _latest_row. m_run.
  destruct (_text 512 key0) as [k|e]; [|destruct (commits e); intros; by simplify_eq].
  destruct (_text 512 tok0) as [token|e]; [|destruct (commits e); intros; by simplify_eq].
  cbn [spec_step]. rewrite task_at_latest by done.
  assert (Hstay : ∀ e, steps_at k (Raise e, row_view <$> latest k (lease_rows s)) s (Raise e) s)
    by (intros; rewrite <-task_at_latest by done; by apply steps_stay).
  destruct (latest k (lease_rows s)) as [x|] eqn:Hx; cbn [some_or];
    [|rewrite if_same; intros; simplify_eq; apply Hstay].
  destruct (latest_elem _ _ _ Hl Hx) as [Hk Hin]. pose proof (ws_rows _ Hl _ Hin) as Hxw.
  cbn [fmap option_fmap option_map spec_act] in *. rewrite held_active by done. unfold active.
  destruct (row_status x ∈? ACTIVE_STATUSES) eqn:Ha; cbn [negb raise_if];
    [|rewrite if_same; intros; simplify_eq; apply Hstay].
  change (t_token (row_view x)) with (row_token x).
  destruct (row_token x != token); cbn [raise_if];
    [rewrite if_same; intros; simplify_eq; apply Hstay|].
  change (t_deadline (row_view x)) with (row_expires_at x).
  destruct (SFleb (row_expires_at x) now).
  - rewrite execute_run. cbn [bind_update]. rewrite sqlite_real_number by done.
    cbn [mbind result_bind]. change (commits (serr "LEASE_EXPIRED")) with true. cbn iota.
    intros; simplify_eq.
    destruct (abandon_wf "lease expired" (stored now) x Ha Hxw) as [Hw Hv].
    destruct (record_view _ Hw) as (rec & Hrec & _).
    destruct (update_steps _ _ _ _ _ Hs Hx Ha Hw Hrec). rewrite <-Hv. by constructor.
  - rewrite execute_run. specialize (Hacts x Ha Hxw). destruct (bind_update u) as [u'|e].
    + destruct Hacts as [Hw ->]. unfold _record_by_id. m_run. cbn [lease_rows set_rows].
      destruct (update_latest _ _ _ _ Hl Hx Ha Hw) as (Hwf & _ & Hk' & _).
      destruct (latest_elem _ _ _ Hwf Hk') as [_ Hin'].
      pose proof (find_row_elem _ _ Hwf Hin') as Hfind.
      rewrite apply_update_id in Hfind. rewrite Hfind. cbn [some_or].
      destruct (record_view _ Hw) as (rec & Hrec & _). rewrite Hrec.
      intros; simplify_eq. by apply update_steps.
    + destruct Hacts as [He ->]. rewrite He. intros; simplify_eq. apply Hstay.
Qed.

(** ** A new attempt *)
Definition start_lease (key reference repo branch sha : string) (n : Z) (token : string)
    (now deadline : spec_float) : M RunnerLeaseStore RunnerLeaseRecord :=
  on_integrity_error (insert_row key reference repo branch sha n token now deadline)
    (serr "LEASE_CONFLICT");;
  row ← _latest_row key;
  row ← lift (some_or row (RuntimeError "AssertionError"));
  lift (_record row).

Lemma attempt_unused k l : rows_wf l →
  (k, Z.of_nat (length (attempts_of k l)) + 1) ∉ map (λ row, (row_key row, row_attempt row)) l.
Proof.
  intros Hl (x & E & Hx)%list_elem_of_fmap. injection E as Ek En.
  assert (Hin : x ∈ attempts_of k l) by (by apply attempts_elem).
  apply list_elem_of_lookup in Hin as [i Hi].
  pose proof (hw_attempt _ (ws_histories _ Hl k) _ _ Hi). apply lookup_lt_Some in Hi. lia.
Qed.

Lemma new_row_wf id key reference repo branch sha n token now d :
  isnan d = false → row_wf (new_row id key reference repo branch sha n token now d).
Proof.
  intros Hd. constructor; cbn; try done.
  - by_decide.
  - split; [by intros []|]. intros H. exfalso. revert H. by_decide.
Qed.

Lemma start_run key reference repo branch sha token now d s : store_wf s →
  isnan now = false → isnan d = false →
  let n := Z.of_nat (length (attempts_of key (lease_rows s))) + 1 in
  let new := new_row (Z.of_nat (length (lease_rows s)) + 1) key reference repo branch sha n token
    (stored now) (stored d) in
  (∀ x, latest key (lease_rows s) = Some x →
     row_status x ∈ ["failed"; "abandoned"] ∧ identity x = (reference, repo, branch, sha)) →
  match start_lease key reference repo branch sha n token now d s with
  | (Raise e, _) => commits e = false ∧
      ((sqlite_int n = Raise e) ∨
       (sqlite_int n = Ok n ∧ fresh_in (lease_rows s) token = false ∧ e = serr "LEASE_CONFLICT"))
  | (Ok rec, s') => sqlite_int n = Ok n ∧ fresh_in (lease_rows s) token = true ∧
      _record new = Ok rec ∧ s' = set_rows (λ l, l ++ [new]) s ∧ rows_wf (lease_rows s') ∧
      latest key (lease_rows s') = Some new ∧
      ∀ k, k ≠ key → latest k (lease_rows s') = latest k (lease_rows s)
  end.
Proof.
  intros Hs Hnow Hd n new Hlast. pose proof (sw_rows _ Hs) as Hl.
  unfold start_lease, on_integrity_error, insert_row, _latest_row. m_run.
  destruct (sqlite_int n) as [n'|e] eqn:En.
  2:{ apply sqlite_int_raise in En as He. subst e. cbn iota beta. auto. }
  apply sqlite_int_ok in En as Hn. destruct Hn as [_ ->].
  rewrite !sqlite_real_number by done. cbn iota beta.
  assert ((n <=? 0) = false) as -> by (apply Z.leb_gt; unfold n; lia). cbn [raise_if].
  unfold fresh_in. destruct (token ∈? map row_token (lease_rows s)) eqn:Et; cbn [raise_if].
  { cbn iota beta. split; [done|]. right. auto. }
  rewrite bool_decide_eq_false_2 by (by apply attempt_unused). cbn [raise_if lease_rows set_rows].
  destruct (insert_latest (lease_rows s) new) as (Hwf & Hk & Ho); try done.
  { apply new_row_wf. by apply stored_number. }
  { bool_facts. done. }
  change (row_key new) with key in Hk. fold new. rewrite Hk. cbn [some_or].
  destruct (record_view new) as (rec & Hrec & _); [by apply Hwf, elem_of_app; right; left|].
  rewrite Hrec. split_and!; auto.
Qed.

Lemma fresh_update id u l token : fresh_in (update_rows id u l) token = fresh_in l token.
Proof.
  unfold fresh_in, update_rows. rewrite map_map. do 2 f_equal.
  apply bool_decide_ext. assert (map (λ r, row_token (if row_id r =? id then apply_update u r else r)) l
    = map row_token l) as ->; [|done].
  apply map_ext. intros r. destruct (row_id r =? id); [by destruct u|done].
Qed.

Lemma length_attempts_update k id u l :
  length (attempts_of k (update_rows id u l)) = length (attempts_of k l).
Proof.
  unfold update_rows. rewrite attempts_of_map, length_map; [done|].
  intros r _. destruct (row_id r =? id); [by destruct u|done].
Qed.

(** The transaction of [acquire] once [next_attempt] has found the number [n] of the
    new attempt and left the store [s1]. *)
Lemma start_steps key reference repo branch sha token now d s s1 n r s' :
  store_wf s → store_wf s1 → isnan now = false → isnan d = false →
  grows (lease_rows s) (lease_rows s1) →
  (∀ k, k ≠ key → task_at (lease_rows s1) k = task_at (lease_rows s) k) →
  fresh_in (lease_rows s1) token = fresh_in (lease_rows s) token →
  n = Z.of_nat (length (attempts_of key (lease_rows s1))) + 1 →
  (∀ x, latest key (lease_rows s1) = Some x →
     row_status x ∈ ["failed"; "abandoned"] ∧ identity x = (reference, repo, branch, sha)) →
  (match start_lease key reference repo branch sha n token now d s1 with
   | (Ok a, s') => (Ok a, s')
   | (Raise e, s') => (Raise e, if commits e then s' else s)
   end) = (r, s') →
  steps_at key (spec_start (fresh_in (lease_rows s) token) (reference, repo, branch, sha) token d n
    (task_at (lease_rows s) key)) s r s'.
Proof.
  intros Hs Hs1 Hnow Hd Hg Hoth Hfresh Hn Hlast.
  pose proof (start_run key reference repo branch sha token now d s1 Hs1 Hnow Hd Hlast) as H.
  rewrite <-Hn, Hfresh in H. clear Hn. unfold spec_start.
  destruct (start_lease _ _ _ _ _ _ _ _ _ s1) as [[rec|e] s2].
  - destruct H as (-> & -> & Hrec & -> & Hwf & Hk & Ho). intros; simplify_eq.
    assert (Hnew : row_wf (new_row (Z.of_nat (length (lease_rows s1)) + 1) key reference repo branch
      sha n token (stored now) (stored d))) by (apply new_row_wf; by apply stored_number).
    destruct (record_view _ Hnew) as (rec' & Hrec' & Ht).
    constructor; cbn [fst snd].
    + by apply set_rows_wf.
    + cbn. eapply grows_trans; [exact Hg|apply grows_app].
    + cbn. rewrite Hrec in Hrec'. injection Hrec' as <-. by rewrite Ht.
    + by rewrite task_at_latest, Hk.
    + intros k Hk'. rewrite <-Hoth, !task_at_latest, Ho by (done || apply Hs1). done.
  - destruct H as [He H]. rewrite He. intros; simplify_eq.
    destruct H as [->|(-> & -> & ->)]; by apply steps_stay.
Qed.

Lemma completed_view x : row_wf x → completed (row_view x) = (row_status x == "completed").
Proof.
  intros Hx. unfold completed, row_view, phase_of. cbn [t_phase].
  by destruct (status_cases x Hx) as [E|[E|[E|[E|E]]]]; rewrite E.
Qed.

Lemma open_status x : row_wf x → row_status x ≠ "completed" → active x = false →
  row_status x ∈ ["failed"; "abandoned"].
Proof.
  intros Hx Hc Ha. unfold active in Ha.
  destruct (status_cases x Hx) as [E|[E|[E|[E|E]]]]; try done; rewrite E in *; try discriminate; by_decide.
Qed.

Lemma claim_steps key reference repo branch sha token now d s r s' :
  store_wf s → isnan now = false → isnan d = false →
  commit_or_rollback (
    n ← next_attempt key reference repo branch sha now;
    start_lease key reference repo branch sha n token now d) s = (r, s') →
  steps_at key (spec_claim (fresh_in (lease_rows s) token) (reference, repo, branch, sha) token now d
    (task_at (lease_rows s) key)) s r s'.
Proof.
  intros Hs Hnow Hd. pose proof (sw_rows _ Hs) as Hl.
  pose proof (λ e, steps_stay key s e Hs) as Hstay.
  pose proof (λ s1 n, start_steps key reference repo branch sha token now d s s1 n r s' Hs) as Hstart.
  unfold commit_or_rollback, next_attempt, _latest_row. m_run. unfold spec_claim.
  rewrite (task_at_latest _ key) in * by done.
  destruct (latest key (lease_rows s)) as [x|] eqn:Hx; cbn [fmap option_fmap option_map] in *.
  2:{ apply Hstart; try done; [apply grows_refl| |by rewrite Hx].
      rewrite latest_last in Hx by apply Hl. apply last_None in Hx. by rewrite Hx. }
  destruct (latest_elem _ _ _ Hl Hx) as [Hk Hin]. pose proof (ws_rows _ Hl _ Hin) as Hxw.
  pose proof (latest_attempt _ _ _ Hl Hx) as Hatt.
  change (t_identity (row_view x)) with (identity x). fold (identity x).
  destruct (decide (identity x = (reference, repo, branch, sha))) as [Hid|Hid].
  2:{ rewrite bool_decide_eq_false_2 by done. cbn [negb raise_if]. rewrite if_same.
      intros; simplify_eq. apply Hstay. }
  rewrite bool_decide_eq_true_2 by done. cbn [negb raise_if].
  change (t_deadline (row_view x)) with (row_expires_at x).
  change (t_attempt (row_view x)) with (row_attempt x).
  rewrite completed_view, held_active by done. destruct (row_status x == "completed") eqn:Hc.
  { cbn [raise_if]. rewrite if_same. intros; simplify_eq. apply Hstay. }
  bool_facts. cbn [raise_if]. change (row_status x ∈? ACTIVE_STATUSES) with (active x).
  destruct (active x) eqn:Ha; cbn [andb].
  - destruct (SFltb now (row_expires_at x)); cbn [raise_if].
    { rewrite if_same. intros; simplify_eq. apply Hstay. }
    rewrite execute_run. cbn [bind_update]. rewrite sqlite_real_number by done.
    cbn [mbind result_bind].
    destruct (abandon_wf "lease expired before reacquire" (stored now) x Ha Hxw) as [Hw _].
    destruct (update_latest _ _ _ _ Hl Hx Ha Hw) as (Hwf & Hg & Hk' & Ho).
    apply Hstart; try done.
    + by apply set_rows_wf.
    + intros k Hkne. cbn [lease_rows set_rows]. by rewrite !task_at_latest, Ho.
    + apply fresh_update.
    + cbn [lease_rows set_rows]. rewrite length_attempts_update. lia.
    + cbn [lease_rows set_rows]. rewrite Hk'. intros y [= <-]. split; [by_decide|done].
  - apply Hstart; try done; [apply grows_refl|lia|].
    rewrite Hx. intros y [= <-]. split; [by apply open_status|done].
Qed.

(** ** Every call is a step *)
Lemma same_db_refl s : same_db s s.
Proof. done. Qed.

Lemma same_db_trans s1 s2 s3 : same_db s1 s2 → same_db s2 s3 → same_db s1 s3.
Proof. intros (? & ? & ?) (? & ? & ?). split_and!; congruence. Qed.

Lemma check_timestamp_ok v t : check_timestamp v = Ok t → isfinite t = true.
Proof. unfold check_timestamp. intros. inv_ok. by subst. Qed.

Lemma lease_seconds_ok v t : _lease_seconds v = Ok t → isfinite t = true.
Proof. unfold _lease_seconds. intros. inv_ok. by subst. Qed.

Lemma checkpoint_json_ok c text : _checkpoint_json c = Ok text →
  text = dumps_unicode c ∧ ∃ d, load_checkpoint text = Ok d.
Proof.
  unfold _checkpoint_json, load_checkpoint. destruct c; try discriminate. intros H. inv_ok.
  destruct a1; try discriminate. inv_ok. subst. rewrite Hr1. eauto.
Qed.

(** Step over the checks of arguments at the start of a call. *)
Ltac check_args :=
  repeat match goal with
  | |- context [lift ?x ≫= ?g] =>
      unfold mbind at 1, M_bind at 1, lift at 1; destruct x eqn:?; cbn [mbind result_bind];
      [|by intros [= <- <-]]
  end.

Section steps.
Context (clock : nat → number) (token_factory : nat → string).

Lemma timestamp_run now s : ∃ s1,
  _timestamp clock now s = (time_of clock s now, s1) ∧ same_db s s1 ∧
  tokens_drawn s1 = tokens_drawn s ∧ (clock_readings s ≤ clock_readings s1)%nat.
Proof.
  unfold _timestamp, time_of. destruct now as [v|]; m_run; eexists; split_and!; try done. cbn. lia.
Qed.

Lemma choose_token_run t s : ∃ s1,
  choose_token token_factory t s = (Ok (token_of token_factory s t), s1) ∧ same_db s s1.
Proof.
  unfold choose_token, token_of. destruct t as [t|]; [destruct (truthy t)|]; m_run; by eexists.
Qed.

(** A checked call: an argument error changes nothing, else one step happens. *)
Definition call_steps (q : result (string * request)) (s : RunnerLeaseStore)
    (r : result RunnerLeaseRecord) (s' : RunnerLeaseStore) : Prop :=
  match q with
  | Ok (k, q) =>
      steps_at k (spec_step (fresh_in (lease_rows s)) q (task_at (lease_rows s) k)) s r s'
  | Raise e => r = Raise e ∧ same_db s s'
  end.

Lemma call_same_db q s s1 r s' : same_db s s1 → call_steps q s1 r s' → call_steps q s r s'.
Proof.
  intros Hdb. unfold call_steps. destruct q as [[k q]|e].
  - pose proof Hdb as (_ & E & _). rewrite E. by apply steps_same_db.
  - intros [? ?]. eauto using same_db_trans.
Qed.

Lemma timed_hold k t now (u : spec_float → update) (a : spec_float → act) s r s' :
  store_wf s → (∀ ts, isfinite ts = true → acts ts (u ts) (a ts)) →
  (ts ← _timestamp clock now; hold k t ts (u ts)) s = (r, s') →
  call_steps (ts ← time_of clock s now; holder_request k t ts (a ts)) s r s'.
Proof.
  intros Hs Hu. destruct (timestamp_run now s) as (s1 & Hts & Hdb & _).
  unfold mbind at 1, M_bind at 1. rewrite Hts. unfold time_of in *.
  destruct (check_timestamp _) as [ts|e] eqn:E; cbn [mbind result_bind].
  - intros H. apply call_same_db with s1; [done|]. apply check_timestamp_ok in E.
    eapply hold_steps in H; [|by eapply same_db_wf|by apply finite_not_nan|by apply Hu].
    unfold call_steps. destruct (holder_request _ _ _ _) as [[? ?]|e]; [done|].
    destruct H as [-> ->]. done.
  - by intros [= <- <-].
Qed.

Lemma acquire_steps k rf p b h d now t s r s' :
  store_wf s → acquire clock token_factory k rf p b h d now t s = (r, s') →
  call_steps (request_of clock token_factory s (Acquire k rf p b h d now t)) s r s'.
Proof.
  intros Hs. cbn [request_of]. unfold acquire. check_args.
  destruct (timestamp_run now s) as (s1 & Hts & Hdb1 & Htd & _).
  unfold mbind at 1, M_bind at 1. rewrite Hts. unfold time_of in *.
  destruct (check_timestamp _) as [ts|e] eqn:Ets; cbn [mbind result_bind]; [|by intros [= <- <-]].
  destruct (choose_token_run t s1) as (s2 & Hct & Hdb2).
  unfold mbind at 1, M_bind at 1. rewrite Hct.
  assert (token_of token_factory s1 t = token_of token_factory s t) as ->
    by (unfold token_of; by rewrite Htd).
  pose proof (same_db_trans _ _ _ Hdb1 Hdb2) as Hdb.
  unfold mbind at 1, M_bind at 1, lift at 1.
  destruct (_text 512 (token_of token_factory s t)) as [token|e]; cbn [mbind result_bind];
    [|by intros [= <- <-]].
  rewrite transaction_run by (by eapply same_db_wf). intros H.
  apply call_same_db with s2; [done|]. cbn [call_steps spec_step].
  apply claim_steps; [by eapply same_db_wf|..|exact H].
  - by eapply finite_not_nan, check_timestamp_ok.
  - apply f64_add_number; [by eapply check_timestamp_ok|by eapply lease_seconds_ok].
Qed.

Lemma key_op_steps op s r s' :
  store_wf s → run_key_op clock token_factory op s = (r, s') →
  call_steps (request_of clock token_factory s op) s r s'.
Proof.
  intros Hs. destruct op as [k rf p b h d now t|k t d now|k t p now|k t c now|k t h now|k t rs now];
    [by apply acquire_steps|..]; cbn [run_key_op request_of].
  - unfold heartbeat. check_args. apply (timed_hold k t now _ (λ ts, Beat (f64_add ts _)) s); [done|].
    intros ts Hts. apply acts_beat; [by apply finite_not_nan|].
    apply f64_add_number; [done|by eapply lease_seconds_ok].
  - unfold set_running_pid. check_args. apply (timed_hold k t now _ (λ ts, Start _) s); [done|].
    intros ts Hts. apply acts_start; [by apply finite_not_nan|].
    destruct p; try discriminate. inv_ok. by subst.
  - unfold save_checkpoint. check_args.
    destruct (checkpoint_json_ok _ _ Heqr0) as (_ & d & Hd). rewrite Hd. cbn [mbind result_bind].
    apply (timed_hold k t now _ (λ ts, Save _) s); [done|].
    intros ts Hts. apply acts_save; [by apply finite_not_nan|done].
  - unfold complete, _finish. check_args. apply (timed_hold k t now _ (λ ts, Finish _) s); [done|].
    intros ts Hts. by apply acts_complete, finite_not_nan.
  - unfold fail, _finish. check_args. apply (timed_hold k t now _ (λ ts, Finish _) s); [done|].
    intros ts Hts. by apply acts_fail, finite_not_nan.
Qed.
End steps.

(** ** Reconciliation with a snapshot *)
Definition stale (keys : list string) (now : spec_float) (k : string) (t : task) : bool :=
  held t && (SFleb (t_deadline t) now || (k ∉? keys)).

Definition stale_reason (now deadline : spec_float) : string :=
  if SFleb deadline now then "lease expired during reconciliation"
  else "task no longer active in GitHub snapshot".

Definition let_go (now : spec_float) (t : task) : task :=
  with_phase (Abandoned (stale_reason now (t_deadline t))) t.

Definition stale_row (keys : list string) (now : spec_float) (row : lease_row) : bool :=
  SFleb (row_expires_at row) now || (row_key row ∉? keys).

Definition let_go_row (now : spec_float) (row : lease_row) : update :=
  SetAbandoned (stale_reason now (row_expires_at row)) (stored now).

Definition sweep (keys : list string) (now : spec_float) (row : lease_row)
    (l : list lease_row) : list lease_row :=
  if stale_row keys now row then update_rows (row_id row) (let_go_row now row) l else l.

Lemma reconcile_rows_run keys now rows acc s : isnan now = false →
  reconcile_rows keys now rows acc s =
  (Ok (acc ++ map row_key (List.filter (stale_row keys now) rows)),
   set_rows (λ l, foldl (λ l row, sweep keys now row l) l rows) s).
Proof.
  intros Hnow. revert acc s. induction rows as [|row rows IH]; intros acc s; cbn [reconcile_rows].
  { cbn. rewrite app_nil_r. by destruct s. }
  cbn [List.filter foldl]. unfold sweep at 2.
  assert (stale_row keys now row
    = negb (negb (SFleb (row_expires_at row) now) && negb (row_key row ∉? keys))) as ->
    by (unfold stale_row; by destruct (SFleb _ _), (bool_decide _)).
  destruct (negb _ && negb _); cbn [negb]; [apply IH|].
  unfold mbind, M_bind. rewrite execute_run. cbn [bind_update].
  rewrite sqlite_real_number by done. cbn [mbind result_bind]. rewrite IH, <-app_assoc. done.
Qed.

Definition sweep_row (keys : list string) (now : spec_float) (rows : list lease_row)
    (r : lease_row) : lease_row :=
  foldl (λ r row, if stale_row keys now row then upd (row_id row) (let_go_row now row) r else r) r rows.

Lemma foldl_sweep keys now rows l :
  foldl (λ l row, sweep keys now row l) l rows = map (sweep_row keys now rows) l.
Proof.
  revert l. induction rows as [|row rows IH]; intros l; cbn [foldl].
  { unfold sweep_row. cbn. by rewrite map_id. }
  rewrite IH. unfold sweep, sweep_row. cbn [foldl].
  destruct (stale_row keys now row); [|done]. unfold update_rows. rewrite map_map. done.
Qed.

Lemma sweep_row_other keys now rows r :
  (∀ x, x ∈ rows → row_id x ≠ row_id r) → sweep_row keys now rows r = r.
Proof.
  unfold sweep_row. induction rows as [|row rows IH]; intros H; [done|]. cbn [foldl].
  assert ((if stale_row keys now row then upd (row_id row) (let_go_row now row) r else r) = r) as ->.
  { destruct (stale_row _ _ _); [|done]. unfold upd.
    destruct (Z.eqb_spec (row_id r) (row_id row)) as [E|]; [|done]. destruct (H row); [by left|done]. }
  apply IH. intros x Hx. apply H. by right.
Qed.

Lemma sweep_row_at keys now rows r :
  NoDup (map row_id rows) → r ∈ rows →
  sweep_row keys now rows r = if stale_row keys now r then apply_update (let_go_row now r) r else r.
Proof.
  unfold sweep_row. induction rows as [|row rows IH]; intros Hnd Hr; [by apply not_elem_of_nil in Hr|].
  cbn [map foldl] in *. apply NoDup_cons in Hnd as [Hid Hnd].
  assert (Hout : ∀ x y, x ∈ rows → row_id y = row_id row → row_id x ≠ row_id y).
  { intros x y Hx Hy E. apply Hid. rewrite <-Hy, <-E. apply list_elem_of_fmap. eauto. }
  apply elem_of_cons in Hr as [->|Hr].
  - change (foldl _ ?x rows) with (sweep_row keys now rows x).
    destruct (stale_row keys now row); [unfold upd; rewrite Z.eqb_refl|];
      apply sweep_row_other; intros x Hx; apply Hout; rewrite ?apply_update_id; done.
  - rewrite <-IH by done. f_equal. destruct (stale_row keys now row); [|done]. unfold upd.
    destruct (Z.eqb_spec (row_id r) (row_id row)) as [E|]; [|done].
    destruct (Hout r r Hr E). done.
Qed.

Lemma active_rows_elem p l r : r ∈ active_rows p l ↔ r ∈ l ∧ active r = true ∧ p r = true.
Proof.
  unfold active_rows, active. rewrite sort_by_perm, filter_elem, andb_true_iff. tauto.
Qed.

(** An active row is its key's last attempt. *)
Lemma active_latest l r : rows_wf l → r ∈ l → active r = true → latest (row_key r) l = Some r.
Proof.
  intros Hl Hr Ha. rewrite latest_last by apply Hl.
  assert (Hin : r ∈ attempts_of (row_key r) l) by (by apply attempts_elem).
  apply list_elem_of_lookup in Hin as [i Hi].
  destruct (decide (S i < length (attempts_of (row_key r) l))%nat) as [Hlt|Hge].
  - pose proof (hw_past _ (ws_histories _ Hl (row_key r)) _ _ Hi Hlt) as Hp.
    apply past_inactive in Hp. congruence.
  - rewrite last_lookup. apply lookup_lt_Some in Hi as Hlt.
    by replace (pred (length (attempts_of (row_key r) l))) with i by lia.
Qed.

Lemma rows_nodup_ids p l : rows_wf l → NoDup (map row_id (active_rows p l)).
Proof.
  intros Hl. unfold active_rows. change (map row_id ?x) with (row_id <$> x).
  rewrite sort_by_perm. apply NoDup_fmap_2_strong.
  - intros x y [Hx _]%filter_elem [Hy _]%filter_elem. by apply (id_inj l).
  - apply NoDup_ListNoDup, List.NoDup_filter, NoDup_ListNoDup.
    eapply NoDup_fmap_1. exact (ws_tokens _ Hl).
Qed.

Lemma sweep_row_spec keys now l r : rows_wf l → r ∈ l →
  let g := sweep_row keys now (active_rows (λ _, true) l) r in
  evolves r g ∧ row_wf g ∧
  row_view g = (if stale keys now (row_key r) (row_view r) then let_go now (row_view r) else row_view r).
Proof.
  intros Hl Hr g. pose proof (ws_rows _ Hl _ Hr) as Hw.
  unfold stale. rewrite held_active by done. subst g.
  destruct (active r) eqn:Ha; cbn [andb].
  - rewrite sweep_row_at; [|by apply rows_nodup_ids|by apply active_rows_elem].
    change (t_deadline (row_view r)) with (row_expires_at r). unfold stale_row.
    destruct (SFleb _ _ || _); [|by split; [apply evolves_refl|]].
    destruct (abandon_wf (stale_reason now (row_expires_at r)) (stored now) r Ha Hw) as [Hw' Hv].
    split; [by apply apply_update_evolves|]. done.
  - rewrite sweep_row_other; [by split; [apply evolves_refl|]|].
    intros x (Hx & Hxa & _)%active_rows_elem E. apply (id_inj l) in E; [congruence|done..].
Qed.

Lemma sweep_wf keys now l : rows_wf l →
  let l' := map (sweep_row keys now (active_rows (λ _, true) l)) l in
  rows_wf l' ∧ grows l l' ∧
  ∀ k, task_at l' k = (λ t, if stale keys now k t then let_go now t else t) <$> task_at l k.
Proof.
  intros Hl l'. pose proof (sweep_row_spec keys now l) as Hspec.
  assert (Hwf : rows_wf l').
  { apply rows_wf_map; [done|]. intros r Hr. by destruct (Hspec r Hl Hr) as (? & ? & _). }
  split_and!; [done| |].
  - apply grows_map. intros r Hr. by apply Hspec.
  - intros k. rewrite !task_at_latest, !latest_last by (apply Hwf || apply Hl || done).
    unfold l'. rewrite attempts_of_map by (intros r Hr; apply Hspec; done).
    change (map ?g ?x) with (g <$> x). rewrite fmap_last.
    destruct (last (attempts_of k l)) as [r|] eqn:E; [|done]. cbn. f_equal.
    assert (row_key r = k ∧ r ∈ l) as [<- Hr]
      by (apply attempts_elem; rewrite last_lookup in E; by eapply list_elem_of_lookup_2).
    by apply Hspec.
Qed.

(** The keys a sweep reports: exactly those whose lease it gave up, once each. *)
Lemma swept_keys keys now l : rows_wf l →
  let ks := sort_strs (map row_key (List.filter (stale_row keys now) (active_rows (λ _, true) l))) in
  NoDup ks ∧ StronglySorted (λ a b, str_leb a b = true) ks ∧
  ∀ k, k ∈ ks ↔ ∃ t, task_at l k = Some t ∧ stale keys now k t = true.
Proof.
  intros Hl ks. unfold ks, sort_strs. split_and!.
  - rewrite sort_by_perm. apply NoDup_fmap_2_strong.
    + intros x y [(Hx & Hxa & _)%active_rows_elem _]%filter_elem
        [(Hy & Hya & _)%active_rows_elem _]%filter_elem E.
      apply active_latest in Hx, Hy; [|done..]. rewrite E in Hx. congruence.
    + apply NoDup_ListNoDup, List.NoDup_filter, NoDup_ListNoDup.
      eapply (NoDup_fmap_1 row_id). by apply rows_nodup_ids.
  - apply sort_by_sorted; [apply str_leb_total|apply str_leb_trans].
  - intros k. rewrite sort_by_perm, list_elem_of_fmap. split.
    + intros (r & -> & [(Hr & Ha & _)%active_rows_elem Hst]%filter_elem).
      exists (row_view r). rewrite task_at_latest, active_latest by done. split; [done|].
      unfold stale. rewrite held_active by (by apply Hl). by rewrite Ha.
    + intros (t & Ht & Hst). rewrite task_at_latest in Ht by done.
      destruct (latest k l) as [r|] eqn:E; [|done]. cbn in Ht. simplify_eq.
      destruct (latest_elem _ _ _ Hl E) as [<- Hr]. unfold stale in Hst.
      rewrite held_active in Hst by (by apply Hl). apply andb_true_iff in Hst as [Ha Hst].
      exists r. split; [done|]. apply filter_elem. split; [|done]. by apply active_rows_elem.
Qed.

(** What [reconcile] does, once its arguments are checked. *)
Record swept (keys : list string) (now : spec_float) (s : RunnerLeaseStore)
    (r : result (list string)) (s' : RunnerLeaseStore) : Prop := {
  sp_wf : store_wf s';
  sp_grows : grows (lease_rows s) (lease_rows s');
  sp_tasks : ∀ k, task_at (lease_rows s') k =
    (λ t, if stale keys now k t then let_go now t else t) <$> task_at (lease_rows s) k;
  sp_answer : ∃ ks, r = Ok ks ∧ NoDup ks ∧ StronglySorted (λ a b, str_leb a b = true) ks ∧
    ∀ k, k ∈ ks ↔ ∃ t, task_at (lease_rows s) k = Some t ∧ stale keys now k t = true
}.

Section sweeps.
Context (clock : nat → number).

Definition sweep_of (s : RunnerLeaseStore) (keys : list string) (now : option number)
    : result (list string * spec_float) :=
  keys ← _key_set keys; now ← time_of clock s now; Ok (keys, now).

Lemma reconcile_swept keys now s r s' :
  store_wf s → reconcile clock keys now s = (r, s') →
  match sweep_of s keys now with
  | Ok (keys, now) => swept keys now s r s'
  | Raise e => r = Raise e ∧ same_db s s'
  end.
Proof.
  intros Hs. unfold reconcile, sweep_of. check_args.
  destruct (timestamp_run clock now s) as (s1 & Hts & Hdb & _).
  unfold mbind at 1, M_bind at 1. rewrite Hts. unfold time_of in *.
  destruct (check_timestamp _) as [ts|e] eqn:E; cbn [mbind result_bind]; [|by intros [= <- <-]].
  pose proof (same_db_wf _ _ Hdb Hs) as Hs1. pose proof Hdb as (_ & El & _).
  unfold mbind at 1, M_bind at 1. rewrite transaction_run by done.
  unfold commit_or_rollback. unfold mbind at 1, M_bind at 1, gets at 1.
  rewrite reconcile_rows_run by (by eapply finite_not_nan, check_timestamp_ok).
  intros [= <- <-]. rewrite El. destruct (sweep_wf a ts _ (sw_rows _ Hs)) as (Hwf & Hg & Ht).
  constructor; cbn [lease_rows set_rows]; rewrite ?El, ?foldl_sweep; try done.
  - apply set_rows_wf; [done|]. by rewrite El, foldl_sweep.
  - eexists. split; [done|]. apply swept_keys. apply Hs.
Qed.
End sweeps.

(** ** Reads *)
Lemma get_latest_run k s : store_wf s → ∃ r,
  get_latest k s = (r, s) ∧
  match _text 512 k with
  | Ok k => ∃ o, r = Ok o ∧ task_of <$> o = task_at (lease_rows s) k
  | Raise e => r = Raise e
  end.
Proof.
  intros [Ho Hv Hl]. unfold get_latest. m_run. destruct (_text 512 k) as [key|e]; [|by eexists].
  unfold _ensure_open, _verify_schema, _latest_row. rewrite Ho, Hv. cbn [negb raise_if].
  rewrite bool_decide_eq_true_2 by done. cbn [negb raise_if]. m_run.
  rewrite task_at_latest by done. destruct (latest key (lease_rows s)) as [row|] eqn:E.
  - destruct (record_view row) as (rec & Hrec & Ht); [by apply Hl; eapply latest_elem|].
    rewrite Hrec. eexists. split; [done|]. eexists. split; [done|]. cbn. by rewrite Ht.
  - eexists. split; [done|]. by eexists.
Qed.

Lemma list_active_db clock now s r s' : list_active clock now s = (r, s') → same_db s s'.
Proof.
  unfold list_active. destruct (timestamp_run clock now s) as (s1 & Hts & Hdb & _).
  unfold mbind at 1, M_bind at 1. rewrite Hts. destruct (time_of clock s now); [|by intros [= <- <-]].
  m_run. repeat case_match; intros; by simplify_eq.
Qed.

Lemma answered {A} (m : M RunnerLeaseStore A) (f : A → answer) s r s' :
  (x ← m; mret (f x)) s = (r, s') → ∃ r1, m s = (r1, s') ∧
  r = match r1 with Ok x => Ok (f x) | Raise e => Raise e end.
Proof. unfold mbind, M_bind. destruct (m s) as [[x|e] s1]; intros [= <- <-]; eauto. Qed.

(** ** Every operation *)
Section runs2.
Context (clock : nat → number) (token_factory : nat → string).

Lemma run_op_inv op s r s' : store_wf s → run_op clock token_factory op s = (r, s') →
  store_wf s' ∧ grows (lease_rows s) (lease_rows s').
Proof.
  assert (Hdb : ∀ s', store_wf s → same_db s s' → store_wf s' ∧ grows (lease_rows s) (lease_rows s')).
  { intros s1 Hs H. split; [by eapply same_db_wf|]. destruct H as (_ & -> & _). apply grows_refl. }
  intros Hs. destruct op as [op|k|now|keys now]; cbn [run_op]; intros (r1 & E & ->)%answered.
  - apply key_op_steps in E; [|done]. unfold call_steps in E.
    destruct (request_of _ _ s op) as [[k q]|e]; [by destruct E|]. apply Hdb; tauto.
  - destruct (get_latest_run k s Hs) as (r2 & E2 & _). rewrite E2 in E. simplify_eq. by apply Hdb.
  - apply Hdb; [done|]. by eapply list_active_db.
  - apply reconcile_swept in E; [|done].
    destruct (sweep_of _ _ _ _) as [[ks ts]|e]; [by destruct E|]. apply Hdb; tauto.
Qed.

Lemma lease_ops_cons op ops s rs s' :
  run_ops clock token_factory (op :: ops) s = (rs, s') → ∃ r s1 rs1,
  run_op clock token_factory op s = (r, s1) ∧ run_ops clock token_factory ops s1 = (rs1, s') ∧
  rs = (op, r) :: rs1.
Proof.
  cbn [run_ops]. destruct (run_op _ _ op s) as [r s1] eqn:E1.
  destruct (run_ops _ _ ops s1) as [rs1 s2] eqn:E2. intros [= <- <-]. eauto 10.
Qed.

Lemma run_ops_inv ops s rs s' : store_wf s → run_ops clock token_factory ops s = (rs, s') →
  store_wf s' ∧ grows (lease_rows s) (lease_rows s').
Proof.
  revert s rs. induction ops as [|op ops IH]; intros s rs Hs H.
  { cbn in H. simplify_eq. split; [done|apply grows_refl]. }
  apply lease_ops_cons in H as (r & s1 & rs1 & Hop & Hrun & ->).
  destruct (run_op_inv _ _ _ _ Hs Hop) as [Hs1 Hg]. destruct (IH _ _ Hs1 Hrun) as [? Hg'].
  split; [done|by eapply grows_trans].
Qed.

(** A task that no operation of a run can move. *)
Definition settled_op (k : string) (t : task) (s : RunnerLeaseStore) (op : store_op) : Prop :=
  match op with
  | Write op => ∀ q, request_of clock token_factory s op = Ok (k, q) →
      ∃ e, spec_step (fresh_in (lease_rows s)) q (Some t) = (Raise e, Some t)
  | Reconcile keys now => ∀ keys' now', sweep_of clock s keys now = Ok (keys', now') →
      stale keys' now' k t = false
  | _ => True
  end.

(** A condition on each operation of a run, at the state it meets. *)
Fixpoint run_all (P : RunnerLeaseStore → store_op → Prop) (ops : list store_op)
    (s : RunnerLeaseStore) : Prop :=
  match ops with
  | [] => True
  | op :: ops => P s op ∧ run_all P ops (run_op clock token_factory op s).2
  end.

Definition claims (k : string) (op : store_op) : bool :=
  match op with Write (Acquire key _ _ _ _ _ _ _) => key == k | _ => false end.

Lemma text_id n v x : _text n v = Ok x → x = v.
Proof. unfold _text. intros. inv_ok. done. Qed.

Lemma claim_key op s k q k' :
  claims k (Write op) = true → request_of clock token_factory s op = Ok (k', q) → k' = k.
Proof.
  destruct op; try discriminate. cbn [claims request_of]. intros Hk H. bool_facts. subst.
  inv_ok. simplify_eq. by eapply text_id.
Qed.

Lemma settled_step k t s op r s' :
  store_wf s → task_at (lease_rows s) k = Some t → settled_op k t s op →
  run_op clock token_factory op s = (r, s') →
  task_at (lease_rows s') k = Some t ∧ (claims k op = true → ∃ e, r = Raise e).
Proof.
  intros Hs Ht Hset.
  assert (Hdb : ∀ s', same_db s s' → task_at (lease_rows s') k = Some t)
    by (intros ? (_ & -> & _); done).
  destruct op as [op|k'|now|keys now]; cbn [run_op settled_op] in *; intros (r1 & E & ->)%answered.
  - apply key_op_steps in E; [|done]. unfold call_steps in E.
    destruct (request_of _ _ s op) as [[k' q]|e] eqn:Eq.
    2:{ destruct E as [-> ?]. split; [by apply Hdb|]. eauto. }
    destruct (decide (k' = k)) as [->|Hk].
    + destruct (Hset q eq_refl) as [e He]. destruct E as [_ _ Ha Hk _]. rewrite Ht, He in *.
      split; [done|]. intros _. destruct r1; [done|]. eauto.
    + destruct E as [_ _ _ _ Ho]. split; [by rewrite Ho|].
      intros Hc. destruct Hk. by eapply claim_key.
  - destruct (get_latest_run k' s Hs) as (r2 & E2 & _). rewrite E2 in E. by simplify_eq.
  - split; [|done]. apply Hdb. by eapply list_active_db.
  - split; [|done]. apply reconcile_swept in E; [|done].
    destruct (sweep_of _ _ _ _) as [[ks ts]|e]; [|by apply Hdb; tauto].
    destruct E as [_ _ Htasks _]. rewrite Htasks, Ht. cbn. by rewrite (Hset _ _ eq_refl).
Qed.

Lemma settled_run k t ops s rs s' :
  store_wf s → task_at (lease_rows s) k = Some t → run_all (settled_op k t) ops s →
  run_ops clock token_factory ops s = (rs, s') →
  task_at (lease_rows s') k = Some t ∧
  ∀ op r, (op, r) ∈ rs → claims k op = true → ∃ e, r = Raise e.
Proof.
  revert s rs. induction ops as [|op ops IH]; intros s rs Hs Ht Hall H.
  { cbn in H. simplify_eq. split; [done|]. by intros ?? ?%elem_of_nil. }
  apply lease_ops_cons in H as (r & s1 & rs1 & Hop & Hrun & ->).
  destruct Hall as [Hset Hall]. rewrite Hop in Hall.
  destruct (settled_step _ _ _ _ _ _ Hs Ht Hset Hop) as [Ht1 Hr].
  destruct (run_op_inv _ _ _ _ Hs Hop) as [Hs1 _].
  destruct (IH _ _ Hs1 Ht1 Hall Hrun) as [Hfin Hrs]. split; [done|].
  intros op' r' [[= -> ->]|Hin]%elem_of_cons; [done|by apply Hrs].
Qed.

Lemma task_deadline s k t : store_wf s → task_at (lease_rows s) k = Some t →
  isnan (t_deadline t) = false.
Proof.
  intros Hs. rewrite task_at_latest by apply Hs.
  destruct (latest k (lease_rows s)) as [r|] eqn:E; [|done]. intros [= <-].
  by apply (ws_rows _ (sw_rows _ Hs)); eapply latest_elem; [apply Hs|].
Qed.
End runs2.

(** ** Checkpoints *)
Lemma existsb_same {A} (p : A → bool) l l' : (∀ x, x ∈ l ↔ x ∈ l') → existsb p l = existsb p l'.
Proof.
  intros H. apply eq_true_iff_eq. rewrite !existsb_elem. by setoid_rewrite H.
Qed.

Lemma load_checkpoint_dumps d : json_wf (JObj d) → dicts_ok (JObj d) →
  existsb too_long (json_ints (JObj d)) = false →
  ∃ d', sort_keys (JObj d) = JObj d' ∧ load_checkpoint (dumps_unicode (JObj d)) = Ok d'.
Proof.
  intros Hwf Hd Hints. unfold load_checkpoint, json_loads. rewrite loads_dumps_unicode by done.
  cbn [some_or mbind result_bind].
  rewrite (existsb_same _ _ _ (json_ints_sort_keys (JObj d))), Hints.
  rewrite to_dicts_id by (by apply dicts_ok_sort_keys). eexists. split; [done|]. done.
Qed.

Lemma checkpoint_text_ok c text : _checkpoint_json c = Ok text →
  existsb too_long (json_ints c) = false.
Proof. unfold _checkpoint_json. destruct c; try discriminate. intros H. by inv_ok. Qed.

(** A successful call of a holder leaves its key with the act done. *)
Lemma act_done fresh token now a t y o :
  spec_step fresh (Act token now a) t = (Ok y, o) →
  o = Some y ∧ ∃ x, t = Some x ∧ held x = true ∧ t_token x = token ∧ do_act now a x = Ok y.
Proof.
  cbn. unfold spec_act. destruct t as [x|]; [|done].
  destruct (held x) eqn:Hh; [|done]. cbn. destruct (decide (t_token x = token)) as [<-|];
    [rewrite bool_decide_eq_true_2 by done|rewrite bool_decide_eq_false_2 by done; done].
  cbn. destruct (SFleb _ _); [done|]. destruct (do_act now a x) eqn:E; [|done].
  intros [= -> <-]. split; [done|]. by exists x.
Qed.

(** ** Opening a database *)
Lemma open_fresh busy db s :
  schema_version db = None → lease_rows db = [] → open_store busy db = (Ok tt, s) →
  store_wf s ∧ lease_rows s = [].
Proof.
  intros Hv Hr. unfold open_store, _initialize_schema. m_run. destruct (raise_if _ _); [|done].
  cbn. rewrite Hv. intros [= <-]. split; [|done]. constructor; try done. cbn. rewrite Hr.
  constructor.
  - by intros ? ?%elem_of_nil.
  - done.
  - constructor.
  - intros k. constructor; try done. by intros ? ? ?%elem_of_nil.
Qed.

(** ** Properties *)

(** C16. Refinement: on a well-formed open store every call that writes a key is
    exactly one step of the abstract ledger of that key - same answer or
    exception, same task afterwards, the abandonment of an expired lease
    committed although the call raises - and no other key's task changes; a call
    whose arguments fail their checks raises that error and writes nothing. *)
Theorem runner_lease_refines clock token_factory op s r s' :
  store_wf s → run_key_op clock token_factory op s = (r, s') →
  store_wf s' ∧
  match request_of clock token_factory s op with
  | Ok (k, q) =>
      let spec := spec_step (fresh_in (lease_rows s)) q (task_at (lease_rows s) k) in
      observe r = spec.1 ∧ task_at (lease_rows s') k = spec.2 ∧
      ∀ k', k' ≠ k → task_at (lease_rows s') k' = task_at (lease_rows s) k'
  | Raise e => r = Raise e ∧ lease_rows s' = lease_rows s
  end.
Proof.
  intros Hs H%key_op_steps; [|done]. unfold call_steps in H.
  destruct (request_of _ _ s op) as [[k q]|e].
  - by destruct H.
  - destruct H as [-> Hdb]. split; [by eapply same_db_wf|]. split; [done|]. by destruct Hdb as (_ & -> & _).
Qed.

(** The attempts are an append-only history: whatever is run on a database
    from its creation, the attempts at every key are numbered from one, all but
    the last have failed or been abandoned and all are for the same task, lease
    tokens are never reused; and whatever is run next, every row stays at its
    place, keeps its identity, token and start, and is frozen once terminal. *)
Theorem runner_history_kept clock token_factory busy db s0 ops1 rs1 s1 ops2 rs2 s2 :
  schema_version db = None → lease_rows db = [] → open_store busy db = (Ok tt, s0) →
  run_ops clock token_factory ops1 s0 = (rs1, s1) →
  run_ops clock token_factory ops2 s1 = (rs2, s2) →
  rows_wf (lease_rows s1) ∧ rows_wf (lease_rows s2) ∧
  ∀ i row, lease_rows s1 !! i = Some row →
    ∃ row', lease_rows s2 !! i = Some row' ∧ evolves row row'.
Proof.
  intros Hv Hr Hopen H1 H2. destruct (open_fresh _ _ _ Hv Hr Hopen) as [Hs0 _].
  destruct (run_ops_inv _ _ _ _ _ _ Hs0 H1) as [Hs1 _].
  destruct (run_ops_inv _ _ _ _ _ _ Hs1 H2) as [Hs2 Hg]. by destruct Hs1, Hs2.
Qed.

(** C17. Exclusion: as long as no call presents the holder's token, no claim and no
    reconciliation comes at or after the deadline, and every reconciliation lists
    the key as active, no interleaving of calls moves the lease: the task stays
    exactly as it is and every claim of the key raises.  The listing is needed, by
    design: a reconciliation whose snapshot misses the key abandons the lease at
    once, before its deadline and without its token. *)
Theorem runner_lease_exclusive clock token_factory ops s rs s' k t :
  store_wf s → task_at (lease_rows s) k = Some t → held t = true →
  run_all clock token_factory (λ s op,
    match op with
    | Write op => ∀ q, request_of clock token_factory s op = Ok (k, q) →
        match q with
        | Claim _ _ now _ => SFltb now (t_deadline t) = true
        | Act token _ _ => token ≠ t_token t
        end
    | Reconcile keys now => ∀ keys' now', sweep_of clock s keys now = Ok (keys', now') →
        k ∈ keys' ∧ SFltb now' (t_deadline t) = true
    | _ => True
    end) ops s →
  run_ops clock token_factory ops s = (rs, s') →
  task_at (lease_rows s') k = Some t ∧
  (∀ op r, (op, r) ∈ rs → claims k op = true → ∃ e, r = Raise e) ∧
  ∀ keys now keys' now' r s'', sweep_of clock s' keys now = Ok (keys', now') → k ∉ keys' →
    SFltb now' (t_deadline t) = true → reconcile clock keys now s' = (r, s'') →
    t_phase <$> task_at (lease_rows s'') k = Some (Abandoned "task no longer active in GitHub snapshot").
Proof.
  intros Hs Ht Hheld Hall Hrun.
  destruct (settled_run clock token_factory k t ops s rs s') as [Ht' Hclaims]; try done.
  2: { split; [done|]. split; [done|]. intros keys now keys' now' r s'' Hsw Hk Hlt Hrec.
       destruct (run_ops_inv _ _ _ _ _ _ Hs Hrun) as [Hs' _].
       apply reconcile_swept in Hrec; [|done]. rewrite Hsw in Hrec. destruct Hrec as [_ _ Hswept _].
       rewrite Hswept, Ht'. cbn. unfold stale. rewrite Hheld, (bool_decide_eq_false_2 _ Hk), orb_true_r. cbn.
       pose proof (task_deadline _ _ _ Hs Ht) as Hd. destruct (fltb_nan _ _ Hlt) as [Hn _].
       unfold stale_reason. by rewrite (fleb_fltb _ _ Hn Hd), Hlt. }
  clear Hrun. pose proof (task_deadline _ _ _ Hs Ht) as Hd. clear Hs Ht. revert s Hall.
  induction ops as [|op ops IH]; intros s Hall; [done|].
  destruct Hall as [Hop Hall]. split; [|by apply IH]. destruct op as [op| | |keys now]; try done; cbn.
  - intros q Hq. specialize (Hop q Hq). destruct q as [i token now d|token now a]; cbn.
    + destruct (t_identity t != i); [eauto|]. assert (completed t = false) as ->
        by (unfold held, completed in *; by destruct (t_phase t)).
      rewrite Hheld, Hop. cbn. eauto.
    + rewrite Hheld. cbn. rewrite bool_decide_eq_false_2 by done. cbn. eauto.
  - intros ks ts Hsw. destruct (Hop ks ts Hsw) as [Hk Hlt]. unfold stale.
    destruct (fltb_nan _ _ Hlt) as [Hn _]. rewrite (fleb_fltb _ _ Hn Hd), Hlt.
    rewrite bool_decide_eq_true_2 by done. by rewrite andb_false_r.
Qed.

(** A completed task is final: whatever runs afterwards, its key keeps the
    attempt, token and receipt it was completed with, and every claim of the key
    raises. *)
Theorem completed_is_final clock token_factory ops s rs s' k t :
  store_wf s → task_at (lease_rows s) k = Some t → completed t = true →
  run_ops clock token_factory ops s = (rs, s') →
  task_at (lease_rows s') k = Some t ∧
  ∀ op r, (op, r) ∈ rs → claims k op = true → ∃ e, r = Raise e.
Proof.
  intros Hs Ht Hc Hrun. apply (settled_run clock token_factory k t ops s rs s'); try done. clear Hs Ht Hrun.
  assert (Hheld : held t = false) by (unfold held, completed in *; by destruct (t_phase t)).
  revert s. induction ops as [|op ops IH]; intros s; [done|]. split; [|apply IH].
  destruct op as [op| | |keys now]; try done; cbn.
  - intros [i token now d|token now a] _; cbn; rewrite ?Hheld, ?Hc; cbn; [|eauto].
    destruct (t_identity t != i); eauto.
  - intros ks ts _. unfold stale. by rewrite Hheld.
Qed.

(** Reconciliation is exact: it abandons precisely the held leases that have
    expired or whose key the snapshot does not list, with the matching reason,
    leaves every other task alone, and returns the abandoned keys sorted and
    without repetition. *)
Theorem runner_reconcile_exact clock keys now s r s' keys' now' :
  store_wf s → sweep_of clock s keys now = Ok (keys', now') →
  reconcile clock keys now s = (r, s') →
  (∀ k, task_at (lease_rows s') k =
     (λ t, if stale keys' now' k t then let_go now' t else t) <$> task_at (lease_rows s) k) ∧
  ∃ ks, r = Ok ks ∧ NoDup ks ∧ StronglySorted (λ a b, str_leb a b = true) ks ∧
    ∀ k, k ∈ ks ↔ ∃ t, task_at (lease_rows s) k = Some t ∧ stale keys' now' k t = true.
Proof.
  intros Hs Hsw H%reconcile_swept; [|done]. rewrite Hsw in H. by destruct H.
Qed.

(** A checkpoint survives its text: when a checkpoint has been saved, both the
    record the call returns and the record read back afterwards hold the same
    object with its keys sorted at every depth. *)
Theorem checkpoint_survives clock k token d now s rec s' :
  store_wf s → json_wf (JObj d) → dicts_ok (JObj d) →
  save_checkpoint clock k token (JObj d) now s = (Ok rec, s') →
  JObj <$> checkpoint rec = Some (sort_keys (JObj d)) ∧
  ∃ rec', get_latest k s' = (Ok (Some rec'), s') ∧ checkpoint rec' = checkpoint rec.
Proof.
  intros Hs Hwf Hd H.
  pose proof (key_op_steps clock (λ _, "") (SaveCheckpoint k token (JObj d) now) s _ _ Hs H) as Hc.
  unfold call_steps in Hc. cbn [request_of] in Hc.
  destruct (_checkpoint_json (JObj d)) as [text|e] eqn:Et; [|by destruct Hc]. cbn [mbind result_bind] in Hc.
  destruct (time_of clock s now) as [ts|e]; [|by destruct Hc]. cbn [mbind result_bind] in Hc.
  destruct (checkpoint_json_ok _ _ Et) as [-> _].
  destruct (load_checkpoint_dumps d Hwf Hd (checkpoint_text_ok _ _ Et)) as (d' & Hsort & Hload).
  rewrite Hload in Hc. cbn [mbind result_bind] in Hc. unfold holder_request in Hc.
  destruct (_text 512 k) as [key|e] eqn:Ek; [|by destruct Hc]. cbn [mbind result_bind] in Hc.
  destruct (_text 512 token) as [tk|e]; [|by destruct Hc]. cbn [mbind result_bind] in Hc.
  destruct Hc as [Hs' _ Ha Htask _]. cbn [observe] in Ha.
  destruct (spec_step _ _ _) as [sr so] eqn:Espec. cbn [fst snd] in *. subst sr.
  apply act_done in Espec as (-> & x & _ & _ & _ & Hact). apply (proj1 (Ok_inj _ _)) in Hact.
  assert (Hck : checkpoint rec = Some d') by (symmetry; exact (f_equal t_checkpoint Hact)).
  rewrite Hck, Hsort. split; [done|].
  destruct (get_latest_run k s' Hs') as (r' & Hget & Hr'). rewrite Ek in Hr'.
  destruct Hr' as (o & -> & Ho). rewrite Htask in Ho. destruct o as [rec'|]; [|done].
  exists rec'. split; [done|]. rewrite <-Hck.
  assert (Ho' : task_of rec' = task_of rec) by (apply (inj Some); exact Ho). exact (f_equal t_checkpoint Ho').
Qed.

(** ** Witnesses *)
Definition demo_clock (n : nat) : number := PyInt (100 + Z.of_nat n).
Definition demo_tokens (n : nat) : string := String (ascii_of_nat (97 + n)) "-token".
Definition demo_db : RunnerLeaseStore :=
  {| schema_version := None; lease_rows := []; closed := true; clock_readings := 0; tokens_drawn := 0 |}.
Definition demo_sha : string := "2eb9e054ee14ce6ebbe535dcd193e9a79bc58a78".
Definition demo_take (key : string) (seconds : number) (now : option number) (token : option string)
    : key_op := Acquire key "#1521" "alanua/Skeleton" "runner/issue-1521" demo_sha seconds now token.
Definition demo_open : RunnerLeaseStore := (open_store (PyInt 5000) demo_db).2.
Definition demo_after (ops : list store_op) : RunnerLeaseStore :=
  (run_ops demo_clock demo_tokens ops demo_open).2.

Lemma demo_after_wf ops : store_wf (demo_after ops).
Proof.
  assert (H : open_store (PyInt 5000) demo_db = (Ok tt, demo_open)) by reflexivity.
  destruct (open_fresh _ demo_db _ eq_refl eq_refl H) as [Hs _].
  exact (proj1 (run_ops_inv demo_clock demo_tokens ops _ _ _ Hs (surjective_pairing _))).
Qed.

(** One lease of thirty seconds at second 100. *)
Definition demo_leased : RunnerLeaseStore :=
  demo_after [Write (demo_take "task-1521" (PyInt 30) None None)].

(** A positive duration need not give a lease: the deadline is a float sum, so
    a duration below half the spacing of floats at the current time is absorbed.
    At 1700000000 seconds a lease of 2^-30 seconds passes every check and expires
    when it starts; a second claim at the same instant takes the key over. *)
Theorem short_lease_absorbed :
  let instant := Some (PyInt 1700000000) in
  let moment := PyFloat (S754_finite false (2 ^ 52) (-82)) in
  let claim token := Write (demo_take "task-1521" moment instant (Some token)) in
  let rs := (run_ops demo_clock demo_tokens [claim "one"; claim "two"] demo_open).1 in
  map (λ x, match x.2 with
            | Ok (ARecord r) => Some (attempt r, lease_token r, SFleb (expires_at r) (acquired_at r))
            | _ => None
            end) rs = [Some (1, "one", true); Some (2, "two", true)].
Proof. vm_compute. reflexivity. Qed.

Lemma runner_lease_refines_witness :
  observe (run_key_op demo_clock demo_tokens (demo_take "task-1521" (PyInt 30) None None) demo_leased).1
  = Raise (serr "LEASE_CONFLICT").
Proof.
  destruct (runner_lease_refines demo_clock demo_tokens (demo_take "task-1521" (PyInt 30) None None)
    demo_leased _ _ (demo_after_wf _) (surjective_pairing _)) as [_ H].
  assert (E : is_ok (request_of demo_clock demo_tokens demo_leased
    (demo_take "task-1521" (PyInt 30) None None)) = true) by (vm_compute; reflexivity).
  destruct (request_of _ _ _ _) as [[k q]|e] eqn:Eq; [|discriminate E].
  destruct H as (H & _). rewrite H.
  assert (Hq : Ok (k, q) = request_of demo_clock demo_tokens demo_leased
    (demo_take "task-1521" (PyInt 30) None None)) by (symmetry; exact Eq).
  vm_compute in Hq. injection Hq as -> ->. vm_compute. reflexivity.
Defined.

Lemma runner_history_kept_witness :
  let s1 := demo_leased in
  let s2 := (run_ops demo_clock demo_tokens
    [Reconcile [] None; Write (demo_take "task-1521" (PyInt 30) None None)] s1).2 in
  length (lease_rows s1) = 1%nat ∧ length (lease_rows s2) = 2%nat ∧
  ∃ row', lease_rows s2 !! 0%nat = Some row' ∧ row_token row' = "a-token".
Proof.
  intros s1 s2.
  destruct (runner_history_kept demo_clock demo_tokens (PyInt 5000) demo_db demo_open
    [Write (demo_take "task-1521" (PyInt 30) None None)] _ s1
    [Reconcile [] None; Write (demo_take "task-1521" (PyInt 30) None None)] _ s2
    eq_refl eq_refl eq_refl (surjective_pairing _) (surjective_pairing _)) as (_ & _ & H).
  split; [vm_compute; reflexivity|]. split; [vm_compute; reflexivity|].
  destruct (lease_rows s1 !! 0%nat) as [row|] eqn:E; [|vm_compute in E; discriminate E].
  destruct (H 0%nat row E) as (row' & Hrow & Hev). exists row'. split; [exact Hrow|].
  rewrite (ev_token _ _ Hev). vm_compute in E. injection E as <-. reflexivity.
Defined.

Definition demo_task : task :=
  {| t_identity := ("#1521", "alanua/Skeleton", "runner/issue-1521", demo_sha); t_attempt := 1;
     t_token := "a-token"; t_deadline := f64_of_int 130; t_checkpoint := None; t_phase := Leased |}.

Lemma runner_lease_exclusive_witness :
  task_at (lease_rows (run_ops demo_clock demo_tokens
    [Write (demo_take "task-1521" (PyInt 30) None None);
     Write (Heartbeat "task-1521" "other" (PyInt 30) None);
     Reconcile ["task-1521"] (Some (PyInt 129))] demo_leased).2) "task-1521" = Some demo_task.
Proof.
  refine (proj1 (runner_lease_exclusive demo_clock demo_tokens
    [Write (demo_take "task-1521" (PyInt 30) None None);
     Write (Heartbeat "task-1521" "other" (PyInt 30) None);
     Reconcile ["task-1521"] (Some (PyInt 129))] demo_leased _ _ "task-1521" demo_task
    (demo_after_wf _) _ eq_refl _ (surjective_pairing _))).
  - vm_compute. reflexivity.
  - split; [|split; [|split; [|exact I]]].
    + intros q Hq. vm_compute in Hq. injection Hq as <-. vm_compute. reflexivity.
    + intros q Hq. vm_compute in Hq. injection Hq as <-. discriminate.
    + intros keys' now' H. vm_compute in H. injection H as <- <-.
      split; [apply list_elem_of_here|vm_compute; reflexivity].
Defined.

Definition demo_receipt : string :=
  "aaaaaaaaaaaaaaaaaaaaaaaaaaaaaaaaaaaaaaaaaaaaaaaaaaaaaaaaaaaaaaaa".
Definition demo_completed : RunnerLeaseStore :=
  demo_after [Write (demo_take "task-1521" (PyInt 30) None None);
              Write (Complete "task-1521" "a-token" demo_receipt None)].

Lemma completed_is_final_witness :
  (phase_of "completed" None (Some demo_receipt) None) = Completed demo_receipt ∧
  t_phase <$> task_at (lease_rows (run_ops demo_clock demo_tokens
    [Write (demo_take "task-1521" (PyInt 30) (Some (PyInt 900)) None); Reconcile [] (Some (PyInt 900))]
    demo_completed).2) "task-1521" = Some (Completed demo_receipt).
Proof.
  split; [vm_compute; reflexivity|].
  destruct (task_at (lease_rows demo_completed) "task-1521") as [t|] eqn:E;
    [|vm_compute in E; discriminate E].
  assert (Ht : completed t = true ∧ t_phase t = Completed demo_receipt)
    by (vm_compute in E; injection E as <-; split; vm_compute; reflexivity).
  destruct (completed_is_final demo_clock demo_tokens
    [Write (demo_take "task-1521" (PyInt 30) (Some (PyInt 900)) None); Reconcile [] (Some (PyInt 900))]
    demo_completed _ _ "task-1521" t (demo_after_wf _) E (proj1 Ht) (surjective_pairing _)) as [H _].
  rewrite H. cbn. f_equal. exact (proj2 Ht).
Defined.

Lemma runner_reconcile_exact_witness :
  (reconcile demo_clock [] (Some (PyInt 110)) demo_leased).1 = Ok ["task-1521"] ∧
  t_phase <$> task_at (lease_rows (reconcile demo_clock [] (Some (PyInt 110)) demo_leased).2) "task-1521"
  = Some (Abandoned "task no longer active in GitHub snapshot").
Proof.
  split; [vm_compute; reflexivity|].
  destruct (runner_reconcile_exact demo_clock [] (Some (PyInt 110)) demo_leased _ _ [] (f64_of_int 110)
    (demo_after_wf _) ltac:(vm_compute; reflexivity) (surjective_pairing _)) as [H _].
  rewrite (H "task-1521"). vm_compute. reflexivity.
Defined.

Lemma checkpoint_survives_witness :
  match save_checkpoint demo_clock "task-1521" "a-token"
    (JObj [("step", JStr "tests"); ("done", JInt 3)]) None demo_leased with
  | (Ok rec, _) => JObj <$> checkpoint rec = Some (JObj [("done", JInt 3); ("step", JStr "tests")])
  | _ => False
  end.
Proof.
  destruct (save_checkpoint demo_clock "task-1521" "a-token"
    (JObj [("step", JStr "tests"); ("done", JInt 3)]) None demo_leased) as [[rec|e] s'] eqn:E.
  - destruct (checkpoint_survives demo_clock "task-1521" "a-token"
      [("step", JStr "tests"); ("done", JInt 3)] None demo_leased rec s' (demo_after_wf _)
      ltac:(cbn; auto) ltac:(apply dicts_ok_obj; split; [by_decide|repeat constructor]) E) as [H _].
    rewrite H. reflexivity.
  - vm_compute in E. discriminate E.
Defined.
