(* ===== verification/Lifecycle.v ===== *)
(** * The GREEN path end to end

    [prepare], [grant] and [run] composed as the poller composes them: each
    guard of a later stage is implied by what the earlier stages established,
    as long as the lease runs and the target stays where it was. *)

From S2P Require Import Prelude.
From S2P Require Import PyStr.
From S2P Require Import Contracts.
From S2P Require Import Leases.
From S2P Require Import Ledger.
From S2P Require Import Adapters.
From S2P Require Import Environment.
From S2P Require Import Routing.
From S2P Require Import Pep.
From S2P Require Import ControlPlane.
From S2P Require Import ExecutionGate.
From S2P Require Import Execution.

Section green_path.
Context (clock : nat → Z) (nodes : NodeCapabilityRegistry)
  (environment_registry : LaneEnvironmentPolicyRegistry) (adapter_planner : AdapterPlanner)
  (current_ref : GreenExecutionHandoff → result string)
  (executor : GreenExecutionGrant → GreenExecutionResult).

(** Prepare, gate, run: the composition of the three operations. *)
Definition green_path (task : UniversalTask) (operation : OperationIR) (adapter_id : string)
    (lane : Lane) (scope target : string) (ttl now : Z)
    (parent injected : gmap string string) : M World GreenExecutionReceipt :=
  h ← prepare clock nodes environment_registry adapter_planner task operation adapter_id lane
    scope target ttl now parent injected;
  g ← grant clock nodes environment_registry current_ref h now;
  run clock g (λ g, mret (executor g)).
End green_path.

(** The lease of a handoff outlives the next [n] readings of the clock. *)
Definition lease_outlives (clock : nat → Z) (h : GreenExecutionHandoff) (n : nat) (w : World)
    : Prop :=
  ∀ hd i, lock_holder (abs_lock (w_leases w) (ho_lane h, ho_lease_scope_key h)) = Some hd →
    (i ≤ clock_readings (w_leases w) + n)%nat → clock i < h_deadline hd.

(** An executor whose results are bound to their grants. *)
Definition honest (executor : GreenExecutionGrant → GreenExecutionResult)
    (g : GreenExecutionGrant) : Prop :=
  _validate_result g (executor g) = Ok tt ∧
  x_validation_status (executor g)
    = (if x_outcome (executor g) == "SUCCEEDED" then "PASS" else "FAIL").

(** C1. The GREEN path completes: once [prepare] has returned a handoff, if its
    lease outlives the four clock readings that follow, its scope key is a
    public reference for the execution layer too, the target has not moved and
    the executor's result is bound to its grant, then gate and run succeed; the
    operation is closed in the ledger as COMPLETED exactly when the executor
    succeeded, the receipt reports the lease as released, and the lane is free. *)
Theorem green_path_completes clock calls environment_registry adapter_planner current_ref executor
    task operation adapter_id lane scope target ttl now parent injected w w1 h
    (nodes := register_all calls ∅) :
  world_wf w →
  prepare clock nodes environment_registry adapter_planner task operation adapter_id lane scope
    target ttl now parent injected w = (Ok h, w1) →
  Execution._public_ref scope = true →
  lease_outlives clock h 3 w1 → current_ref h = Ok target →
  (∀ a, honest executor (granted_of h a)) →
  ∃ g rc w2,
    green_path clock nodes environment_registry adapter_planner current_ref executor task
      operation adapter_id lane scope target ttl now parent injected w = (Ok rc, w2) ∧
    world_wf w2 ∧ rc = receipt_of g (started_of g) (executor g) true ∧
    lock_holder (abs_lock (w_leases w2) (lane, scope)) = None ∧
    ∃ res t, phase_of (op_idempotency_key operation) (w_ledger w2)
        = Done res t (Some (start_of_grant g)) ∧ terminal_of g (executor g) t.
Proof.
  intros Hw Hrun Hscope Hout Hcur Hex.
  assert (Hnodes : Routing.registry_wf nodes) by (by apply register_all_wf).
  pose proof (prepare_spec clock nodes environment_registry adapter_planner task operation
    adapter_id lane scope target ttl now parent injected Hnodes w Hw) as H.
  rewrite Hrun in H. destruct H as (Hw1 & _ & _ & route & plan & _ & _ & _ & _ & Hheld & Hplan & _ &
    _ & _ & Hh).
  pose proof (f_equal ho_lane Hh) as Elane. pose proof (f_equal ho_lease_scope_key Hh) as Escope.
  pose proof (f_equal ho_idempotency_key Hh) as Ekey. cbn in Elane, Escope, Ekey.
  assert (Hkey : ho_idempotency_key h = op_idempotency_key operation)
    by (apply plan_ok in Hplan as (? & _ & _ & _ & _ & _ & He); by rewrite Ekey, He).
  destruct Hheld as (Hf & hd & Hhd & Ht & Ho & Hr & _).
  assert (Hheld : ∀ n, (n ≤ clock_readings (w_leases w1) + 3)%nat →
    held_by (prepare_request task lane scope target ttl (ho_node_id h)) (ho_fence_token h)
      (clock n) (abs_lock (w_leases w1) (lane, scope))).
  { intros n Hn. split; [done|]. exists hd. split_and!; try done.
    apply (Hout hd n); [by rewrite Elane, Escope|done]. }
  set (a := {| pr_adapter_id := ""; pr_operation_id := ""; pr_target_state_ref := "";
    pr_fence_token := 0; pr_idempotency_key := ""; pr_effect_class := GREEN;
    pr_policy_reason_code := ""; pr_authorization_status := "AUTHORIZED_GREEN_BOUNDED";
    pr_side_effects_executed := false |}).
  set (g := granted_of h a). set (w2 := tick_world w1).
  assert (Hgrant : grant clock nodes environment_registry current_ref h now w1 = (Ok g, w2)).
  { apply grant_passes; [done| |done].
    eapply handoff_grantable; [exact Hnodes|exact Hw|exact Hrun|apply Hheld; lia|exact Hcur]. }
  assert (Hready : ∀ w', world_wf w' → w_ledger w' = w_ledger w1 →
    lane_leases (w_leases w') = lane_leases (w_leases w1) →
    lane_fences (w_leases w') = lane_fences (w_leases w1) →
    (clock_readings (w_leases w') ≤ clock_readings (w_leases w1) + 3)%nat →
    begin_ready clock g w').
  { intros w' Hw' Hl Hls Hfs Hn.
    eapply handoff_ready; [exact Hnodes|exact Hw|exact Hrun|exact Hscope|exact Hw'|exact Hl|].
    specialize (Hheld _ Hn). unfold abs_lock in *. by rewrite Hls, Hfs. }
  assert (Hw2 : world_wf w2) by (by apply tick_world_wf).
  destruct (Hex a) as [Hres Hst].
  destruct (ready_run clock g (executor g) (λ g, mret (executor g) : M World _) w2 (λ _, eq_refl) Hw2) as (w3 & rc & w4 & _ & _ & Hgo & Hw4 & Hls3 & Hfin);
    [by apply Hready; [..|cbn; lia]|apply (Hready (tick_world w2));
      [by apply tick_world_wf|done..|cbn; lia]|done|done|].
  destruct Hfin as (res & t & lane' & released & _ & Hdone & Hterm & -> & Hlane & _ & Hrel).
  cbn [g granted_of g_lane] in Hlane. rewrite lane_of_value_lane in Hlane. injection Hlane as <-.
  cbn [g granted_of g_lease_scope_key] in Hrel. rewrite Elane, Escope, Hls3 in Hrel.
  exists g, (receipt_of g (started_of g) (executor g) true), w4.
  assert (released = true ∧ lock_holder (abs_lock (w_leases w4) (lane, scope)) = None)
    as [-> Hfree].
  { destruct Hrel as [Hrel|(_ & _ & [Hnone|(hd' & Hhd' & Hle)])]; [done|exfalso..].
    - change (lock_holder (abs_lock (w_leases w1) (lane, scope)) = None) in Hnone. congruence.
    - change (lock_holder (abs_lock (w_leases w1) (lane, scope)) = Some hd') in Hhd'.
      rewrite Hhd in Hhd'. injection Hhd' as <-.
      destruct (Hheld (S (S (S (clock_readings (w_leases w1)))))) as (_ & hd' & Hhd' & _ & _ & _ & Hlt);
        [lia|]. rewrite Hhd in Hhd'. injection Hhd' as <-. cbn in Hle. lia. }
  split; [|split; [done|]; split; [done|]; split; [done|]; rewrite <-Hkey; by exists res, t].
  unfold green_path, mbind, M_bind. rewrite Hrun, Hgrant. exact Hgo.
Qed.

(** ** Witness *)
Lemma demo_lane h w :
  demo_prepare demo_planner demo_world = (Ok h, w) →
  ho_lane h = CODEGEN ∧ ho_lease_scope_key h = "repo:alpha".
Proof.
  intros E.
  pose proof (prepare_spec demo_clock demo_nodes demo_registry demo_planner cp_task cp_operation
    "adapter:codegen" CODEGEN "repo:alpha" "git:abc" 30000000 1000 demo_parent demo_injected
    (register_all_wf _ _ (map_Forall_empty _)) demo_world demo_world_wf) as H.
  fold (demo_prepare demo_planner) in H. rewrite E in H.
  destruct H as (_ & _ & _ & route & plan & _ & _ & _ & _ & _ & _ & _ & _ & _ & Hh).
  split; by rewrite Hh.
Qed.

Lemma green_path_completes_witness :
  ∃ g rc w2, green_path demo_clock demo_nodes demo_registry demo_planner (λ _, Ok "git:abc")
      demo_result cp_task cp_operation "adapter:codegen" CODEGEN "repo:alpha" "git:abc" 30000000
      1000 demo_parent demo_injected demo_world = (Ok rc, w2) ∧
    rc = receipt_of g (started_of g) (demo_result g) true.
Proof.
  destruct demo_handoff as (h & w1 & E & Hw1 & Hheld).
  pose proof (Hheld 0%nat (Nat.le_0_l _)) as (_ & hd & Hhd & _).
  destruct (demo_lane h w1 E) as [Elane Escope].
  assert (Hout : lease_outlives demo_clock h 3 w1).
  { intros hd' i Hhd' Hi. rewrite Elane, Escope, Hhd in Hhd'. injection Hhd' as <-.
    destruct (Hheld i Hi) as (_ & hd' & Hhd' & _ & _ & _ & Hlt). rewrite Hhd in Hhd'.
    injection Hhd' as <-. exact Hlt. }
  destruct (green_path_completes demo_clock [(demo_snapshot 1, 0)] demo_registry demo_planner
    (λ _, Ok "git:abc") demo_result cp_task cp_operation "adapter:codegen" CODEGEN "repo:alpha"
    "git:abc" 30000000 1000 demo_parent demo_injected demo_world w1 h demo_world_wf E eq_refl Hout
    eq_refl) as (g & rc & w2 & Hrun & _ & Hrc & _).
  - intros a. split; [exact (demo_result_ok h w1 a E)|reflexivity].
  - exists g, rc, w2. split; [exact Hrun|exact Hrc].
Defined.
