(* ===== verification/Reconciliation.v ===== *)
(** * Reconciling started operations

    [src/core/runner_vnext_reconciliation.py]: an operation that was started
    and whose outcome is unknown (the executor raised, or the process died) is
    closed from typed evidence, never by running the effect again.  Probe and
    verifier are injected code: parameters that may change the stores. *)

From S2P Require Import Prelude.
From S2P Require Import PyStr.
From S2P Require Import Json.
From S2P Require Import Sha256.
From S2P Require Import Contracts.
From S2P Require Import Leases.
From S2P Require Import Ledger.
From S2P Require Import Adapters.
From S2P Require Import ControlPlane.
From S2P Require Import ExecutionGate.
From S2P Require Import Execution.

(** ** Data *)
Record OutcomeEvidence := {
  oe_operation_id : string;
  oe_idempotency_key : string;
  oe_adapter_id : string;
  oe_target_state_ref : string;
  oe_fence_token : Z;
  oe_execution_grant_hash : string;
  oe_resources : list string;
  oe_effects : list string;
  oe_outcome : string;
  oe_reason_code : string;
  oe_before_state_ref : string;
  oe_after_state_ref : string;
  oe_validation_status : string;
  oe_evidence_refs : list string;
  oe_fresh : bool;
  oe_rollback_requested : bool
}.

Record RollbackRequest := {
  rb_operation_id : string;
  rb_idempotency_key : string;
  rb_original_operation_id : string;
  rb_original_idempotency_key : string;
  rb_adapter_id : string;
  rb_fence_token : Z;
  rb_resources : list string;
  rb_original_effects : list string;
  rb_target_before_state_ref : string;
  rb_current_after_state_ref : string;
  rb_reason_code : string;
  rb_execution_authorized : bool
}.

Record ReconciliationReceipt := {
  rr_status : string;
  rr_reason_code : string;
  rr_task_id : string;
  rr_node_id : string;
  rr_lane : string;
  rr_operation_id : string;
  rr_idempotency_key : string;
  rr_adapter_id : string;
  rr_fence_token : Z;
  rr_privacy : string;
  rr_execution_grant_hash : string;
  rr_outcome : string;
  rr_validation_status : option string;
  rr_touched_resource_refs : list string;
  rr_before_state_ref : option string;
  rr_after_state_ref : option string;
  rr_rollback_required : bool;
  rr_rollback_request : option RollbackRequest;
  rr_lease_released : bool;
  rr_needs_recovery : bool
}.

Definition rerr (code : string) : exn := ReconciliationError code.

(** ** Checks *)
Definition _public_ref (value : string) : bool :=
  truthy value && negb (startswith_any ["/"; "~"] value) && negb (contains "\" value)
  && negb (contains ".." value) && contains ":" value && negb (any_char isspace value).

Definition _validate_evidence (g : GreenExecutionGrant) (e : OutcomeEvidence)
    (expected_grant_hash : string) : result unit :=
  raise_if (oe_outcome e ∉? ["UNKNOWN"; "NO_EFFECT"; "SUCCEEDED"; "FAILED"; "PARTIAL"])
    (rerr "RECONCILIATION_OUTCOME_INVALID");;
  raise_if (oe_validation_status e ∉? ["PASS"; "FAIL"; "UNKNOWN"])
    (rerr "RECONCILIATION_VALIDATION_INVALID");;
  raise_if (falsy (oe_reason_code e)
            || any_char (λ ch, negb (char_in "ABCDEFGHIJKLMNOPQRSTUVWXYZ0123456789_" ch))
                 (oe_reason_code e))
    (rerr "RECONCILIATION_REASON_INVALID");;
  raise_if ((oe_operation_id e, oe_idempotency_key e, oe_adapter_id e, oe_target_state_ref e,
             oe_fence_token e, oe_execution_grant_hash e, oe_resources e, oe_effects e)
            != (g_operation_id g, g_idempotency_key g, g_adapter_id g, g_target_state_ref g,
                g_fence_token g, expected_grant_hash, env_resources (g_planner_envelope g),
                env_effects (g_planner_envelope g)))
    (rerr "RECONCILIATION_EVIDENCE_BINDING_MISMATCH");;
  if oe_outcome e == "UNKNOWN" then Ok tt
  else each (λ ref, raise_if (negb (_public_ref ref)) (rerr "RECONCILIATION_PUBLIC_REF_REQUIRED"))
         (oe_resources e ++ [oe_before_state_ref e; oe_after_state_ref e]).

(** [except LedgerError as exc: raise ReconciliationError(exc.reason_code)] *)
Definition or_reconciliation_error {A} (r : result A) : result A :=
  match r with Raise (LedgerError c) => Raise (rerr c) | r => r end.

Definition _require_started (g : GreenExecutionGrant) (ledger : OperationLedger)
    : result ExecutionStartEvidence :=
  let key := g_idempotency_key g in
  current ← status key ledger;
  raise_if (current != Some "STARTED") (rerr "RECONCILIATION_STARTED_LEDGER_REQUIRED");;
  '(start, reservation, current_fence) ← or_reconciliation_error (
    start ← started_event key ledger;
    reservation ← reservation_event key ledger;
    current_fence ← current_fence_token key ledger;
    Ok (start, reservation, current_fence));
  raise_if ((start_identity start != grant_identity g)
            || (ev_identity reservation != grant_identity g))
    (rerr "RECONCILIATION_LEDGER_IDENTITY_MISMATCH");;
  raise_if ((start_fence_token start != g_fence_token g) || (current_fence != g_fence_token g))
    (rerr "RECONCILIATION_LEDGER_FENCE_MISMATCH");;
  raise_if (start_execution_grant_hash start != execution_grant_hash g)
    (rerr "RECONCILIATION_GRANT_HASH_MISMATCH");;
  raise_if (Some (start_reservation_scope_hash start) != ev_reservation_scope_hash reservation)
    (rerr "RECONCILIATION_SCOPE_HASH_MISMATCH");;
  Ok start.

(** ** The rollback request *)
Definition rollback_payload (g : GreenExecutionGrant) (e : OutcomeEvidence) : json :=
  JObj [("operation_id", JStr (g_operation_id g));
        ("idempotency_key", JStr (g_idempotency_key g));
        ("execution_grant_hash", JStr (oe_execution_grant_hash e));
        ("after_state_ref", JStr (oe_after_state_ref e))].

Definition _rollback_request (g : GreenExecutionGrant) (e : OutcomeEvidence) : RollbackRequest :=
  let digest := json_hash (rollback_payload g e) in
  {| rb_operation_id := "rollback:" +:+ digest; rb_idempotency_key := "rollback:" +:+ digest;
     rb_original_operation_id := g_operation_id g;
     rb_original_idempotency_key := g_idempotency_key g;
     rb_adapter_id := g_adapter_id g; rb_fence_token := g_fence_token g;
     rb_resources := oe_resources e; rb_original_effects := oe_effects e;
     rb_target_before_state_ref := oe_before_state_ref e;
     rb_current_after_state_ref := oe_after_state_ref e;
     rb_reason_code := "ROLLBACK_REQUIRED"; rb_execution_authorized := false |}.

Definition rollback_required (e : OutcomeEvidence) : bool :=
  negb (oe_outcome e == "SUCCEEDED")
  && (oe_rollback_requested e || (oe_before_state_ref e != oe_after_state_ref e)
      || (oe_outcome e == "PARTIAL")).

Definition reconciled_reason (e : OutcomeEvidence) : string :=
  if oe_outcome e == "NO_EFFECT" then "RECONCILED_NO_EFFECT" else oe_reason_code e.

(** ** Receipts *)
Definition pending_receipt (g : GreenExecutionGrant) (start : ExecutionStartEvidence)
    (reason : string) : ReconciliationReceipt :=
  {| rr_status := "NEEDS_RECOVERY"; rr_reason_code := reason; rr_task_id := g_task_id g;
     rr_node_id := g_node_id g; rr_lane := g_lane g; rr_operation_id := g_operation_id g;
     rr_idempotency_key := g_idempotency_key g; rr_adapter_id := g_adapter_id g;
     rr_fence_token := g_fence_token g;
     rr_privacy := privacy_value (env_privacy (g_planner_envelope g));
     rr_execution_grant_hash := start_execution_grant_hash start; rr_outcome := "UNKNOWN";
     rr_validation_status := None; rr_touched_resource_refs := [];
     rr_before_state_ref := None; rr_after_state_ref := None; rr_rollback_required := false;
     rr_rollback_request := None; rr_lease_released := false; rr_needs_recovery := true |}.

Definition reconciled_receipt (g : GreenExecutionGrant) (start : ExecutionStartEvidence)
    (e : OutcomeEvidence) (lease_released : bool) : ReconciliationReceipt :=
  let rollback := rollback_required e in
  {| rr_status := if oe_outcome e == "SUCCEEDED" then "RECONCILED_COMPLETED"
                  else "RECONCILED_FAILED";
     rr_reason_code := reconciled_reason e; rr_task_id := g_task_id g;
     rr_node_id := g_node_id g; rr_lane := g_lane g; rr_operation_id := g_operation_id g;
     rr_idempotency_key := g_idempotency_key g; rr_adapter_id := g_adapter_id g;
     rr_fence_token := g_fence_token g;
     rr_privacy := privacy_value (env_privacy (g_planner_envelope g));
     rr_execution_grant_hash := start_execution_grant_hash start; rr_outcome := oe_outcome e;
     rr_validation_status := Some (oe_validation_status e);
     rr_touched_resource_refs := oe_resources e;
     rr_before_state_ref := Some (oe_before_state_ref e);
     rr_after_state_ref := Some (oe_after_state_ref e);
     rr_rollback_required := rollback;
     rr_rollback_request := if rollback then Some (_rollback_request g e) else None;
     rr_lease_released := lease_released;
     rr_needs_recovery := rollback || negb lease_released |}.

Section reconciler.
Context (clock : nat → Z).

Definition _pending (g : GreenExecutionGrant) (reason : string)
    : M World ReconciliationReceipt :=
  start ← query (λ w, _require_started g (w_ledger w));
  mret (pending_receipt g start reason).

Definition _release (g : GreenExecutionGrant) : M World bool :=
  catch (
    lane ← lift (lane_of_value (g_lane g));
    on_leases (release_exact clock lane (g_lease_scope_key g) (g_node_id g) (g_fence_token g));;
    mret true)
    (λ e, match e with LeaseError _ | ValueError _ => mret false | e => raise e end).

(** The write and the release, from verified evidence. *)
Definition close_from_evidence (g : GreenExecutionGrant) (start : ExecutionStartEvidence)
    (e : OutcomeEvidence) : M World ReconciliationReceipt :=
  catch (on_ledger (finish (grant_identity g) (g_fence_token g) (oe_outcome e == "SUCCEEDED")
                      (reconciled_reason e) (oe_resources e) (oe_before_state_ref e)
                      (oe_after_state_ref e) (oe_validation_status e));; mret tt)
    (λ x, raise (match x with LedgerError c => rerr c | x => x end));;
  lease_released ← _release g;
  mret (reconciled_receipt g start e lease_released).

(** [reconcile]: the probe's exceptions end in a pending receipt, the
    verifier's propagate. *)
Definition reconcile (g : GreenExecutionGrant)
    (probe : GreenExecutionGrant → M World OutcomeEvidence)
    (verifier : option (GreenExecutionGrant → OutcomeEvidence → M World bool))
    : M World ReconciliationReceipt :=
  start ← query (λ w, _require_started g (w_ledger w));
  evidence ← catch (e ← probe g; mret (Some e)) (λ _, mret None);
  match evidence with
  | None => _pending g "RECONCILIATION_PROBE_FAILED"
  | Some e =>
      lift (_validate_evidence g e (start_execution_grant_hash start));;
      if oe_outcome e == "UNKNOWN" then _pending g "RECONCILIATION_OUTCOME_UNKNOWN"
      else
        verify ← lift (some_or verifier (rerr "RECONCILIATION_EVIDENCE_VERIFIER_REQUIRED"));
        lift (raise_if (negb (oe_fresh e)) (rerr "RECONCILIATION_FRESH_EVIDENCE_REQUIRED"));;
        lift (raise_if (is_empty (oe_evidence_refs e)
                        || existsb (λ ref, negb (_public_ref ref)) (oe_evidence_refs e))
          (rerr "RECONCILIATION_EVIDENCE_REF_INVALID"));;
        verified ← verify g e;
        lift (raise_if (negb verified) (rerr "RECONCILIATION_EVIDENCE_VERIFICATION_FAILED"));;
        let success := oe_outcome e == "SUCCEEDED" in
        lift (raise_if (success && (oe_validation_status e != "PASS"))
          (rerr "RECONCILIATION_SUCCESS_REQUIRES_PASS"));;
        lift (raise_if (negb success && (oe_validation_status e != "FAIL"))
          (rerr "RECONCILIATION_FAILURE_REQUIRES_FAIL"));;
        lift (raise_if ((oe_outcome e == "NO_EFFECT") && (oe_before_state_ref e != oe_after_state_ref e))
          (rerr "RECONCILIATION_NO_EFFECT_STATE_MISMATCH"));;
        close_from_evidence g start e
  end.
End reconciler.

(** ** Public projections *)
Definition hash_or_none (o : option string) : string :=
  text_hash (match o with Some s => if falsy s then "none" else s | None => "none" end).

Definition reconciliation_public_projection (r : ReconciliationReceipt) : json :=
  JObj ([("schema", JStr "skeleton.runner_operation_reconciliation_receipt.v1");
         ("status", JStr (rr_status r)); ("reason_code", JStr (rr_reason_code r));
         ("lane", JStr (rr_lane r)); ("node_id", JStr (rr_node_id r));
         ("fence_token", JInt (rr_fence_token r)); ("privacy", JStr (rr_privacy r));
         ("task_id_hash", JStr (text_hash (rr_task_id r)));
         ("operation_id_hash", JStr (text_hash (rr_operation_id r)));
         ("idempotency_key_hash", JStr (text_hash (rr_idempotency_key r)));
         ("adapter_id", JStr (rr_adapter_id r));
         ("execution_grant_hash", JStr (rr_execution_grant_hash r));
         ("outcome", JStr (rr_outcome r));
         ("validation_status", jopt (rr_validation_status r));
         ("touched_resource_count", JInt (Z.of_nat (length (rr_touched_resource_refs r))));
         ("touched_resource_hash", JStr (_refs_hash (rr_touched_resource_refs r)));
         ("before_state_ref_hash", JStr (hash_or_none (rr_before_state_ref r)));
         ("after_state_ref_hash", JStr (hash_or_none (rr_after_state_ref r)));
         ("state_changed", JBool (bool_decide (is_Some (rr_before_state_ref r))
            && (rr_before_state_ref r != rr_after_state_ref r)));
         ("rollback_required", JBool (rr_rollback_required r));
         ("lease_released", JBool (rr_lease_released r));
         ("needs_recovery", JBool (rr_needs_recovery r));
         ("rollback_request_id_hash",
           jopt (text_hash ∘ rb_idempotency_key <$> rr_rollback_request r))]
    ++ (if rr_privacy r == "PUBLIC_SAFE" then
          [("task_id", JStr (rr_task_id r));
           ("operation_id", JStr (rr_operation_id r));
           ("idempotency_key", JStr (rr_idempotency_key r));
           ("touched_resource_refs", jstrs (rr_touched_resource_refs r));
           ("before_state_ref", jopt (rr_before_state_ref r));
           ("after_state_ref", jopt (rr_after_state_ref r));
           ("rollback_request_id", jopt (rb_idempotency_key <$> rr_rollback_request r))]
        else [])).

Definition rollback_public_projection (r : RollbackRequest) (privacy : string) : json :=
  JObj ([("schema", JStr "skeleton.runner_rollback_request.v1");
         ("privacy", JStr privacy);
         ("rollback_operation_id_hash", JStr (text_hash (rb_operation_id r)));
         ("rollback_idempotency_key_hash", JStr (text_hash (rb_idempotency_key r)));
         ("original_operation_id_hash", JStr (text_hash (rb_original_operation_id r)));
         ("original_idempotency_key_hash", JStr (text_hash (rb_original_idempotency_key r)));
         ("adapter_id", JStr (rb_adapter_id r)); ("fence_token", JInt (rb_fence_token r));
         ("resource_count", JInt (Z.of_nat (length (rb_resources r))));
         ("resource_hash", JStr (_refs_hash (rb_resources r)));
         ("original_effect_count", JInt (Z.of_nat (length (rb_original_effects r))));
         ("original_effect_hash", JStr (_refs_hash (rb_original_effects r)));
         ("target_before_state_ref_hash", JStr (text_hash (rb_target_before_state_ref r)));
         ("current_after_state_ref_hash", JStr (text_hash (rb_current_after_state_ref r)));
         ("reason_code", JStr (rb_reason_code r));
         ("execution_authorized", JBool (rb_execution_authorized r))]
    ++ (if privacy == "PUBLIC_SAFE" then
          [("rollback_operation_id", JStr (rb_operation_id r));
           ("rollback_idempotency_key", JStr (rb_idempotency_key r));
           ("original_operation_id", JStr (rb_original_operation_id r));
           ("original_idempotency_key", JStr (rb_original_idempotency_key r));
           ("resources", jstrs (rb_resources r));
           ("original_effects", jstrs (rb_original_effects r));
           ("target_before_state_ref", JStr (rb_target_before_state_ref r));
           ("current_after_state_ref", JStr (rb_current_after_state_ref r))]
        else [])).

(** ** What the start check requires *)
Definition started_for (g : GreenExecutionGrant) (s : ExecutionStartEvidence) (p : phase) : Prop :=
  ∃ res, p = Live res (g_fence_token g) (Some s) ∧ ev_identity res = grant_identity g ∧
    start_execution_grant_hash s = execution_grant_hash g.

Definition is_reconciliation_error (e : exn) : Prop := ∃ c, e = ReconciliationError c.

Lemma require_started_ok g l s :
  ledger_wf l →
  _require_started g l = Ok s ↔ started_for g s (phase_of (g_idempotency_key g) l).
Proof.
  intros Hwf. unfold _require_started, started_for.
  pose proof (reads_by_phase (g_idempotency_key g) l Hwf) as [-> Hr].
  pose proof (phase_of_facts (g_idempotency_key g) l Hwf) as Hf.
  cbn [mbind result_bind]. rewrite seq_ok, raise_if_ok, negb_false_iff, bool_decide_eq_true.
  destruct (phase_of _ l) as [|res f [st|]|res t st]; cbn [phase_status];
    [split; [by intros [? _]|by intros (? & ? & _)]| |split; [by intros [? _]|by intros (? & ? & _)]
    |split; [|by intros (? & ? & _)]].
  2: { intros [H _]. destruct Hf as (_ & _ & [Ht|Ht] & _); by rewrite Ht in H. }
  destruct Hr as (-> & -> & ->). destruct Hf as (_ & Hs & _).
  destruct (Hs st eq_refl) as (E1 & E2 & E3).
  cbn [some_or or_reconciliation_error mbind result_bind].
  autorewrite with py_ok py_bool. split.
  - intros (_ & (_ & ?) & (_ & ->) & ? & _ & <-). by exists res.
  - intros (res' & [= <- -> <-] & Hid & Hh). by rewrite E1, E2, E3.
Qed.

Lemma require_started_raises g l :
  ledger_wf l → only_raises is_reconciliation_error (_require_started g l).
Proof.
  intros Hwf. unfold _require_started.
  pose proof (reads_by_phase (g_idempotency_key g) l Hwf) as [-> Hr].
  cbn [mbind result_bind]. apply only_raises_bind; [raises; by eexists|intros _].
  apply only_raises_bind; [|intros [[st res] f]; raises; by eexists].
  destruct (phase_of _ l) as [|? ? [?|]|? ? [?|]]; destruct Hr as (-> & -> & ->);
    done || by eexists.
Qed.

(** ** The ledger's finish, inverted *)
Definition finish_evidence (t : LedgerEvent) (f : Z) (ok : bool) (reason : string)
    (refs : list string) (b a v : string) : Prop :=
  ev_fence_token t = f ∧ ev_event_type t = (if ok then COMPLETED else FAILED) ∧
  ev_reason_code t = reason ∧ ev_touched_resource_refs t = refs ∧
  ev_before_state_ref t = Some b ∧ ev_after_state_ref t = Some a ∧ ev_validation_status t = Some v.

Lemma finish_run_cases i f ok reason refs b a v l :
  ledger_wf l →
  let '(r, l') := finish i f ok reason refs b a v l in
  ledger_wf l' ∧ (∀ k, k ≠ id_idempotency_key i → phase_of k l' = phase_of k l) ∧
  match r with
  | Raise e => is_ledger_error e ∧ l' = l
  | Ok t => finish_evidence t f ok reason refs b a v ∧
      ∃ res start, ev_identity res = i ∧ phase_of (id_idempotency_key i) l' = Done res t start ∧
        (phase_of (id_idempotency_key i) l = Live res f start ∨
         phase_of (id_idempotency_key i) l = Done res t start)
  end.
Proof.
  intros Hwf.
  pose proof (implements_elim _ _ _ _ Hwf (finish_implements i f ok reason refs b a v l Hwf)) as H.
  destruct (finish i f ok reason refs b a v l) as [r l']. destruct H as (Hwf' & Hne & H).
  cbn [fst snd] in *. split; [done|]. split; [done|].
  pose proof (spec_step_raises is_ledger_error (last_sequence l + 1)
    (OpFinish i f ok reason refs b a v) (phase_of (id_idempotency_key i) l)
    ltac:(by eexists) ltac:(done)) as Hraise.
  cbn [spec_step] in Hraise.
  destruct (spec_finish _ _ _ _ _ _ _ _ _ _) as [[t p]|e] eqn:E.
  2: { destruct H as [-> ->]. split; [exact Hraise|done]. }
  destruct H as [-> Hp]. unfold spec_finish in E.
  rewrite !seq_ok in E. destruct E as (_ & _ & _ & _ & _ & E).
  apply result_bind_ok in E as (res & Hres & E).
  destruct (phase_of (id_idempotency_key i) l) as [|res0 f0 st0|res0 t0 st0] eqn:Hph; [done| |];
    unfold spec_reservation in Hres; rewrite seq_ok, raise_if_ok in Hres;
    destruct Hres as [Hid [= <-]]; apply negb_false_iff, bool_decide_eq_true in Hid;
    rewrite seq_ok, raise_if_ok, negb_false_iff in E; destruct E as [Hck [= <- <-]]; bool_facts.
  - subst f0. split; [by repeat split|]. exists res0, st0. auto.
  - split; [by split_and!; destruct ok|]. exists res0, st0. auto.
Qed.

(** ** The release *)
Lemma release_cases clock g w :
  lease_wf (w_leases w) →
  let '(r, w') := _release clock g w in
  (∃ b, r = Ok b) ∧ lease_wf (w_leases w') ∧ w_ledger w' = w_ledger w.
Proof.
  intros Hs. unfold _release. m_run.
  pose proof (lane_of_value_raises (g_lane g)) as Hlane.
  destruct (lane_of_value (g_lane g)) as [lane|e]; [|destruct Hlane as [m ->]; eauto].
  rewrite on_leases_run. unfold release_exact.
  destruct (release clock _ _ _ _ (w_leases w)) as [r s'] eqn:E.
  apply release_refines in E as (Hs' & Hobs & _); [|done]. cbn [fst snd].
  destruct r as [rc|e]; [by eauto|].
  assert (∃ c, e = LeaseError c) as [c ->]; [|by eauto].
  cbn [observe_receipt] in Hobs. revert Hobs. unfold spec_release, spec_hold.
  repeat case_match; simpl; try discriminate; intros [= ->]; by eexists.
Qed.

(** ** Closing from evidence *)
Lemma close_spec clock g s e w :
  world_wf w →
  let key := g_idempotency_key g in
  let '(r, w') := close_from_evidence clock g s e w in
  world_wf w' ∧
  match r with
  | Raise x => is_reconciliation_error x ∧ w' = w
  | Ok rc => ∃ released res t start, rc = reconciled_receipt g s e released ∧
      phase_of key (w_ledger w') = Done res t start ∧
      (phase_of key (w_ledger w) = Live res (g_fence_token g) start ∨
       phase_of key (w_ledger w) = Done res t start) ∧
      finish_evidence t (g_fence_token g) (oe_outcome e == "SUCCEEDED") (reconciled_reason e)
        (oe_resources e) (oe_before_state_ref e) (oe_after_state_ref e) (oe_validation_status e)
  end.
Proof.
  intros [Hlw Hgw] key. unfold close_from_evidence. m_run. rewrite on_ledger_run.
  pose proof (finish_run_cases (grant_identity g) (g_fence_token g) (oe_outcome e == "SUCCEEDED")
    (reconciled_reason e) (oe_resources e) (oe_before_state_ref e) (oe_after_state_ref e)
    (oe_validation_status e) (w_ledger w) Hgw) as H.
  destruct (finish _ _ _ _ _ _ _ _ (w_ledger w)) as [[t|x] l'];
    destruct H as (Hwf' & _ & H); cbn [fst snd].
  2: { destruct H as [[c ->] ->]. split; [by destruct w|]. split; [by eexists|by destruct w]. }
  destruct H as (Hev & res & start & _ & Hp & Hp0).
  pose proof (release_cases clock g {| w_leases := w_leases w; w_ledger := l' |} Hlw) as Hrel.
  destruct (_release clock g _) as [rb w2]. destruct Hrel as ([b ->] & Hlw2 & Hl2).
  cbn [w_ledger] in Hl2. split; [by split; [|rewrite Hl2]|].
  exists b, res, t, start. rewrite Hl2. done.
Qed.

Lemma phase_le_refl_live res f s : phase_le (Live res f (Some s)) (Live res f (Some s)).
Proof. done. Qed.

Lemma phase_le_started res f s p q :
  phase_le (Live res f (Some s)) p → phase_le p q → phase_le (Live res f (Some s)) q.
Proof.
  destruct p as [|r1 f1 [s1|]|r1 t1 s1]; cbn [phase_le]; try done; intros (-> & -> & [= ->]); [done|].
  intros <-. done.
Qed.

(** A reference that may be shown: it has a scheme, and is no path. *)
Definition public_reference (s : string) : Prop :=
  s ≠ "" ∧ startswith "/" s = false ∧ startswith "~" s = false ∧ contains "\" s = false ∧
  contains ".." s = false ∧ contains ":" s = true ∧ any_char isspace s = false.

Lemma evidence_ref_ok s : _public_ref s = true ↔ public_reference s.
Proof.
  unfold _public_ref, public_reference, startswith_any. cbn [existsb].
  rewrite !andb_true_iff, !negb_true_iff, !orb_false_iff. destruct s; cbn; intuition discriminate.
Qed.

(** Evidence that speaks about this grant and its start. *)
Record bound (g : GreenExecutionGrant) (e : OutcomeEvidence) : Prop := {
  bn_operation : oe_operation_id e = g_operation_id g;
  bn_key : oe_idempotency_key e = g_idempotency_key g;
  bn_adapter : oe_adapter_id e = g_adapter_id g;
  bn_target : oe_target_state_ref e = g_target_state_ref g;
  bn_fence : oe_fence_token e = g_fence_token g;
  bn_hash : oe_execution_grant_hash e = execution_grant_hash g;
  bn_resources : oe_resources e = env_resources (g_planner_envelope g);
  bn_effects : oe_effects e = env_effects (g_planner_envelope g)
}.

(** Evidence that says what happened and can be shown. *)
Record conclusive (e : OutcomeEvidence) : Prop := {
  cc_outcome : oe_outcome e ∈ ["NO_EFFECT"; "SUCCEEDED"; "FAILED"; "PARTIAL"];
  cc_fresh : oe_fresh e = true;
  cc_status : oe_validation_status e = if oe_outcome e == "SUCCEEDED" then "PASS" else "FAIL";
  cc_no_effect : oe_outcome e = "NO_EFFECT" → oe_before_state_ref e = oe_after_state_ref e;
  cc_reason : oe_reason_code e ≠ "" ∧ ∀ c, c ∈ chars (oe_reason_code e) →
    c ∈ chars "ABCDEFGHIJKLMNOPQRSTUVWXYZ0123456789_";
  cc_evidence : oe_evidence_refs e ≠ [] ∧ ∀ ref, ref ∈ oe_evidence_refs e → public_reference ref;
  cc_refs : ∀ ref, ref ∈ oe_resources e ++ [oe_before_state_ref e; oe_after_state_ref e] →
    public_reference ref
}.

(** What a closing receipt says, and the terminal event it stands for. *)
Record closing (g : GreenExecutionGrant) (e : OutcomeEvidence) (rc : ReconciliationReceipt)
    (t : LedgerEvent) : Prop := {
  cl_status : rr_status rc =
    if oe_outcome e == "SUCCEEDED" then "RECONCILED_COMPLETED" else "RECONCILED_FAILED";
  cl_key : rr_idempotency_key rc = g_idempotency_key g;
  cl_outcome : rr_outcome rc = oe_outcome e;
  cl_rollback : is_Some (rr_rollback_request rc) ↔ oe_outcome e ≠ "SUCCEEDED" ∧
    (oe_rollback_requested e = true ∨ oe_before_state_ref e ≠ oe_after_state_ref e ∨
     oe_outcome e = "PARTIAL");
  cl_event : ev_event_type t = if oe_outcome e == "SUCCEEDED" then COMPLETED else FAILED;
  cl_reason : ev_reason_code t =
    if oe_outcome e == "NO_EFFECT" then "RECONCILED_NO_EFFECT" else oe_reason_code e;
  cl_fence : ev_fence_token t = g_fence_token g;
  cl_refs : ev_touched_resource_refs t = oe_resources e;
  cl_before : ev_before_state_ref t = Some (oe_before_state_ref e);
  cl_after : ev_after_state_ref t = Some (oe_after_state_ref e);
  cl_validation : ev_validation_status t = Some (oe_validation_status e)
}.

(** The outcome of a reconciliation that returns, from the world and the start
    evidence it found: pending, or closed from what the probe answered. *)
Inductive reconciled (g : GreenExecutionGrant) (probe : GreenExecutionGrant → M World OutcomeEvidence)
    (verifier : option (GreenExecutionGrant → OutcomeEvidence → M World bool))
    (w : World) (s : ExecutionStartEvidence) (rc : ReconciliationReceipt) (after : phase) : Prop :=
  | rd_failed x w1 : probe g w = (Raise x, w1) →
      rc = pending_receipt g s "RECONCILIATION_PROBE_FAILED" → started_for g s after →
      reconciled g probe verifier w s rc after
  | rd_unknown e w1 : probe g w = (Ok e, w1) → bound g e → oe_outcome e = "UNKNOWN" →
      rc = pending_receipt g s "RECONCILIATION_OUTCOME_UNKNOWN" → started_for g s after →
      reconciled g probe verifier w s rc after
  | rd_closed e v w1 w2 res t : probe g w = (Ok e, w1) → verifier = Some v → v g e w1 = (Ok true, w2) →
      bound g e → conclusive e → closing g e rc t → after = Done res t (Some s) →
      reconciled g probe verifier w s rc after.

Definition checked (g : GreenExecutionGrant) (e : OutcomeEvidence) : Prop :=
  oe_outcome e ∈ ["UNKNOWN"; "NO_EFFECT"; "SUCCEEDED"; "FAILED"; "PARTIAL"] ∧
  (oe_reason_code e ≠ "" ∧ ∀ c, c ∈ chars (oe_reason_code e) →
    c ∈ chars "ABCDEFGHIJKLMNOPQRSTUVWXYZ0123456789_") ∧
  bound g e ∧
  (oe_outcome e ≠ "UNKNOWN" →
    ∀ ref, ref ∈ oe_resources e ++ [oe_before_state_ref e; oe_after_state_ref e] → public_reference ref).

Lemma validate_evidence_ok g e : _validate_evidence g e (execution_grant_hash g) = Ok tt ↔
  oe_validation_status e ∈ ["PASS"; "FAIL"; "UNKNOWN"] ∧ checked g e.
Proof.
  unfold _validate_evidence, checked. rewrite !seq_ok, !raise_if_ok.
  assert (Hreason : falsy (oe_reason_code e) || any_char (λ ch,
      negb (char_in "ABCDEFGHIJKLMNOPQRSTUVWXYZ0123456789_" ch)) (oe_reason_code e) = false ↔
    oe_reason_code e ≠ "" ∧ ∀ c, c ∈ chars (oe_reason_code e) →
      c ∈ chars "ABCDEFGHIJKLMNOPQRSTUVWXYZ0123456789_").
  { rewrite orb_false_iff, any_char_false. unfold char_in. setoid_rewrite negb_false_iff.
    setoid_rewrite bool_decide_eq_true. unfold falsy. by rewrite bool_decide_eq_false. }
  rewrite Hreason, !negb_false_iff, !bool_decide_eq_true.
  assert (Hbound : (oe_operation_id e, oe_idempotency_key e, oe_adapter_id e, oe_target_state_ref e,
      oe_fence_token e, oe_execution_grant_hash e, oe_resources e, oe_effects e)
    = (g_operation_id g, g_idempotency_key g, g_adapter_id g, g_target_state_ref g,
       g_fence_token g, execution_grant_hash g, env_resources (g_planner_envelope g),
       env_effects (g_planner_envelope g)) ↔ bound g e).
  { split; [by intros [=]|by intros [-> -> -> -> -> -> -> ->]]. }
  rewrite Hbound. clear Hreason Hbound.
  assert (Hrefs : (if oe_outcome e == "UNKNOWN" then Ok tt
      else each (λ ref, raise_if (negb (_public_ref ref)) (rerr "RECONCILIATION_PUBLIC_REF_REQUIRED"))
             (oe_resources e ++ [oe_before_state_ref e; oe_after_state_ref e])) = Ok tt ↔
    (oe_outcome e ≠ "UNKNOWN" →
     ∀ ref, ref ∈ oe_resources e ++ [oe_before_state_ref e; oe_after_state_ref e] → public_reference ref)).
  { case_bool_decide; [by split|]. rewrite each_check_ok.
    setoid_rewrite evidence_ref_ok. split; [by intros Hr _|intros Hr; by apply Hr]. }
  rewrite Hrefs. tauto.
Qed.

Lemma rollback_required_spec e :
  rollback_required e = true ↔ oe_outcome e ≠ "SUCCEEDED" ∧
    (oe_rollback_requested e = true ∨ oe_before_state_ref e ≠ oe_after_state_ref e ∨
     oe_outcome e = "PARTIAL").
Proof.
  unfold rollback_required.
  rewrite andb_true_iff, !orb_true_iff, !negb_true_iff, !bool_decide_eq_false, bool_decide_eq_true.
  tauto.
Qed.

(** The receipt of a close, with its event. *)
Lemma closing_receipt g s e b t :
  finish_evidence t (g_fence_token g) (oe_outcome e == "SUCCEEDED") (reconciled_reason e)
    (oe_resources e) (oe_before_state_ref e) (oe_after_state_ref e) (oe_validation_status e) →
  closing g e (reconciled_receipt g s e b) t.
Proof.
  intros (Hf & Ht & Hr & Hrefs & Hb & Ha & Hv). split; try done.
  rewrite <-rollback_required_spec. cbn [reconciled_receipt rr_rollback_request].
  destruct (rollback_required e); [by split; [|eexists]|by split; [intros [? ?]|]].
Qed.

(** The tests of [reconcile], each by what it lets pass. *)
Lemma evidence_refs_ok l : is_empty l || existsb (λ ref, negb (_public_ref ref)) l = false →
  l ≠ [] ∧ ∀ ref, ref ∈ l → public_reference ref.
Proof.
  intros [Hne Hall]%orb_false_iff. split; [by destruct l|]. intros ref Hin. apply evidence_ref_ok.
  destruct (_public_ref ref) eqn:E; [done|]. exfalso.
  assert (Ht : existsb (λ r, negb (_public_ref r)) l = true)
    by (apply existsb_exists; exists ref; rewrite <-list_elem_of_In, E; done).
  congruence.
Qed.

Lemma status_ok e : (oe_outcome e == "SUCCEEDED") && (oe_validation_status e != "PASS") = false →
  negb (oe_outcome e == "SUCCEEDED") && (oe_validation_status e != "FAIL") = false →
  oe_validation_status e = if oe_outcome e == "SUCCEEDED" then "PASS" else "FAIL".
Proof. destruct (oe_outcome e == "SUCCEEDED"); cbn; intros; by bool_facts. Qed.

Section reconcile_cases.
Context (clock : nat → Z) (g : GreenExecutionGrant)
  (probe : GreenExecutionGrant → M World OutcomeEvidence)
  (verifier : option (GreenExecutionGrant → OutcomeEvidence → M World bool))
  (w0 : World) (s : ExecutionStartEvidence) (res : LedgerEvent).
Context (Hp : phase_of (g_idempotency_key g) (w_ledger w0) = Live res (g_fence_token g) (Some s))
  (Hh : start_execution_grant_hash s = execution_grant_hash g).
Notation after w := (phase_of (g_idempotency_key g) (w_ledger w)).
Notation live := (Live res (g_fence_token g) (Some s)).

(** The cases of the tail of [reconcile], once the start evidence is there. *)
Definition tail_outcome (r : result ReconciliationReceipt) (w' : World) : Prop :=
  world_wf w' ∧ phase_le live (after w') ∧
  match r with
  | Ok rc => reconciled g probe verifier w0 s rc (after w')
  | Raise x => is_reconciliation_error x ∨
      ∃ v e w1 w2, verifier = Some v ∧ v g e w1 = (Raise x, w2)
  end.

Lemma pending_tail reason w r w' :
  world_wf w → phase_le live (after w) →
  (∀ p, started_for g s p → reconciled g probe verifier w0 s (pending_receipt g s reason) p) →
  _pending g reason w = (r, w') → tail_outcome r w'.
Proof.
  intros Hw Hle Hgo. unfold _pending. m_run.
  pose proof (require_started_raises g (w_ledger w) (wf_ledger _ Hw)) as Hr.
  destruct (_require_started g (w_ledger w)) as [s'|x] eqn:E; intros [= <- <-].
  - apply require_started_ok in E as (res' & Hp' & Hid & Hh'); [|apply Hw].
    split; [done|]. split; [done|]. rewrite Hp' in Hle.
    destruct Hle as (-> & _ & [= ->]). apply Hgo. exists res'. by rewrite Hp'.
  - split; [done|]. split; [done|]. by left.
Qed.

Lemma close_tail e v wp w2 w r w' :
  world_wf w → phase_le live (after w) →
  probe g w0 = (Ok e, wp) → verifier = Some v → v g e wp = (Ok true, w2) →
  bound g e → conclusive e →
  close_from_evidence clock g s e w = (r, w') → tail_outcome r w'.
Proof.
  intros Hw Hle Hpr Hv Hver Hb Hc H. pose proof (close_spec clock g s e w Hw) as Hcl.
  rewrite H in Hcl. cbv zeta in Hcl. destruct Hcl as [Hw' Hcl]. destruct r as [rc|x].
  - destruct Hcl as (b & res' & t & st & -> & Hp' & Hp0 & Hev).
    assert (res' = res ∧ st = Some s ∧ ev_fence_token t = g_fence_token g) as (-> & -> & Hft).
    { split_and!; [..|apply Hev]; destruct Hp0 as [E|E]; rewrite E in Hle;
        cbn [phase_le] in Hle; destruct Hle as (? & _ & ?); congruence. }
    split; [done|]. rewrite Hp'. split; [by rewrite <-Hft|].
    eapply rd_closed; try done. by apply closing_receipt.
  - destruct Hcl as [Hx ->]. split; [done|]. split; [done|]. by left.
Qed.
End reconcile_cases.

(** ** Properties *)

(** C18. Reconciliation closes from evidence only: [reconcile] refuses, the
    ledger untouched, unless the ledger holds the start evidence of this very
    grant.  Otherwise, whatever probe and verifier do with the stores through
    their operations, it answers NEEDS_RECOVERY with the start evidence still in
    place when the probe raises or does not know; and it closes the operation
    only from what the probe answered, when that names this grant, its target,
    fence, resources and effects, is fresh, conclusive and public, and the
    verifier accepted it - as COMPLETED exactly when the evidence says SUCCEEDED,
    with a rollback request exactly when a failure left something to undo.  If it
    raises, the start evidence is still there (or the operation was closed by
    somebody else). *)
Theorem reconcile_sound clock g probe verifier w r w' :
  let key := g_idempotency_key g in
  world_wf w → uses_stores (probe g) →
  (∀ v e, verifier = Some v → uses_stores (v g e)) →
  reconcile clock g probe verifier w = (r, w') →
  world_wf w' ∧
  ((∀ s, ¬ started_for g s (phase_of key (w_ledger w))) ∧ w' = w ∧
     (∃ x, r = Raise x ∧ is_reconciliation_error x) ∨
   ∃ s, started_for g s (phase_of key (w_ledger w)) ∧
     phase_le (phase_of key (w_ledger w)) (phase_of key (w_ledger w')) ∧
     match r with
     | Ok rc => reconciled g probe verifier w s rc (phase_of key (w_ledger w'))
     | Raise x => is_reconciliation_error x ∨
         ∃ v e w1 w2, verifier = Some v ∧ v g e w1 = (Raise x, w2)
     end).
Proof.
  intros key Hw Hprobe Hver. unfold reconcile. m_run.
  pose proof (require_started_raises g (w_ledger w) (wf_ledger _ Hw)) as Hrs.
  destruct (_require_started g (w_ledger w)) as [s|x] eqn:Es.
  2: { intros [= <- <-]. split; [done|]. left. split; [|by eauto].
       intros s Hs. apply require_started_ok in Hs; [congruence|apply Hw]. }
  apply require_started_ok in Es as Hs; [|apply Hw].
  pose proof Hs as (res & Hp & Hid & Hh).
  intros H. enough (Ht : tail_outcome g probe verifier w s res r w').
  { destruct Ht as (Hw' & Hle & Ht). split; [done|]. right. exists s. rewrite <-Hp in Hle. done. }
  revert H. destruct (probe g w) as [re w1] eqn:Ep.
  destruct (uses_stores_le _ _ _ _ key Hprobe Hw Ep) as [Hw1 Hle1]. unfold key in Hle1.
  rewrite Hp in Hle1.
  destruct re as [e|x]; [|apply pending_tail; [done..|intros p Hst; by eapply rd_failed]].
  assert (Hno : ∀ y w3, is_reconciliation_error y → world_wf w3 →
    phase_le (Live res (g_fence_token g) (Some s)) (phase_of (g_idempotency_key g) (w_ledger w3)) →
    tail_outcome g probe verifier w s res (Raise y) w3) by (intros; split_and!; [done..|by left]).
  rewrite Hh. destruct (_validate_evidence g e (execution_grant_hash g)) as [[]|x] eqn:Ev.
  2: { intros [= <- <-]. apply Hno; [|done..]. apply (only_raises_elim is_reconciliation_error
         (_validate_evidence g e (execution_grant_hash g))); [|done].
       unfold _validate_evidence. raises; by eexists. }
  apply validate_evidence_ok in Ev as (_ & Hout & Hreason & Hb & Hrefs).
  case_bool_decide as Hunk; [apply pending_tail; [done..|intros p Hst; by eapply rd_unknown]|].
  assert (Hout' : oe_outcome e ∈ ["NO_EFFECT"; "SUCCEEDED"; "FAILED"; "PARTIAL"])
    by (apply elem_of_cons in Hout as [?|?]; done).
  destruct verifier as [v|] eqn:Everifier; cbn [some_or].
  2: { intros [= <- <-]. apply Hno; [by eexists|done..]. }
  destruct (oe_fresh e) eqn:Hfresh; cbn [negb raise_if].
  2: { intros [= <- <-]. apply Hno; [by eexists|done..]. }
  destruct (is_empty (oe_evidence_refs e) || _) eqn:Hev; cbn [raise_if].
  { intros [= <- <-]. apply Hno; [by eexists|done..]. }
  apply evidence_refs_ok in Hev.
  destruct (v g e w1) as [rv w2] eqn:Evr.
  destruct (uses_stores_le _ _ _ _ key (Hver v e eq_refl) Hw1 Evr) as [Hw2 Hle2].
  pose proof (phase_le_started _ _ _ _ _ Hle1 Hle2) as Hle. unfold key in Hle.
  destruct rv as [ok|x].
  2: { intros [= <- <-]. split; [done|]. split; [done|]. right. by exists v, e, w1, w2. }
  destruct ok; cbn [negb raise_if].
  2: { intros [= <- <-]. apply Hno; [by eexists|done..]. }
  destruct (_ && (oe_validation_status e != "PASS")) eqn:H1; cbn [raise_if].
  { intros [= <- <-]. apply Hno; [by eexists|done..]. }
  destruct (_ && (oe_validation_status e != "FAIL")) eqn:H2; cbn [raise_if].
  { intros [= <- <-]. apply Hno; [by eexists|done..]. }
  destruct (_ && (oe_before_state_ref e != _)) eqn:H3; cbn [raise_if].
  { intros [= <- <-]. apply Hno; [by eexists|done..]. }
  eapply close_tail; try done. split; try done; [by apply status_ok| |by apply Hrefs].
  intros Hn. revert H3. rewrite Hn. cbn. by intros ?%negb_false_iff%bool_decide_eq_true.
Qed.

Lemma conclusive_checked g e : bound g e → conclusive e →
  _validate_evidence g e (execution_grant_hash g) = Ok tt.
Proof.
  intros Hb Hc. apply validate_evidence_ok. pose proof (cc_status _ Hc) as Hst.
  unfold checked. split_and!.
  - rewrite Hst. destruct (_ == _); by_decide.
  - apply elem_of_cons. right. apply Hc.
  - apply Hc.
  - apply Hc.
  - done.
  - intros _. apply Hc.
Qed.

Lemma conclusive_refs e : conclusive e →
  _reason (reconciled_reason e) = Ok tt ∧ _public_refs (oe_resources e) = Ok tt ∧
  _public_refs [oe_before_state_ref e; oe_after_state_ref e] = Ok tt ∧
  oe_validation_status e ∈ ["PASS"; "FAIL"].
Proof.
  intros [_ _ Hst _ [Hne Hchars] _ Hrefs]. split; [|split; [|split]].
  - unfold reconciled_reason. destruct (oe_outcome e == "NO_EFFECT"); [vm_compute; reflexivity|].
    unfold _reason. apply raise_if_ok, orb_false_iff. split; [by apply bool_decide_eq_false|].
    apply any_char_false. intros c Hc. apply negb_false_iff, bool_decide_eq_true. by apply Hchars.
  - apply public_refs_of_public. intros x Hx. apply evidence_ref_ok, Hrefs. set_solver.
  - apply public_refs_of_public. intros x Hx. apply evidence_ref_ok, Hrefs. set_solver.
  - rewrite Hst. destruct (_ == _); [by left|by right; left].
Qed.

(** A started operation can always be closed from evidence: when the probe
    answers conclusive evidence about this grant and the verifier accepts it, and
    the operation is still started then, [reconcile] returns a closing receipt and
    the operation is closed. *)
Theorem reconcile_completes clock g probe v w s e w1 w2 :
  let key := g_idempotency_key g in
  world_wf w → world_wf w2 →
  started_for g s (phase_of key (w_ledger w)) → probe g w = (Ok e, w1) →
  v g e w1 = (Ok true, w2) → started_for g s (phase_of key (w_ledger w2)) →
  bound g e → conclusive e →
  ∃ rc w', reconcile clock g probe (Some v) w = (Ok rc, w') ∧ world_wf w' ∧
    ∃ res t, phase_of key (w_ledger w') = Done res t (Some s) ∧ closing g e rc t.
Proof.
  intros key Hw Hw2 Hs Hp Hv Hs2 Hb Hc.
  pose proof (proj2 (require_started_ok g _ s (wf_ledger _ Hw)) Hs) as Er.
  destruct Hs2 as (res & Hp2 & Hid & Hh). destruct (conclusive_refs e Hc) as (Hreason & Hr & Hba & Hst).
  destruct (finish_live_spec (grant_identity g) (g_fence_token g) (oe_outcome e == "SUCCEEDED")
    (reconciled_reason e) (oe_resources e) (oe_before_state_ref e) (oe_after_state_ref e)
    (oe_validation_status e) res (Some s) (w_ledger w2) (wf_ledger _ Hw2) Hp2 Hid Hreason Hr Hba
    Hst) as (l' & Hfin & Hwf' & _ & Hdone).
  pose proof (release_cases clock g {| w_leases := w_leases w2; w_ledger := l' |}
    (wf_leases _ Hw2)) as Hrel.
  destruct (_release clock g {| w_leases := w_leases w2; w_ledger := l' |}) as [rb w'] eqn:Erel.
  destruct Hrel as ([b ->] & Hlw & Hl).
  exists (reconciled_receipt g s e b), w'. rewrite Hl. cbn [w_ledger].
  split; [|split; [by split; [|rewrite Hl]|]].
  - unfold reconcile. m_run. rewrite Er, Hp, Hh, (conclusive_checked g e Hb Hc).
    destruct Hc as [Hout Hfresh Hstat Hsame _ [Hne Hev] _].
    rewrite bool_decide_eq_false_2 by (intros E; rewrite E in Hout; revert Hout; by_decide).
    cbn [some_or]. rewrite Hfresh. cbn [negb raise_if].
    assert (is_empty (oe_evidence_refs e) || existsb (λ ref, negb (_public_ref ref)) (oe_evidence_refs e)
      = false) as ->.
    { apply orb_false_iff. split; [by destruct (oe_evidence_refs e)|]. apply not_true_iff_false.
      intros (x & Hx & Hn)%existsb_elem. apply Hev, evidence_ref_ok in Hx. by rewrite Hx in Hn. }
    cbn [raise_if]. rewrite Hv. cbn [negb raise_if].
    assert ((oe_outcome e == "NO_EFFECT") && (oe_before_state_ref e != oe_after_state_ref e) = false) as ->.
    { destruct (oe_outcome e == "NO_EFFECT") eqn:E; [|done]. apply bool_decide_eq_true in E.
      cbn. by rewrite bool_decide_eq_true_2 by auto. }
    assert (H1 : (oe_outcome e == "SUCCEEDED") && (oe_validation_status e != "PASS") = false)
      by (rewrite Hstat; by destruct (oe_outcome e == "SUCCEEDED")).
    assert (H2 : negb (oe_outcome e == "SUCCEEDED") && (oe_validation_status e != "FAIL") = false)
      by (rewrite Hstat; by destruct (oe_outcome e == "SUCCEEDED")).
    rewrite H1, H2. cbn [raise_if]. unfold close_from_evidence. m_run.
    rewrite on_ledger_run, Hfin. cbn [fst snd]. by rewrite Erel.
  - eexists res, _. split; [exact Hdone|]. apply closing_receipt. by repeat split.
Qed.

(** ** Witnesses: the executor of the demonstration died without an effect. *)
Definition demo_evidence (g : GreenExecutionGrant) : OutcomeEvidence :=
  {| oe_operation_id := g_operation_id g; oe_idempotency_key := g_idempotency_key g;
     oe_adapter_id := g_adapter_id g; oe_target_state_ref := g_target_state_ref g;
     oe_fence_token := g_fence_token g; oe_execution_grant_hash := execution_grant_hash g;
     oe_resources := env_resources (g_planner_envelope g);
     oe_effects := env_effects (g_planner_envelope g); oe_outcome := "NO_EFFECT";
     oe_reason_code := "PROBED"; oe_before_state_ref := "git:abc"; oe_after_state_ref := "git:abc";
     oe_validation_status := "FAIL"; oe_evidence_refs := ["log:1"]; oe_fresh := true;
     oe_rollback_requested := false |}.

Definition demo_probe (g : GreenExecutionGrant) : M World OutcomeEvidence := mret (demo_evidence g).
Definition demo_verifier (g : GreenExecutionGrant) (e : OutcomeEvidence) : M World bool :=
  mret true.

Lemma demo_started :
  ∃ g w, world_wf w ∧ started_for g (start_of_grant g) (phase_of (g_idempotency_key g) (w_ledger w)) ∧
    env_resources (g_planner_envelope g) = ["repo:alpha"].
Proof.
  destruct demo_facts as (g & w & s & w1 & _ & _ & _ & _ & Hw & H & _ & _ & _ & _ & Hr).
  apply begin_spec in H as (Hw1 & _ & _ & _ & _ & res & Hp & Hid & _); [|done].
  exists g, w1. split; [done|]. split; [by exists res|done].
Qed.

Lemma demo_public ref : ref ∈ ["repo:alpha"; "git:abc"; "log:1"] → public_reference ref.
Proof.
  intros Hin. apply evidence_ref_ok. revert ref Hin. apply Forall_forall. by repeat constructor.
Qed.

Lemma demo_conclusive g : env_resources (g_planner_envelope g) = ["repo:alpha"] →
  bound g (demo_evidence g) ∧ conclusive (demo_evidence g).
Proof.
  intros Hr. split; [done|]. split; cbn [demo_evidence oe_outcome oe_fresh oe_validation_status
    oe_before_state_ref oe_after_state_ref oe_reason_code oe_evidence_refs oe_resources];
    [by_decide|done|done|done| |split; [done|]|rewrite Hr].
  - split; [done|]. apply Forall_forall. repeat constructor; by_decide.
  - intros ref ->%list_elem_of_singleton. apply demo_public. by_decide.
  - intros ref Hin. apply demo_public. set_solver.
Qed.

Lemma demo_probe_uses {A} (a : A) : uses_stores (mret a).
Proof. intros w Hw. split; [exact Hw|by exists []]. Qed.

Lemma reconcile_sound_witness :
  ∃ g w rc w' s, reconcile demo_clock g demo_probe (Some demo_verifier) w = (Ok rc, w') ∧
    reconciled g demo_probe (Some demo_verifier) w s rc (phase_of (g_idempotency_key g) (w_ledger w')) ∧
    rr_status rc = "RECONCILED_FAILED".
Proof.
  destruct demo_started as (g & w & Hw & Hs & Hr). destruct (demo_conclusive g Hr) as [Hb Hc].
  destruct (reconcile_completes demo_clock g demo_probe demo_verifier w _ (demo_evidence g) w w
    Hw Hw Hs eq_refl eq_refl Hs Hb Hc) as (rc & w' & E & _ & res & t & _ & Hcl).
  destruct (reconcile_sound demo_clock g demo_probe (Some demo_verifier) w (Ok rc) w' Hw
    (demo_probe_uses _) (λ v e H, ltac:(injection H as <-; exact (demo_probe_uses _))) E)
    as [_ [[Hn _]|(s & _ & _ & Hrec)]]; [destruct (Hn _ Hs)|].
  exists g, w, rc, w', s. split; [exact E|]. split; [exact Hrec|exact (cl_status _ _ _ _ Hcl)].
Defined.
