(* ===== verification/Recovery.v ===== *)
(** * The recovery kernel

    [src/core/runner_vnext_recovery.py]: a closed set of recovery commands,
    each with a ceiling on its effects, executed by injected handlers.  A
    handler is a parameter: a computation on some state [S] of the world. *)

From S2P Require Import Prelude.
From S2P Require Import PyStr.
From S2P Require Import Contracts.

(** ** Data *)
Inductive RecoveryCommand :=
  | REFRESH_TRUST_ANCHOR_BUNDLE
  | POLLER_RELOAD_AND_STALE_REACTIVATION
  | CHECKOUT_FRESHNESS_CANARY
  | TYPED_REPAIR_RUNTIME_STATE
  | QUEUE_FENCE_RESET.

#[global] Instance RecoveryCommand_eq_dec : EqDecision RecoveryCommand.
Proof. solve_decision. Defined.

Definition all_commands : list RecoveryCommand :=
  [REFRESH_TRUST_ANCHOR_BUNDLE; POLLER_RELOAD_AND_STALE_REACTIVATION; CHECKOUT_FRESHNESS_CANARY;
   TYPED_REPAIR_RUNTIME_STATE; QUEUE_FENCE_RESET].

(** The members are strings: a command equals its value. *)
Definition command_value (c : RecoveryCommand) : string :=
  match c with
  | REFRESH_TRUST_ANCHOR_BUNDLE => "refresh_trust_anchor_bundle"
  | POLLER_RELOAD_AND_STALE_REACTIVATION => "poller_reload_and_stale_reactivation"
  | CHECKOUT_FRESHNESS_CANARY => "checkout_freshness_canary"
  | TYPED_REPAIR_RUNTIME_STATE => "typed_repair_runtime_state"
  | QUEUE_FENCE_RESET => "queue_fence_reset"
  end.

Definition COMMAND_EFFECT_CEILING (c : RecoveryCommand) : EffectClass :=
  match c with
  | CHECKOUT_FRESHNESS_CANARY => GREEN
  | _ => YELLOW
  end.

Record RecoveryRequest := {
  rq_request_id : string;
  rq_command : RecoveryCommand;
  rq_target_state_ref : string;
  rq_idempotency_key : string;
  rq_bounded_resources : list string;
  rq_expected_effects : list string;
  rq_approval_evidence : list string;
  rq_current_fence_token : option Z
}.

Record RecoveryContext := {
  cx_current_target_state_ref : string;
  cx_current_fence_token : option Z
}.

Record RecoveryHandlerResult := {
  hr_reason_code : string;
  hr_touched_resource_refs : list string;
  hr_before_state_ref : string;
  hr_after_state_ref : string;
  hr_validation_status : string
}.

Record RecoveryReceipt := {
  rv_request_id : string;
  rv_command : RecoveryCommand;
  rv_idempotency_key : string;
  rv_status : string;
  rv_reason_code : string;
  rv_effect_ceiling : EffectClass;
  rv_touched_resource_refs : list string;
  rv_before_state_ref : string;
  rv_after_state_ref : string;
  rv_validation_status : string
}.

Definition verr (code : string) : exn := RecoveryError code.

(** ** Checks *)
Definition _validate_public_refs (refs : list string) : result unit :=
  each (λ ref,
    raise_if (falsy ref || startswith_any ["/"; "~"] ref || contains "\" ref || contains ".." ref)
      (verr "RECOVERY_PUBLIC_REF_REQUIRED");;
    raise_if (negb (contains ":" ref)) (verr "RECOVERY_PUBLIC_REF_REQUIRED")) refs.

Definition _validate_effect_ceiling (request : RecoveryRequest) : result unit :=
  let effects : gset string := list_to_set (rq_expected_effects request) in
  let known := GREEN_EFFECTS ∪ YELLOW_EFFECTS ∪ RED_EFFECTS in
  raise_if ((effects == ∅) || (effects ∖ known != ∅)) (verr "RECOVERY_EFFECT_UNKNOWN");;
  raise_if (effects ∩ RED_EFFECTS != ∅) (verr "RECOVERY_RED_EFFECT_PROHIBITED");;
  let ceiling := COMMAND_EFFECT_CEILING (rq_command request) in
  raise_if ((ceiling == GREEN) && (effects ∩ YELLOW_EFFECTS != ∅))
    (verr "RECOVERY_EFFECT_CEILING_EXCEEDED").

Definition _validate_reason_code (value : string) : result unit :=
  raise_if (falsy value
            || any_char (λ ch, negb (char_in "ABCDEFGHIJKLMNOPQRSTUVWXYZ0123456789_" ch)) value)
    (verr "RECOVERY_REASON_CODE_INVALID").

(** The guards before the handler. *)
Definition check_request (request : RecoveryRequest) (context : RecoveryContext) : result unit :=
  raise_if (rq_target_state_ref request != cx_current_target_state_ref context)
    (verr "RECOVERY_TARGET_STATE_MISMATCH");;
  raise_if (falsy (rq_idempotency_key request) || falsy (rq_request_id request))
    (verr "RECOVERY_IDENTITY_REQUIRED");;
  raise_if (is_empty (rq_bounded_resources request)) (verr "RECOVERY_BOUNDED_RESOURCES_REQUIRED");;
  _validate_effect_ceiling request;;
  if rq_command request == QUEUE_FENCE_RESET then
    match rq_current_fence_token request, cx_current_fence_token context with
    | Some f, Some f' => raise_if (f != f') (verr "RECOVERY_STALE_FENCE_EVIDENCE")
    | _, _ => Raise (verr "RECOVERY_FENCE_EVIDENCE_REQUIRED")
    end
  else Ok tt.

(** The guards after it. *)
Definition check_handler_result (request : RecoveryRequest) (r : RecoveryHandlerResult)
    : result unit :=
  _validate_public_refs (rq_bounded_resources request);;
  _validate_public_refs (hr_touched_resource_refs r);;
  _validate_public_refs [hr_before_state_ref r; hr_after_state_ref r];;
  raise_if (negb (forallb (λ x, x ∈? rq_bounded_resources request) (hr_touched_resource_refs r)))
    (verr "RECOVERY_RESOURCE_SCOPE_EXCEEDED");;
  _validate_reason_code (hr_reason_code r);;
  raise_if (hr_validation_status r ∉? ["PASS"; "FAIL"]) (verr "RECOVERY_VALIDATION_STATUS_INVALID").

Definition recovery_receipt (request : RecoveryRequest) (r : RecoveryHandlerResult)
    : RecoveryReceipt :=
  {| rv_request_id := rq_request_id request; rv_command := rq_command request;
     rv_idempotency_key := rq_idempotency_key request;
     rv_status := if hr_validation_status r == "PASS" then "DONE" else "FAILED";
     rv_reason_code := hr_reason_code r;
     rv_effect_ceiling := COMMAND_EFFECT_CEILING (rq_command request);
     rv_touched_resource_refs := hr_touched_resource_refs r;
     rv_before_state_ref := hr_before_state_ref r; rv_after_state_ref := hr_after_state_ref r;
     rv_validation_status := hr_validation_status r |}.

Section kernel.
Context {S : Type}.

Definition Handler : Type := RecoveryRequest → RecoveryContext → M S RecoveryHandlerResult.

(** [RecoveryKernel.__init__]: a key that is no command is refused. *)
Definition new_RecoveryKernel (handlers : gmap string Handler) : result (gmap string Handler) :=
  raise_if (negb (forallb (λ k, k ∈? map command_value all_commands)
                   (map_to_list handlers).*1)) (verr "UNKNOWN_RECOVERY_HANDLER");;
  Ok handlers.

Definition execute (self : gmap string Handler) (request : RecoveryRequest)
    (context : RecoveryContext) : M S RecoveryReceipt :=
  lift (check_request request context);;
  handler ← lift (some_or (self !! command_value (rq_command request))
                    (verr "RECOVERY_HANDLER_UNAVAILABLE"));
  r ← handler request context;
  lift (check_handler_result request r);;
  mret (recovery_receipt request r).
End kernel.

(** ** What the guards require *)

(** The effects a command may have. *)
Definition ceiling_effects (c : RecoveryCommand) : gset string :=
  if COMMAND_EFFECT_CEILING c == GREEN then GREEN_EFFECTS else GREEN_EFFECTS ∪ YELLOW_EFFECTS.

Record admissible (request : RecoveryRequest) (context : RecoveryContext) : Prop := {
  ad_target : rq_target_state_ref request = cx_current_target_state_ref context;
  ad_identity : rq_idempotency_key request ≠ "" ∧ rq_request_id request ≠ "";
  ad_bounded : rq_bounded_resources request ≠ [];
  ad_effects : rq_expected_effects request ≠ [] ∧
    ∀ e, e ∈ rq_expected_effects request → e ∈ ceiling_effects (rq_command request);
  ad_fence : rq_command request = QUEUE_FENCE_RESET →
    is_Some (rq_current_fence_token request) ∧
    rq_current_fence_token request = cx_current_fence_token context
}.

Definition public_ref (ref : string) : Prop :=
  ref ≠ "" ∧ startswith_any ["/"; "~"] ref = false ∧ contains "\" ref = false ∧
  contains ".." ref = false ∧ contains ":" ref = true.

Record within_bounds (request : RecoveryRequest) (r : RecoveryHandlerResult) : Prop := {
  wb_bounded : ∀ x, x ∈ rq_bounded_resources request → public_ref x;
  wb_touched : ∀ x, x ∈ hr_touched_resource_refs r → x ∈ rq_bounded_resources request;
  wb_states : public_ref (hr_before_state_ref r) ∧ public_ref (hr_after_state_ref r);
  wb_reason : _validate_reason_code (hr_reason_code r) = Ok tt;
  wb_status : hr_validation_status r ∈ ["PASS"; "FAIL"]
}.

Lemma effect_ceiling_ok request :
  _validate_effect_ceiling request = Ok tt ↔
  rq_expected_effects request ≠ [] ∧
  ∀ e, e ∈ rq_expected_effects request → e ∈ ceiling_effects (rq_command request).
Proof.
  destruct effect_classes_disjoint as (Hgy & Hgr & Hyr). rewrite !elem_of_disjoint in Hgy, Hgr, Hyr.
  unfold _validate_effect_ceiling, ceiling_effects. autorewrite with py_ok py_bool.
  rewrite andb_false_iff, negb_false_iff, bool_decide_eq_false, bool_decide_eq_true.
  rewrite list_to_set_empty_iff, list_difference_empty, !list_intersection_empty.
  case_bool_decide; split.
  - intros ((Hne & Hk) & Hr & Hy). split; [done|]. intros e He.
    destruct (proj1 (elem_of_union _ _ _) (Hk e He)) as [H1|H1];
      [apply elem_of_union in H1 as [H1|H1]; [exact H1|]|].
    + destruct Hy as [|Hy]; [contradiction|]. destruct Hy. by exists e.
    + destruct Hr. by exists e.
  - intros (Hne & Hk). split; [split; [done|]|].
    + intros e He. apply elem_of_union_l, elem_of_union_l, Hk, He.
    + split; [|right]; intros (e & He & Hx);
        [exact (Hgr e (Hk e He) Hx)|exact (Hgy e (Hk e He) Hx)].
  - intros ((Hne & Hk) & Hr & _). split; [done|]. intros e He.
    destruct (proj1 (elem_of_union _ _ _) (Hk e He)) as [H1|H1]; [exact H1|].
    destruct Hr. by exists e.
  - intros (Hne & Hk). split; [split; [done|]|].
    + intros e He. apply elem_of_union_l, Hk, He.
    + split; [|by left]. intros (e & He & Hx).
      destruct (proj1 (elem_of_union _ _ _) (Hk e He)) as [H1|H1];
        [exact (Hgr e H1 Hx)|exact (Hyr e H1 Hx)].
Qed.

Lemma check_request_ok request context :
  check_request request context = Ok tt ↔ admissible request context.
Proof.
  unfold check_request. rewrite !seq_ok, !raise_if_ok, effect_ceiling_ok, orb_false_iff.
  unfold falsy. rewrite !bool_decide_eq_false, is_empty_false, negb_false_iff, bool_decide_eq_true.
  split.
  - intros (Ht & Hi & Hb & He & Hf). split; try done. intros Hc.
    rewrite bool_decide_eq_true_2 in Hf by done.
    destruct (rq_current_fence_token request), (cx_current_fence_token context);
      try discriminate.
    apply raise_if_ok, negb_false_iff, bool_decide_eq_true in Hf. split; [by eexists|congruence].
  - intros [Ht Hi Hb He Hf]. do 4 (split; [done|]). case_bool_decide as Hc; [|done].
    destruct (Hf Hc) as [[f Hs] Heq]. rewrite <-Heq, Hs.
    by rewrite raise_if_ok, negb_false_iff, bool_decide_eq_true.
Qed.

Lemma public_refs_ok refs :
  _validate_public_refs refs = Ok tt ↔ ∀ x, x ∈ refs → public_ref x.
Proof.
  unfold _validate_public_refs, public_ref. rewrite each_ok, Forall_forall.
  apply forall_proper. intros x. apply forall_proper. intros _.
  rewrite seq_ok, !raise_if_ok, !orb_false_iff, negb_false_iff.
  unfold falsy. rewrite bool_decide_eq_false. tauto.
Qed.

Lemma check_handler_result_ok request r :
  check_handler_result request r = Ok tt ↔ within_bounds request r.
Proof.
  unfold check_handler_result. rewrite !seq_ok, !public_refs_ok, !raise_if_ok, !negb_false_iff,
    forallb_mem, bool_decide_eq_true. split.
  - intros (Hb & _ & Hs & Ht & Hr & Hst). split; try done. split; apply Hs; set_solver.
  - intros [Hb Ht [Hs1 Hs2] Hr Hst]. split; [done|]. split; [eauto|]. split; [|done].
    intros x. rewrite !elem_of_cons, elem_of_nil. naive_solver.
Qed.

Definition is_recovery_error (e : exn) : Prop := ∃ c, e = RecoveryError c.

(** ** Properties *)

(** C39. A recovery runs only what its command admits, and only a bounded result
    is reported: a receipt means that the request was admissible (current
    target, identity, bounded resources, effects under the ceiling of its
    command, a fence that is the current one for a fence reset), that the
    command's handler ran once, and that its result stays within the bounds;
    the receipt says DONE exactly for PASS.  A refusal of the request leaves the
    state as it was; a refusal of the result leaves what the handler did. *)
Theorem recovery_execute_exact {S : Type} (self : gmap string (@Handler S)) request context s r s' :
  let handler := self !! command_value (rq_command request) in
  execute self request context s = (r, s') →
  match r with
  | Ok rc => admissible request context ∧ ∃ h x, handler = Some h ∧
      h request context s = (Ok x, s') ∧ within_bounds request x ∧
      rc = recovery_receipt request x ∧ (rv_status rc = "DONE" ↔ hr_validation_status x = "PASS")
  | Raise e =>
      (is_recovery_error e ∧ s' = s ∧ (¬ admissible request context ∨ handler = None)) ∨
      admissible request context ∧ ∃ h rx, handler = Some h ∧ h request context s = (rx, s') ∧
        (rx = Raise e ∨ ∃ x, rx = Ok x ∧ ¬ within_bounds request x ∧ is_recovery_error e)
  end.
Proof.
  intros handler. unfold handler, execute. m_run.
  destruct (check_request request context) as [[]|e] eqn:Ec.
  2: { intros [= <- <-]. left. split; [|split; [done|left]].
       - eapply only_raises_elim; [|exact Ec].
         unfold check_request, _validate_effect_ceiling. raises; by eexists.
       - rewrite <-check_request_ok. congruence. }
  apply check_request_ok in Ec.
  destruct (self !! command_value (rq_command request)) as [h|]; cbn [some_or].
  2: { intros [= <- <-]. left. split; [by eexists|]. by split; [|right]. }
  destruct (h request context s) as [[x|e] s1] eqn:Eh.
  2: { intros [= <- <-]. right. split; [done|]. exists h, (Raise e). auto. }
  destruct (check_handler_result request x) as [[]|e] eqn:Er; intros [= <- <-].
  - apply check_handler_result_ok in Er. split; [done|]. exists h, x. do 4 (split; [done|]).
    cbn [recovery_receipt rv_status]. case_bool_decide; naive_solver.
  - right. split; [done|]. exists h, (Ok x). split; [done|]. split; [done|]. right. exists x.
    split; [done|]. split; [rewrite <-check_handler_result_ok; congruence|].
    eapply only_raises_elim; [|exact Er].
    unfold check_handler_result, _validate_public_refs, _validate_reason_code. raises; by eexists.
Qed.

(** The declared bounds are checked too late: the references of
    [bounded_resources] are validated only after the handler ran.  For every
    handler there is an admissible request whose bounds are no public
    references: the handler runs, its state changes stay, and the kernel then
    raises. *)
Theorem recovery_bounds_checked_late {S : Type} (self : gmap string (@Handler S)) request context
    h x s s' :
  admissible request context → self !! command_value (rq_command request) = Some h →
  (∃ ref, ref ∈ rq_bounded_resources request ∧ ¬ public_ref ref) →
  h request context s = (Ok x, s') →
  execute self request context s = (Raise (RecoveryError "RECOVERY_PUBLIC_REF_REQUIRED"), s').
Proof.
  intros Ha Hh (ref & Href & Hn) Hrun. unfold execute. m_run.
  rewrite (proj2 (check_request_ok request context) Ha). cbn iota. destruct (self !! _) as [h'|] eqn:E0; [|congruence].
  injection Hh as ->. cbn [some_or]. rewrite Hrun.
  unfold check_handler_result.
  destruct (_validate_public_refs (rq_bounded_resources request)) as [[]|e] eqn:E.
  - rewrite public_refs_ok in E. by apply E in Href.
  - cbn [mbind result_bind]. do 2 f_equal. revert E. generalize (rq_bounded_resources request).
    intros l. unfold _validate_public_refs. induction l as [|y l IH]; simpl; [done|].
    destruct (_ || _); simpl; [by intros [= <-]|]. destruct (contains ":" y); [done|].
    by intros [= <-].
Qed.

(** ** Witnesses *)
Definition demo_request (bounded : string) : RecoveryRequest :=
  {| rq_request_id := "req:1"; rq_command := QUEUE_FENCE_RESET;
     rq_target_state_ref := "queue:main"; rq_idempotency_key := "idem:1";
     rq_bounded_resources := [bounded]; rq_expected_effects := ["privileged_maintenance"];
     rq_approval_evidence := []; rq_current_fence_token := Some 3 |}.

Definition demo_context : RecoveryContext :=
  {| cx_current_target_state_ref := "queue:main"; cx_current_fence_token := Some 3 |}.

(** A handler that counts its runs. *)
Definition counting_handler : @Handler Z := λ request _,
  modify (Z.add 1);;
  mret {| hr_reason_code := "FENCE_RESET"; hr_touched_resource_refs := rq_bounded_resources request;
          hr_before_state_ref := "queue:a"; hr_after_state_ref := "queue:b";
          hr_validation_status := "PASS" |}.

Definition demo_kernel : gmap string (@Handler Z) := {[ "queue_fence_reset" := counting_handler ]}.

Lemma recovery_execute_exact_witness :
  ∃ rc, execute demo_kernel (demo_request "queue:main") demo_context 0 = (Ok rc, 1) ∧
    rv_status rc = "DONE" ∧ admissible (demo_request "queue:main") demo_context.
Proof.
  assert (E : execute demo_kernel (demo_request "queue:main") demo_context 0
    = (Ok (recovery_receipt (demo_request "queue:main")
        {| hr_reason_code := "FENCE_RESET"; hr_touched_resource_refs := ["queue:main"];
           hr_before_state_ref := "queue:a"; hr_after_state_ref := "queue:b";
           hr_validation_status := "PASS" |}), 1)) by (vm_compute; reflexivity).
  eexists. split; [exact E|].
  destruct (recovery_execute_exact demo_kernel (demo_request "queue:main") demo_context 0 _ _ E)
    as (Ha & h & x & _ & _ & _ & _ & Hst). split; [reflexivity|exact Ha].
Defined.

Lemma recovery_bounds_checked_late_witness :
  execute demo_kernel (demo_request "/etc") demo_context 0
    = (Raise (RecoveryError "RECOVERY_PUBLIC_REF_REQUIRED"), 1).
Proof.
  apply (recovery_bounds_checked_late demo_kernel (demo_request "/etc") demo_context counting_handler
    {| hr_reason_code := "FENCE_RESET"; hr_touched_resource_refs := ["/etc"];
       hr_before_state_ref := "queue:a"; hr_after_state_ref := "queue:b";
       hr_validation_status := "PASS" |} 0 1).
  - apply check_request_ok. vm_compute. reflexivity.
  - reflexivity.
  - exists "/etc". split; [left|]. intros (_ & H & _). vm_compute in H. discriminate.
  - reflexivity.
Defined.
