(* ===== verification/Shadow.v ===== *)
(** * Shadow parity with the legacy runner

    [src/core/runner_vnext_compat.py] adapts what was observed of a legacy
    task to the typed operation and policy input of the control plane;
    [src/core/runner_vnext_shadow.py] classifies the adapted task and reports
    how the two runners' effect classes differ, without executing anything. *)

From S2P Require Import Prelude.
From S2P Require Import PyStr.
From S2P Require Import Contracts.

(** ** Data *)
Record LegacyTaskObservation := {
  lo_source_task_ref : string;
  lo_target_state_ref : string;
  lo_repo : string;
  lo_branch : string;
  lo_task_kind : string;
  lo_requested_capabilities : list string;
  lo_allowed_files : list string;
  lo_privacy_boundary : string;
  lo_legacy_effect_class : option EffectClass;
  lo_legacy_status : string;
  lo_evidence_refs : list string
}.

Record AdaptedLegacyTask := {
  al_task : UniversalTask;
  al_operation : OperationIR;
  al_policy_input : PolicyInput
}.

Definition _KIND_MAP : list (string * (string * string * Reversibility)) := [
  ("code_edit", ("workspace_write", "workspace_write", REVERSIBLE));
  ("code_generation", ("workspace_write", "workspace_write", REVERSIBLE));
  ("diagnostic", ("read", "read", REVERSIBLE));
  ("publish", ("draft_pr_open", "draft_pr_open", BOUNDED_REVERSIBLE));
  ("private_memory", ("private_compute", "private_compute", REVERSIBLE))].

(** [d[k]] of a literal dict with distinct keys. *)
Fixpoint lookup_literal {A} (d : list (string * A)) (k : string) : option A :=
  match d with
  | [] => None
  | (k', a) :: d => if k == k' then Some a else lookup_literal d k
  end.

Definition _PROTECTED_EXACT : list string := [
  "BOOT_MANIFEST.yaml"; "PROJECT_TREE.yaml"; "OPERATOR_RULES.yaml"; "CAPABILITY_REGISTRY.yaml";
  "scripts/runner_poll_github_tasks.py"; "core/gate_engine.py"; "core/action_gate.py"].
Definition _PROTECTED_PREFIXES : list string := [
  ".github/workflows/"; "secrets/"; "deploy/"; "server/"; "finance/"; "legal/"; "governance/";
  "Runner_core/"; "adapter_boundaries/"].

(** ** The adapter *)
Definition _public_ref (value : string) : result unit :=
  raise_if (startswith_any ["/"; "~"] value || contains "\" value || contains ".." value
            || negb (contains ":" value)) (CompatError "PUBLIC_SAFE_REF_REQUIRED").

Definition STATUS_ALPHABET : string :=
  "ABCDEFGHIJKLMNOPQRSTUVWXYZabcdefghijklmnopqrstuvwxyz0123456789_.:-".

Definition _validate_observation (o : LegacyTaskObservation) : result unit :=
  each (λ value, raise_if (falsy value) (CompatError "LEGACY_REQUIRED_FIELD_MISSING"))
    [lo_source_task_ref o; lo_target_state_ref o; lo_repo o; lo_branch o; lo_legacy_status o];;
  raise_if (any_char (λ ch, negb (char_in STATUS_ALPHABET ch)) (lo_legacy_status o))
    (CompatError "LEGACY_STATUS_INVALID");;
  raise_if (negb (contains "/" (lo_repo o)) || startswith_any ["/"; "~"] (lo_repo o)
            || contains ".." (lo_repo o)) (CompatError "LEGACY_REPO_INVALID");;
  raise_if (startswith_any ["/"; "~"] (lo_branch o) || contains ".." (lo_branch o)
            || any_char isspace (lo_branch o)) (CompatError "LEGACY_BRANCH_INVALID");;
  _public_ref (lo_source_task_ref o);;
  _public_ref (lo_target_state_ref o);;
  each _public_ref (lo_evidence_refs o);;
  raise_if (is_empty (lo_requested_capabilities o)) (CompatError "LEGACY_CAPABILITIES_REQUIRED");;
  raise_if (is_empty (lo_allowed_files o)) (CompatError "LEGACY_ALLOWED_FILES_REQUIRED");;
  each (λ path,
    raise_if (falsy path || startswith_any ["/"; "~"] path || contains "\" path
              || contains ".." path) (CompatError "LEGACY_REPOSITORY_PATH_INVALID"))
    (lo_allowed_files o).

Definition _privacy (value : string) : result PrivacyClass :=
  let normalized := upper value in
  if normalized ∈? ["PUBLIC_SAFE"; "PUBLIC_SAFE_CODE_AND_TESTS_ONLY"; "PUBLIC_SAFE_REPOSITORY_ONLY"]
  then Ok PUBLIC_SAFE
  else if normalized ∈? ["PRIVATE"; "PRIVATE_LOCAL_ONLY"; "PRIVATE_MEMORY"] then Ok PRIVATE
  else Raise (CompatError "LEGACY_PRIVACY_BOUNDARY_UNSUPPORTED").

Definition protected (path : string) : bool :=
  (path ∈? _PROTECTED_EXACT) || startswith_any _PROTECTED_PREFIXES path.

Definition _resource_ref (path : string) : string :=
  (if protected path then "protected" else "repo") +:+ ":" +:+ path.

Definition adapt_legacy_task (o : LegacyTaskObservation) : result AdaptedLegacyTask :=
  _validate_observation o;;
  kind ← some_or (lookup_literal _KIND_MAP (lo_task_kind o))
           (CompatError "LEGACY_TASK_KIND_UNSUPPORTED");
  let '(operation_kind, effect, reversibility) := kind in
  privacy ← _privacy (lo_privacy_boundary o);
  let resources := map _resource_ref (lo_allowed_files o) in
  raise_if ((lo_task_kind o == "private_memory") && (privacy != PRIVATE))
    (CompatError "LEGACY_PRIVATE_TASK_PRIVACY_MISMATCH");;
  let task :=
    {| task_id := lo_source_task_ref o; task_intent := "legacy:" +:+ lo_task_kind o;
       task_domain := "legacy_runner"; target_resources := resources;
       task_required_capabilities := lo_requested_capabilities o; task_privacy := privacy;
       task_reversibility := reversibility; expected_effects := [effect];
       task_validation := ["shadow_parity_only"]; task_rollback := ["no_effects_executed"];
       task_idempotency_key := "shadow:" +:+ lo_source_task_ref o +:+ "@" +:+ lo_target_state_ref o;
       task_operator_boundary_evidence := lo_evidence_refs o |} in
  operation ← new_OperationIR ("shadow:" +:+ lo_source_task_ref o) operation_kind resources [effect]
                (task_idempotency_key task);
  Ok {| al_task := task; al_operation := operation;
        al_policy_input :=
          {| pi_operation := operation; pi_reversibility := reversibility; pi_privacy := privacy;
             pi_target_state_ref := Some (lo_target_state_ref o);
             pi_operator_boundary_evidence := lo_evidence_refs o |} |}.

(** ** The parity harness *)
Inductive DivergenceKind :=
  | MATCH
  | VNEXT_STRICTER
  | LEGACY_STRICTER
  | INCOMPARABLE
  | INVALID_LEGACY_INPUT.

#[global] Instance DivergenceKind_eq_dec : EqDecision DivergenceKind.
Proof. solve_decision. Defined.

Record ShadowParityReceipt := {
  sp_source_task_ref : string;
  sp_target_state_ref : string;
  sp_legacy_effect_class : option EffectClass;
  sp_legacy_status : string;
  sp_vnext_effect_class : option EffectClass;
  sp_vnext_reason_code : string;
  sp_divergence : DivergenceKind;
  sp_evidence_refs : list string;
  sp_side_effects_executed : bool
}.

Definition _RANK (c : EffectClass) : Z :=
  match c with GREEN => 0 | YELLOW => 1 | RED => 2 end.

Definition _compare (legacy : option EffectClass) (vnext : EffectClass) : DivergenceKind :=
  match legacy with
  | None => INCOMPARABLE
  | Some legacy =>
      if legacy == vnext then MATCH
      else if _RANK legacy <? _RANK vnext then VNEXT_STRICTER
      else LEGACY_STRICTER
  end.

Definition _is_public_safe_ref (value : string) : bool :=
  truthy value && negb (startswith_any ["/"; "~"] value) && negb (contains "\" value)
  && negb (contains ".." value) && contains ":" value.

Definition _safe_ref_or_redacted (value kind : string) : string :=
  if _is_public_safe_ref value then value else "redacted:invalid-" +:+ kind +:+ "-ref".

Definition _safe_status_or_redacted (value : string) : string :=
  if truthy value && all_chars (char_in STATUS_ALPHABET) value then value
  else "redacted:invalid-legacy-status".

(** The receipt of the [except CompatError] branch. *)
Definition invalid_receipt (o : LegacyTaskObservation) (code : string) : ShadowParityReceipt :=
  {| sp_source_task_ref := _safe_ref_or_redacted (lo_source_task_ref o) "source";
     sp_target_state_ref := _safe_ref_or_redacted (lo_target_state_ref o) "target";
     sp_legacy_effect_class := lo_legacy_effect_class o;
     sp_legacy_status := _safe_status_or_redacted (lo_legacy_status o);
     sp_vnext_effect_class := None; sp_vnext_reason_code := code;
     sp_divergence := INVALID_LEGACY_INPUT;
     sp_evidence_refs := List.filter _is_public_safe_ref (lo_evidence_refs o);
     sp_side_effects_executed := false |}.

Definition evaluate (o : LegacyTaskObservation) : result ShadowParityReceipt :=
  match adapt_legacy_task o with
  | Raise (CompatError code) => Ok (invalid_receipt o code)
  | Raise e => Raise e
  | Ok adapted =>
      let d := classify_policy (al_policy_input adapted) in
      Ok {| sp_source_task_ref := lo_source_task_ref o;
            sp_target_state_ref := lo_target_state_ref o;
            sp_legacy_effect_class := lo_legacy_effect_class o;
            sp_legacy_status := lo_legacy_status o;
            sp_vnext_effect_class := Some (pd_effect_class d);
            sp_vnext_reason_code := pd_reason_code d;
            sp_divergence := _compare (lo_legacy_effect_class o) (pd_effect_class d);
            sp_evidence_refs := lo_evidence_refs o;
            sp_side_effects_executed := false |}
  end.

(** ** What the adapter accepts *)
Definition public_ref (value : string) : Prop :=
  startswith_any ["/"; "~"] value = false ∧ contains "\" value = false ∧
  contains ".." value = false ∧ contains ":" value = true.

Definition repository_path (path : string) : Prop :=
  path ≠ "" ∧ startswith_any ["/"; "~"] path = false ∧ contains "\" path = false ∧
  contains ".." path = false.

Definition legacy_status (value : string) : Prop :=
  value ≠ "" ∧ all_chars (char_in STATUS_ALPHABET) value = true.

Record well_formed (o : LegacyTaskObservation) : Prop := {
  wf_refs : public_ref (lo_source_task_ref o) ∧ public_ref (lo_target_state_ref o) ∧
    ∀ r, r ∈ lo_evidence_refs o → public_ref r;
  wf_status : legacy_status (lo_legacy_status o);
  wf_repo : contains "/" (lo_repo o) = true ∧ startswith_any ["/"; "~"] (lo_repo o) = false ∧
    contains ".." (lo_repo o) = false;
  wf_branch : lo_branch o ≠ "" ∧ startswith_any ["/"; "~"] (lo_branch o) = false ∧
    contains ".." (lo_branch o) = false ∧ any_char isspace (lo_branch o) = false;
  wf_capabilities : lo_requested_capabilities o ≠ [];
  wf_files : lo_allowed_files o ≠ [] ∧ ∀ f, f ∈ lo_allowed_files o → repository_path f
}.

(** The kind is a known one, the privacy boundary too, and private memory is
    declared private. *)
Definition supported (o : LegacyTaskObservation) (p : PrivacyClass) : Prop :=
  lo_task_kind o ∈ (map fst _KIND_MAP) ∧ _privacy (lo_privacy_boundary o) = Ok p ∧
  (lo_task_kind o = "private_memory" → p = PRIVATE).

Lemma public_ref_ok value : _public_ref value = Ok tt ↔ public_ref value.
Proof.
  unfold _public_ref, public_ref. rewrite raise_if_ok, !orb_false_iff, negb_false_iff. tauto.
Qed.

Lemma contains_nonempty c value : contains (String c "") value = true → value ≠ "".
Proof. by destruct value. Qed.

Lemma public_ref_nonempty value : public_ref value → value ≠ "".
Proof. intros (_ & _ & _ & H). by apply contains_nonempty in H. Qed.

Lemma not_any_char p s : any_char (λ c, negb (p c)) s = false ↔ all_chars p s = true.
Proof.
  unfold any_char, all_chars. rewrite existsb_false, forallb_elem.
  by setoid_rewrite negb_false_iff.
Qed.

Lemma validate_observation_ok o : _validate_observation o = Ok tt ↔ well_formed o.
Proof.
  unfold _validate_observation. cbn [each]. rewrite !seq_ok, !raise_if_ok, !public_ref_ok, !each_ok,
    !Forall_forall, not_any_char, !orb_false_iff, negb_false_iff, !is_empty_false.
  unfold falsy. rewrite !bool_decide_eq_false. setoid_rewrite public_ref_ok.
  setoid_rewrite raise_if_ok. split.
  - intros ((Hs & Ht & Hr & Hb & Hst & _) & Hal & Hrepo & Hbr & Hps & Hpt & Hev & Hc & Hf & Hp).
    split; try done; try tauto. split; [done|]. intros f Hin. specialize (Hp f Hin).
    rewrite !orb_false_iff, bool_decide_eq_false in Hp. unfold repository_path. tauto.
  - intros [(Hs & Ht & Hev) (Hst & Hal) (Hr1 & Hr2) Hbr Hc [Hf Hp]].
    split_and!; try done; try tauto; try (by apply public_ref_nonempty); try by apply (contains_nonempty "/").
    intros f Hin. rewrite !orb_false_iff, bool_decide_eq_false. destruct (Hp f Hin). tauto.
Qed.

Lemma lookup_literal_some {A} (d : list (string * A)) k :
  is_Some (lookup_literal d k) ↔ k ∈ map fst d.
Proof.
  induction d as [|[k' a] d IH]; simpl.
  - rewrite elem_of_nil. by split; [intros [? ?]|].
  - rewrite elem_of_cons, <-IH. case_bool_decide; [|naive_solver].
    split; [by left|by eexists].
Qed.

(** Every kind names an ordinary operation and a GREEN effect. *)
Lemma kind_map_green k op eff rev :
  lookup_literal _KIND_MAP k = Some (op, eff, rev) →
  op ∈ ORDINARY_OPERATION_KINDS ∧ eff ∈ GREEN_EFFECTS ∧ rev ≠ IRREVERSIBLE.
Proof.
  cbn [lookup_literal _KIND_MAP]. unfold ORDINARY_OPERATION_KINDS.
  repeat case_bool_decide; intros [= <- <- <-];
    (split; [|split]); try discriminate; by_decide.
Qed.

(** ** What an adapted task is *)
Definition any_protected (o : LegacyTaskObservation) : bool :=
  existsb protected (lo_allowed_files o).

(** The decision the control plane takes for an adapted task: never RED. *)
Definition shadow_decision (o : LegacyTaskObservation) : PolicyDecision :=
  if any_protected o then decision YELLOW "YELLOW_EFFECT_BOUNDARY" true
  else decision GREEN "GREEN_AUTONOMOUS_TYPED_EFFECT" false.

Lemma resource_ref_prefixed path :
  startswith_any RED_RESOURCE_PREFIXES (_resource_ref path) = false ∧
  startswith_any YELLOW_RESOURCE_PREFIXES (_resource_ref path) = protected path.
Proof. unfold _resource_ref. destruct path, (protected _); split; reflexivity. Qed.

Lemma resource_refs_prefixed paths :
  any_prefixed RED_RESOURCE_PREFIXES (map _resource_ref paths) = false ∧
  any_prefixed YELLOW_RESOURCE_PREFIXES (map _resource_ref paths) = existsb protected paths.
Proof.
  unfold any_prefixed. induction paths as [|p ps [IHr IHy]]; cbn [map existsb]; [done|].
  destruct (resource_ref_prefixed p) as [-> ->]. by rewrite IHr, IHy.
Qed.

(** The shape of a successful adaptation. *)
Lemma adapt_ok_inv o a :
  adapt_legacy_task o = Ok a →
  well_formed o ∧ ∃ p op eff rev,
    supported o p ∧ lookup_literal _KIND_MAP (lo_task_kind o) = Some (op, eff, rev) ∧
    pi_operation (al_policy_input a) = al_operation a ∧
    op_kind (al_operation a) = op ∧ op_effects (al_operation a) = [eff] ∧
    op_resources (al_operation a) = map _resource_ref (lo_allowed_files o) ∧
    pi_reversibility (al_policy_input a) = rev ∧ pi_privacy (al_policy_input a) = p ∧
    pi_target_state_ref (al_policy_input a) = Some (lo_target_state_ref o).
Proof.
  unfold adapt_legacy_task. rewrite seq_ok, validate_observation_ok. intros [Hwf H].
  split; [done|]. apply some_bind_ok in H as ([[op eff] rev] & Hk & H).
  apply result_bind_ok in H as (p & Hp & H). rewrite seq_ok, raise_if_ok in H. destruct H as [Hm H].
  apply result_bind_ok in H as (x & Hx & [= <-]). unfold new_OperationIR in Hx.
  rewrite seq_ok in Hx. destruct Hx as [_ [= <-]]. exists p, op, eff, rev. cbn.
  split; [|done]. split; [by apply lookup_literal_some; eexists|]. split; [done|].
  intros Hpm. rewrite bool_decide_eq_true_2 in Hm by done.
  by apply negb_false_iff, bool_decide_eq_true in Hm.
Qed.

(** The adaptation succeeds on every well-formed and supported observation:
    the constructor's own check never fires. *)
Lemma adapt_succeeds o p : well_formed o → supported o p → ∃ a, adapt_legacy_task o = Ok a.
Proof.
  intros Hwf (Hk & Hp & Hm). apply lookup_literal_some in Hk as [[[op eff] rev] Hk].
  apply validate_observation_ok in Hwf. unfold adapt_legacy_task. rewrite Hwf, Hk, Hp.
  cbn [mbind result_bind some_or]. apply kind_map_green in Hk as (Hop & _ & _).
  unfold new_OperationIR. rewrite (bool_decide_eq_true_2 _ Hop). cbn [negb raise_if mbind result_bind].
  rewrite (proj2 (raise_if_ok _ _ tt)); [by eexists|].
  apply andb_false_iff. rewrite negb_false_iff, bool_decide_eq_true, bool_decide_eq_false.
  destruct (decide (lo_task_kind o = "private_memory")); [right|left]; auto.
Qed.

Definition is_compat_error (e : exn) : Prop := ∃ c, e = CompatError c.

Lemma adapt_raises o e : adapt_legacy_task o = Raise e → is_compat_error e.
Proof.
  intros H. eapply only_raises_elim; [|exact H]. unfold adapt_legacy_task.
  apply only_raises_bind; [unfold _validate_observation, _public_ref; raises; by eexists|].
  intros _. destruct (lookup_literal _KIND_MAP _) as [[[op eff] rev]|] eqn:Ek; [|by eexists].
  apply kind_map_green in Ek as (Hop & _ & _). unfold new_OperationIR.
  cbn [some_or mbind result_bind]. rewrite (bool_decide_eq_true_2 _ Hop).
  cbn [negb raise_if]. unfold _privacy. raises; by eexists.
Qed.

Lemma adapted_decision o a :
  adapt_legacy_task o = Ok a → classify_policy (al_policy_input a) = shadow_decision o.
Proof.
  intros H. apply adapt_ok_inv in H as (Hwf & p & op & eff & rev & _ & Hk & Ho & Hop & He & Hr
    & Hrev & _ & Ht).
  apply kind_map_green in Hk as (_ & Heff & Hirr).
  destruct effect_classes_disjoint as (Hgy & Hgr & _). rewrite elem_of_disjoint in Hgy, Hgr.
  destruct (resource_refs_prefixed (lo_allowed_files o)) as [Hred Hyel].
  assert (Hknown : known_effects (al_policy_input a)).
  { unfold known_effects, recognized. rewrite Ho, He. split; [done|].
    intros e. rewrite list_elem_of_singleton. intros ->. by apply elem_of_union_l, elem_of_union_l. }
  assert (Hno : ∀ X, eff ∉ X → ¬ has_effect X (al_policy_input a)).
  { intros X HX. unfold has_effect. rewrite Ho, He, Exists_cons, Exists_nil. tauto. }
  assert (Hnr : ¬ red_boundary (al_policy_input a)).
  { intros [Hb|Hb]; [by apply (Hno RED_EFFECTS) in Hb; [|eauto]|].
    rewrite Ho, Hr in Hb. congruence. }
  apply classify_policy_iff. unfold shadow_decision, any_protected. rewrite <-Hyel.
  destruct (any_prefixed YELLOW_RESOURCE_PREFIXES _) eqn:E.
  - apply rule_yellow; [done|congruence|done|]. right. by rewrite Ho, Hr.
  - apply rule_green; [done|congruence|done| |].
    + intros [Hb|Hb]; [by apply (Hno YELLOW_EFFECTS) in Hb; [|eauto]|].
      rewrite Ho, Hr in Hb. congruence.
    + intros [_ Hf]. rewrite Ht in Hf. cbn in Hf.
      destruct (wf_refs o Hwf) as (_ & Hpt & _). apply public_ref_nonempty in Hpt.
      by apply falsy_spec in Hf.
Qed.

Lemma is_public_safe_ref_spec value : _is_public_safe_ref value = true ↔ public_ref value.
Proof.
  unfold _is_public_safe_ref, public_ref. rewrite !andb_true_iff, !negb_true_iff, truthy_spec.
  split; [tauto|]. intros H. split_and!; try tauto. by apply public_ref_nonempty.
Qed.

Lemma redacted_ref value kind :
  kind ∈ ["source"; "target"] → public_ref (_safe_ref_or_redacted value kind).
Proof.
  intros Hk. unfold _safe_ref_or_redacted. destruct (_is_public_safe_ref value) eqn:E.
  - by apply is_public_safe_ref_spec.
  - apply is_public_safe_ref_spec.
    apply elem_of_cons in Hk as [->|Hk]; [reflexivity|].
    apply list_elem_of_singleton in Hk as ->. reflexivity.
Qed.

Lemma redacted_status value : legacy_status (_safe_status_or_redacted value).
Proof.
  unfold _safe_status_or_redacted, legacy_status. destruct (truthy value && _) eqn:E.
  - apply andb_true_iff in E. by rewrite truthy_spec in E.
  - by split.
Qed.

(** A receipt that may be published. *)
Record public_receipt (r : ShadowParityReceipt) : Prop := {
  pr_refs : public_ref (sp_source_task_ref r) ∧ public_ref (sp_target_state_ref r) ∧
    ∀ e, e ∈ sp_evidence_refs r → public_ref e;
  pr_status : legacy_status (sp_legacy_status r);
  pr_effects : sp_side_effects_executed r = false
}.

(** ** Properties *)

(** The adapter accepts exactly the well-formed observations of a supported
    kind; on all others it raises a [CompatError] and nothing else.  What it
    builds is never RED: it is YELLOW, for the privileged gate, exactly when one
    of the allowed files is protected, and GREEN otherwise. *)
Theorem adapt_exact o :
  match adapt_legacy_task o with
  | Ok a => well_formed o ∧ (∃ p, supported o p) ∧
      classify_policy (al_policy_input a) = shadow_decision o ∧
      pi_operation (al_policy_input a) = al_operation a ∧
      op_resources (al_operation a) = map _resource_ref (lo_allowed_files o)
  | Raise e => is_compat_error e ∧ ¬ (well_formed o ∧ ∃ p, supported o p)
  end.
Proof.
  destruct (adapt_legacy_task o) as [a|e] eqn:E.
  - destruct (adapt_ok_inv o a E) as (Hwf & p & op & eff & rev & Hs & _ & Ho & _ & _ & Hr & _).
    apply adapted_decision in E. eauto 6.
  - split; [by eapply adapt_raises|]. intros [Hwf [p Hs]].
    destruct (adapt_succeeds o p Hwf Hs). congruence.
Qed.

(** The harness never fails and never leaks: for every observation, well
    formed or not, [evaluate] returns a receipt, whose references and status are
    public-safe (redacted where the observation's are not) and which claims no
    side effect. *)
Theorem shadow_total_public o : ∃ r, evaluate o = Ok r ∧ public_receipt r.
Proof.
  unfold evaluate. destruct (adapt_legacy_task o) as [a|e] eqn:E.
  - apply adapt_ok_inv in E as ([(Hs & Ht & He) Hst _ _ _ _] & _). eexists. split; [reflexivity|].
    by split.
  - destruct (adapt_raises o e E) as [c ->]. eexists. split; [reflexivity|]. split.
    + cbn. split; [by apply redacted_ref; left|].
      split; [by apply redacted_ref; right; left|]. intros r.
      rewrite filter_elem. intros [_ H]. by apply is_public_safe_ref_spec.
    + apply redacted_status.
    + done.
Qed.

(** How the two classes compare, as an order. *)
Definition divergence_spec (legacy : option EffectClass) (vnext : EffectClass)
    (d : DivergenceKind) : Prop :=
  match d with
  | MATCH => legacy = Some vnext
  | VNEXT_STRICTER => ∃ l, legacy = Some l ∧ rank l < rank vnext
  | LEGACY_STRICTER => ∃ l, legacy = Some l ∧ rank vnext < rank l
  | INCOMPARABLE => legacy = None
  | INVALID_LEGACY_INPUT => False
  end.

(** The reported divergence is exact: [INVALID_LEGACY_INPUT] exactly for the
    observations the adapter refuses; otherwise the receipt carries the class
    and reason of [shadow_decision], and [d] is reported if and only if the
    legacy class and that class stand in the relation [d] names. *)
Theorem shadow_divergence_exact o r :
  evaluate o = Ok r →
  (sp_divergence r = INVALID_LEGACY_INPUT ↔ ¬ (well_formed o ∧ ∃ p, supported o p)) ∧
  match sp_vnext_effect_class r with
  | None => sp_divergence r = INVALID_LEGACY_INPUT
  | Some c => decision c (sp_vnext_reason_code r) (c != GREEN) = shadow_decision o ∧
      ∀ d, sp_divergence r = d ↔ divergence_spec (lo_legacy_effect_class o) c d
  end.
Proof.
  unfold evaluate. destruct (adapt_legacy_task o) as [a|e] eqn:E.
  - pose proof (adapted_decision o a E) as Hd. rewrite Hd. intros [= <-].
    cbn [sp_divergence sp_vnext_effect_class sp_vnext_reason_code].
    assert (Hc : ∀ c d, _compare (lo_legacy_effect_class o) c = d ↔
      divergence_spec (lo_legacy_effect_class o) c d).
    { intros c d. destruct (lo_legacy_effect_class o) as [[]|], c, d; cbn; naive_solver lia. }
    split.
    + rewrite Hc. cbn. split; [done|]. intros H. apply H.
      destruct (adapt_ok_inv o a E) as (Hwf & p & _ & _ & _ & Hs & _). eauto.
    + split; [|apply Hc]. unfold shadow_decision. by destruct (any_protected o).
  - destruct (adapt_raises o e E) as [c ->]. intros [= <-]. cbn. split; [|done].
    split; [|done]. intros _ [Hwf [p Hs]]. destruct (adapt_succeeds o p Hwf Hs). congruence.
Qed.

(** ** Witnesses *)
Definition demo_observation (file : string) : LegacyTaskObservation :=
  {| lo_source_task_ref := "issue:12"; lo_target_state_ref := "state:abc";
     lo_repo := "org/alpha"; lo_branch := "main"; lo_task_kind := "code_edit";
     lo_requested_capabilities := ["edit"]; lo_allowed_files := [file];
     lo_privacy_boundary := "public_safe"; lo_legacy_effect_class := Some GREEN;
     lo_legacy_status := "QUEUED"; lo_evidence_refs := ["gh:1"] |}.

Definition demo_receipt : ShadowParityReceipt :=
  {| sp_source_task_ref := "issue:12"; sp_target_state_ref := "state:abc";
     sp_legacy_effect_class := Some GREEN; sp_legacy_status := "QUEUED";
     sp_vnext_effect_class := Some YELLOW; sp_vnext_reason_code := "YELLOW_EFFECT_BOUNDARY";
     sp_divergence := VNEXT_STRICTER; sp_evidence_refs := ["gh:1"];
     sp_side_effects_executed := false |}.

Lemma shadow_divergence_exact_witness :
  evaluate (demo_observation "secrets/key") = Ok demo_receipt ∧
  divergence_spec (Some GREEN) YELLOW VNEXT_STRICTER.
Proof.
  assert (E : evaluate (demo_observation "secrets/key") = Ok demo_receipt)
    by (vm_compute; reflexivity).
  split; [exact E|].
  destruct (shadow_divergence_exact _ _ E) as [_ [_ H]]. apply (H VNEXT_STRICTER). reflexivity.
Defined.
