(* ===== verification/Loop.v ===== *)
(** * The loop controller

    [src/core/loop_controller.py]: the deterministic state machine that decides
    how a bounded loop continues, retries, checkpoints or stops; and
    [src/core/loop_policy_registry.py]: the registered limits it runs under. *)

From S2P Require Import Prelude.
From S2P Require Import PyStr.
From S2P Require Import Json.

(** ** Data *)
Inductive LoopState :=
  | CREATED | READY | RUNNING | CHECKPOINTED
  | NEEDS_OPERATOR | HUMAN_REVIEW | BLOCKED | CANCELLED | DONE.

Inductive LoopEvent :=
  | PREPARED | STARTED | STEP_SUCCEEDED | STEP_FAILED | CHECKPOINT | REVIEW_REQUIRED
  | OPERATOR_REQUIRED | CANCEL | COMPLETE | TIMEOUT | BUDGET_EXHAUSTED | LEASE_EXPIRED.

(** The members are prefixed where their names are also events. *)
Inductive LoopDecision :=
  | D_CONTINUE | D_RETRY | D_CHECKPOINT | D_REVIEW | D_ESCALATE | D_STOP | D_REJECT.

#[global] Instance LoopState_eq_dec : EqDecision LoopState.
Proof. solve_decision. Defined.
#[global] Instance LoopEvent_eq_dec : EqDecision LoopEvent.
Proof. solve_decision. Defined.
#[global] Instance LoopDecision_eq_dec : EqDecision LoopDecision.
Proof. solve_decision. Defined.

Definition HALTED : list LoopState := [NEEDS_OPERATOR; HUMAN_REVIEW; BLOCKED; CANCELLED; DONE].
Definition ACTIVE : list LoopState := [CREATED; READY; RUNNING; CHECKPOINTED].
Definition LEASED : list LoopState := [READY; RUNNING; CHECKPOINTED].

(** The guards on integers; that an argument is no [bool] is its type here. *)
Definition _positive (value : Z) (name : string) : result unit :=
  raise_if (value <=? 0) (ValueError (name +:+ " must be a positive integer")).
Definition _non_negative (value : Z) (name : string) : result unit :=
  raise_if (value <? 0) (ValueError (name +:+ " must be a non-negative integer")).
Definition _opt_non_negative (value : option Z) (name : string) : result unit :=
  match value with None => Ok tt | Some v => _non_negative v name end.

Record LoopPolicy := {
  max_iterations : Z;
  retry_limit : Z;
  max_budget_units : Z;
  failure_exhaustion_state : LoopState
}.

#[global] Instance LoopPolicy_eq_dec : EqDecision LoopPolicy.
Proof. solve_decision. Defined.

Definition new_LoopPolicy (p : LoopPolicy) : result LoopPolicy :=
  _positive (max_iterations p) "max_iterations";;
  _non_negative (retry_limit p) "retry_limit";;
  _non_negative (max_budget_units p) "max_budget_units";;
  raise_if (failure_exhaustion_state p ∉? [BLOCKED; NEEDS_OPERATOR])
    (ValueError "invalid failure_exhaustion_state");;
  Ok p.

Record LoopContext := {
  lc_state : LoopState;
  iterations : Z;
  retries : Z;
  budget_used : Z;
  deadline_at : option Z;
  lease_expires_at : option Z
}.

#[global] Instance LoopContext_eq_dec : EqDecision LoopContext.
Proof. solve_decision. Defined.

Definition new_LoopContext (c : LoopContext) : result LoopContext :=
  _non_negative (iterations c) "iterations";;
  _non_negative (retries c) "retries";;
  _non_negative (budget_used c) "budget_used";;
  _opt_non_negative (deadline_at c) "deadline_at";;
  _opt_non_negative (lease_expires_at c) "lease_expires_at";;
  Ok c.

(** [LoopContext()] *)
Definition default_context : LoopContext :=
  {| lc_state := CREATED; iterations := 0; retries := 0; budget_used := 0;
     deadline_at := None; lease_expires_at := None |}.

Record LoopResult := {
  lr_previous : LoopContext;
  lr_current : LoopContext;
  lr_event : LoopEvent;
  lr_accepted : bool;
  lr_decision : LoopDecision;
  lr_reason : string
}.

#[global] Instance LoopResult_eq_dec : EqDecision LoopResult.
Proof. solve_decision. Defined.

Definition halted (r : LoopResult) : bool := lc_state (lr_current r) ∈? HALTED.

(** ** A step *)
Definition _reject (current : LoopContext) (event : LoopEvent) (reason : string) : LoopResult :=
  {| lr_previous := current; lr_current := current; lr_event := event; lr_accepted := false;
     lr_decision := D_REJECT; lr_reason := reason |}.

(** [dataclasses.replace] builds a new context and so runs its checks again. *)
Definition _go (previous : LoopContext) (event : LoopEvent) (state : LoopState)
    (decision : LoopDecision) (reason : string) (iters retrs : option Z) (budget : Z)
    : result LoopResult :=
  current ← new_LoopContext
    {| lc_state := state; iterations := default (iterations previous) iters;
       retries := default (retries previous) retrs; budget_used := budget;
       deadline_at := deadline_at previous; lease_expires_at := lease_expires_at previous |};
  Ok {| lr_previous := previous; lr_current := current; lr_event := event; lr_accepted := true;
        lr_decision := decision; lr_reason := reason |}.

(** [limit is not None and now is not None and now >= limit] *)
Definition reached (limit now : option Z) : bool :=
  match limit, now with Some l, Some n => l <=? n | _, _ => false end.

(** The transitions left once no limit fires. *)
Definition transition (current : LoopContext) (event : LoopEvent) (policy : LoopPolicy)
    (budget : Z) : result LoopResult :=
  let go state decision reason := _go current event state decision reason None None budget in
  match lc_state current, event with
  | CREATED, PREPARED => go READY D_CONTINUE "LOOP_PREPARED"
  | READY, STARTED => go RUNNING D_CONTINUE "LOOP_STARTED"
  | CHECKPOINTED, STARTED => go RUNNING D_CONTINUE "LOOP_RESUMED"
  | RUNNING, STEP_SUCCEEDED =>
      _go current event RUNNING D_CONTINUE "STEP_SUCCEEDED"
        (Some (iterations current + 1)) (Some 0) budget
  | RUNNING, STEP_FAILED =>
      let iters := iterations current + 1 in
      let retrs := retries current + 1 in
      if retry_limit policy <? retrs then
        let state := failure_exhaustion_state policy in
        let decision := if state == NEEDS_OPERATOR then D_ESCALATE else D_STOP in
        _go current event state decision "RETRY_LIMIT_EXHAUSTED" (Some iters) (Some retrs) budget
      else _go current event RUNNING D_RETRY "STEP_FAILED_RETRY" (Some iters) (Some retrs) budget
  | RUNNING, CHECKPOINT => go CHECKPOINTED D_CHECKPOINT "CHECKPOINTED"
  | RUNNING, COMPLETE => go DONE D_STOP "COMPLETED"
  | _, _ => Ok (_reject current event "ILLEGAL_TRANSITION")
  end.

(** The limits, in the order the code tests them. *)
Definition limited (current : LoopContext) (event : LoopEvent) (policy : LoopPolicy)
    (now : option Z) (budget : Z) : result LoopResult :=
  let go state decision reason := _go current event state decision reason None None budget in
  if reached (deadline_at current) now then go BLOCKED D_STOP "TIMEOUT"
  else if reached (lease_expires_at current) now && (lc_state current ∈? LEASED)
  then go CHECKPOINTED D_CHECKPOINT "LEASE_EXPIRED"
  else if max_budget_units policy <? budget then go NEEDS_OPERATOR D_ESCALATE "BUDGET_EXHAUSTED"
  else if (event ∈? [STARTED; STEP_SUCCEEDED; STEP_FAILED])
          && (max_iterations policy <=? iterations current)
  then go BLOCKED D_STOP "MAX_ITERATIONS_EXHAUSTED"
  else transition current event policy budget.

Definition advance_loop (current : LoopContext) (event : LoopEvent) (policy : LoopPolicy)
    (now : option Z) (budget_delta : Z) : result LoopResult :=
  _opt_non_negative now "now";;
  _non_negative budget_delta "budget_delta";;
  if lc_state current ∈? HALTED then Ok (_reject current event "HALTED_STATE")
  else
    let budget := budget_used current + budget_delta in
    let go state decision reason := _go current event state decision reason None None budget in
    match event with
    | CANCEL =>
        if lc_state current ∉? ACTIVE then Ok (_reject current event "ILLEGAL_TRANSITION")
        else go CANCELLED D_STOP "CANCELLED"
    | OPERATOR_REQUIRED => go NEEDS_OPERATOR D_ESCALATE "OPERATOR_REQUIRED"
    | REVIEW_REQUIRED => go HUMAN_REVIEW D_REVIEW "REVIEW_REQUIRED"
    | TIMEOUT => go BLOCKED D_STOP "TIMEOUT"
    | BUDGET_EXHAUSTED => go NEEDS_OPERATOR D_ESCALATE "BUDGET_EXHAUSTED"
    | LEASE_EXPIRED =>
        if lc_state current ∉? LEASED then Ok (_reject current event "ILLEGAL_TRANSITION")
        else go CHECKPOINTED D_CHECKPOINT "LEASE_EXPIRED"
    | _ => limited current event policy now budget
    end.

(** ** Registered policies *)
Definition DEFAULT_LOOP_POLICY_PROFILE : string := "default_bounded".
Definition FORBIDDEN_LIMIT_FIELDS : list string :=
  ["max_iterations"; "retry_limit"; "max_budget_units"; "failure_exhaustion_state"].

Definition default_bounded : LoopPolicy :=
  {| max_iterations := 10; retry_limit := 2; max_budget_units := 100;
     failure_exhaustion_state := BLOCKED |}.

Definition _PROFILES : gmap string LoopPolicy := {[ DEFAULT_LOOP_POLICY_PROFILE := default_bounded ]}.

Definition registered_loop_policy_profiles : list string := sort_strs (map_to_list _PROFILES).*1.

Definition resolve_loop_policy_profile (profile_name : json) : result LoopPolicy :=
  let invalid := LoopPolicyProfileError "INVALID_LOOP_POLICY_PROFILE"
    "policy_profile must be a non-empty string" in
  match profile_name with
  | JStr name =>
      raise_if (falsy name) invalid;;
      some_or (_PROFILES !! name)
        (LoopPolicyProfileError "LOOP_POLICY_PROFILE_NOT_REGISTERED"
          ("Loop policy profile is not registered: " +:+ name))
  | _ => Raise invalid
  end.

Definition resolve_loop_policy_from_payload (payload : json) : result LoopPolicy :=
  match payload with
  | JObj d =>
      match sort_strs (List.filter (has_key d) FORBIDDEN_LIMIT_FIELDS) with
      | field :: _ => Raise (LoopPolicyProfileError "LOOP_POLICY_LIMIT_OVERRIDE_FORBIDDEN"
          ("Loop policy limits must come from a registered profile: " +:+ field))
      | [] =>
          profile ← some_or (dict_get d "policy_profile")
            (LoopPolicyProfileError "MISSING_LOOP_POLICY_PROFILE"
              "Loop policy payload must declare policy_profile");
          resolve_loop_policy_profile profile
      end
  | _ => Raise (LoopPolicyProfileError "INVALID_LOOP_POLICY_PAYLOAD"
      "Loop policy payload must be a mapping")
  end.

(** ** Well-formed data *)
Definition opt_nonneg (o : option Z) : Prop := ∀ z, o = Some z → 0 ≤ z.

Record ctx_ok (c : LoopContext) : Prop := {
  ok_iterations : 0 ≤ iterations c;
  ok_retries : 0 ≤ retries c;
  ok_budget : 0 ≤ budget_used c;
  ok_deadline : opt_nonneg (deadline_at c);
  ok_lease : opt_nonneg (lease_expires_at c)
}.

Record policy_ok (p : LoopPolicy) : Prop := {
  ok_max_iterations : 0 < max_iterations p;
  ok_retry_limit : 0 ≤ retry_limit p;
  ok_max_budget : 0 ≤ max_budget_units p;
  ok_exhaustion : failure_exhaustion_state p = BLOCKED ∨ failure_exhaustion_state p = NEEDS_OPERATOR
}.

Lemma non_negative_ok v n : _non_negative v n = Ok tt ↔ 0 ≤ v.
Proof. unfold _non_negative. by rewrite raise_if_ok, Z.ltb_ge. Qed.

Lemma opt_non_negative_ok o n : _opt_non_negative o n = Ok tt ↔ opt_nonneg o.
Proof.
  unfold opt_nonneg. destruct o as [v|]; cbn; [|naive_solver].
  rewrite non_negative_ok. naive_solver.
Qed.

Lemma new_context_ok c c' : new_LoopContext c = Ok c' ↔ ctx_ok c ∧ c' = c.
Proof.
  unfold new_LoopContext. rewrite !seq_ok, !non_negative_ok, !opt_non_negative_ok, Ok_inj.
  split; [intros (? & ? & ? & ? & ? & <-); by split|]. intros [[????] ->]. tauto.
Qed.

Lemma new_context_id c : ctx_ok c → new_LoopContext c = Ok c.
Proof. intros H. by apply new_context_ok. Qed.

Lemma new_policy_ok p p' : new_LoopPolicy p = Ok p' ↔ policy_ok p ∧ p' = p.
Proof.
  unfold new_LoopPolicy, _positive.
  rewrite !seq_ok, !non_negative_ok, !raise_if_ok, Z.leb_gt, negb_false_iff, bool_decide_eq_true,
    Ok_inj, elem_of_cons, list_elem_of_singleton.
  split; [intros (? & ? & ? & ? & <-); by split|]. intros [[????] ->]. tauto.
Qed.

(** ** The step relation *)
Definition moved (c : LoopContext) (st : LoopState) (i r b : Z) : LoopContext :=
  {| lc_state := st; iterations := i; retries := r; budget_used := b;
     deadline_at := deadline_at c; lease_expires_at := lease_expires_at c |}.

Definition accept (c : LoopContext) (e : LoopEvent) (c' : LoopContext) (d : LoopDecision)
    (reason : string) : LoopResult :=
  {| lr_previous := c; lr_current := c'; lr_event := e; lr_accepted := true; lr_decision := d;
     lr_reason := reason |}.

(** Events that stop the loop in every state that is not halted. *)
Definition directive (e : LoopEvent) : option (LoopState * LoopDecision * string) :=
  match e with
  | CANCEL => Some (CANCELLED, D_STOP, "CANCELLED")
  | OPERATOR_REQUIRED => Some (NEEDS_OPERATOR, D_ESCALATE, "OPERATOR_REQUIRED")
  | REVIEW_REQUIRED => Some (HUMAN_REVIEW, D_REVIEW, "REVIEW_REQUIRED")
  | TIMEOUT => Some (BLOCKED, D_STOP, "TIMEOUT")
  | BUDGET_EXHAUSTED => Some (NEEDS_OPERATOR, D_ESCALATE, "BUDGET_EXHAUSTED")
  | _ => None
  end.

Definition ordinary (e : LoopEvent) : Prop := directive e = None ∧ e ≠ LEASE_EXPIRED.
Definition work (e : LoopEvent) : Prop := e ∈ [STARTED; STEP_SUCCEEDED; STEP_FAILED].

(** Moves that change only the state. *)
Definition plain_move (st : LoopState) (e : LoopEvent) : option (LoopState * LoopDecision * string) :=
  match st, e with
  | CREATED, PREPARED => Some (READY, D_CONTINUE, "LOOP_PREPARED")
  | READY, STARTED => Some (RUNNING, D_CONTINUE, "LOOP_STARTED")
  | CHECKPOINTED, STARTED => Some (RUNNING, D_CONTINUE, "LOOP_RESUMED")
  | RUNNING, CHECKPOINT => Some (CHECKPOINTED, D_CHECKPOINT, "CHECKPOINTED")
  | RUNNING, COMPLETE => Some (DONE, D_STOP, "COMPLETED")
  | _, _ => None
  end.

Section step.
Context (p : LoopPolicy) (c : LoopContext) (e : LoopEvent) (now : option Z) (b : Z).

(** No limit fires. *)
Record in_limits : Prop := {
  lim_live : lc_state c ∉ HALTED;
  lim_ordinary : ordinary e;
  lim_deadline : reached (deadline_at c) now = false;
  lim_lease : reached (lease_expires_at c) now = true → lc_state c ∉ LEASED;
  lim_budget : b ≤ max_budget_units p;
  lim_iterations : work e → iterations c < max_iterations p
}.

Definition keep (st : LoopState) : LoopContext := moved c st (iterations c) (retries c) b.

Inductive loop_step : LoopResult → Prop :=
  | step_halted :
      lc_state c ∈ HALTED → loop_step (_reject c e "HALTED_STATE")
  | step_directive st d reason :
      lc_state c ∉ HALTED → directive e = Some (st, d, reason) →
      loop_step (accept c e (keep st) d reason)
  | step_lease_event :
      lc_state c ∈ LEASED → e = LEASE_EXPIRED →
      loop_step (accept c e (keep CHECKPOINTED) D_CHECKPOINT "LEASE_EXPIRED")
  | step_lease_unleased :
      lc_state c = CREATED → e = LEASE_EXPIRED → loop_step (_reject c e "ILLEGAL_TRANSITION")
  | step_deadline :
      lc_state c ∉ HALTED → ordinary e → reached (deadline_at c) now = true →
      loop_step (accept c e (keep BLOCKED) D_STOP "TIMEOUT")
  | step_lease :
      lc_state c ∈ LEASED → ordinary e → reached (deadline_at c) now = false →
      reached (lease_expires_at c) now = true →
      loop_step (accept c e (keep CHECKPOINTED) D_CHECKPOINT "LEASE_EXPIRED")
  | step_budget :
      lc_state c ∉ HALTED → ordinary e → reached (deadline_at c) now = false →
      (reached (lease_expires_at c) now = true → lc_state c ∉ LEASED) → max_budget_units p < b →
      loop_step (accept c e (keep NEEDS_OPERATOR) D_ESCALATE "BUDGET_EXHAUSTED")
  | step_iterations :
      lc_state c ∉ HALTED → work e → reached (deadline_at c) now = false →
      (reached (lease_expires_at c) now = true → lc_state c ∉ LEASED) → b ≤ max_budget_units p →
      max_iterations p ≤ iterations c →
      loop_step (accept c e (keep BLOCKED) D_STOP "MAX_ITERATIONS_EXHAUSTED")
  | step_plain st d reason :
      in_limits → plain_move (lc_state c) e = Some (st, d, reason) →
      loop_step (accept c e (keep st) d reason)
  | step_succeeded :
      in_limits → lc_state c = RUNNING → e = STEP_SUCCEEDED →
      loop_step (accept c e (moved c RUNNING (iterations c + 1) 0 b) D_CONTINUE "STEP_SUCCEEDED")
  | step_failed :
      in_limits → lc_state c = RUNNING → e = STEP_FAILED → retries c < retry_limit p →
      loop_step (accept c e (moved c RUNNING (iterations c + 1) (retries c + 1) b) D_RETRY
        "STEP_FAILED_RETRY")
  | step_exhausted :
      in_limits → lc_state c = RUNNING → e = STEP_FAILED → retry_limit p ≤ retries c →
      loop_step (accept c e
        (moved c (failure_exhaustion_state p) (iterations c + 1) (retries c + 1) b)
        (if failure_exhaustion_state p == NEEDS_OPERATOR then D_ESCALATE else D_STOP)
        "RETRY_LIMIT_EXHAUSTED")
  | step_illegal :
      in_limits → plain_move (lc_state c) e = None →
      (lc_state c = RUNNING → e ≠ STEP_SUCCEEDED ∧ e ≠ STEP_FAILED) →
      loop_step (_reject c e "ILLEGAL_TRANSITION").
End step.

(** ** The code takes exactly these steps *)
Lemma go_ok c e st d reason i r b :
  ctx_ok c → opt_nonneg i → opt_nonneg r → 0 ≤ b →
  _go c e st d reason i r b =
    Ok (accept c e (moved c st (default (iterations c) i) (default (retries c) r) b) d reason).
Proof.
  intros [Hi Hr Hb Hd Hl] Hi' Hr' Hb'. unfold _go.
  rewrite new_context_id; [reflexivity|].
  split; cbn; try assumption; [destruct i|destruct r]; cbn; eauto.
Qed.

Lemma keep_ok c e st d reason b :
  ctx_ok c → 0 ≤ b →
  _go c e st d reason None None b = Ok (accept c e (keep c b st) d reason).
Proof. intros. by rewrite go_ok. Qed.

Lemma live_active st : st ∉ HALTED → st ∈ ACTIVE.
Proof. destruct st; by_decide. Qed.

Lemma live_unleased st : st ∉ HALTED → st ∉ LEASED → st = CREATED.
Proof. destruct st; by_decide. Qed.

Lemma leased_live st : st ∈ LEASED → st ∉ HALTED.
Proof. destruct st; by_decide. Qed.

Lemma transition_steps p c e now b :
  ctx_ok c → 0 ≤ b → in_limits p c e now b →
  ∃ r, transition c e p b = Ok r ∧ loop_step p c e now b r.
Proof.
  intros Hc Hb Hin. pose proof (ok_iterations c Hc). pose proof (ok_retries c Hc).
  unfold transition.
  destruct (lc_state c) eqn:Hst, e eqn:He;
    try (eexists; split; [reflexivity|apply step_illegal; rewrite ?Hst; done]);
    try (rewrite keep_ok by assumption; eexists; split; [reflexivity|];
         eapply step_plain; [exact Hin|by rewrite Hst]).
  - rewrite go_ok by (assumption || intros ? [= <-]; lia). eexists. split; [reflexivity|].
    by apply step_succeeded.
  - destruct (Z.ltb_spec (retry_limit p) (retries c + 1));
      rewrite go_ok by (assumption || intros ? [= <-]; lia);
      eexists; (split; [reflexivity|]); [apply step_exhausted|apply step_failed]; try done; lia.
Qed.

Lemma limited_steps p c e now b :
  ctx_ok c → 0 ≤ b → lc_state c ∉ HALTED → ordinary e →
  ∃ r, limited c e p now b = Ok r ∧ loop_step p c e now b r.
Proof.
  intros Hc Hb Hlive Ho. unfold limited. rewrite !keep_ok by assumption.
  destruct (reached (deadline_at c) now) eqn:Hd.
  { eexists. split; [reflexivity|by apply step_deadline]. }
  destruct (reached (lease_expires_at c) now && (lc_state c ∈? LEASED)) eqn:Hl.
  { apply andb_true_iff in Hl as [Hle Hl]. apply bool_decide_eq_true in Hl.
    eexists. split; [reflexivity|by apply step_lease]. }
  assert (Hl' : reached (lease_expires_at c) now = true → lc_state c ∉ LEASED).
  { intros E. by rewrite E, andb_true_l, bool_decide_eq_false in Hl. }
  destruct (Z.ltb_spec (max_budget_units p) b).
  { eexists. split; [reflexivity|by apply step_budget]. }
  destruct (_ && (max_iterations p <=? iterations c)) eqn:Hi.
  { apply andb_true_iff in Hi as [Hw Hi]. apply bool_decide_eq_true in Hw. apply Z.leb_le in Hi.
    eexists. split; [reflexivity|by apply step_iterations]. }
  apply transition_steps; try done. split; try done. intros Hw.
  unfold work in Hw. by rewrite bool_decide_eq_true_2, andb_true_l, Z.leb_gt in Hi.
Qed.

Lemma advance_steps p c e now d :
  ctx_ok c → opt_nonneg now → 0 ≤ d →
  ∃ r, advance_loop c e p now d = Ok r ∧ loop_step p c e now (budget_used c + d) r.
Proof.
  intros Hc Hn Hd. pose proof (ok_budget c Hc). unfold advance_loop.
  rewrite (proj2 (opt_non_negative_ok _ _)), (proj2 (non_negative_ok _ _)) by assumption.
  cbn [mbind result_bind]. case_bool_decide as Hh.
  { eexists. split; [reflexivity|by apply step_halted]. }
  assert (Hact : (lc_state c ∉? ACTIVE) = false).
  { by apply negb_false_iff, bool_decide_eq_true, live_active. }
  rewrite Hact, !keep_ok by (assumption || lia).
  destruct e; try (apply limited_steps; [assumption|lia|assumption|done]);
    try (eexists; split; [reflexivity|by eapply step_directive]).
  destruct (lc_state c ∉? LEASED) eqn:Hl; (eexists; split; [reflexivity|]).
  - apply step_lease_unleased; [|done]. apply negb_true_iff, bool_decide_eq_false in Hl.
    by apply live_unleased.
  - apply step_lease_event; [|done]. by apply negb_false_iff, bool_decide_eq_true in Hl.
Qed.

(** And conversely, so the relation is the graph of the function. *)
Lemma advance_live p c e now d :
  opt_nonneg now → 0 ≤ d → lc_state c ∉ HALTED → ordinary e →
  advance_loop c e p now d = limited c e p now (budget_used c + d).
Proof.
  intros Hn Hd Hlive [Hdir Hne]. unfold advance_loop.
  rewrite (proj2 (opt_non_negative_ok _ _)), (proj2 (non_negative_ok _ _)) by assumption.
  rewrite (bool_decide_eq_false_2 _ Hlive). by destruct e.
Qed.

Lemma work_ordinary e : work e → ordinary e.
Proof. unfold work, ordinary. destruct e; by_decide. Qed.

Lemma lease_test c now :
  (reached (lease_expires_at c) now = true → lc_state c ∉ LEASED) →
  reached (lease_expires_at c) now && (lc_state c ∈? LEASED) = false.
Proof.
  intros H. destruct (reached _ _); [|done]. rewrite andb_true_l. apply bool_decide_eq_false. auto.
Qed.

Lemma limited_in p c e now b : in_limits p c e now b → limited c e p now b = transition c e p b.
Proof.
  intros [_ _ Hd Hl Hm Hi]. unfold limited.
  rewrite Hd, lease_test, (proj2 (Z.ltb_ge _ _)) by assumption.
  destruct (_ && _) eqn:E; [|done]. apply andb_true_iff in E as [Hw E].
  apply bool_decide_eq_true, Hi in Hw. apply Z.leb_le in E. lia.
Qed.

Lemma step_limited p c e now b r :
  ctx_ok c → 0 ≤ b → lc_state c ∉ HALTED → ordinary e →
  loop_step p c e now b r → limited c e p now b = Ok r.
Proof.
  intros Hc Hb Hlive [Hdir Hne] Hs.
  pose proof (ok_iterations c Hc). pose proof (ok_retries c Hc).
  destruct Hs as [Hh|st d reason Hh Hd|Hl He|Hst He|Hh Ho Hdl|Hl Ho Hdl Hle|Hh Ho Hdl Hle Hm
    |Hh Hw Hdl Hle Hm Hi|st d reason Hin Hp|Hin Hst He|Hin Hst He Hr|Hin Hst He Hr|Hin Hp Hn];
    try done; try congruence;
    lazymatch goal with
    | H : in_limits _ _ _ _ _ |- _ => rewrite limited_in by assumption; unfold transition
    | _ => unfold limited; rewrite !keep_ok by assumption
    end.
  - by rewrite Hdl.
  - by rewrite Hdl, Hle, bool_decide_eq_true_2.
  - by rewrite Hdl, lease_test, (proj2 (Z.ltb_lt _ _)).
  - rewrite Hdl, lease_test, (proj2 (Z.ltb_ge _ _)) by done.
    by rewrite bool_decide_eq_true_2, (proj2 (Z.leb_le _ _)).
  - destruct (lc_state c), e; try discriminate; injection Hp as <- <- <-; by rewrite keep_ok.
  - rewrite Hst. subst. by rewrite go_ok by (assumption || intros ? [= <-]; lia).
  - rewrite Hst. subst. rewrite (proj2 (Z.ltb_ge _ _)) by lia.
    by rewrite go_ok by (assumption || intros ? [= <-]; lia).
  - rewrite Hst. subst. rewrite (proj2 (Z.ltb_lt _ _)) by lia.
    by rewrite go_ok by (assumption || intros ? [= <-]; lia).
  - destruct (lc_state c) eqn:Hst, e; try discriminate; try done; by destruct Hn.
Qed.

Lemma step_advance p c e now d r :
  ctx_ok c → opt_nonneg now → 0 ≤ d →
  loop_step p c e now (budget_used c + d) r → advance_loop c e p now d = Ok r.
Proof.
  intros Hc Hn Hd Hs. pose proof (ok_budget c Hc).
  destruct (decide (lc_state c ∉ HALTED ∧ ordinary e)) as [[Hh Ho]|Hno].
  { rewrite advance_live by done. apply step_limited; try done. lia. }
  unfold advance_loop.
  rewrite (proj2 (opt_non_negative_ok _ _)), (proj2 (non_negative_ok _ _)) by assumption.
  cbn [mbind result_bind]. rewrite !keep_ok by (assumption || lia).
  destruct Hs as [Hh|st' d' reason Hh Hdir|Hl He|Hst He|Hh Ho Hdl|Hl Ho Hdl Hle|Hh Ho Hdl Hle Hm
    |Hh Hw Hdl Hle Hm Hi|st' d' reason Hin Hp|Hin Hst He|Hin Hst He Hr|Hin Hst He Hr|Hin Hp Hnw];
    try (by destruct Hno; split; first [assumption|apply leased_live|apply work_ordinary]);
    try (by destruct Hno; destruct Hin).
  - by rewrite bool_decide_eq_true_2.
  - rewrite bool_decide_eq_false_2 by done.
    destruct e; try discriminate; injection Hdir as <- <- <-; try done.
    by rewrite (bool_decide_eq_true_2 _ (live_active _ Hh)).
  - rewrite bool_decide_eq_false_2 by by apply leased_live. subst e.
    by rewrite bool_decide_eq_true_2.
  - by rewrite Hst, He.
Qed.

(** ** Runs

    A run feeds a sequence of events to the loop, each with the time and the
    budget it consumed. *)
Record input := { in_event : LoopEvent; in_now : option Z; in_delta : Z }.

Definition input_ok (x : input) : Prop := opt_nonneg (in_now x) ∧ 0 ≤ in_delta x.

Fixpoint run_loop (p : LoopPolicy) (c : LoopContext) (xs : list input) : result (list LoopResult) :=
  match xs with
  | [] => Ok []
  | x :: xs =>
      r ← advance_loop c (in_event x) p (in_now x) (in_delta x);
      rs ← run_loop p (lr_current r) xs;
      Ok (r :: rs)
  end.

(** The context after a run. *)
Definition final (c : LoopContext) (rs : list LoopResult) : LoopContext :=
  from_option lr_current c (last rs).

(** A step of work was done. *)
Definition worked (r : LoopResult) : bool :=
  iterations (lr_previous r) <? iterations (lr_current r).

(** ** The invariant *)
Record within (p : LoopPolicy) (c : LoopContext) : Prop := {
  wi_ok : ctx_ok c;
  wi_iterations : iterations c ≤ max_iterations p;
  wi_retries : retries c ≤ retry_limit p ∨
    retries c = retry_limit p + 1 ∧ lc_state c = failure_exhaustion_state p;
  wi_budget : lc_state c ∈ [READY; RUNNING] → budget_used c ≤ max_budget_units p
}.

Lemma moved_ok c st i r b :
  ctx_ok c → 0 ≤ i → 0 ≤ r → 0 ≤ b → ctx_ok (moved c st i r b).
Proof. intros []. by split. Qed.

Ltac step_cases H :=
  destruct H as [Hh|st' d' reason Hh Hdir|Hl He|Hst He|Hh Ho Hdl|Hl Ho Hdl Hle|Hh Ho Hdl Hle Hm
    |Hh Hw Hdl Hle Hm Hi|st' d' reason Hin Hp|Hin Hst He|Hin Hst He Hr|Hin Hst He Hr|Hin Hp Hnw].

Lemma exhaustion_halted p : policy_ok p → failure_exhaustion_state p ∈ HALTED.
Proof. intros [_ _ _ [-> | ->]]; by_decide. Qed.

(** A state that is not halted has not exhausted its retries. *)
Lemma within_live p c : policy_ok p → within p c → lc_state c ∉ HALTED → retries c ≤ retry_limit p.
Proof.
  intros Hp [_ _ [H|[_ H]] _] Hlive; [done|]. destruct Hlive. rewrite H. by apply exhaustion_halted.
Qed.

(** What a step does to a context, whatever its rule. *)
Lemma step_effect p c e now d r :
  ctx_ok c → opt_nonneg now → 0 ≤ d → loop_step p c e now (budget_used c + d) r →
  lr_previous r = c ∧ ctx_ok (lr_current r) ∧
  deadline_at (lr_current r) = deadline_at c ∧ lease_expires_at (lr_current r) = lease_expires_at c ∧
  budget_used (lr_current r) = budget_used c + (if lr_accepted r then d else 0) ∧
  iterations (lr_current r) = iterations c + (if worked r then 1 else 0).
Proof.
  intros Hc Hn Hd Hs. destruct Hc as [Hi0 Hr0 Hb0 Hd0 Hl0].
  step_cases Hs; (split; [done|]); (split; [try (by split); apply moved_ok; try (by split); lia|]);
    (do 2 (split; [done|])); cbn; unfold worked; cbn;
    (split; [lia|]); repeat case_match; try lia; bool_facts; lia.
Qed.

Lemma directive_halts e st d reason : directive e = Some (st, d, reason) → st ∈ HALTED.
Proof. destruct e; intros [= <- <- <-]; by_decide. Qed.

Lemma not_busy st : st ∈ HALTED ∨ st = CHECKPOINTED → st ∉ [READY; RUNNING].
Proof. destruct st; by_decide. Qed.

Lemma within_step p c e now d r :
  policy_ok p → within p c → opt_nonneg now → 0 ≤ d →
  loop_step p c e now (budget_used c + d) r → within p (lr_current r).
Proof.
  intros Hpol Hwi Hnow Hd Hs. pose proof (wi_iterations p c Hwi) as Hi0.
  destruct (step_effect p c e now d r (wi_ok p c Hwi) Hnow Hd Hs) as (_ & Hok & _).
  pose proof (within_live p c Hpol Hwi) as Hlive. pose proof (ok_retry_limit p Hpol).
  split; [done| | |]; step_cases Hs; cbn in *; try (by apply Hwi);
    try (pose proof (lim_live _ _ _ _ _ Hin)); try lia; try (left; first [by apply Hlive|lia]);
    try (pose proof (lim_budget _ _ _ _ _ Hin); by intros _);
    try (by intros []%not_busy; first [right; done|left; by_decide]).
  1-3: assert (iterations c < max_iterations p) by (apply (lim_iterations _ _ _ _ _ Hin); subst; by_decide); lia.
  1-2: by left; apply Hlive, leased_live.
  - right. split; [|done]. specialize (Hlive H0). lia.
  - intros []%not_busy. left. by eapply directive_halts.
Qed.

(** ** Runs keep the invariant *)
Definition work_done (rs : list LoopResult) : Z := Z.of_nat (length (List.filter worked rs)).

Lemma work_done_cons r rs : work_done (r :: rs) = (if worked r then 1 else 0) + work_done rs.
Proof. unfold work_done. cbn. destruct (worked r); cbn [length]; lia. Qed.

Lemma final_cons c r rs : final c (r :: rs) = final (lr_current r) rs.
Proof. unfold final. rewrite last_cons. by destruct (last rs). Qed.

Lemma advance_within p c x :
  policy_ok p → within p c → input_ok x →
  ∃ r, advance_loop c (in_event x) p (in_now x) (in_delta x) = Ok r ∧
    loop_step p c (in_event x) (in_now x) (budget_used c + in_delta x) r ∧ within p (lr_current r).
Proof.
  intros Hp Hw [Hn Hd].
  destruct (advance_steps p c (in_event x) (in_now x) (in_delta x) (wi_ok p c Hw) Hn Hd) as (r & Hr & Hs).
  eauto using within_step.
Qed.

Lemma run_within p c xs :
  policy_ok p → within p c → Forall input_ok xs →
  ∃ rs, run_loop p c xs = Ok rs ∧ length rs = length xs ∧ within p (final c rs) ∧
    iterations (final c rs) = iterations c + work_done rs ∧
    deadline_at (final c rs) = deadline_at c ∧ lease_expires_at (final c rs) = lease_expires_at c.
Proof.
  intros Hp Hw Hxs. revert c Hw. induction Hxs as [|x xs Hx Hxs IH]; intros c Hw.
  { exists []. change (work_done []) with 0. repeat (split; [done|]). split; [cbn; lia|done]. }
  destruct (advance_within p c x Hp Hw Hx) as (r & Hr & Hs & Hw'). destruct Hx as [Hn Hd].
  destruct (step_effect _ _ _ _ _ _ (wi_ok p c Hw) Hn Hd Hs) as (_ & _ & Hdl & Hle & _ & Hi).
  destruct (IH _ Hw') as (rs & Hrun & Hlen & Hfin & Hit & Hdl' & Hle').
  exists (r :: rs). cbn [run_loop]. rewrite Hr. cbn [mbind result_bind]. rewrite Hrun.
  rewrite final_cons, work_done_cons. cbn [length mbind result_bind].
  repeat (split; [first [done|congruence|lia]|]). congruence.
Qed.

(** Work is only done below the limit, from whatever context. *)
Lemma step_below p c e now b r :
  loop_step p c e now b r → worked r = true → iterations c < max_iterations p.
Proof.
  intros Hs. unfold worked. step_cases Hs; cbn; intros Hlt%Z.ltb_lt; try lia;
    apply (lim_iterations _ _ _ _ _ Hin); subst; by_decide.
Qed.

Lemma run_below p c xs rs : ctx_ok c → Forall input_ok xs → run_loop p c xs = Ok rs →
  iterations (final c rs) = iterations c + work_done rs ∧
  work_done rs ≤ Z.max 0 (max_iterations p - iterations c).
Proof.
  intros Hc Hxs. revert c rs Hc. induction Hxs as [|x xs [Hn Hd] _ IH]; intros c rs Hc; cbn [run_loop].
  { intros [= <-]. change (work_done []) with 0. cbn. lia. }
  destruct (advance_steps p c (in_event x) (in_now x) (in_delta x) Hc Hn Hd) as (r & Hr & Hs).
  rewrite Hr. cbn [mbind result_bind]. intros (rs' & Hrs & [= <-])%result_bind_ok.
  destruct (step_effect _ _ _ _ _ _ Hc Hn Hd Hs) as (_ & Hc' & _ & _ & _ & Hi).
  destruct (IH _ _ Hc' Hrs) as [Hit Hw]. rewrite final_cons, work_done_cons.
  pose proof (step_below _ _ _ _ _ _ Hs) as Hb. destruct (worked r); [specialize (Hb eq_refl)|]; lia.
Qed.

(** A context nothing has happened to. *)
Record fresh (c : LoopContext) : Prop := {
  fr_ok : ctx_ok c;
  fr_state : lc_state c = CREATED;
  fr_counts : iterations c = 0 ∧ retries c = 0
}.

Lemma fresh_within p c : policy_ok p → fresh c → within p c.
Proof.
  intros [] [? Hst [Hi Hr]]. split; [done|lia|left; lia|]. rewrite Hst. intros Hb. contradict Hb. by_decide.
Qed.

(** ** Properties *)

(** C37. A step never fails on well-formed data, and it is exactly the step of
    the transition relation [loop_step]: the order of the tests (halted state,
    directive events, deadline, lease, budget, iterations, transition) is the
    priority of its rules, and there is one rule for each situation. *)
Theorem advance_exact p c e now d :
  ctx_ok c → opt_nonneg now → 0 ≤ d →
  (∃ r, advance_loop c e p now d = Ok r ∧ ctx_ok (lr_current r)) ∧
  ∀ r, advance_loop c e p now d = Ok r ↔ loop_step p c e now (budget_used c + d) r.
Proof.
  intros Hc Hn Hd. destruct (advance_steps p c e now d Hc Hn Hd) as (r & Hr & Hs). split.
  - exists r. split; [done|]. by apply (step_effect p c e now d r).
  - intros r'. split; [|by apply step_advance]. intros Hr'. congruence.
Qed.

(** C36. Runs are bounded: from a fresh context, under a valid policy, every
    sequence of events is processed without an exception, and whatever it is,
    at most [max_iterations] steps of work are done, the retries exceed the
    limit by at most the failure that exhausts them, and a loop that is ready
    or running has not exceeded its budget. *)
Theorem loop_run_bounded p c xs :
  policy_ok p → fresh c → Forall input_ok xs →
  ∃ rs, run_loop p c xs = Ok rs ∧ length rs = length xs ∧
    work_done rs ≤ max_iterations p ∧ retries (final c rs) ≤ retry_limit p + 1 ∧
    (lc_state (final c rs) ∈ [READY; RUNNING] → budget_used (final c rs) ≤ max_budget_units p).
Proof.
  intros Hp Hf Hxs. pose proof (fresh_within p c Hp Hf) as Hw.
  destruct (run_within p c xs Hp Hw Hxs) as (rs & Hrun & Hlen & [_ Hi Hr Hb] & Hit & _).
  destruct Hf as [_ _ [H0 _]]. exists rs. repeat (split; [first [done|lia]|]). exact Hb.
Qed.

(** Halted states are final: every event is rejected and nothing changes. *)
Theorem halted_absorbing p c xs :
  lc_state c ∈ HALTED → Forall input_ok xs →
  run_loop p c xs = Ok (map (λ x, _reject c (in_event x) "HALTED_STATE") xs).
Proof.
  intros Hh Hxs. induction Hxs as [|x xs [Hn Hd] Hxs IH]; [done|]. cbn [run_loop map].
  assert (advance_loop c (in_event x) p (in_now x) (in_delta x)
    = Ok (_reject c (in_event x) "HALTED_STATE")) as ->.
  { unfold advance_loop.
    rewrite (proj2 (opt_non_negative_ok _ _)), (proj2 (non_negative_ok _ _)) by assumption.
    by rewrite (bool_decide_eq_true_2 _ Hh). }
  cbn [mbind result_bind]. change (lr_current _) with c. by rewrite IH.
Qed.

(** Work either is done and leaves the loop running, or ends the running state;
    without a running loop no work is done. *)
Lemma work_step p c e now d r :
  e ∈ [STEP_SUCCEEDED; STEP_FAILED] →
  loop_step p c e now (budget_used c + d) r → lc_state (lr_current r) = RUNNING →
  lc_state c = RUNNING ∧ iterations (lr_current r) = iterations c + 1.
Proof.
  intros Hev Hs. rewrite !elem_of_cons, elem_of_nil in Hev.
  assert (directive e = None ∧ plain_move (lc_state c) e = None) as [Hde Hpl].
  { destruct Hev as [->|[->|[]]]; split; try done; by destruct (lc_state c). }
  step_cases Hs; cbn; try done; try congruence; intros Hrun.
  - rewrite Hrun in Hh. contradict Hh. by_decide.
  - destruct (Hnw Hrun). naive_solver.
Qed.

(** C38. Work alone stops: fed only results of steps, more of them than the
    iterations left, the loop is no longer running. *)
Theorem work_terminates p c xs :
  policy_ok p → within p c → Forall input_ok xs →
  Forall (λ x, in_event x ∈ [STEP_SUCCEEDED; STEP_FAILED]) xs →
  max_iterations p - iterations c < Z.of_nat (length xs) →
  ∃ rs, run_loop p c xs = Ok rs ∧ lc_state (final c rs) ≠ RUNNING.
Proof.
  intros Hp Hw Hxs Hev Hlen.
  assert (∃ rs, run_loop p c xs = Ok rs ∧ iterations (final c rs) ≤ max_iterations p ∧
    (lc_state (final c rs) = RUNNING → lc_state c = RUNNING ∧
      iterations (final c rs) = iterations c + Z.of_nat (length xs))) as (rs & Hrun & Hmax & Hit).
  2: { exists rs. split; [done|]. intros Hst. apply Hit in Hst as [_ Hst]. lia. }
  clear Hlen. revert c Hw. induction Hxs as [|x xs Hx Hxs IH]; intros c Hw.
  { exists []. cbn. split; [done|]. split; [apply Hw|]. intros Hst. split; [done|lia]. }
  apply Forall_cons in Hev as [He Hev].
  destruct (advance_within p c x Hp Hw Hx) as (r & Hr & Hs & Hw').
  destruct (IH Hev _ Hw') as (rs & Hrun & Hmax & Hit).
  exists (r :: rs). cbn [run_loop]. rewrite Hr. cbn [mbind result_bind]. rewrite Hrun, final_cons.
  split; [done|]. split; [done|]. intros Hst. destruct (Hit Hst) as [Hst' ->].
  destruct (work_step p c _ _ _ r He Hs Hst') as [? ->]. cbn [length]. split; [done|lia].
Qed.

(** Without a clock only the budget and the iterations limit a step. *)
Lemma unclocked p c e b :
  lc_state c ∉ HALTED → directive e = None ∧ e ≠ LEASE_EXPIRED → b ≤ max_budget_units p →
  iterations c < max_iterations p → in_limits p c e None b.
Proof.
  intros Hh Ho Hb Hi. split; try done; [by destruct (deadline_at c)|by destruct (lease_expires_at c)].
Qed.

(** But the number of events is not bounded: checkpoints and resumptions
    count as no iteration, so a running loop with work left can alternate between
    them for ever, every event accepted and nothing changed. *)
Theorem checkpoint_cycle p c n :
  policy_ok p → within p c → lc_state c = RUNNING → iterations c < max_iterations p →
  ∃ rs, run_loop p c (concat (replicate n
      [{| in_event := CHECKPOINT; in_now := None; in_delta := 0 |};
       {| in_event := STARTED; in_now := None; in_delta := 0 |}])) = Ok rs ∧
    length rs = (2 * n)%nat ∧ forallb lr_accepted rs = true ∧ final c rs = c.
Proof.
  intros Hp Hw Hst Hi. induction n as [|n (rs & Hrun & Hlen & Hacc & Hfin)].
  { by exists []. }
  assert (Hb : budget_used c ≤ max_budget_units p).
  { apply (wi_budget p c Hw). rewrite Hst. by_decide. }
  set (c1 := keep c (budget_used c + 0) CHECKPOINTED).
  pose proof (wi_ok p c Hw) as Hc. pose proof (ok_budget c Hc).
  assert (Hc1 : ctx_ok c1) by (destruct Hc; split; cbn; try done; lia).
  assert (E1 : advance_loop c CHECKPOINT p None 0 = Ok (accept c CHECKPOINT c1 D_CHECKPOINT "CHECKPOINTED")).
  { apply step_advance; [done|done|done|]. eapply step_plain; [|by rewrite Hst].
    apply unclocked; [rewrite Hst|..|lia|done]; by_decide. }
  assert (E2 : advance_loop c1 STARTED p None 0
    = Ok (accept c1 STARTED (keep c1 (budget_used c1 + 0) RUNNING) D_CONTINUE "LOOP_RESUMED")).
  { apply step_advance; [done|done|done|]. eapply step_plain; [|done].
    apply unclocked; [by_decide..|cbn; lia|done]. }
  assert (Ec : keep c1 (budget_used c1 + 0) RUNNING = c).
  { unfold c1, keep, moved. cbn. rewrite !Z.add_0_r. rewrite <-Hst. by destruct c. }
  rewrite Ec in E2. cbn [replicate concat app run_loop in_event in_now in_delta].
  rewrite E1. cbn [mbind result_bind lr_current accept]. rewrite E2.
  cbn [mbind result_bind lr_current accept]. rewrite Hrun. cbn [mbind result_bind].
  eexists. split; [reflexivity|]. rewrite !final_cons. cbn [length forallb lr_accepted accept lr_current].
  split; [lia|]. split; [by rewrite Hacc|done].
Qed.

(** An expired lease is for ever: no event renews [lease_expires_at], so once
    the clock has reached it, a loop that is not running never runs again - a
    resumption ([STARTED]) checkpoints instead. *)
Theorem expired_lease_never_runs p c l xs :
  policy_ok p → within p c → lease_expires_at c = Some l → lc_state c ≠ RUNNING →
  Forall (λ x, input_ok x ∧ ∃ n, in_now x = Some n ∧ l ≤ n) xs →
  ∃ rs, run_loop p c xs = Ok rs ∧ Forall (λ r, lc_state (lr_current r) ≠ RUNNING) rs.
Proof.
  intros Hp Hw Hl Hst Hxs. revert c Hw Hl Hst.
  induction Hxs as [|x xs [Hx (n & Hn & Hln)] Hxs IH]; intros c Hw Hl Hst; [by exists []|].
  destruct (advance_within p c x Hp Hw Hx) as (r & Hr & Hs & Hw'). pose proof Hx as [Hn0 Hd].
  destruct (step_effect _ _ _ _ _ _ (wi_ok p c Hw) Hn0 Hd Hs) as (_ & _ & _ & Hle & _ & _).
  assert (Hst' : lc_state (lr_current r) ≠ RUNNING).
  { rewrite Hn in Hs. assert (Hrl : reached (lease_expires_at c) (Some n) = true).
    { rewrite Hl. by apply Z.leb_le. }
    clear Hr Hw' Hle. remember (in_event x) as e. remember (budget_used c + in_delta x) as b.
    destruct Hs as [|st d reason _ Hdir| | | | | | |st d reason Hin Hp'| | | |]; cbn; try done.
    - apply directive_halts in Hdir. intros ->. contradict Hdir. by_decide.
    - pose proof (lim_lease _ _ _ _ _ Hin Hrl) as Hnl. intros ->.
      destruct (lc_state c), e; try done; contradict Hnl; by_decide. }
  rewrite Hl in Hle. destruct (IH _ Hw' Hle Hst') as (rs & Hrun & Hall).
  exists (r :: rs). cbn [run_loop]. rewrite Hr. cbn [mbind result_bind]. rewrite Hrun.
  split; [done|]. by constructor.
Qed.

Lemma registered_profiles : registered_loop_policy_profiles = [DEFAULT_LOOP_POLICY_PROFILE].
Proof. vm_compute. reflexivity. Qed.

Lemma profile_lookup name p :
  _PROFILES !! name = Some p ↔ name ∈ registered_loop_policy_profiles ∧ p = default_bounded.
Proof.
  unfold _PROFILES.
  rewrite registered_profiles, lookup_singleton_Some, list_elem_of_singleton.
  split; intros [Hx Hy]; (split; [by symmetry|by symmetry]).
Qed.

#[local] Opaque registered_loop_policy_profiles _PROFILES.

(** Limits come from registered profiles only: a payload gives a policy
    exactly when it is a mapping that sets no limit itself and names a registered
    profile; the policy is then that profile's, and it is valid. *)
Theorem policy_registered payload p :
  resolve_loop_policy_from_payload payload = Ok p ↔
  ∃ d name, payload = JObj d ∧ (∀ f, f ∈ FORBIDDEN_LIMIT_FIELDS → f ∉ d.*1) ∧
    dict_get d "policy_profile" = Some (JStr name) ∧ name ∈ registered_loop_policy_profiles ∧
    p = default_bounded ∧ policy_ok p.
Proof.
  assert (Hok : policy_ok default_bounded) by (split; cbn; auto; lia).
  pose proof registered_profiles as Hreg. pose proof (λ name, profile_lookup name p) as Hprof.
  unfold resolve_loop_policy_from_payload. destruct payload as [| | | | | |d];
    [split; [discriminate|by intros (? & ? & [=] & _)]..|].
  destruct (sort_strs (List.filter (has_key d) FORBIDDEN_LIMIT_FIELDS)) as [|f fs] eqn:Ef.
  - assert (Hno : ∀ f, f ∈ FORBIDDEN_LIMIT_FIELDS → f ∉ d.*1).
    { intros f Hf Hd. cut (f ∈ []); [by intros []%elem_of_nil|].
      rewrite <-Ef. unfold sort_strs. rewrite sort_by_perm, filter_elem. split; [exact Hf|].
      apply bool_decide_eq_true. exact Hd. }
    rewrite some_bind_ok. split.
    + intros (x & Hx & H). destruct x as [| | | |name| |]; 
        [discriminate H|discriminate H|discriminate H|discriminate H| |discriminate H|discriminate H].
      cbn in H.
      rewrite seq_ok, some_or_ok, Hprof in H. destruct H as [_ [Hr ->]].
      exists d, name. do 4 (split; [reflexivity || assumption|]). split; [reflexivity|exact Hok].
    + intros (d' & name & [= <-] & _ & Hx & Hr & -> & _). exists (JStr name).
      split; [exact Hx|]. cbn. rewrite seq_ok, raise_if_ok, some_or_ok, Hprof.
      split; [|split; [exact Hr|reflexivity]].
      rewrite Hreg in Hr. apply list_elem_of_singleton in Hr as ->. reflexivity.
  - split; [intros H; inversion H|]. intros (d' & name & [= <-] & Hno & _). exfalso.
    assert (Hf : f ∈ List.filter (has_key d) FORBIDDEN_LIMIT_FIELDS).
    { rewrite <-(sort_by_perm str_leb (List.filter _ _)). unfold sort_strs in Ef. rewrite Ef. by left. }
    apply filter_elem in Hf as [Hf Hd]. apply (Hno f Hf). by apply bool_decide_eq_true in Hd.
Qed.

(** ** Witnesses *)
Definition at_time (e : LoopEvent) (t : Z) : input :=
  {| in_event := e; in_now := Some t; in_delta := 1 |}.

Definition demo_running : LoopContext :=
  {| lc_state := RUNNING; iterations := 9; retries := 0; budget_used := 5; deadline_at := Some 100;
     lease_expires_at := Some 50 |}.

Lemma default_ok : policy_ok default_bounded.
Proof. exact (proj1 (proj1 (new_policy_ok _ _) (eq_refl : new_LoopPolicy default_bounded = _))). Qed.

Lemma default_fresh : fresh default_context.
Proof. split; [|done|done]. exact (proj1 (proj1 (new_context_ok _ _) (eq_refl : new_LoopContext default_context = _))). Qed.

Lemma demo_running_ok : ctx_ok demo_running.
Proof. exact (proj1 (proj1 (new_context_ok _ _) (eq_refl : new_LoopContext demo_running = _))). Qed.

Lemma demo_running_within : within default_bounded demo_running.
Proof. split; [exact demo_running_ok|cbn; lia|left; cbn; lia|cbn; lia]. Qed.

Lemma at_time_ok e t : 0 ≤ t → input_ok (at_time e t).
Proof. intros. split; [intros ? [= <-]; lia|cbn; lia]. Qed.

Lemma advance_exact_witness :
  ∃ r, advance_loop demo_running STEP_FAILED default_bounded (Some 10) 1 = Ok r ∧
    loop_step default_bounded demo_running STEP_FAILED (Some 10) 6 r ∧
    lr_reason r = "STEP_FAILED_RETRY".
Proof.
  eexists. split; [vm_compute; reflexivity|]. split; [|reflexivity].
  assert (Hn : opt_nonneg (Some 10)) by (intros ? [= <-]; lia).
  apply (advance_exact default_bounded demo_running STEP_FAILED (Some 10) 1 demo_running_ok Hn
    ltac:(lia)).
  vm_compute. reflexivity.
Defined.

Lemma loop_run_bounded_witness :
  ∃ rs, run_loop default_bounded default_context
      [at_time PREPARED 1; at_time STARTED 2; at_time STEP_SUCCEEDED 3; at_time COMPLETE 4] = Ok rs ∧
    map lr_accepted rs = [true; true; true; true] ∧ work_done rs ≤ 10.
Proof.
  destruct (loop_run_bounded default_bounded default_context
    [at_time PREPARED 1; at_time STARTED 2; at_time STEP_SUCCEEDED 3; at_time COMPLETE 4]
    default_ok default_fresh) as (rs & Hrun & _ & Hw & _).
  { repeat constructor; cbn; try lia; intros ? [= <-]; lia. }
  exists rs. split; [exact Hrun|]. split; [|exact Hw].
  vm_compute in Hrun. injection Hrun as <-. reflexivity.
Defined.

Lemma halted_absorbing_witness :
  run_loop default_bounded (moved demo_running DONE 9 0 5) [at_time STARTED 1]
  = Ok [_reject (moved demo_running DONE 9 0 5) STARTED "HALTED_STATE"].
Proof.
  apply (halted_absorbing default_bounded (moved demo_running DONE 9 0 5) [at_time STARTED 1]).
  - by_decide.
  - repeat constructor; cbn; try lia. intros ? [= <-]; lia.
Defined.

Lemma work_terminates_witness :
  ∃ rs, run_loop default_bounded demo_running [at_time STEP_SUCCEEDED 1; at_time STEP_SUCCEEDED 2]
    = Ok rs ∧ lc_state (final demo_running rs) ≠ RUNNING.
Proof.
  apply (work_terminates default_bounded demo_running
    [at_time STEP_SUCCEEDED 1; at_time STEP_SUCCEEDED 2] default_ok demo_running_within).
  - repeat constructor; cbn; try lia; intros ? [= <-]; lia.
  - repeat constructor; by_decide.
  - cbn. lia.
Defined.

Lemma checkpoint_cycle_witness :
  ∃ rs, run_loop default_bounded demo_running (concat (replicate 3
      [{| in_event := CHECKPOINT; in_now := None; in_delta := 0 |};
       {| in_event := STARTED; in_now := None; in_delta := 0 |}])) = Ok rs ∧
    length rs = 6%nat ∧ final demo_running rs = demo_running.
Proof.
  destruct (checkpoint_cycle default_bounded demo_running 3 default_ok demo_running_within eq_refl)
    as (rs & Hrun & Hlen & _ & Hfin); [cbn; lia|].
  exists rs. split; [exact Hrun|]. split; [exact Hlen|exact Hfin].
Defined.

Lemma expired_lease_never_runs_witness :
  ∃ rs, run_loop default_bounded (moved demo_running CHECKPOINTED 9 0 5)
      [at_time STARTED 50; at_time STARTED 60] = Ok rs ∧
    map lr_reason rs = ["LEASE_EXPIRED"; "LEASE_EXPIRED"] ∧
    Forall (λ r, lc_state (lr_current r) ≠ RUNNING) rs.
Proof.
  destruct (expired_lease_never_runs default_bounded (moved demo_running CHECKPOINTED 9 0 5) 50
    [at_time STARTED 50; at_time STARTED 60] default_ok) as (rs & Hrun & Hall).
  - split; [by apply moved_ok; [exact demo_running_ok|..]|cbn; lia|left; cbn; lia|].
    intros H. contradict H. by_decide.
  - reflexivity.
  - discriminate.
  - repeat constructor; cbn; try lia; try (intros ? [= <-]; lia); eexists; (split; [reflexivity|lia]).
  - exists rs. split; [exact Hrun|]. split; [|exact Hall].
    vm_compute in Hrun. injection Hrun as <-. reflexivity.
Defined.
