(* ===== verification/LoopStore.v ===== *)
(** * The loop state store

    [src/core/loop_state_store.py]: runs of the loop controller persisted in
    SQLite, one row per run and one per event, with optimistic versions and
    hashed canonical contexts.  A database holds whatever text its rows hold;
    that the store's own rows always read back is a theorem. *)

From S2P Require Import Prelude.
From S2P Require Import PyStr.
From S2P Require Import Json.
From S2P Require Import Sha256.
From S2P Require Import Loop.

(** ** Enumerations as text *)
Definition state_value (s : LoopState) : string :=
  match s with
  | CREATED => "CREATED" | READY => "READY" | RUNNING => "RUNNING"
  | CHECKPOINTED => "CHECKPOINTED" | NEEDS_OPERATOR => "NEEDS_OPERATOR"
  | HUMAN_REVIEW => "HUMAN_REVIEW" | BLOCKED => "BLOCKED" | CANCELLED => "CANCELLED"
  | DONE => "DONE"
  end.

Definition event_value (e : LoopEvent) : string :=
  match e with
  | PREPARED => "PREPARED" | STARTED => "STARTED" | STEP_SUCCEEDED => "STEP_SUCCEEDED"
  | STEP_FAILED => "STEP_FAILED" | CHECKPOINT => "CHECKPOINT"
  | REVIEW_REQUIRED => "REVIEW_REQUIRED" | OPERATOR_REQUIRED => "OPERATOR_REQUIRED"
  | CANCEL => "CANCEL" | COMPLETE => "COMPLETE" | TIMEOUT => "TIMEOUT"
  | BUDGET_EXHAUSTED => "BUDGET_EXHAUSTED" | LEASE_EXPIRED => "LEASE_EXPIRED"
  end.

Definition decision_value (d : LoopDecision) : string :=
  match d with
  | D_CONTINUE => "CONTINUE" | D_RETRY => "RETRY" | D_CHECKPOINT => "CHECKPOINT"
  | D_REVIEW => "REVIEW" | D_ESCALATE => "ESCALATE" | D_STOP => "STOP" | D_REJECT => "REJECT"
  end.

Definition all_states : list LoopState :=
  [CREATED; READY; RUNNING; CHECKPOINTED; NEEDS_OPERATOR; HUMAN_REVIEW; BLOCKED; CANCELLED; DONE].
Definition all_events : list LoopEvent :=
  [PREPARED; STARTED; STEP_SUCCEEDED; STEP_FAILED; CHECKPOINT; REVIEW_REQUIRED; OPERATOR_REQUIRED;
   CANCEL; COMPLETE; TIMEOUT; BUDGET_EXHAUSTED; LEASE_EXPIRED].
Definition all_decisions : list LoopDecision :=
  [D_CONTINUE; D_RETRY; D_CHECKPOINT; D_REVIEW; D_ESCALATE; D_STOP; D_REJECT].

(** [LoopState(text)] and the like: the member with that value, if any. *)
Definition state_of (s : string) : option LoopState := List.find (λ x, state_value x == s) all_states.
Definition event_of (s : string) : option LoopEvent := List.find (λ x, event_value x == s) all_events.
Definition decision_of (s : string) : option LoopDecision :=
  List.find (λ x, decision_value x == s) all_decisions.

(** ** Tokens *)
Definition _SAFE_TOKEN_RE : string → bool :=
  bounded_token (UPPER +:+ LOWER +:+ DIGITS) (UPPER +:+ LOWER +:+ DIGITS +:+ "._:-") 127.
Definition _SAFE_REASON_RE : string → bool := bounded_token UPPER (UPPER +:+ DIGITS +:+ "_") 63.

Definition _safe_token (value name : string) : result string :=
  raise_if (negb (_SAFE_TOKEN_RE value)) (ValueError (name +:+ " must be a bounded public-safe token"));;
  Ok value.

(** ** Contexts as text *)
Definition jint_opt (o : option Z) : json := match o with None => JNull | Some z => JInt z end.

Definition context_payload (c : LoopContext) : json :=
  JObj [("budget_used", JInt (budget_used c)); ("deadline_at", jint_opt (deadline_at c));
        ("iterations", JInt (iterations c)); ("lease_expires_at", jint_opt (lease_expires_at c));
        ("retries", JInt (retries c)); ("state", JStr (state_value (lc_state c)))].

Definition context_ints (c : LoopContext) : list Z :=
  [budget_used c; iterations c; retries c] ++ option_list (deadline_at c)
  ++ option_list (lease_expires_at c).

Definition context_text (c : LoopContext) : string := dumps_canonical (context_payload c).

Definition _encode_context (c : LoopContext) : result (string * string) :=
  raise_if (existsb too_long (context_ints c))
    (ValueError "Exceeds the limit (4300 digits) for integer string conversion");;
  Ok (context_text c, text_hash (context_text c)).

Definition CONTEXT_FIELDS : list string :=
  ["budget_used"; "deadline_at"; "iterations"; "lease_expires_at"; "retries"; "state"].

(** A field of the payload as [LoopContext] accepts it. *)
Definition int_field (v : json) : option Z :=
  match v with
  | JInt z => if too_long z || (z <? 0) then None else Some z
  | _ => None
  end.
Definition opt_int_field (v : json) : option (option Z) :=
  match v with JNull => Some None | v => Some <$> int_field v end.
Definition state_field (v : json) : option LoopState :=
  match v with JStr s => state_of s | _ => None end.

(** [LoopContext(state=LoopState(payload["state"]), ...)]; [None] where it
    raises a [ValueError]. *)
Definition context_of_payload (d : list (string * json)) : option LoopContext :=
  state ← dict_get d "state" ≫= state_field;
  iters ← dict_get d "iterations" ≫= int_field;
  retrs ← dict_get d "retries" ≫= int_field;
  budget ← dict_get d "budget_used" ≫= int_field;
  deadline ← dict_get d "deadline_at" ≫= opt_int_field;
  lease ← dict_get d "lease_expires_at" ≫= opt_int_field;
  Some {| lc_state := state; iterations := iters; retries := retrs; budget_used := budget;
          deadline_at := deadline; lease_expires_at := lease |}.

Definition _decode_context (encoded expected_hash : string) : result LoopContext :=
  raise_if (text_hash encoded != expected_hash)
    (LoopStateCorruptionError "loop context hash mismatch");;
  context ← some_or
    (match loads encoded with
     | Some (JObj d) =>
         if list_to_set d.*1 == (list_to_set CONTEXT_FIELDS : gset string)
         then context_of_payload d else None
     | _ => None
     end) (LoopStateCorruptionError "invalid stored loop context");
  '(canonical, canonical_hash) ← _encode_context context;
  raise_if ((canonical != encoded) || (canonical_hash != expected_hash))
    (LoopStateCorruptionError "non-canonical stored loop context");;
  Ok context.

(** ** Rows *)
Record run_row := {
  rr_task_id : string;
  rr_version : Z;
  rr_context_json : string;
  rr_context_hash : string;
  rr_updated_at : Z
}.

Record event_row := {
  er_run_id : string;
  er_version : Z;
  er_event : string;
  er_accepted : Z;
  er_decision : string;
  er_reason : string;
  er_previous_json : string;
  er_previous_hash : string;
  er_current_json : string;
  er_current_hash : string;
  er_recorded_at : Z
}.

(** Tables [loop_runs], by their primary key, and [loop_events], in insertion
    order. *)
Record LoopStateStore := {
  loop_runs : gmap string run_row;
  loop_events : list event_row
}.

Definition empty_store : LoopStateStore := {| loop_runs := ∅; loop_events := [] |}.

Record StoredLoopRun := {
  sr_run_id : string;
  sr_task_id : string;
  sr_version : Z;
  sr_context : LoopContext;
  sr_context_hash : string;
  sr_updated_at : Z
}.

Record StoredLoopEvent := {
  se_run_id : string;
  se_version : Z;
  se_event : LoopEvent;
  se_accepted : bool;
  se_decision : LoopDecision;
  se_reason : string;
  se_previous : LoopContext;
  se_current : LoopContext;
  se_previous_hash : string;
  se_current_hash : string;
  se_recorded_at : Z
}.

#[global] Instance StoredLoopRun_eq_dec : EqDecision StoredLoopRun.
Proof. solve_decision. Defined.

Definition corrupt (message : string) : exn := LoopStateCorruptionError message.

Definition _stored_non_negative_int (value : Z) (name : string) : result Z :=
  raise_if (value <? 0) (corrupt ("invalid stored " +:+ name));; Ok value.
Definition _stored_positive_int (value : Z) (name : string) : result Z :=
  raise_if (value <=? 0) (corrupt ("invalid stored " +:+ name));; Ok value.

Definition _run_from_row (run_id : string) (row : option run_row) : result StoredLoopRun :=
  row ← some_or row (corrupt "loop run read-back missing");
  context ← _decode_context (rr_context_json row) (rr_context_hash row);
  run_id ← _safe_token run_id "run_id";
  task_id ← _safe_token (rr_task_id row) "task_id";
  version ← _stored_non_negative_int (rr_version row) "version";
  updated_at ← _stored_non_negative_int (rr_updated_at row) "updated_at";
  Ok {| sr_run_id := run_id; sr_task_id := task_id; sr_version := version; sr_context := context;
        sr_context_hash := rr_context_hash row; sr_updated_at := updated_at |}.

Definition _event_from_row (row : option event_row) : result StoredLoopEvent :=
  row ← some_or row (corrupt "loop event read-back missing");
  previous ← _decode_context (er_previous_json row) (er_previous_hash row);
  current ← _decode_context (er_current_json row) (er_current_hash row);
  event ← some_or (event_of (er_event row)) (corrupt "unsupported stored loop enum");
  decision ← some_or (decision_of (er_decision row)) (corrupt "unsupported stored loop enum");
  raise_if (er_accepted row ∉? [0; 1]) (corrupt "invalid stored accepted flag");;
  raise_if (negb (_SAFE_REASON_RE (er_reason row))) (corrupt "invalid stored loop reason");;
  run_id ← _safe_token (er_run_id row) "run_id";
  version ← _stored_positive_int (er_version row) "version";
  recorded_at ← _stored_non_negative_int (er_recorded_at row) "recorded_at";
  Ok {| se_run_id := run_id; se_version := version; se_event := event;
        se_accepted := er_accepted row != 0; se_decision := decision; se_reason := er_reason row;
        se_previous := previous; se_current := current; se_previous_hash := er_previous_hash row;
        se_current_hash := er_current_hash row; se_recorded_at := recorded_at |}.

(** ** Operations

    The connection is closed at the end of every call, so an exception before
    the commit rolls the transaction back. *)
Definition put_run (run_id : string) (row : run_row) (s : LoopStateStore) : LoopStateStore :=
  {| loop_runs := <[run_id := row]> (loop_runs s); loop_events := loop_events s |}.
Definition add_event (row : event_row) (s : LoopStateStore) : LoopStateStore :=
  {| loop_runs := loop_runs s; loop_events := loop_events s ++ [row] |}.

(** [SELECT * FROM loop_runs WHERE run_id = ?] *)
Definition select_run (run_id : string) : M LoopStateStore (option run_row) :=
  gets (λ s, loop_runs s !! run_id).

(** [SELECT * FROM loop_events WHERE run_id = ? AND version = ?] *)
Definition find_event (run_id : string) (version : Z) (s : LoopStateStore) : option event_row :=
  List.find (λ row, (er_run_id row == run_id) && (er_version row =? version)) (loop_events s).

Definition create_run (run_id task_id : string) (context : LoopContext) (recorded_at : Z)
    : M LoopStateStore StoredLoopRun :=
  run_id ← lift (_safe_token run_id "run_id");
  task_id ← lift (_safe_token task_id "task_id");
  lift (_non_negative recorded_at "recorded_at");;
  '(context_json, context_hash) ← lift (_encode_context context);
  transaction (
    lift (sqlite_int recorded_at);;
    existing ← select_run run_id;
    lift (raise_if (bool_decide (is_Some existing)) (LoopStateConflictError "loop run already exists"));;
    modify (put_run run_id
      {| rr_task_id := task_id; rr_version := 0; rr_context_json := context_json;
         rr_context_hash := context_hash; rr_updated_at := recorded_at |});;
    row ← select_run run_id;
    stored ← lift (_run_from_row run_id row);
    let expected := {| sr_run_id := run_id; sr_task_id := task_id; sr_version := 0;
      sr_context := context; sr_context_hash := context_hash; sr_updated_at := recorded_at |} in
    lift (raise_if (stored != expected) (corrupt "loop run create read-back mismatch"));;
    mret stored).

Definition load_run (run_id : string) : M LoopStateStore StoredLoopRun :=
  run_id ← lift (_safe_token run_id "run_id");
  row ← select_run run_id;
  row ← lift (some_or row (LoopStateStoreError "loop run not found"));
  lift (_run_from_row run_id (Some row)).

Definition _validate_result (result : LoopResult) : Prelude.result unit :=
  raise_if (negb (_SAFE_REASON_RE (lr_reason result)))
    (ValueError "result.reason must be a stable public-safe token");;
  _encode_context (lr_previous result);;
  _encode_context (lr_current result);;
  Ok tt.

(** [INSERT INTO loop_events]: the integers must fit, and [(run_id, version)] is
    unique. *)
Definition insert_event (row : event_row) : M LoopStateStore unit :=
  lift (sqlite_int (er_version row));;
  lift (sqlite_int (er_recorded_at row));;
  existing ← gets (find_event (er_run_id row) (er_version row));
  lift (raise_if (bool_decide (is_Some existing))
    (LoopStateConflictError "loop event version conflict"));;
  modify (add_event row).

(** [UPDATE loop_runs SET ... WHERE run_id = ? AND version = ?], one row or a
    conflict. *)
Definition update_run (run_id : string) (expected_version : Z) (set : run_row → run_row)
    : M LoopStateStore unit :=
  row ← select_run run_id;
  match row with
  | Some row =>
      if rr_version row =? expected_version then modify (put_run run_id (set row))
      else raise (LoopStateConflictError "loop run version conflict")
  | None => raise (LoopStateConflictError "loop run version conflict")
  end.

Definition append_result (run_id : string) (expected_version : Z) (result : LoopResult)
    (recorded_at : Z) : M LoopStateStore StoredLoopRun :=
  run_id ← lift (_safe_token run_id "run_id");
  lift (_non_negative expected_version "expected_version");;
  lift (_non_negative recorded_at "recorded_at");;
  lift (_validate_result result);;
  '(previous_json, previous_hash) ← lift (_encode_context (lr_previous result));
  '(current_json, current_hash) ← lift (_encode_context (lr_current result));
  transaction (
    row ← select_run run_id;
    row ← lift (some_or row (LoopStateStoreError "loop run not found"));
    stored ← lift (_run_from_row run_id (Some row));
    lift (raise_if (sr_version stored != expected_version)
      (LoopStateConflictError "loop run version conflict"));;
    lift (raise_if ((sr_context stored != lr_previous result)
                    || (sr_context_hash stored != previous_hash))
      (LoopStateConflictError "loop result previous context mismatch"));;
    let next_version := expected_version + 1 in
    insert_event
      {| er_run_id := run_id; er_version := next_version;
         er_event := event_value (lr_event result);
         er_accepted := if lr_accepted result then 1 else 0;
         er_decision := decision_value (lr_decision result); er_reason := lr_reason result;
         er_previous_json := previous_json; er_previous_hash := previous_hash;
         er_current_json := current_json; er_current_hash := current_hash;
         er_recorded_at := recorded_at |};;
    update_run run_id expected_version (λ row,
      {| rr_task_id := rr_task_id row; rr_version := next_version;
         rr_context_json := current_json; rr_context_hash := current_hash;
         rr_updated_at := recorded_at |});;
    run_row ← select_run run_id;
    event_row ← gets (find_event run_id next_version);
    current_run ← lift (_run_from_row run_id run_row);
    current_event ← lift (_event_from_row event_row);
    lift (raise_if ((sr_context current_run != lr_current result)
                    || (sr_context_hash current_run != current_hash))
      (corrupt "loop run update read-back mismatch"));;
    lift (raise_if ((se_previous current_event != lr_previous result)
                    || (se_current current_event != lr_current result)
                    || (se_event current_event != lr_event result)
                    || (se_decision current_event != lr_decision result)
                    || (se_accepted current_event != lr_accepted result)
                    || (se_reason current_event != lr_reason result))
      (corrupt "loop event read-back mismatch"));;
    mret current_run).

(** [ORDER BY version] *)
Definition events_of (run_id : string) (s : LoopStateStore) : list event_row :=
  sort_by (λ a b, er_version a <=? er_version b)
    (List.filter (λ row, er_run_id row == run_id) (loop_events s)).

Definition list_events (run_id : string) : M LoopStateStore (list StoredLoopEvent) :=
  run_id ← lift (_safe_token run_id "run_id");
  query (λ s, collect (λ row, _event_from_row (Some row)) (events_of run_id s)).

(** ** Reading back *)
Lemma state_roundtrip s : state_of (state_value s) = Some s.
Proof. by destruct s. Qed.
Lemma event_roundtrip e : event_of (event_value e) = Some e.
Proof. by destruct e. Qed.
Lemma decision_roundtrip d : decision_of (decision_value d) = Some d.
Proof. by destruct d. Qed.

(** A context whose integers Python writes as text. *)
Record storable (c : LoopContext) : Prop := {
  st_ok : ctx_ok c;
  st_short : ∀ z, z ∈ context_ints c → too_long z = false
}.

Lemma encode_ok c p : _encode_context c = Ok p ↔
  (∀ z, z ∈ context_ints c → too_long z = false) ∧ p = (context_text c, text_hash (context_text c)).
Proof.
  unfold _encode_context. rewrite seq_ok, raise_if_ok, existsb_false, Ok_inj. naive_solver.
Qed.

Lemma encode_storable c : storable c → _encode_context c = Ok (context_text c, text_hash (context_text c)).
Proof. intros []. by apply encode_ok. Qed.

Lemma loads_context c : loads (context_text c) = Some (context_payload c).
Proof.
  unfold context_text, dumps_canonical.
  assert (E : sort_keys (context_payload c) = context_payload c).
  { unfold context_payload, jint_opt. by destruct (deadline_at c), (lease_expires_at c). }
  rewrite E. apply loads_dumps_compact. unfold context_payload, jint_opt.
  apply json_wf_obj. repeat constructor; by destruct (deadline_at c), (lease_expires_at c).
Qed.

Lemma int_field_some v z : int_field v = Some z ↔ v = JInt z ∧ too_long z = false ∧ 0 ≤ z.
Proof.
  destruct v; cbn; try (by split; [done|intros [? _]]).
  destruct (too_long z0) eqn:E; cbn; [naive_solver congruence|].
  destruct (Z.ltb_spec z0 0); cbn; naive_solver lia.
Qed.

Lemma opt_int_field_some v o : opt_int_field v = Some o ↔
  v = jint_opt o ∧ ∀ z, o = Some z → too_long z = false ∧ 0 ≤ z.
Proof.
  destruct o as [z|]; cbn.
  - split.
    + destruct v; try done; intros E;
        apply fmap_Some in E as (z' & E & [= <-]); apply int_field_some in E as (-> & ? & ?);
        (split; [done|]); by intros ? [= <-].
    + intros [-> H]. unfold opt_int_field, jint_opt.
      by rewrite (proj2 (int_field_some (JInt z) z)) by auto.
  - split; [|by intros [-> _]].
    destruct v; try done; intros E; by apply fmap_Some in E as (z' & E & [=]).
Qed.

Definition context_fields (c : LoopContext) : list (string * json) :=
  match context_payload c with JObj d => d | _ => [] end.

Lemma context_get c k v : (k, v) ∈ context_fields c → dict_get (context_fields c) k = Some v.
Proof. apply dict_get_nodup. by_decide. Qed.

Lemma context_of_payload_ok c : storable c → context_of_payload (context_fields c) = Some c.
Proof.
  intros [[Hi Hr Hb Hd Hl] Hs]. unfold context_of_payload.
  assert (Hint : ∀ z, z ∈ context_ints c → 0 ≤ z → int_field (JInt z) = Some z)
    by (intros z Hz H0; apply int_field_some; auto).
  assert (Hopt : ∀ o, (∀ z, o = Some z → z ∈ context_ints c) → opt_nonneg o →
    opt_int_field (jint_opt o) = Some o)
    by (intros o Ho Hn; apply opt_int_field_some; split; [done|]; intros z E; auto).
  assert (Hdl : ∀ z, deadline_at c = Some z → z ∈ context_ints c)
    by (intros z E; unfold context_ints; rewrite E; cbn; set_solver).
  assert (Hle : ∀ z, lease_expires_at c = Some z → z ∈ context_ints c).
  { intros z E. unfold context_ints. rewrite E, !elem_of_app. right. right. cbn. set_solver. }
  rewrite (context_get c "state" (JStr (state_value (lc_state c)))) by (cbn; set_solver).
  rewrite (context_get c "iterations" (JInt (iterations c))) by (cbn; set_solver).
  rewrite (context_get c "retries" (JInt (retries c))) by (cbn; set_solver).
  rewrite (context_get c "budget_used" (JInt (budget_used c))) by (cbn; set_solver).
  rewrite (context_get c "deadline_at" (jint_opt (deadline_at c))) by (cbn; set_solver).
  rewrite (context_get c "lease_expires_at" (jint_opt (lease_expires_at c))) by (cbn; set_solver).
  cbn [mbind option_bind state_field]. rewrite state_roundtrip, !Hint, !Hopt by (done || (cbn; set_solver)).
  by destruct c.
Qed.

Lemma context_of_payload_inv d c : context_of_payload d = Some c → storable c.
Proof.
  unfold context_of_payload. intros H.
  repeat match type of H with
  | _ ≫= _ = Some _ => apply bind_Some in H as (? & ?E & H)
  end.
  repeat match goal with
  | H : _ ≫= int_field = Some _ |- _ => apply bind_Some in H as (? & _ & H); apply int_field_some in H as (_ & ? & ?)
  | H : _ ≫= opt_int_field = Some _ |- _ => apply bind_Some in H as (? & _ & H); apply opt_int_field_some in H as (_ & ?)
  end.
  injection H as <-. split.
  - split; cbn; try done; intros z Hz; naive_solver.
  - intros z. unfold context_ints. cbn.
    repeat match goal with o : option Z |- _ => destruct o end; cbn; set_solver.
Qed.

(** Decoding inverts encoding, and accepts nothing else. *)
Lemma decode_ok text h c :
  _decode_context text h = Ok c ↔ storable c ∧ text = context_text c ∧ h = text_hash text.
Proof.
  unfold _decode_context. rewrite seq_ok, raise_if_ok, negb_false_iff, bool_decide_eq_true, some_bind_ok.
  split.
  - intros (Hh & c' & Hc & H). destruct (loads text) as [[| | | | | |d]|]; try done.
    case_bool_decide; [|done]. apply context_of_payload_inv in Hc.
    rewrite (encode_storable c' Hc) in H. cbn [mbind result_bind] in H.
    rewrite seq_ok, raise_if_ok, orb_false_iff, !negb_false_iff, !bool_decide_eq_true in H.
    destruct H as [[Ht _] [= <-]]. by rewrite Ht.
  - intros (Hc & -> & ->). split; [done|]. exists c. rewrite loads_context. split.
    + change (context_payload c) with (JObj (context_fields c)). cbn iota.
      rewrite bool_decide_eq_true_2 by by_decide. by apply context_of_payload_ok.
    + rewrite encode_storable by done. cbn [mbind result_bind].
      rewrite seq_ok, raise_if_ok, orb_false_iff, !negb_false_iff, !bool_decide_eq_true. done.
Qed.

(** ** The abstract store

    What the two tables stand for: each run has its task, its initial context
    and the log of the results appended to it. *)
Record SRun := {
  s_task : string;
  s_created : Z;
  s_init : LoopContext;
  s_log : list (LoopResult * Z)
}.

Notation spec_store := (gmap string SRun).

Definition s_context (r : SRun) : LoopContext := final (s_init r) (map fst (s_log r)).
Definition s_version (r : SRun) : Z := Z.of_nat (length (s_log r)).
Definition s_updated (r : SRun) : Z := from_option snd (s_created r) (last (s_log r)).

Definition s_push (r : SRun) (x : LoopResult * Z) : SRun :=
  {| s_task := s_task r; s_created := s_created r; s_init := s_init r; s_log := s_log r ++ [x] |}.

Definition spec_create (σ : spec_store) (run_id task_id : string) (context : LoopContext)
    (recorded_at : Z) : result spec_store :=
  _safe_token run_id "run_id";;
  _safe_token task_id "task_id";;
  _non_negative recorded_at "recorded_at";;
  _encode_context context;;
  sqlite_int recorded_at;;
  raise_if (bool_decide (is_Some (σ !! run_id))) (LoopStateConflictError "loop run already exists");;
  Ok (<[run_id := {| s_task := task_id; s_created := recorded_at; s_init := context; s_log := [] |}]> σ).

Definition spec_append (σ : spec_store) (run_id : string) (expected_version : Z)
    (result : LoopResult) (recorded_at : Z) : Prelude.result spec_store :=
  _safe_token run_id "run_id";;
  _non_negative expected_version "expected_version";;
  _non_negative recorded_at "recorded_at";;
  _validate_result result;;
  run ← some_or (σ !! run_id) (LoopStateStoreError "loop run not found");
  raise_if (s_version run != expected_version)
    (LoopStateConflictError "loop run version conflict");;
  raise_if (s_context run != lr_previous result)
    (LoopStateConflictError "loop result previous context mismatch");;
  sqlite_int (expected_version + 1);;
  sqlite_int recorded_at;;
  Ok (<[run_id := s_push run (result, recorded_at)]> σ).

(** ** How the tables represent it *)
Definition run_row_of (r : SRun) : run_row :=
  {| rr_task_id := s_task r; rr_version := s_version r;
     rr_context_json := context_text (s_context r);
     rr_context_hash := text_hash (context_text (s_context r)); rr_updated_at := s_updated r |}.

Definition event_row_of (run_id : string) (version : Z) (x : LoopResult * Z) : event_row :=
  {| er_run_id := run_id; er_version := version; er_event := event_value (lr_event x.1);
     er_accepted := if lr_accepted x.1 then 1 else 0;
     er_decision := decision_value (lr_decision x.1); er_reason := lr_reason x.1;
     er_previous_json := context_text (lr_previous x.1);
     er_previous_hash := text_hash (context_text (lr_previous x.1));
     er_current_json := context_text (lr_current x.1);
     er_current_hash := text_hash (context_text (lr_current x.1)); er_recorded_at := x.2 |}.

(** The rows of a log whose first entry has version [n]. *)
Fixpoint rows_from (run_id : string) (n : Z) (log : list (LoopResult * Z)) : list event_row :=
  match log with
  | [] => []
  | x :: log => event_row_of run_id n x :: rows_from run_id (n + 1) log
  end.

Definition stored_of (run_id : string) (r : SRun) : StoredLoopRun :=
  {| sr_run_id := run_id; sr_task_id := s_task r; sr_version := s_version r;
     sr_context := s_context r; sr_context_hash := text_hash (context_text (s_context r));
     sr_updated_at := s_updated r |}.

Definition stored_event_of (run_id : string) (version : Z) (x : LoopResult * Z) : StoredLoopEvent :=
  {| se_run_id := run_id; se_version := version; se_event := lr_event x.1;
     se_accepted := lr_accepted x.1; se_decision := lr_decision x.1; se_reason := lr_reason x.1;
     se_previous := lr_previous x.1; se_current := lr_current x.1;
     se_previous_hash := text_hash (context_text (lr_previous x.1));
     se_current_hash := text_hash (context_text (lr_current x.1)); se_recorded_at := x.2 |}.

Fixpoint stored_from (run_id : string) (n : Z) (log : list (LoopResult * Z)) : list StoredLoopEvent :=
  match log with
  | [] => []
  | x :: log => stored_event_of run_id n x :: stored_from run_id (n + 1) log
  end.

(** Each result starts from the context the previous one left. *)
Fixpoint chained (c : LoopContext) (log : list LoopResult) : Prop :=
  match log with
  | [] => True
  | r :: log => lr_previous r = c ∧ chained (lr_current r) log
  end.

Definition entry_ok (x : LoopResult * Z) : Prop :=
  storable (lr_previous x.1) ∧ storable (lr_current x.1) ∧
  _SAFE_REASON_RE (lr_reason x.1) = true ∧ 0 ≤ x.2.

Record run_ok (r : SRun) : Prop := {
  ro_task : _SAFE_TOKEN_RE (s_task r) = true;
  ro_created : 0 ≤ s_created r;
  ro_init : storable (s_init r);
  ro_log : Forall entry_ok (s_log r);
  ro_chain : chained (s_init r) (map fst (s_log r))
}.

Record represents (σ : spec_store) (s : LoopStateStore) : Prop := {
  re_runs : loop_runs s = run_row_of <$> σ;
  re_events : ∀ id, List.filter (λ row, er_run_id row == id) (loop_events s)
    = from_option (λ r, rows_from id 1 (s_log r)) [] (σ !! id);
  re_ok : ∀ id r, σ !! id = Some r → _SAFE_TOKEN_RE id = true ∧ run_ok r
}.

(** ** Lemmas on the representation *)
Lemma safe_token_ok v name t : _safe_token v name = Ok t ↔ _SAFE_TOKEN_RE v = true ∧ t = v.
Proof. unfold _safe_token. rewrite seq_ok, raise_if_ok, negb_false_iff, Ok_inj. naive_solver. Qed.

Lemma safe_token_id v name : _SAFE_TOKEN_RE v = true → _safe_token v name = Ok v.
Proof. intros. by apply safe_token_ok. Qed.

Lemma final_snoc c log r : final c (log ++ [r]) = lr_current r.
Proof. unfold final. by rewrite last_snoc. Qed.

Lemma last_storable r : run_ok r → storable (s_context r).
Proof.
  intros [_ _ Hi Hl _]. unfold s_context, final. destruct (s_log r) as [|x l] using rev_ind; [done|].
  rewrite map_app. cbn [map]. rewrite last_snoc. apply Forall_app in Hl as [_ Hl]. by apply Forall_cons_1 in Hl as [(_ & ? & _) _].
Qed.

Lemma updated_nonneg r : run_ok r → 0 ≤ s_updated r.
Proof.
  intros [_ Hc _ Hl _]. unfold s_updated. destruct (s_log r) as [|x l] using rev_ind; [done|].
  rewrite last_snoc. apply Forall_app in Hl as [_ Hl]. by apply Forall_cons_1 in Hl as [(_ & _ & _ & ?) _].
Qed.

Lemma decode_context c : storable c → _decode_context (context_text c) (text_hash (context_text c)) = Ok c.
Proof. intros. by apply decode_ok. Qed.

Lemma run_row_ok id row x :
  _run_from_row id (Some row) = Ok x ↔
  ∃ c, _decode_context (rr_context_json row) (rr_context_hash row) = Ok c ∧
    _SAFE_TOKEN_RE id = true ∧ _SAFE_TOKEN_RE (rr_task_id row) = true ∧
    0 ≤ rr_version row ∧ 0 ≤ rr_updated_at row ∧
    x = {| sr_run_id := id; sr_task_id := rr_task_id row; sr_version := rr_version row;
           sr_context := c; sr_context_hash := rr_context_hash row; sr_updated_at := rr_updated_at row |}.
Proof.
  unfold _run_from_row, _stored_non_negative_int. cbn [some_or]. rewrite result_bind_ok.
  split.
  - intros (? & [= <-] & H). apply result_bind_ok in H as (c & Hc & H).
    apply result_bind_ok in H as (? & [Hi ->]%safe_token_ok & H).
    apply result_bind_ok in H as (? & [Ht ->]%safe_token_ok & H).
    apply result_bind_ok in H as (v & Hv & H). apply result_bind_ok in H as (u & Hu & [= <-]).
    rewrite seq_ok, raise_if_ok, Z.ltb_ge, Ok_inj in Hv, Hu. destruct Hv as [Hv <-], Hu as [Hu <-].
    by exists c.
  - intros (c & Hc & Hi & Ht & Hv & Hu & ->). exists row. split; [done|]. rewrite Hc.
    rewrite !safe_token_id, !(proj2 (Z.ltb_ge _ _)) by done. reflexivity.
Qed.

Lemma event_row_ok row x :
  _event_from_row (Some row) = Ok x ↔
  ∃ c c' e d, _decode_context (er_previous_json row) (er_previous_hash row) = Ok c ∧
    _decode_context (er_current_json row) (er_current_hash row) = Ok c' ∧
    event_of (er_event row) = Some e ∧ decision_of (er_decision row) = Some d ∧
    er_accepted row ∈ [0; 1] ∧ _SAFE_REASON_RE (er_reason row) = true ∧
    _SAFE_TOKEN_RE (er_run_id row) = true ∧ 0 < er_version row ∧ 0 ≤ er_recorded_at row ∧
    x = {| se_run_id := er_run_id row; se_version := er_version row; se_event := e;
           se_accepted := er_accepted row != 0; se_decision := d; se_reason := er_reason row;
           se_previous := c; se_current := c'; se_previous_hash := er_previous_hash row;
           se_current_hash := er_current_hash row; se_recorded_at := er_recorded_at row |}.
Proof.
  unfold _event_from_row, _stored_non_negative_int, _stored_positive_int. cbn [some_or].
  rewrite result_bind_ok. split.
  - intros (? & [= <-] & H). apply result_bind_ok in H as (c & Hc & H).
    apply result_bind_ok in H as (c' & Hc' & H). apply some_bind_ok in H as (e & He & H).
    apply some_bind_ok in H as (d & Hd & H).
    rewrite !seq_ok, !raise_if_ok, !negb_false_iff, bool_decide_eq_true in H. destruct H as (Ha & Hr & H).
    apply result_bind_ok in H as (? & [Hi ->]%safe_token_ok & H).
    apply result_bind_ok in H as (v & Hv & H). apply result_bind_ok in H as (u & Hu & [= <-]).
    rewrite seq_ok, raise_if_ok, Ok_inj in Hv, Hu.
    destruct Hv as [Hv%Z.leb_gt <-], Hu as [Hu%Z.ltb_ge <-]. by exists c, c', e, d.
  - intros (c & c' & e & d & Hc & Hc' & He & Hd & Ha & Hr & Hi & Hv & Hu & ->).
    exists row. split; [done|]. rewrite Hc, Hc'. cbn [mbind result_bind]. rewrite He, Hd.
    cbn [some_or mbind result_bind]. rewrite (bool_decide_eq_true_2 _ Ha), Hr, safe_token_id by done.
    by rewrite (proj2 (Z.ltb_ge _ _)), (proj2 (Z.leb_gt _ _)) by done.
Qed.

Lemma run_from_row_of id r :
  _SAFE_TOKEN_RE id = true → run_ok r → _run_from_row id (Some (run_row_of r)) = Ok (stored_of id r).
Proof.
  intros Hid Hr. pose proof (updated_nonneg r Hr). apply run_row_ok. exists (s_context r).
  split; [by apply decode_context, last_storable|]. split; [done|]. split; [apply Hr|].
  split; [unfold run_row_of, s_version; cbn; lia|done].
Qed.

Lemma event_from_row_of id n x :
  _SAFE_TOKEN_RE id = true → entry_ok x → 1 ≤ n →
  _event_from_row (Some (event_row_of id n x)) = Ok (stored_event_of id n x).
Proof.
  intros Hid (Hp & Hc & Hr & Ht) Hn. apply event_row_ok.
  exists (lr_previous x.1), (lr_current x.1), (lr_event x.1), (lr_decision x.1).
  split; [by apply decode_context|]. split; [by apply decode_context|].
  split; [apply event_roundtrip|]. split; [apply decision_roundtrip|].
  split; [cbn; destruct (lr_accepted x.1); by_decide|].
  split; [exact Hr|]. split; [exact Hid|]. split; [cbn; lia|]. split; [exact Ht|].
  unfold stored_event_of. f_equal. cbn. by destruct (lr_accepted x.1).
Qed.

Lemma rows_from_versions id n log row :
  row ∈ rows_from id n log → n ≤ er_version row < n + Z.of_nat (length log).
Proof.
  revert n. induction log as [|x log IH]; intros n; cbn [rows_from length]; [by intros ?%elem_of_nil|].
  rewrite elem_of_cons. intros [->|H]; [cbn; lia|]. apply IH in H. lia.
Qed.

Lemma rows_from_app id n l1 l2 :
  rows_from id n (l1 ++ l2) = rows_from id n l1 ++ rows_from id (n + Z.of_nat (length l1)) l2.
Proof.
  revert n. induction l1 as [|x l1 IH]; intros n; cbn [rows_from length app].
  - by rewrite Z.add_0_r.
  - rewrite IH. do 3 f_equal. lia.
Qed.

Lemma find_filter {A} (f g : A → bool) l :
  List.find (λ x, f x && g x) l = List.find g (List.filter f l).
Proof. induction l as [|x l IH]; cbn; [done|]. destruct (f x); cbn; [by rewrite IH|done]. Qed.

Lemma find_event_filter id v s :
  find_event id v s
  = List.find (λ row, er_version row =? v) (List.filter (λ row, er_run_id row == id) (loop_events s)).
Proof. apply (find_filter (λ row, er_run_id row == id) (λ row, er_version row =? v)). Qed.

Lemma find_none_iff {A} (f : A → bool) l : List.find f l = None ↔ ∀ x, x ∈ l → f x = false.
Proof.
  split; [intros H x Hx; apply (List.find_none _ _ H); by apply list_elem_of_In|].
  induction l as [|x l IH]; cbn; [done|]. intros H. rewrite (H x) by left. apply IH. intros y Hy.
  apply H. by right.
Qed.

Lemma find_event_next σ s id r :
  represents σ s → σ !! id = Some r → find_event id (s_version r + 1) s = None.
Proof.
  intros [_ He _] Hr. rewrite find_event_filter, He, Hr. cbn. apply find_none_iff. intros row Hrow.
  apply rows_from_versions in Hrow. apply Z.eqb_neq. unfold s_version. lia.
Qed.

(** ** The operations refine the abstract store *)
Lemma represents_empty : represents ∅ empty_store.
Proof.
  split; [|done|by intros ? ? ?%lookup_empty_Some].
  by rewrite fmap_empty.
Qed.

Lemma select_represented σ s id : represents σ s → loop_runs s !! id = run_row_of <$> (σ !! id).
Proof. intros [-> _ _]. apply lookup_fmap. Qed.

Lemma represents_create σ s id r :
  represents σ s → σ !! id = None → _SAFE_TOKEN_RE id = true → run_ok r → s_log r = [] →
  represents (<[id := r]> σ) (put_run id (run_row_of r) s).
Proof.
  intros [Hr He Hok] Hn Hid Hrun Hlog. split.
  - cbn [put_run loop_runs]. by rewrite Hr, fmap_insert.
  - intros id'. cbn [put_run loop_events]. rewrite He. destruct (decide (id' = id)) as [->|Hne].
    + rewrite Hn, lookup_insert_eq. cbn. by rewrite Hlog.
    + by rewrite lookup_insert_ne.
  - intros id' r'. rewrite lookup_insert_Some. intros [[<- <-]|[_ H]]; [done|by apply Hok].
Qed.

Lemma chained_snoc c log r :
  chained c (log ++ [r]) ↔ chained c log ∧ lr_previous r = final c log.
Proof.
  revert c. induction log as [|x log IH]; intros c; cbn [app chained].
  - unfold final. cbn. tauto.
  - rewrite IH, final_cons. tauto.
Qed.

Lemma push_ok r x :
  run_ok r → entry_ok x → lr_previous x.1 = s_context r → run_ok (s_push r x).
Proof.
  intros [Ht Hc Hi Hl Hch] Hx Hp. split; cbn; try done.
  - apply Forall_app. split; [done|]. by apply Forall_singleton.
  - rewrite map_app. by apply chained_snoc.
Qed.

Lemma push_row r x :
  run_row_of (s_push r x) =
  {| rr_task_id := s_task r; rr_version := s_version r + 1;
     rr_context_json := context_text (lr_current x.1);
     rr_context_hash := text_hash (context_text (lr_current x.1)); rr_updated_at := x.2 |}.
Proof.
  unfold run_row_of, s_context, s_version, s_updated, s_push. cbn [s_task s_log s_init s_created].
  rewrite map_app, length_app, last_snoc. cbn [map length from_option]. rewrite final_snoc.
  f_equal. lia.
Qed.

Lemma represents_append σ s id r x :
  represents σ s → σ !! id = Some r → entry_ok x → lr_previous x.1 = s_context r →
  represents (<[id := s_push r x]> σ)
    (put_run id (run_row_of (s_push r x)) (add_event (event_row_of id (s_version r + 1) x) s)).
Proof.
  intros [Hr He Hok] Hs Hx Hp. destruct (Hok id r Hs) as [Hid Hrun]. split.
  - cbn [put_run add_event loop_runs]. by rewrite Hr, fmap_insert.
  - intros id'. cbn [put_run add_event loop_events]. rewrite List.filter_app, He.
    destruct (decide (id' = id)) as [->|Hne].
    + rewrite Hs, lookup_insert_eq. cbn [from_option s_push s_log]. rewrite rows_from_app.
      cbn [List.filter event_row_of er_run_id]. rewrite bool_decide_eq_true_2 by done.
      cbn [rows_from]. unfold s_version. by rewrite Z.add_comm.
    + rewrite lookup_insert_ne by done. cbn [List.filter event_row_of er_run_id].
      rewrite bool_decide_eq_false_2 by done. by rewrite app_nil_r.
  - intros id' r'. rewrite lookup_insert_Some. intros [[<- <-]|[_ H]]; [|by apply Hok].
    split; [done|]. by apply push_ok.
Qed.

(** What a call did, against what the abstract store did: the same failure and
    no change, or a value that is right for the new abstract store, which the
    new tables represent. *)
Definition refines {A} (σ' : result spec_store) (good : spec_store → A → Prop) (s : LoopStateStore)
    (rs : result A * LoopStateStore) : Prop :=
  match σ' with
  | Ok σ' => ∃ a s', rs = (Ok a, s') ∧ good σ' a ∧ represents σ' s'
  | Raise e => rs = (Raise e, s)
  end.

(** The row returned is the run's. *)
Definition returns_run (id : string) (σ : spec_store) (a : StoredLoopRun) : Prop :=
  stored_of id <$> (σ !! id) = Some a.

Lemma new_run_ok task t c :
  _SAFE_TOKEN_RE task = true → 0 ≤ t → storable c →
  run_ok {| s_task := task; s_created := t; s_init := c; s_log := [] |}.
Proof. by split. Qed.

Lemma encode_cases c : ctx_ok c →
  (storable c ∧ _encode_context c = Ok (context_text c, text_hash (context_text c))) ∨
  ∃ e, _encode_context c = Raise e.
Proof.
  intros Hc. destruct (_encode_context c) as [p|e] eqn:E; [left|right; eauto].
  apply encode_ok in E as [Hs ->]. by split.
Qed.

(** The two writes of an append, on represented tables. *)
Lemma insert_event_run σ s id run x :
  represents σ s → σ !! id = Some run →
  insert_event (event_row_of id (s_version run + 1) x) s =
  match sqlite_int (s_version run + 1);; sqlite_int x.2 with
  | Ok _ => (Ok tt, add_event (event_row_of id (s_version run + 1) x) s)
  | Raise e => (Raise e, s)
  end.
Proof.
  intros Hrep Hr. unfold insert_event. m_run. cbn [event_row_of er_version er_recorded_at er_run_id].
  destruct (sqlite_int (s_version run + 1)) as [?|]; [|done].
  destruct (sqlite_int x.2) as [?|]; [|done].
  rewrite (find_event_next σ s id run Hrep Hr), is_some_None. done.
Qed.

Lemma update_run_run σ s id run x f :
  represents σ s → σ !! id = Some run → f (run_row_of run) = run_row_of (s_push run x) →
  update_run id (s_version run) f (add_event (event_row_of id (s_version run + 1) x) s) =
  (Ok tt, put_run id (run_row_of (s_push run x)) (add_event (event_row_of id (s_version run + 1) x) s)).
Proof.
  intros Hrep Hr Hf. unfold update_run, select_run. m_run. cbn [add_event loop_runs].
  rewrite (select_represented σ s id Hrep), Hr. cbn [fmap option_fmap option_map run_row_of rr_version].
  by rewrite Z.eqb_refl, <-Hf.
Qed.

(** The event just written is the one found. *)
Lemma find_event_new σ s id run x row :
  represents σ s → σ !! id = Some run →
  find_event id (s_version run + 1)
    (put_run id row (add_event (event_row_of id (s_version run + 1) x) s))
  = Some (event_row_of id (s_version run + 1) x).
Proof.
  intros Hrep Hr. pose proof (find_event_next σ s id run Hrep Hr) as Hn.
  rewrite find_event_filter in Hn |- *. cbn [put_run add_event loop_events].
  rewrite List.filter_app. cbn [List.filter event_row_of er_run_id].
  rewrite bool_decide_eq_true_2 by done. revert Hn. generalize (List.filter (λ row, er_run_id row == id) (loop_events s)).
  intros l. induction l as [|y l IH]; cbn [List.find app er_version].
  - by rewrite Z.eqb_refl.
  - by destruct (er_version y =? _).
Qed.

Lemma rows_from_sorted id n log :
  StronglySorted (λ a b, (er_version a <=? er_version b) = true) (rows_from id n log).
Proof.
  revert n. induction log as [|x log IH]; intros n; cbn [rows_from]; constructor; [done|].
  apply Forall_forall. intros row Hrow. apply rows_from_versions in Hrow. apply Z.leb_le. cbn. lia.
Qed.

Lemma rows_from_read id n log :
  _SAFE_TOKEN_RE id = true → 1 ≤ n → Forall entry_ok log →
  Forall2 (λ row x, _event_from_row (Some row) = Ok x) (rows_from id n log) (stored_from id n log).
Proof.
  intros Hid Hn Hlog. revert n Hn. induction Hlog as [|x log Hx Hlog IH]; intros n Hn; cbn; constructor.
  - by apply event_from_row_of.
  - apply IH. lia.
Qed.

(** [create_run] refines the abstract store: with the tables representing [σ], it
    fails exactly as [spec_create] does and then changes nothing, or it adds the
    new run; its read-back never reports corruption. *)
Lemma create_refines σ s id task c t :
  represents σ s → ctx_ok c →
  refines (spec_create σ id task c t) (returns_run id) s (create_run id task c t s).
Proof.
  intros Hrep Hc. unfold spec_create, create_run. m_run.
  destruct (_safe_token id "run_id") as [id'|] eqn:Eid; [|reflexivity].
  apply safe_token_ok in Eid as [Hid ->].
  destruct (_safe_token task "task_id") as [task'|] eqn:Et; [|reflexivity].
  apply safe_token_ok in Et as [Ht ->].
  destruct (_non_negative t "recorded_at") as [[]|] eqn:En; [|reflexivity].
  apply non_negative_ok in En.
  destruct (encode_cases c Hc) as [[Hst ->]|[e ->]]; [|reflexivity].
  destruct (sqlite_int t) as [t'|]; [|reflexivity].
  unfold select_run. m_run. rewrite (select_represented σ s id Hrep).
  destruct (σ !! id) as [r|] eqn:Er; cbn [fmap option_fmap option_map].
  { by rewrite !is_some_Some. }
  rewrite !is_some_None. cbn [raise_if].
  set (r := {| s_task := task; s_created := t; s_init := c; s_log := [] |}).
  pose proof (new_run_ok task t c Ht En Hst) as Hr. change (run_ok r) in Hr.
  change {| rr_task_id := task; rr_version := 0; rr_context_json := context_text c;
    rr_context_hash := text_hash (context_text c); rr_updated_at := t |} with (run_row_of r).
  cbn [put_run loop_runs]. rewrite lookup_insert_eq, run_from_row_of by done.
  change {| sr_run_id := id; sr_task_id := task; sr_version := 0; sr_context := c;
    sr_context_hash := text_hash (context_text c); sr_updated_at := t |} with (stored_of id r).
  rewrite bool_decide_eq_true_2 by done. cbn [negb raise_if refines].
  eexists _, _. split; [reflexivity|]. split.
  - unfold returns_run. by rewrite lookup_insert_eq.
  - by apply represents_create.
Qed.

(** [append_result] refines the abstract store: the result is appended to
    the log of its run exactly when the run is at the expected version and in
    the result's previous context (and the arguments are well-formed and fit);
    otherwise the call fails as [spec_append] does and nothing changes.  The
    failures the code foresees after these checks - a version already taken, an
    update of no row, a corrupted or different row read back - do not occur. *)
Lemma append_refines σ s id v r t :
  represents σ s → ctx_ok (lr_previous r) → ctx_ok (lr_current r) →
  refines (spec_append σ id v r t) (returns_run id) s (append_result id v r t s).
Proof.
  intros Hrep Hp Hc. unfold spec_append, append_result. m_run.
  destruct (_safe_token id "run_id") as [id'|] eqn:Eid; [|reflexivity].
  apply safe_token_ok in Eid as [Hid ->].
  destruct (_non_negative v "expected_version") as [[]|] eqn:Ev; [|reflexivity].
  destruct (_non_negative t "recorded_at") as [[]|] eqn:En; [|reflexivity].
  apply non_negative_ok in En, Ev. unfold _validate_result.
  destruct (_SAFE_REASON_RE (lr_reason r)) eqn:Ereason; [cbn [negb raise_if]|reflexivity].
  destruct (encode_cases _ Hp) as [[Hsp Ep]|[e ->]]; [|reflexivity].
  destruct (encode_cases _ Hc) as [[Hsc Ec]|[e Ec]]; rewrite Ep, Ec; [|reflexivity].
  cbn [mbind result_bind].
  unfold select_run. m_run. rewrite (select_represented σ s id Hrep).
  destruct (σ !! id) as [run|] eqn:Er; cbn [fmap option_fmap option_map some_or]; [|reflexivity].
  destruct (re_ok σ s Hrep id run Er) as [_ Hrun]. rewrite run_from_row_of by done.
  cbn [stored_of sr_version sr_context sr_context_hash].
  destruct (decide (s_version run = v)) as [<-|Hne].
  2: { by rewrite !(bool_decide_eq_false_2 (s_version run = v)). }
  rewrite !(bool_decide_eq_true_2 (s_version run = s_version run)) by done.
  destruct (decide (s_context run = lr_previous r)) as [Hctx|Hne].
  2: { by rewrite !(bool_decide_eq_false_2 (s_context run = lr_previous r)). }
  rewrite Hctx, !bool_decide_eq_true_2 by done. cbn [negb orb raise_if].
  change {| er_run_id := id; er_version := s_version run + 1; er_event := event_value (lr_event r);
    er_accepted := if lr_accepted r then 1 else 0; er_decision := decision_value (lr_decision r);
    er_reason := lr_reason r; er_previous_json := context_text (lr_previous r);
    er_previous_hash := text_hash (context_text (lr_previous r));
    er_current_json := context_text (lr_current r);
    er_current_hash := text_hash (context_text (lr_current r)); er_recorded_at := t |}
    with (event_row_of id (s_version run + 1) (r, t)).
  rewrite (insert_event_run σ s id run (r, t) Hrep Er). unfold mbind, result_bind. cbn [snd].
  destruct (sqlite_int (s_version run + 1)) as [?|]; [|reflexivity].
  destruct (sqlite_int t) as [?|]; [|reflexivity].
  rewrite (update_run_run σ s id run (r, t)) by (done || by rewrite push_row).
  rewrite (find_event_new σ s id run (r, t)) by done.
  assert (Hx : entry_ok (r, t)) by done.
  pose proof (push_ok run (r, t) Hrun Hx (eq_sym Hctx)) as Hpush.
  cbn [put_run loop_runs]. rewrite lookup_insert_eq, run_from_row_of, event_from_row_of
    by (done || unfold s_version; lia).
  cbn [stored_of stored_event_of sr_context sr_context_hash se_previous se_current se_event se_decision
    se_accepted se_reason fst].
  assert (s_context (s_push run (r, t)) = lr_current r) as Hcur.
  { unfold s_context, s_push. cbn [s_log s_init]. rewrite map_app. cbn [map]. by rewrite final_snoc. }
  rewrite Hcur, !bool_decide_eq_true_2 by done. cbn [negb orb raise_if refines].
  eexists _, _. split; [reflexivity|]. split.
  - unfold returns_run. by rewrite lookup_insert_eq.
  - by apply represents_append.
Qed.

(** Reads return what was written: [load_run] the run's current row, and
    [list_events] the whole log of a run in the order it was appended, with the
    versions 1, 2, ...; neither changes the tables. *)
Lemma reads_refine σ s id :
  represents σ s → _SAFE_TOKEN_RE id = true →
  load_run id s = (match σ !! id with
    | Some run => Ok (stored_of id run)
    | None => Raise (LoopStateStoreError "loop run not found")
    end, s) ∧
  list_events id s = (Ok (from_option (λ run, stored_from id 1 (s_log run)) [] (σ !! id)), s).
Proof.
  intros Hrep Hid. split.
  - unfold load_run, select_run. rewrite safe_token_id by done. m_run.
    rewrite (select_represented σ s id Hrep). destruct (σ !! id) as [run|] eqn:Er; [|done].
    destruct (re_ok σ s Hrep id run Er) as [_ Hrun]. cbn [fmap option_fmap option_map some_or].
    by rewrite run_from_row_of.
  - unfold list_events, events_of. rewrite safe_token_id by done. m_run.
    rewrite (re_events σ s Hrep). f_equal.
    destruct (σ !! id) as [run|] eqn:Er; [|done]. cbn [from_option].
    destruct (re_ok σ s Hrep id run Er) as [_ [_ _ _ Hlog _]].
    rewrite sort_by_id by apply rows_from_sorted. apply collect_ok.
    by apply rows_from_read; [|lia|].
Qed.

(** ** Sequences of calls *)
Inductive call :=
  | CCreate (run_id task_id : string) (context : LoopContext) (recorded_at : Z)
  | CAppend (run_id : string) (expected_version : Z) (result : LoopResult) (recorded_at : Z)
  | CLoad (run_id : string)
  | CList (run_id : string).

Inductive reply :=
  | RRun (run : StoredLoopRun)
  | REvents (events : list StoredLoopEvent)
  | RError (e : exn).

Definition reply_of {A} (f : A → reply) (r : result A) : reply :=
  match r with Ok a => f a | Raise e => RError e end.

(** A call of the store. *)
Definition exec_call (x : call) (s : LoopStateStore) : reply * LoopStateStore :=
  match x with
  | CCreate id task c t => let '(r, s) := create_run id task c t s in (reply_of RRun r, s)
  | CAppend id v r t => let '(r, s) := append_result id v r t s in (reply_of RRun r, s)
  | CLoad id => let '(r, s) := load_run id s in (reply_of RRun r, s)
  | CList id => let '(r, s) := list_events id s in (reply_of REvents r, s)
  end.

(** The row a successful write returns. *)
Definition run_reply (id : string) (σ : spec_store) : reply :=
  from_option (λ run, RRun (stored_of id run)) (RError (LoopStateStoreError "loop run not found"))
    (σ !! id).

(** The same call of the abstract store. *)
Definition spec_call (x : call) (σ : spec_store) : reply * spec_store :=
  let written id σ' := match σ' with Ok σ' => (run_reply id σ', σ') | Raise e => (RError e, σ) end in
  match x with
  | CCreate id task c t => written id (spec_create σ id task c t)
  | CAppend id v r t => written id (spec_append σ id v r t)
  | CLoad id =>
      (match _safe_token id "run_id" with Ok _ => run_reply id σ | Raise e => RError e end, σ)
  | CList id =>
      (match _safe_token id "run_id" with
       | Ok _ => REvents (from_option (λ run, stored_from id 1 (s_log run)) [] (σ !! id))
       | Raise e => RError e
       end, σ)
  end.

(** The contexts a caller can pass are constructed, hence valid. *)
Definition call_ok (x : call) : Prop :=
  match x with
  | CCreate _ _ c _ => ctx_ok c
  | CAppend _ _ r _ => ctx_ok (lr_previous r) ∧ ctx_ok (lr_current r)
  | _ => True
  end.

Fixpoint exec_calls (xs : list call) (s : LoopStateStore) : list reply * LoopStateStore :=
  match xs with
  | [] => ([], s)
  | x :: xs =>
      let '(r, s) := exec_call x s in let '(rs, s) := exec_calls xs s in (r :: rs, s)
  end.

Fixpoint spec_calls (xs : list call) (σ : spec_store) : list reply * spec_store :=
  match xs with
  | [] => ([], σ)
  | x :: xs =>
      let '(r, σ) := spec_call x σ in let '(rs, σ) := spec_calls xs σ in (r :: rs, σ)
  end.

(** A write that refines replies as the abstract store does. *)
Lemma refines_written σ s id (σ' : result spec_store) rs :
  represents σ s → refines σ' (returns_run id) s rs →
  reply_of RRun rs.1 = (match σ' with Ok σ' => (run_reply id σ', σ') | Raise e => (RError e, σ) end).1 ∧
  represents (match σ' with Ok σ' => (run_reply id σ', σ') | Raise e => (RError e, σ) end).2 rs.2.
Proof.
  intros Hrep. destruct σ' as [σ'|e]; cbn [refines].
  - intros (a & s' & -> & Ha & Hrep'). split; [|exact Hrep'].
    unfold returns_run in Ha. unfold run_reply. destruct (σ' !! id); [|discriminate].
    injection Ha as <-. reflexivity.
  - intros ->. by split.
Qed.

Lemma exec_call_refines σ s x :
  represents σ s → call_ok x →
  (exec_call x s).1 = (spec_call x σ).1 ∧ represents (spec_call x σ).2 (exec_call x s).2.
Proof.
  intros Hrep Hok. destruct x as [id task c t|id v r t|id|id]; cbn [exec_call spec_call call_ok] in *.
  - pose proof (refines_written σ s id _ _ Hrep (create_refines σ s id task c t Hrep Hok)) as H.
    by destruct (create_run id task c t s).
  - destruct Hok as [Hp Hc].
    pose proof (refines_written σ s id _ _ Hrep (append_refines σ s id v r t Hrep Hp Hc)) as H.
    by destruct (append_result id v r t s).
  - destruct (_safe_token id "run_id") as [id'|e] eqn:E.
    + apply safe_token_ok in E as [Hid ->]. destruct (reads_refine σ s id Hrep Hid) as [-> _].
      split; [|done]. unfold run_reply. by destruct (σ !! id).
    + unfold load_run. rewrite E. by split.
  - destruct (_safe_token id "run_id") as [id'|e] eqn:E.
    + apply safe_token_ok in E as [Hid ->]. destruct (reads_refine σ s id Hrep Hid) as [_ ->].
      by split.
    + unfold list_events. rewrite E. by split.
Qed.

(** ** Properties *)

(** A context survives the store: the text and hash of [_encode_context]
    decode to the context, and [_decode_context] accepts nothing else, whatever
    the row holds: exactly the canonical texts, with their own hash, of valid
    contexts (whose integers Python can write). *)
Theorem context_roundtrip text h c :
  _decode_context text h = Ok c ↔
  ctx_ok c ∧ _encode_context c = Ok (text, h).
Proof.
  rewrite decode_ok, encode_ok. split.
  - intros ([Hc Hs] & -> & ->). auto.
  - intros (Hc & Hs & [= -> ->]). by split.
Qed.

(** C14. The store implements the abstract store: any sequence of calls, valid or
    not, from the empty database gets exactly the replies and the errors of the
    abstract store of logs, and the tables represent its final state.  A failed
    call changes nothing, a write is read back as written, [list_events] is the
    log in order with versions 1, 2, ..., and the failures the code foresees for
    damaged rows never occur. *)
Theorem store_refines xs :
  Forall call_ok xs →
  (exec_calls xs empty_store).1 = (spec_calls xs ∅).1 ∧
  represents (spec_calls xs ∅).2 (exec_calls xs empty_store).2.
Proof.
  pose proof represents_empty as Hrep. revert Hrep. generalize empty_store.
  generalize (∅ : spec_store). intros σ s Hrep Hxs. revert σ s Hrep.
  induction Hxs as [|x xs Hx Hxs IH]; intros σ s Hrep; [done|].
  destruct (exec_call_refines σ s x Hrep Hx) as [Hr Hrep']. cbn [exec_calls spec_calls].
  destruct (exec_call x s) as [r s1], (spec_call x σ) as [r' σ1]. cbn [fst snd] in *. subst r'.
  destruct (IH _ _ Hrep') as [Hrs Hrep''].
  destruct (exec_calls xs s1) as [rs s2], (spec_calls xs σ1) as [rs' σ2]. cbn [fst snd] in *.
  by subst.
Qed.

(** Optimistic concurrency: of two writers that read the same version only
    one succeeds.  Once a result was appended at version [v], every other append
    at [v] to that run is refused as a conflict, whatever its result, and changes
    nothing. *)
Theorem version_taken_once σ s s' id v r t a r' t' :
  represents σ s → ctx_ok (lr_previous r) → ctx_ok (lr_current r) →
  append_result id v r t s = (Ok a, s') →
  ctx_ok (lr_previous r') → ctx_ok (lr_current r') → 0 ≤ t' → _validate_result r' = Ok tt →
  append_result id v r' t' s' = (Raise (LoopStateConflictError "loop run version conflict"), s').
Proof.
  intros Hrep Hp Hc Ha Hp' Hc' Ht' Hv'.
  pose proof (append_refines σ s id v r t Hrep Hp Hc) as H. rewrite Ha in H.
  destruct (spec_append σ id v r t) as [σ'|e] eqn:Es; [|discriminate].
  destruct H as (a' & s1 & [= <- <-] & _ & Hrep').
  unfold spec_append in Es. apply result_bind_ok in Es as (id' & [Hid ->]%safe_token_ok & Es).
  rewrite !seq_ok in Es. destruct Es as (Hv & _ & _ & Es).
  apply some_bind_ok in Es as (run & Hrun & Es). rewrite !seq_ok, raise_if_ok in Es.
  destruct Es as (Hver & _ & Es).
  apply result_bind_ok in Es as (_ & _ & Es). apply result_bind_ok in Es as (_ & _ & [= <-]).
  apply negb_false_iff, bool_decide_eq_true in Hver.
  pose proof (append_refines _ s' id v r' t' Hrep' Hp' Hc') as H.
  unfold spec_append in H. rewrite safe_token_id in H by done. cbn [mbind result_bind] in H.
  rewrite Hv, (proj2 (non_negative_ok _ _)) in H by done. cbn [mbind result_bind] in H.
  rewrite Hv' in H. cbn [mbind result_bind] in H. rewrite lookup_insert_eq in H.
  cbn [some_or mbind result_bind] in H.
  rewrite (bool_decide_eq_false_2 (s_version (s_push run (r, t)) = v)) in H; [exact H|].
  unfold s_version in *. cbn [s_push s_log]. rewrite length_app. cbn [length]. lia.
Qed.

(** ** Witnesses *)
Definition demo_first : LoopResult :=
  _reject default_context STARTED "ILLEGAL_TRANSITION".

Definition demo_spec : spec_store :=
  {[ "run-1" := {| s_task := "task-1"; s_created := 5; s_init := default_context; s_log := [] |} ]}.

Definition demo_store : LoopStateStore :=
  {| loop_runs := run_row_of <$> demo_spec; loop_events := [] |}.

Lemma default_storable : storable default_context.
Proof.
  split; [apply default_fresh|]. intros z. unfold context_ints. cbn. rewrite !elem_of_cons, elem_of_nil.
  intros [->|[->|[->|[]]]]; reflexivity.
Qed.

Lemma demo_represents : represents demo_spec demo_store.
Proof.
  split; [done| |].
  - intros id. cbn [demo_store loop_events List.filter]. unfold demo_spec.
    destruct (decide (id = "run-1")) as [->|Hne].
    + by rewrite lookup_singleton_eq.
    + by rewrite lookup_singleton_ne.
  - intros id r. unfold demo_spec. rewrite lookup_singleton_Some. intros [<- <-].
    split; [reflexivity|]. apply new_run_ok; [reflexivity|lia|exact default_storable].
Qed.

Lemma demo_append :
  ∃ a s', append_result "run-1" 0 demo_first 6 demo_store = (Ok a, s').
Proof.
  pose proof (append_refines demo_spec demo_store "run-1" 0 demo_first 6 demo_represents
    (st_ok _ default_storable) (st_ok _ default_storable)) as H.
  assert (Hs : ∃ σ', spec_append demo_spec "run-1" 0 demo_first 6 = Ok σ').
  { unfold spec_append, _validate_result. cbn [demo_first _reject lr_previous lr_current lr_reason].
    rewrite encode_storable by exact default_storable. unfold demo_spec.
    rewrite lookup_singleton_eq. by eexists. }
  destruct Hs as [σ' Hs]. rewrite Hs in H. destruct H as (a & s' & H & _). eauto.
Qed.

Lemma store_refines_witness :
  (exec_calls [CLoad "run-1"; CCreate "run-1" "task-1" default_context 5] empty_store).1
  = [RError (LoopStateStoreError "loop run not found");
     RRun (stored_of "run-1"
       {| s_task := "task-1"; s_created := 5; s_init := default_context; s_log := [] |})].
Proof.
  assert (Hok : Forall call_ok [CLoad "run-1"; CCreate "run-1" "task-1" default_context 5]).
  { constructor; [exact I|]. constructor; [exact (st_ok _ default_storable)|constructor]. }
  destruct (store_refines _ Hok) as [-> _].
  cbn [spec_calls spec_call]. unfold spec_create.
  rewrite encode_storable by exact default_storable.
  rewrite lookup_empty. reflexivity.
Defined.

Lemma version_taken_once_witness :
  ∃ a s', append_result "run-1" 0 demo_first 6 demo_store = (Ok a, s') ∧
    append_result "run-1" 0 demo_first 7 s'
      = (Raise (LoopStateConflictError "loop run version conflict"), s').
Proof.
  destruct demo_append as (a & s' & H). exists a, s'. split; [exact H|].
  apply (version_taken_once demo_spec demo_store s' "run-1" 0 demo_first 6 a demo_first 7
    demo_represents (st_ok _ default_storable) (st_ok _ default_storable) H
    (st_ok _ default_storable) (st_ok _ default_storable) ltac:(lia)).
  unfold _validate_result. cbn [demo_first _reject lr_previous lr_current lr_reason].
  rewrite encode_storable by exact default_storable. reflexivity.
Defined.
