(* ===== verification/LoopEngine.v ===== *)
(** * The loop engine

    [src/core/loop_engine.py] composes the controller with the store: a step
    loads the run, advances its context and appends the result.  The domain
    event graph is an injected collaborator, a parameter here: a computation on
    a state [G] of its own that may raise. *)

From S2P Require Import Prelude.
From S2P Require Import PyStr.
From S2P Require Import Json.
From S2P Require Import Sha256.
From S2P Require Import Loop.
From S2P Require Import LoopStore.

Record LoopStepResult := { ls_run : StoredLoopRun; ls_transition : LoopResult }.

Section engine.
Context {G : Type}.

Record LoopEngine := {
  le_policy : LoopPolicy;
  (** [record_loop_dependency(run_ref, task_ref, observed_at, idempotency_key)] *)
  le_domain_event_graph : option (string → string → Z → string → M G unit)
}.

(** The store and the state of the graph. *)
Definition world : Type := LoopStateStore * G.

Definition on_store {A} (m : M LoopStateStore A) : M world A := zoom fst (λ s w, (s, w.2)) m.
Definition on_graph {A} (m : M G A) : M world A := zoom snd (λ g w, (w.1, g)) m.

Context (self : LoopEngine).

Definition _record_dependency (run_id task_id : string) (recorded_at : Z) : M world unit :=
  match le_domain_event_graph self with
  | None => mret tt
  | Some record_loop_dependency =>
      catch (on_graph (record_loop_dependency run_id task_id recorded_at
               ("loop-dependency-" +:+ run_id +:+ "-" +:+ task_id)))
        (λ e, match e with DomainEventGraphError _ => mret tt | e => raise e end)
  end.

Definition create (run_id task_id : string) (recorded_at : Z) (context : option LoopContext)
    : M world StoredLoopRun :=
  let initial := default default_context context in
  run ← on_store (create_run run_id task_id initial recorded_at);
  _record_dependency run_id task_id recorded_at;;
  mret run.

Definition step (run_id : string) (event : LoopEvent) (recorded_at : Z) (now : option Z)
    (budget_delta : Z) (expected_version : option Z) : M world LoopStepResult :=
  current ← on_store (load_run run_id);
  lift (match expected_version with
        | Some v =>
            _non_negative v "expected_version";;
            raise_if (sr_version current != v)
              (LoopStateConflictError "loop engine expected version conflict")
        | None => Ok tt
        end);;
  transition ← lift (advance_loop (sr_context current) event (le_policy self) now budget_delta);
  stored ← on_store (append_result run_id (sr_version current) transition recorded_at);
  _record_dependency run_id (sr_task_id current) recorded_at;;
  mret {| ls_run := stored; ls_transition := transition |}.

(** ** Calls of an engine *)
Inductive engine_call :=
  | ECreate (run_id task_id : string) (recorded_at : Z) (context : option LoopContext)
  | EStep (run_id : string) (event : LoopEvent) (recorded_at : Z) (now : option Z)
      (budget_delta : Z) (expected_version : option Z).

(** The world a call leaves, whether it returns or raises. *)
Definition after (x : engine_call) (w : world) : world :=
  match x with
  | ECreate id task t c => (create id task t c w).2
  | EStep id e t now d v => (step id e t now d v w).2
  end.

(** A [LoopContext] is one that its constructor accepts. *)
Definition engine_call_ok (x : engine_call) : Prop :=
  match x with
  | ECreate _ _ _ (Some c) => ctx_ok c
  | _ => True
  end.
End engine.
Arguments LoopEngine : clear implicits.
Arguments world : clear implicits.

(** ** Histories *)

(** The log of a run is a run of the controller, from a context it was created in. *)
Definition replays (p : LoopPolicy) (created : LoopContext → Prop) (run : SRun) : Prop :=
  created (s_init run) ∧
  ∃ xs, Forall input_ok xs ∧ run_loop p (s_init run) xs = Ok (map fst (s_log run)).

(** The tables hold runs of the controller, and nothing else. *)
Definition faithful (p : LoopPolicy) (created : string → LoopContext → Prop) (s : LoopStateStore) : Prop :=
  ∃ σ, represents σ s ∧ ∀ id run, σ !! id = Some run → replays p (created id) run.

Lemma faithful_mono p (C C' : string → LoopContext → Prop) s :
  (∀ id c, C id c → C' id c) → faithful p C s → faithful p C' s.
Proof.
  intros HC (σ & Hrep & Hall). exists σ. split; [done|]. intros id run Hrun.
  destruct (Hall id run Hrun) as [H1 H2]. split; [by apply HC|done].
Qed.

Lemma run_loop_snoc p c xs rs x r :
  run_loop p c xs = Ok rs →
  advance_loop (final c rs) (in_event x) p (in_now x) (in_delta x) = Ok r →
  run_loop p c (xs ++ [x]) = Ok (rs ++ [r]).
Proof.
  revert c rs. induction xs as [|y xs IH]; intros c rs; cbn [run_loop app].
  - intros [= <-]. unfold final. cbn. intros ->. reflexivity.
  - intros H. apply result_bind_ok in H as (r' & Hr' & H).
    apply result_bind_ok in H as (rs' & Hrs' & [= <-]). rewrite final_cons. intros Hr.
    rewrite Hr'. cbn [mbind result_bind]. by rewrite (IH _ _ Hrs' Hr).
Qed.

(** A step is only taken with a valid time and budget. *)
Lemma advance_args c e p now d r : advance_loop c e p now d = Ok r → opt_nonneg now ∧ 0 ≤ d.
Proof. unfold advance_loop. rewrite !seq_ok, opt_non_negative_ok, non_negative_ok. tauto. Qed.

Lemma replays_push p C run e now d r t :
  replays p C run → advance_loop (s_context run) e p now d = Ok r → replays p C (s_push run (r, t)).
Proof.
  intros [Hf (xs & Hxs & Hrun)] Hr. split; [done|].
  exists (xs ++ [{| in_event := e; in_now := now; in_delta := d |}]).
  split; [apply Forall_app; split; [done|]; apply Forall_singleton; by eapply advance_args|].
  cbn [s_push s_init s_log]. rewrite map_app. by apply run_loop_snoc.
Qed.

Lemma faithful_insert p C (σ : spec_store) id run :
  (∀ id run, σ !! id = Some run → replays p (C id) run) → replays p (C id) run →
  ∀ id' run', (<[id := run]> σ) !! id' = Some run' → replays p (C id') run'.
Proof. intros H Hrun id' run'. rewrite lookup_insert_Some. naive_solver. Qed.

Lemma context_ok σ s id run : represents σ s → σ !! id = Some run → ctx_ok (s_context run).
Proof. intros Hrep Hr. destruct (re_ok σ s Hrep id run Hr). by apply st_ok, last_storable. Qed.

(** What recording a dependency does: nothing to the store. *)
Lemma record_dependency_store {G} (self : LoopEngine G) run task t w :
  (_record_dependency self run task t w).2.1 = w.1.
Proof.
  unfold _record_dependency. destruct (le_domain_event_graph self) as [f|]; [|done].
  unfold catch, on_graph, zoom. destruct (f _ _ _ _ (w.2)) as [[[]|e] g]; [done|].
  by destruct e.
Qed.

(** A create or step of the store keeps the tables faithful. *)
Lemma create_faithful p C s id task c t :
  faithful p C s → ctx_ok c → C id c → faithful p C (create_run id task c t s).2.
Proof.
  intros (σ & Hrep & Hall) Hf HC. pose proof (create_refines σ s id task c t Hrep Hf) as H.
  destruct (spec_create σ id task c t) as [σ'|e] eqn:Es; cbn [refines] in H.
  - destruct H as (a & s' & -> & _ & Hrep'). exists σ'. split; [exact Hrep'|].
    unfold spec_create in Es. apply result_bind_ok in Es as (_ & _ & Es).
    apply result_bind_ok in Es as (_ & _ & Es). rewrite seq_ok in Es. destruct Es as [_ Es].
    apply result_bind_ok in Es as (_ & _ & Es). apply result_bind_ok in Es as (_ & _ & Es).
    rewrite seq_ok in Es. destruct Es as [_ [= <-]]. apply faithful_insert; [done|].
    split; [done|]. by exists [].
  - rewrite H. by exists σ.
Qed.

Lemma append_ok_inv σ id v r t σ' :
  spec_append σ id v r t = Ok σ' →
  ∃ run, σ !! id = Some run ∧ s_version run = v ∧ s_context run = lr_previous r ∧
    σ' = <[id := s_push run (r, t)]> σ.
Proof.
  unfold spec_append. intros Es. apply result_bind_ok in Es as (_ & _ & Es).
  rewrite !seq_ok in Es. destruct Es as (_ & _ & _ & Es). apply some_bind_ok in Es as (run & Hrun & Es).
  rewrite !seq_ok, !raise_if_ok, !negb_false_iff, !bool_decide_eq_true in Es.
  destruct Es as (Hv & Hc & Es). apply result_bind_ok in Es as (_ & _ & Es).
  apply result_bind_ok in Es as (_ & _ & [= <-]). by exists run.
Qed.

Lemma load_run_inv σ s id a :
  represents σ s → load_run id s = (Ok a, s) →
  ∃ run, σ !! id = Some run ∧ a = stored_of id run.
Proof.
  intros Hrep H. destruct (_safe_token id "run_id") as [i|e] eqn:E.
  - apply safe_token_ok in E as [Hid _]. destruct (reads_refine σ s id Hrep Hid) as [Hl _].
    rewrite Hl in H. destruct (σ !! id) as [run|]; [|discriminate]. injection H as <-. by exists run.
  - unfold load_run in H. rewrite E in H. discriminate.
Qed.

Lemma load_run_state id s : (load_run id s).2 = s.
Proof.
  unfold load_run, select_run. m_run. destruct (_safe_token id "run_id") as [i|]; [|done].
  by destruct (some_or (loop_runs s !! i) _).
Qed.

(** The result a step appends comes from the run's current context. *)
Lemma advance_facts p c e now d r :
  ctx_ok c → advance_loop c e p now d = Ok r → lr_previous r = c ∧ ctx_ok (lr_current r).
Proof.
  intros Hc Hr. destruct (advance_args c e p now d r Hr) as [Hn Hd].
  destruct (advance_steps p c e now d Hc Hn Hd) as (r' & Hr' & Hs). rewrite Hr in Hr'.
  injection Hr' as <-. by destruct (step_effect p c e now d r Hc Hn Hd Hs) as (? & ? & _).
Qed.

Lemma step_faithful {G} (self : LoopEngine G) C id e t now d v (w : world G) :
  faithful (le_policy self) C w.1 → faithful (le_policy self) C (step self id e t now d v w).2.1.
Proof.
  intros Hw. destruct Hw as (σ & Hrep & Hall). unfold step, on_store, zoom. m_run.
  pose proof (load_run_state id (w.1)) as Hl0. destruct (load_run id (w.1)) as [[a|ex] s1] eqn:El;
    cbn in Hl0; subst s1; [|by exists σ].
  destruct (load_run_inv σ (w.1) id a Hrep El) as (run & Hrun & ->).
  match goal with |- context [match ?m with Ok _ => _ | Raise _ => _ end] =>
    destruct m as [[]|ex] end; [|by exists σ].
  cbn [stored_of sr_context sr_version sr_task_id fst].
  destruct (advance_loop (s_context run) e (le_policy self) now d) as [r|ex] eqn:Er; [|by exists σ].
  destruct (advance_facts _ _ _ _ _ _ (context_ok σ _ id run Hrep Hrun) Er) as [Hprev Hcur].
  assert (Hp : ctx_ok (lr_previous r)) by (rewrite Hprev; by eapply context_ok).
  pose proof (append_refines σ (w.1) id (s_version run) r t Hrep Hp Hcur) as H.
  destruct (spec_append σ id (s_version run) r t) as [σ'|ex] eqn:Es; cbn [refines] in H.
  - destruct H as (a' & s' & -> & _ & Hrep').
    assert (faithful (le_policy self) C s') as Hs'.
    { exists σ'. split; [exact Hrep'|]. apply append_ok_inv in Es as (run' & Hr' & _ & _ & ->).
      rewrite Hrun in Hr'. injection Hr' as <-. apply faithful_insert; [done|].
      eapply replays_push; [by eapply Hall|exact Er]. }
    match goal with |- context [_record_dependency ?a ?b ?c ?d ?w'] =>
      pose proof (record_dependency_store a b c d w') as Hd;
      destruct (_record_dependency a b c d w') as [[[]|ex] w1] end;
      cbn in Hd |- *; by rewrite Hd.
  - rewrite H. by exists σ.
Qed.

Lemma create_call_faithful {G} (self : LoopEngine G) C id task t c (w : world G) :
  faithful (le_policy self) C w.1 → ctx_ok (default default_context c) →
  C id (default default_context c) → faithful (le_policy self) C (create self id task t c w).2.1.
Proof.
  intros Hw Hc HC. unfold create, on_store, zoom. m_run.
  pose proof (create_faithful _ _ _ id task _ t Hw Hc HC) as Hs.
  destruct (create_run id task (default default_context c) t (w.1)) as [[a|ex] s']; [|done].
  match goal with |- context [_record_dependency ?a ?b ?c ?d ?w'] =>
    pose proof (record_dependency_store a b c d w') as Hd;
    destruct (_record_dependency a b c d w') as [[[]|ex] w1] end;
    cbn in Hd, Hs |- *; by rewrite Hd.
Qed.

Definition run_calls {G} (self : LoopEngine G) (xs : list engine_call) (w : world G) : world G :=
  foldl (λ w x, after self x w) w xs.

(** The contexts that a list of calls creates a run with. *)
Definition created_with (xs : list engine_call) (id : string) (c : LoopContext) : Prop :=
  ∃ task t o, ECreate id task t o ∈ xs ∧ c = default default_context o.

Lemma run_calls_faithful {G} (self : LoopEngine G) C xs w :
  faithful (le_policy self) C w.1 → Forall engine_call_ok xs →
  (∀ id c, created_with xs id c → C id c) → faithful (le_policy self) C (run_calls self xs w).1.
Proof.
  intros Hw Hxs. revert w Hw. unfold run_calls.
  induction Hxs as [|x xs Hx Hxs IH]; intros w Hw HC; [done|]. cbn [foldl].
  apply IH; [|intros id c (task & t & o & Hin & E); apply HC; exists task, t, o; split; [by right|done]].
  destruct x as [id task t c|id e t now d v]; cbn [after]; [|by apply step_faithful].
  apply create_call_faithful; [done|destruct c; [exact Hx|apply default_fresh]|].
  apply HC. exists task, t, c. split; [left|done].
Qed.

(** The reasons of the controller are stable tokens. *)
Lemma step_reason p c e now b r : loop_step p c e now b r → _SAFE_REASON_RE (lr_reason r) = true.
Proof.
  intros Hs. step_cases Hs; try reflexivity.
  - destruct e; try discriminate Hdir; injection Hdir as <- <- <-; reflexivity.
  - destruct (lc_state c), e; try discriminate Hp; injection Hp as <- <- <-; reflexivity.
Qed.

Lemma step_advance_reason p c e now d r :
  ctx_ok c → advance_loop c e p now d = Ok r → _SAFE_REASON_RE (lr_reason r) = true.
Proof.
  intros Hc Hr. destruct (advance_args c e p now d r Hr) as [Hn Hd].
  destruct (advance_steps p c e now d Hc Hn Hd) as (r' & Hr' & Hs). rewrite Hr in Hr'.
  injection Hr' as <-. by eapply step_reason.
Qed.

(** ** Properties *)

(** C15. Every persisted loop is a bounded run of the controller.  Whatever calls
    are made of an engine, in whatever order, with whatever arguments - a create
    takes any context its constructor accepts - and whatever its event graph does:
    from the empty database the tables always represent runs whose log is a run of
    [advance_loop] from the context a create call of that run passed.  No run
    has done more than [max_iterations] steps of work, less what its first context
    had counted, and a run created within the policy (as a fresh context is)
    stays within it. *)
Theorem persisted_loops_bounded {G} (self : LoopEngine G) xs g :
  let p := le_policy self in
  policy_ok p → Forall engine_call_ok xs →
  ∃ σ, represents σ (run_calls self xs (empty_store, g)).1 ∧
    ∀ id run, σ !! id = Some run →
      created_with xs id (s_init run) ∧
      (∃ inputs, Forall input_ok inputs ∧
        run_loop p (s_init run) inputs = Ok (map fst (s_log run))) ∧
      work_done (map fst (s_log run)) ≤ Z.max 0 (max_iterations p - iterations (s_init run)) ∧
      (within p (s_init run) → within p (s_context run)) ∧
      (fresh (s_init run) → within p (s_init run)).
Proof.
  intros p Hp Hxs.
  destruct (run_calls_faithful self (created_with xs) xs (empty_store, g)) as (σ & Hrep & Hall); [|done|done|].
  { exists ∅. split; [apply represents_empty|]. by intros ? ? ?%lookup_empty_Some. }
  exists σ. split; [exact Hrep|]. intros id run Hrun.
  destruct (Hall id run Hrun) as [Hc (inputs & Hin & Hr)]. split; [done|]. split; [eauto|].
  pose proof (re_ok σ _ Hrep id run Hrun) as [_ Hok].
  split; [by apply (run_below p (s_init run) inputs); [apply (ro_init _ Hok)| |]|].
  split; [|by apply fresh_within]. intros Hw.
  destruct (run_within p _ inputs Hp Hw Hin) as (rs & Hr' & _ & Hfin & _).
  fold p in Hr. rewrite Hr in Hr'. by injection Hr' as <-.
Qed.

(** A step does what it says: on represented tables, for a run whose context
    the controller can advance, a step with the current version (or none) and
    arguments that fit returns the controller's transition and the run it left,
    and the tables then hold exactly that result at the end of the run's log;
    with any other expected version it raises a conflict and changes nothing. *)
Theorem engine_step_exact {G} (self : LoopEngine G) σ (w : world G) id run e t now d v r :
  le_domain_event_graph self = None →
  represents σ w.1 → σ !! id = Some run →
  advance_loop (s_context run) e (le_policy self) now d = Ok r →
  storable (lr_current r) → 0 ≤ t < 2 ^ 63 → s_version run + 1 < 2 ^ 63 →
  (v = None ∨ v = Some (s_version run) →
    ∃ s', step self id e t now d v w
      = (Ok {| ls_run := stored_of id (s_push run (r, t)); ls_transition := r |}, (s', w.2)) ∧
      represents (<[id := s_push run (r, t)]> σ) s') ∧
  (∀ n, v = Some n → 0 ≤ n → n ≠ s_version run →
    step self id e t now d v w
      = (Raise (LoopStateConflictError "loop engine expected version conflict"), w)).
Proof.
  intros Hg Hrep Hrun Hr Hst Ht Hlen. destruct w as [s g]. cbn [fst snd] in *.
  destruct (re_ok σ s Hrep id run Hrun) as [Hid Hok].
  destruct (reads_refine σ s id Hrep Hid) as [Hload _]. rewrite Hrun in Hload.
  unfold step, on_store, zoom. m_run. cbn [fst]. rewrite Hload.
  cbn [stored_of sr_context sr_version sr_task_id]. split.
  - intros Hv. assert ((match v with
      | Some v0 => match _non_negative v0 "expected_version" with
          | Ok _ => raise_if (s_version run != v0)
              (LoopStateConflictError "loop engine expected version conflict")
          | Raise e => Raise e end
      | None => Ok tt end) = Ok tt) as ->.
    { destruct Hv as [->| ->]; [done|]. rewrite (proj2 (non_negative_ok _ _)) by (unfold s_version; lia).
      by rewrite bool_decide_eq_true_2. }
    rewrite Hr. destruct (advance_facts _ _ _ _ _ _ (context_ok σ _ id run Hrep Hrun) Hr) as [Hprev Hcur].
    destruct (advance_args _ _ _ _ _ _ Hr) as [Hn Hd].
    pose proof (last_storable run Hok) as Hsp.
    assert (Hp : ctx_ok (lr_previous r)) by (rewrite Hprev; apply Hsp).
    pose proof (append_refines σ s id (s_version run) r t Hrep Hp Hcur) as H.
    assert (spec_append σ id (s_version run) r t = Ok (<[id := s_push run (r, t)]> σ)) as Hspec.
    { unfold spec_append, _validate_result. rewrite safe_token_id by done. cbn [mbind result_bind].
      rewrite !(proj2 (non_negative_ok _ _)) by (unfold s_version; lia). cbn [mbind result_bind].
      apply (step_advance_reason _ _ _ _ _ _ (st_ok _ Hsp)) in Hr. rewrite Hr.
      rewrite Hprev, !encode_storable by done. cbn [negb raise_if mbind result_bind].
      rewrite Hrun. cbn [some_or mbind result_bind].
      rewrite !bool_decide_eq_true_2 by done. cbn [negb raise_if mbind result_bind].
      by rewrite !sqlite_int_in by (unfold s_version in *; lia). }
    rewrite Hspec in H. destruct H as (a & s' & Happ & Ha & Hrep'). cbn [fst snd]. rewrite Happ.
    unfold returns_run in Ha. rewrite lookup_insert_eq in Ha. injection Ha as <-.
    unfold _record_dependency. rewrite Hg. m_run. exists s'. split; [reflexivity|exact Hrep'].
  - intros n -> Hn Hne. rewrite (proj2 (non_negative_ok _ _)) by done.
    rewrite bool_decide_eq_false_2 by congruence. reflexivity.
Qed.

(** ** Witnesses *)
Definition demo_engine : LoopEngine unit :=
  {| le_policy := default_bounded; le_domain_event_graph := None |}.

Definition demo_calls : list engine_call :=
  [ECreate "run-1" "task-1" 5 None; EStep "run-1" PREPARED 6 (Some 6) 1 (Some 0);
   EStep "run-1" STARTED 7 None 0 (Some 7); EStep "run-2" STARTED 7 None 0 None].

(** A run created with its budget of work spent, next to a fresh one. *)
Definition spent_context : LoopContext := moved default_context READY 50 0 0.

Lemma persisted_loops_bounded_witness :
  ∃ σ, represents σ (run_calls demo_engine (ECreate "run-3" "task-3" 5 (Some spent_context) :: demo_calls)
      (empty_store, tt)).1 ∧
    ∀ id run, σ !! id = Some run →
      work_done (map fst (s_log run)) ≤ Z.max 0 (max_iterations default_bounded - iterations (s_init run)).
Proof.
  destruct (persisted_loops_bounded demo_engine
    (ECreate "run-3" "task-3" 5 (Some spent_context) :: demo_calls) tt default_ok) as (σ & Hrep & H).
  { repeat constructor; cbn; lia || by intros ? [=]. }
  exists σ. split; [exact Hrep|]. intros id run Hrun. exact (proj1 (proj2 (proj2 (H id run Hrun)))).
Defined.

Definition demo_prepared : LoopResult :=
  accept default_context PREPARED (moved default_context READY 0 0 1) D_CONTINUE "LOOP_PREPARED".

Lemma prepared_storable : storable (lr_current demo_prepared).
Proof.
  split; [by apply moved_ok; [apply default_fresh|..]|]. intros z. unfold context_ints. cbn.
  rewrite !elem_of_cons, elem_of_nil. intros [->|[->|[->|[]]]]; reflexivity.
Qed.

Lemma engine_step_exact_witness :
  ∃ run s', step demo_engine "run-1" PREPARED 6 (Some 6) 1 (Some 0) (demo_store, tt)
    = (Ok {| ls_run := run; ls_transition := demo_prepared |}, (s', tt)) ∧
    sr_version run = 1 ∧ lc_state (sr_context run) = READY.
Proof.
  destruct (engine_step_exact demo_engine demo_spec (demo_store, tt) "run-1"
    {| s_task := "task-1"; s_created := 5; s_init := default_context; s_log := [] |}
    PREPARED 6 (Some 6) 1 (Some 0) demo_prepared eq_refl demo_represents) as [H _].
  - reflexivity.
  - reflexivity.
  - exact prepared_storable.
  - lia.
  - reflexivity.
  - destruct (H (or_intror eq_refl)) as (s' & Hs & _).
    eexists _, s'. split; [exact Hs|]. split; reflexivity.
Defined.
