(* ===== verification/LoopAdapter.v ===== *)
(** * Loop runner packets

    [src/core/loop_runner_adapter.py]: the runner's packets that create or step
    a loop, answered by public-safe receipts.  A packet is a Python value,
    modelled as JSON; a dict is the list of its fields. *)

From S2P Require Import Prelude.
From S2P Require Import PyStr.
From S2P Require Import Json.
From S2P Require Import Sha256.
From S2P Require Import Loop.
From S2P Require Import LoopStore.
From S2P Require Import LoopEngine.

Definition LOOP_RUNNER_PACKET_SCHEMA : string := "skeleton.loop_runner_packet.v1".
Definition LOOP_RUNNER_RESULT_SCHEMA : string := "skeleton.loop_runner_result.v1".
Definition LOOP_RUNNER_ACTIONS : list string := ["create"; "step"].
Definition _COMMON_FIELDS : gset string := list_to_set
  ["schema"; "action"; "task_id"; "run_id"; "recorded_at"; "public_safe"; "no_secrets";
   "no_runtime_mutation"; "authority_boundary"].
Definition _STEP_FIELDS : gset string := list_to_set
  ["event"; "now"; "budget_delta"; "expected_version"].
Definition _EXPECTED_AUTHORITY_BOUNDARY : list (string * bool) :=
  [("operational_state_write", true); ("external_side_effects_allowed", false);
   ("runtime_mutation_allowed", false)].

Definition invalid_packet : exn := LoopRunnerAdapterError "INVALID_LOOP_TASK_PACKET".

Definition _safe_token (value : option json) : result string :=
  match value with
  | Some (JStr s) => raise_if (negb (_SAFE_TOKEN_RE s)) invalid_packet;; Ok s
  | _ => Raise invalid_packet
  end.

Definition _non_negative_int (value : option json) : result Z :=
  match value with
  | Some (JInt z) => raise_if (z <? 0) invalid_packet;; Ok z
  | _ => Raise invalid_packet
  end.

Definition _public_identifier (value : option string) : option string :=
  match value with
  | Some s => if _SAFE_TOKEN_RE s then Some s else None
  | None => None
  end.

(** The normalized packet; the last four fields are a step's. *)
Record step_fields := {
  pk_event : string;
  pk_expected_version : Z;
  pk_now : option Z;
  pk_budget_delta : option Z
}.

Record packet := {
  pk_task_id : string;
  pk_run_id : string;
  pk_recorded_at : Z;
  pk_step : option step_fields
}.

Definition pk_action (k : packet) : string :=
  match pk_step k with None => "create" | Some _ => "step" end.

(** [action not in LOOP_RUNNER_ACTIONS]: membership hashes the value. *)
Definition packet_action (value : option json) : result string :=
  match value with
  | Some (JStr s) => raise_if (s ∉? LOOP_RUNNER_ACTIONS) invalid_packet;; Ok s
  | Some (JArr _) => Raise (TypeError "unhashable type: 'list'")
  | Some (JObj _) => Raise (TypeError "unhashable type: 'dict'")
  | _ => Raise invalid_packet
  end.

Definition optional_int (d : list (string * json)) (k : string) : result (option Z) :=
  if has_key d k then z ← _non_negative_int (dict_get d k); Ok (Some z) else Ok None.

(** The checks every packet passes before its fields are read. *)
Definition check_envelope (d : list (string * json)) (action : string) : result unit :=
  let allowed := _COMMON_FIELDS ∪ (if action == "step" then _STEP_FIELDS else ∅) in
  let required := _COMMON_FIELDS ∪
    (if action == "step" then {["event"; "expected_version"]} else ∅) in
  raise_if ((fields_of d ∖ allowed != ∅) || (required ∖ fields_of d != ∅)) invalid_packet;;
  raise_if (negb (py_eq_str (dict_get d "schema") LOOP_RUNNER_PACKET_SCHEMA)) invalid_packet;;
  each (λ field, raise_if (negb (is_true (dict_get d field))) invalid_packet)
    ["public_safe"; "no_secrets"; "no_runtime_mutation"];;
  raise_if (negb (eq_bool_dict (dict_get d "authority_boundary") _EXPECTED_AUTHORITY_BOUNDARY))
    (LoopRunnerAdapterError "INVALID_AUTHORITY_BOUNDARY").

Definition _validate_packet (task_packet : json) : result packet :=
  match task_packet with
  | JObj d =>
      action ← packet_action (dict_get d "action");
      check_envelope d action;;
      task_id ← _safe_token (dict_get d "task_id");
      run_id ← _safe_token (dict_get d "run_id");
      recorded_at ← _non_negative_int (dict_get d "recorded_at");
      if action == "create" then
        Ok {| pk_task_id := task_id; pk_run_id := run_id; pk_recorded_at := recorded_at;
              pk_step := None |}
      else
        event ← match dict_get d "event" with
                | Some (JStr e) => some_or (event_of e) invalid_packet;; Ok e
                | _ => Raise invalid_packet
                end;
        expected_version ← _non_negative_int (dict_get d "expected_version");
        now ← optional_int d "now";
        budget_delta ← optional_int d "budget_delta";
        Ok {| pk_task_id := task_id; pk_run_id := run_id; pk_recorded_at := recorded_at;
              pk_step := Some {| pk_event := event; pk_expected_version := expected_version;
                                 pk_now := now; pk_budget_delta := budget_delta |} |}
  | _ => Raise invalid_packet
  end.

(** The receipt dict; [schema] and [public_safe: True] are constants and
    [external_side_effects_executed] is always [False]. *)
Record receipt := {
  rc_status : string;
  rc_action : option string;
  rc_task_id : option string;
  rc_run_id : option string;
  rc_version : option Z;
  rc_loop_state : string;
  rc_event : option string;
  rc_accepted : bool;
  rc_decision : string;
  rc_reason : string;
  rc_context_hash : option string
}.

Definition _receipt_for_run (action : string) (run : StoredLoopRun) (event : option LoopEvent)
    (accepted : bool) (decision : LoopDecision) (reason : string) : receipt :=
  {| rc_status := if accepted then state_value (lc_state (sr_context run)) else state_value BLOCKED;
     rc_action := Some action; rc_task_id := Some (sr_task_id run);
     rc_run_id := Some (sr_run_id run); rc_version := Some (sr_version run);
     rc_loop_state := state_value (lc_state (sr_context run));
     rc_event := event_value <$> event; rc_accepted := accepted;
     rc_decision := decision_value decision; rc_reason := reason;
     rc_context_hash := Some (sr_context_hash run) |}.

Definition _receipt_for_step (action : string) (step : LoopStepResult) : receipt :=
  let t := ls_transition step in
  _receipt_for_run action (ls_run step) (Some (lr_event t)) (lr_accepted t) (lr_decision t)
    (lr_reason t).

Definition _blocked_receipt (reason : string) (action task_id run_id event : option string) : receipt :=
  {| rc_status := state_value BLOCKED; rc_action := _public_identifier action;
     rc_task_id := _public_identifier task_id; rc_run_id := _public_identifier run_id;
     rc_version := None; rc_loop_state := state_value BLOCKED;
     rc_event := _public_identifier event; rc_accepted := false;
     rc_decision := decision_value D_REJECT; rc_reason := reason; rc_context_hash := None |}.

(** The [except] clauses, in their order; [None] is an exception they let
    through. *)
Definition blocked_reason (e : exn) : option string :=
  match e with
  | LoopRunnerAdapterError r => Some r
  | LoopStateConflictError _ => Some "LOOP_STATE_CONFLICT"
  | LoopStateCorruptionError _ => Some "LOOP_STATE_CORRUPTION"
  | LoopStateStoreError _ | IntegrityError _ => Some "LOOP_STATE_STORE_BLOCKED"
  | TypeError _ | ValueError _ | LoopPolicyProfileError _ _ | LoopRecoveryPacketError _ _ =>
      Some "INVALID_LOOP_TASK_PACKET"
  | _ => None
  end.

Section adapter.
Context {G : Type} (engine : LoopEngine G).

(** The body of the [try] once the packet is valid. *)
Definition run_packet (k : packet) : M (world G) receipt :=
  match pk_step k with
  | None =>
      run ← create engine (pk_run_id k) (pk_task_id k) (pk_recorded_at k) None;
      mret (_receipt_for_run (pk_action k) run None true D_CONTINUE "RUN_CREATED")
  | Some f =>
      current ← on_store (load_run (pk_run_id k));
      lift (raise_if (sr_task_id current != pk_task_id k)
        (LoopRunnerAdapterError "LOOP_TASK_ID_MISMATCH"));;
      event ← lift (some_or (event_of (pk_event f)) (ValueError "is not a valid LoopEvent"));
      r ← step engine (pk_run_id k) event (pk_recorded_at k) (pk_now f)
            (default 0 (pk_budget_delta f)) (Some (pk_expected_version f));
      mret (_receipt_for_step (pk_action k) r)
  end.

Definition run_loop_task_packet (task_packet : json) : M (world G) receipt :=
  let blocked action task_id run_id event (e : exn) : M (world G) receipt :=
    match blocked_reason e with
    | Some reason => mret (_blocked_receipt reason action task_id run_id event)
    | None => raise e
    end in
  match _validate_packet task_packet with
  | Raise e => blocked None None None None e
  | Ok k =>
      catch (run_packet k)
        (blocked (Some (pk_action k)) (Some (pk_task_id k)) (Some (pk_run_id k))
          (pk_event <$> pk_step k))
  end.
End adapter.

(** ** What the adapter lets through *)
Definition adapter_error (e : exn) : Prop := is_Some (blocked_reason e) ∨ ∃ m, e = OverflowError m.

Lemma only_adapter_raise {A} e : is_Some (blocked_reason e) → only_raises (A:=A) adapter_error (Raise e).
Proof. by left. Qed.

Ltac adapter_raises := raises; first [by left; eexists|by right; eexists].

Lemma encode_raises c : only_raises adapter_error (_encode_context c).
Proof. unfold _encode_context. adapter_raises. Qed.

Lemma spec_create_raises σ id task c t : only_raises adapter_error (spec_create σ id task c t).
Proof.
  unfold spec_create, LoopStore._safe_token, _non_negative, _encode_context, sqlite_int. adapter_raises.
Qed.

Lemma spec_append_raises σ id v r t : only_raises adapter_error (spec_append σ id v r t).
Proof.
  unfold spec_append, LoopStore._safe_token, _non_negative, _validate_result, _encode_context, sqlite_int.
  adapter_raises.
Qed.

Lemma advance_raises c e p now d : only_raises adapter_error (advance_loop c e p now d).
Proof.
  unfold advance_loop, limited, transition, _go, new_LoopContext, _opt_non_negative, _non_negative.
  adapter_raises.
Qed.

Lemma validate_raises k : only_raises (λ e, is_Some (blocked_reason e)) (_validate_packet k).
Proof.
  unfold _validate_packet, packet_action, check_envelope, _safe_token, _non_negative_int,
    optional_int, _non_negative_int. raises; by eexists.
Qed.
Lemma token_inv v s : _safe_token v = Ok s → _SAFE_TOKEN_RE s = true.
Proof.
  unfold _safe_token. destruct v as [[]|]; try discriminate.
  rewrite seq_ok, raise_if_ok, negb_false_iff, Ok_inj. by intros [? <-].
Qed.

Lemma int_inv v z : _non_negative_int v = Ok z → 0 ≤ z.
Proof.
  unfold _non_negative_int. destruct v as [[]|]; try discriminate.
  rewrite seq_ok, raise_if_ok, Z.ltb_ge, Ok_inj. by intros [? <-].
Qed.

Lemma validate_inv v k :
  _validate_packet v = Ok k →
  _SAFE_TOKEN_RE (pk_task_id k) = true ∧ _SAFE_TOKEN_RE (pk_run_id k) = true ∧ 0 ≤ pk_recorded_at k.
Proof.
  unfold _validate_packet. destruct v as [| | | | | |d]; try discriminate. intros H.
  apply result_bind_ok in H as (action & _ & H). rewrite seq_ok in H. destruct H as [_ H].
  apply result_bind_ok in H as (task & Ht%token_inv & H).
  apply result_bind_ok in H as (run & Hr%token_inv & H).
  apply result_bind_ok in H as (t & Hn%int_inv & H).
  destruct (action == "create"); [by injection H as <-|].
  repeat (let x := fresh in let Hx := fresh in apply result_bind_ok in H as (x & Hx & H)).
  by injection H as <-.
Qed.

Lemma optional_inv d k o : optional_int d k = Ok o → dict_get d k = JInt <$> o.
Proof.
  unfold optional_int. destruct (has_key d k) eqn:E.
  - intros (z & Hz & [= <-])%result_bind_ok. revert Hz. unfold _non_negative_int.
    destruct (dict_get d k) as [[]|]; try discriminate. by rewrite seq_ok, Ok_inj; intros [_ ->].
  - intros [= <-]. apply bool_decide_eq_false in E. apply not_elem_of_list_to_map_1.
    by rewrite <-Permutation_rev.
Qed.

Lemma event_inv s e : event_of s = Some e → s = event_value e.
Proof. unfold event_of. intros [_ H%bool_decide_eq_true]%find_some. done. Qed.

(** The fields of a valid packet. *)
Record packet_fields (d : list (string * json)) (k : packet) : Prop := {
  pf_action : dict_get d "action" = Some (JStr (pk_action k));
  pf_task : dict_get d "task_id" = Some (JStr (pk_task_id k));
  pf_run : dict_get d "run_id" = Some (JStr (pk_run_id k));
  pf_time : dict_get d "recorded_at" = Some (JInt (pk_recorded_at k));
  pf_step : ∀ f, pk_step k = Some f → dict_get d "event" = Some (JStr (pk_event f)) ∧
    dict_get d "expected_version" = Some (JInt (pk_expected_version f)) ∧
    dict_get d "now" = JInt <$> pk_now f ∧ dict_get d "budget_delta" = JInt <$> pk_budget_delta f
}.

Lemma token_field v s : _safe_token v = Ok s → v = Some (JStr s).
Proof.
  unfold _safe_token. destruct v as [[]|]; try discriminate. by rewrite seq_ok, Ok_inj; intros [_ ->].
Qed.

Lemma int_field v z : _non_negative_int v = Ok z → v = Some (JInt z).
Proof.
  unfold _non_negative_int. destruct v as [[]|]; try discriminate. by rewrite seq_ok, Ok_inj; intros [_ ->].
Qed.

Lemma action_field v a : packet_action v = Ok a → v = Some (JStr a) ∧ a ∈ LOOP_RUNNER_ACTIONS.
Proof.
  unfold packet_action. destruct v as [[]|]; try discriminate.
  rewrite seq_ok, raise_if_ok, negb_false_iff, bool_decide_eq_true, Ok_inj. by intros [? ->].
Qed.

Lemma packet_fields_inv v k : _validate_packet v = Ok k → ∃ d, v = JObj d ∧ packet_fields d k.
Proof.
  unfold _validate_packet. destruct v as [| | | | | |d]; try discriminate. intros H. exists d. split; [done|].
  apply result_bind_ok in H as (action & [Hact Hin]%action_field & H). rewrite seq_ok in H. destruct H as [_ H].
  apply result_bind_ok in H as (task & Ht%token_field & H).
  apply result_bind_ok in H as (run & Hr%token_field & H).
  apply result_bind_ok in H as (t & Hn%int_field & H).
  destruct (action == "create") eqn:Ea.
  { apply bool_decide_eq_true in Ea as ->. injection H as <-. by split. }
  apply elem_of_cons in Hin as [->|Hin]; [discriminate|]. apply list_elem_of_singleton in Hin as ->.
  apply result_bind_ok in H as (e & He & H). apply result_bind_ok in H as (n & Hv%int_field & H).
  apply result_bind_ok in H as (now & Hnow%optional_inv & H).
  apply result_bind_ok in H as (b & Hb%optional_inv & H). injection H as <-. split; try done.
  intros f [= <-]. cbn. split; [|done]. destruct (dict_get d "event") as [[]|]; try discriminate.
  by apply result_bind_ok in He as (? & _ & [= ->]).
Qed.

(** A run that was just created. *)
Definition new_run (task : string) (t : Z) : SRun :=
  {| s_task := task; s_created := t; s_init := default_context; s_log := [] |}.

Section outcomes.
Context {G : Type} (engine : LoopEngine G) (Hgraph : le_domain_event_graph engine = None).

(** What a call leaves: a value and a new abstract store the tables represent, or
    an error the adapter knows and no change. *)
Definition outcome {A} (good : spec_store → A → Prop) (w : world G) (rs : result A * world G) : Prop :=
  match rs with
  | (Ok a, w') => ∃ σ', represents σ' w'.1 ∧ good σ' a
  | (Raise e, w') => adapter_error e ∧ w' = w
  end.

Lemma outcome_refines {A} (σ' : result spec_store) (good : spec_store → A → Prop) (w : world G) rs :
  only_raises adapter_error σ' → refines σ' good w.1 rs →
  outcome good w (rs.1, (rs.2, w.2)).
Proof.
  destruct σ' as [σ'|e]; cbn [refines only_raises].
  - intros _ (a & s' & -> & Hg & Hrep). by exists σ'.
  - intros He ->. cbn. split; [done|]. by destruct w.
Qed.

Lemma spec_create_ok σ id task c t σ' : spec_create σ id task c t = Ok σ' →
  σ !! id = None ∧ σ' = <[id := {| s_task := task; s_created := t; s_init := c; s_log := [] |}]> σ.
Proof.
  unfold spec_create. intros Es. do 2 (apply result_bind_ok in Es as (_ & _ & Es)).
  rewrite seq_ok in Es. destruct Es as [_ Es]. do 2 (apply result_bind_ok in Es as (_ & _ & Es)).
  rewrite seq_ok, raise_if_ok, bool_decide_eq_false, <-eq_None_not_Some in Es. by destruct Es as [? [= <-]].
Qed.

(** A new run, and the run it is stored as. *)
Lemma create_outcome σ (w : world G) id task t :
  represents σ w.1 →
  outcome (λ σ' a, σ !! id = None ∧ a = stored_of id (new_run task t) ∧ σ' = <[id := new_run task t]> σ) w
    (create engine id task t None w).
Proof.
  intros Hrep. pose proof (create_refines σ (w.1) id task default_context t Hrep (fr_ok _ default_fresh)) as H.
  destruct (spec_create σ id task default_context t) as [σ'|e] eqn:Es.
  - apply spec_create_ok in Es as [Hn ->]. destruct H as (a & s' & E & Hr & Hrep').
    unfold returns_run in Hr. rewrite lookup_insert_eq in Hr. injection Hr as <-.
    unfold create, on_store, zoom, _record_dependency. rewrite Hgraph. m_run. cbn [default].
    rewrite E. by eexists.
  - pose proof (spec_create_raises σ id task default_context t) as Hr. rewrite Es in Hr.
    cbn [refines] in H. unfold create, on_store, zoom. m_run. cbn [default].
    rewrite H. split; [exact Hr|by destruct w].
Qed.

Lemma load_outcome σ (w : world G) id :
  represents σ w.1 →
  match load_run id w.1 with
  | (Ok a, s) => s = w.1 ∧ ∃ run, σ !! id = Some run ∧ a = stored_of id run
  | (Raise e, s) => adapter_error e ∧ s = w.1
  end.
Proof.
  intros Hrep. destruct (LoopStore._safe_token id "run_id") as [i|e] eqn:E.
  - apply safe_token_ok in E as [Hid _]. destruct (reads_refine σ _ id Hrep Hid) as [-> _].
    destruct (σ !! id) as [run|]; [by eauto|]. split; [|done]. left. by eexists.
  - unfold load_run. rewrite E. cbn. split; [|done].
    assert (only_raises adapter_error (LoopStore._safe_token id "run_id")) as H
      by (unfold LoopStore._safe_token; adapter_raises).
    by rewrite E in H.
Qed.

(** A stored step: a step of the controller from the run's context, at the end of
    its log. *)
Definition steps (σ : spec_store) id e t now d (σ' : spec_store) (a : LoopStepResult) : Prop :=
  ∃ run r, σ !! id = Some run ∧
    loop_step (le_policy engine) (s_context run) e now (budget_used (s_context run) + d) r ∧
    lr_event r = e ∧ a = {| ls_run := stored_of id (s_push run (r, t)); ls_transition := r |} ∧
    σ' = <[id := s_push run (r, t)]> σ.

Lemma step_event p c e now b r : loop_step p c e now b r → lr_event r = e.
Proof. by destruct 1. Qed.

Lemma step_outcome σ (w : world G) id e t now d v :
  represents σ w.1 →
  outcome (λ σ' a, steps σ id e t now d σ' a ∧
    ∀ n, v = Some n → ∃ run, σ !! id = Some run ∧ s_version run = n) w (step engine id e t now d v w).
Proof.
  intros Hrep. unfold step, on_store, zoom, _record_dependency. rewrite Hgraph. m_run.
  pose proof (load_outcome σ w id Hrep) as Hl.
  destruct (load_run id (w.1)) as [[a|ex] s1]; [|destruct Hl as [? ->]; by destruct w].
  destruct Hl as [-> (run & Hrun & ->)].
  cbn [fst snd stored_of sr_version sr_context].
  match goal with |- context [match ?m with Ok _ => _ | Raise _ => _ end] =>
    assert (only_raises adapter_error m) as Hm
      by (destruct v; [unfold _non_negative; destruct (_ <? _); cbn|]; adapter_raises);
    destruct m as [[]|ex] eqn:Ev end; [|cbn in Hm |- *; by destruct w].
  pose proof (advance_raises (s_context run) e (le_policy engine) now d) as Ha.
  destruct (advance_loop _ _ _ _ _) as [r|ex] eqn:Er; [|cbn in Ha |- *; by destruct w].
  pose proof (context_ok σ _ id run Hrep Hrun) as Hc.
  destruct (advance_args _ _ _ _ _ _ Er) as [Hnow Hd].
  destruct (advance_steps (le_policy engine) _ e now d Hc Hnow Hd) as (r' & Hr' & Hs). rewrite Er in Hr'. injection Hr' as <-.
  destruct (advance_facts _ _ _ _ _ _ Hc Er) as [Hprev Hcur].
  assert (Hp : ctx_ok (lr_previous r)) by (rewrite Hprev; exact Hc).
  pose proof (append_refines σ (w.1) id (s_version run) r t Hrep Hp Hcur) as H.
  pose proof (spec_append_raises σ id (s_version run) r t) as Hraise.
  destruct (spec_append σ id (s_version run) r t) as [σ'|ex] eqn:Es; cbn [refines] in H.
  - apply append_ok_inv in Es as (run' & Hr' & _ & _ & ->). rewrite Hrun in Hr'. injection Hr' as <-.
    destruct H as (a & s' & -> & Ha' & Hrep'). unfold returns_run in Ha'.
    rewrite lookup_insert_eq in Ha'. injection Ha' as <-. cbn. eexists. split; [exact Hrep'|]. split.
    + exists run, r. split_and!; try done. by eapply step_event.
    + intros n ->. destruct (_non_negative n _); [|discriminate].
      apply raise_if_ok, negb_false_iff, bool_decide_eq_true in Ev. by exists run.
  - rewrite H. split; [exact Hraise|by destruct w].
Qed.

(** A receipt that names the state of a run. *)
Record reports (id : string) (run : SRun) (rc : receipt) : Prop := {
  rp_run : rc_run_id rc = Some id;
  rp_task : rc_task_id rc = Some (s_task run);
  rp_version : rc_version rc = Some (s_version run);
  rp_state : rc_loop_state rc = state_value (lc_state (s_context run));
  rp_hash : rc_context_hash rc = Some (text_hash (context_text (s_context run)));
  rp_status : rc_status rc = if rc_accepted rc then rc_loop_state rc else "BLOCKED"
}.

Lemma receipt_reports id run action event acc dec reason :
  reports id run (_receipt_for_run action (stored_of id run) event acc dec reason).
Proof. by split. Qed.

(** What an answered packet did: it stored the new run it asks for, or one step of the
    run it names, taken at the version it expects, with its event, time and budget;
    and the receipt reports that run. *)
Inductive performed (d : list (string * json)) (σ : spec_store) : spec_store → receipt → Prop :=
  | performed_create id task t rc :
      dict_get d "action" = Some (JStr "create") → dict_get d "run_id" = Some (JStr id) →
      dict_get d "task_id" = Some (JStr task) → dict_get d "recorded_at" = Some (JInt t) →
      σ !! id = None → reports id (new_run task t) rc → rc_accepted rc = true →
      rc_event rc = None → rc_reason rc = "RUN_CREATED" →
      performed d σ (<[id := new_run task t]> σ) rc
  | performed_step id t e n now b run r rc :
      dict_get d "action" = Some (JStr "step") → dict_get d "run_id" = Some (JStr id) →
      dict_get d "recorded_at" = Some (JInt t) → dict_get d "event" = Some (JStr (event_value e)) →
      dict_get d "expected_version" = Some (JInt n) → dict_get d "now" = JInt <$> now →
      dict_get d "budget_delta" = JInt <$> b →
      σ !! id = Some run → s_version run = n → dict_get d "task_id" = Some (JStr (s_task run)) →
      loop_step (le_policy engine) (s_context run) e now (budget_used (s_context run) + default 0 b) r →
      reports id (s_push run (r, t)) rc → rc_accepted rc = lr_accepted r →
      rc_event rc = Some (event_value e) → rc_decision rc = decision_value (lr_decision r) →
      rc_reason rc = lr_reason r →
      performed d σ (<[id := s_push run (r, t)]> σ) rc.

Lemma run_packet_outcome σ (w : world G) d k : packet_fields d k →
  represents σ w.1 → outcome (performed d σ) w (run_packet engine k w).
Proof.
  intros [Hact Htask Hid Ht Hstep] Hrep. unfold run_packet.
  destruct (pk_step k) as [f|] eqn:Ek; unfold pk_action in Hact; rewrite Ek in Hact.
  - destruct (Hstep f eq_refl) as (Hev & Hn & Hnow & Hb). clear Hstep.
    m_run. unfold on_store, zoom. pose proof (load_outcome σ w (pk_run_id k) Hrep) as Hl.
    destruct (load_run (pk_run_id k) (w.1)) as [[a|ex] s1];
      [destruct Hl as [-> (run & Hrun & ->)]|destruct Hl as [? ->]; by destruct w].
    replace ((w.1, w.2) : world G) with w by by destruct w. cbn [stored_of sr_task_id].
    destruct (s_task run != pk_task_id k) eqn:Etask; cbn [raise_if]; [split; [left; by eexists|done]|].
    apply negb_false_iff, bool_decide_eq_true in Etask.
    destruct (event_of (pk_event f)) as [e|] eqn:Ee; cbn [some_or]; [|split; [left; by eexists|done]].
    apply event_inv in Ee.
    pose proof (step_outcome σ w (pk_run_id k) e (pk_recorded_at k) (pk_now f)
      (default 0 (pk_budget_delta f)) (Some (pk_expected_version f)) Hrep) as H.
    destruct (step _ _ _ _ _ _ _ w) as [[a|ex] w']; [|exact H].
    destruct H as (σ' & Hrep' & (run' & r & Hrun' & Hs & Her & -> & ->) & Hv).
    rewrite Hrun in Hrun'. injection Hrun' as <-.
    destruct (Hv _ eq_refl) as (run' & Hrun' & Hver). rewrite Hrun in Hrun'. injection Hrun' as <-.
    eexists. split; [exact Hrep'|].
    eapply performed_step; try done; [by rewrite <-Ee|by rewrite Etask|].
    cbn. by rewrite Her.
  - m_run. pose proof (create_outcome σ w (pk_run_id k) (pk_task_id k) (pk_recorded_at k) Hrep) as H.
    destruct (create _ _ _ _ _ w) as [[a|ex] w']; [|exact H].
    destruct H as (σ' & Hrep' & Hn & -> & ->). eexists. split; [exact Hrep'|].
    by eapply performed_create.
Qed.

(** A receipt that reports a refusal: it names no version and no context. *)
Definition blocked (rc : receipt) : Prop :=
  rc_accepted rc = false ∧ rc_version rc = None ∧ rc_context_hash rc = None ∧
  rc_status rc = "BLOCKED" ∧ rc_decision rc = "REJECT".

(** The adapter's answer to any value. *)
Lemma adapter_outcome σ (w : world G) task_packet r w' :
  represents σ w.1 → run_loop_task_packet engine task_packet w = (r, w') →
  match r with
  | Ok rc => (blocked rc ∧ w' = w) ∨
      ∃ d σ', task_packet = JObj d ∧ represents σ' w'.1 ∧ performed d σ σ' rc
  | Raise e => (∃ m, e = OverflowError m) ∧ w' = w
  end.
Proof.
  intros Hrep. unfold run_loop_task_packet.
  pose proof (validate_raises task_packet) as Hv.
  destruct (_validate_packet task_packet) as [k|e] eqn:Ek.
  2: { cbn in Hv. destruct Hv as [reason ->]. intros [= <- <-]. by left. }
  apply packet_fields_inv in Ek as (d & -> & Hfields).
  unfold catch. pose proof (run_packet_outcome σ w d k Hfields Hrep) as H.
  destruct (run_packet engine k w) as [[rc|e] w1]; cbn [outcome] in H.
  - intros [= <- <-]. right. destruct H as (σ' & ? & ?). by exists d, σ'.
  - destruct H as [He ->]. destruct (blocked_reason e) as [reason|] eqn:Eb.
    + intros [= <- <-]. by left.
    + intros [= <- <-]. split; [|done]. destruct He as [He|He]; [|done]. rewrite Eb in He. by destruct He.
Qed.

(** A receipt tells the truth.  Whatever value is given as a packet, the
    adapter answers with a receipt (the one exception is an integer SQLite cannot
    hold, and then nothing has changed): either the receipt is blocked and the
    tables are as before, or the tables hold the new run or the step of the
    controller that the packet asks for, and nothing else changed, and the receipt
    names that run with the version, the state and the context hash it now has. *)
Theorem adapter_truthful σ (w : world G) task_packet r w' :
  represents σ w.1 → run_loop_task_packet engine task_packet w = (r, w') →
  match r with
  | Ok rc => (blocked rc ∧ w' = w) ∨
      ∃ d σ', task_packet = JObj d ∧ represents σ' w'.1 ∧ performed d σ σ' rc
  | Raise e => (∃ m, e = OverflowError m) ∧ w' = w
  end.
Proof. apply adapter_outcome. Qed.

End outcomes.

(** That exception is real: a valid packet that creates a run, with a
    [recorded_at] of 2^63 or more, passes every check of the adapter and then
    escapes it - the caller gets an [OverflowError] instead of a receipt. *)
Theorem adapter_overflow_escapes {G} (engine : LoopEngine G) (w : world G) task_packet k :
  _validate_packet task_packet = Ok k → pk_step k = None → 2 ^ 63 ≤ pk_recorded_at k →
  run_loop_task_packet engine task_packet w
    = (Raise (OverflowError "Python int too large to convert to SQLite INTEGER"), w).
Proof.
  intros Hk Hs Ht. unfold run_loop_task_packet. rewrite Hk. unfold catch, run_packet. rewrite Hs.
  destruct (validate_inv _ _ Hk) as (Htask & Hrun & H0).
  assert (create engine (pk_run_id k) (pk_task_id k) (pk_recorded_at k) None w
    = (Raise (OverflowError "Python int too large to convert to SQLite INTEGER"), w)) as Hc.
  { unfold create, on_store, zoom, create_run. rewrite !safe_token_id by done. m_run. cbn [default].
    rewrite (proj2 (non_negative_ok _ _)) by done. rewrite encode_storable by apply default_storable.
    rewrite sqlite_int_out by done. by destruct w. }
  m_run. by rewrite Hc.
Qed.

(** ** Witnesses *)
Definition demo_packet (t : Z) : json := JObj [
  ("schema", JStr LOOP_RUNNER_PACKET_SCHEMA); ("action", JStr "create"); ("task_id", JStr "task-1");
  ("run_id", JStr "run-2"); ("recorded_at", JInt t); ("public_safe", JBool true);
  ("no_secrets", JBool true); ("no_runtime_mutation", JBool true);
  ("authority_boundary", JObj [("operational_state_write", JBool true);
    ("external_side_effects_allowed", JBool false); ("runtime_mutation_allowed", JInt 0)])].

Definition demo_normalized (t : Z) : packet :=
  {| pk_task_id := "task-1"; pk_run_id := "run-2"; pk_recorded_at := t; pk_step := None |}.

Lemma adapter_truthful_witness :
  ∃ w', run_loop_task_packet demo_engine (JInt 3) (demo_store, tt)
      = (Ok (_blocked_receipt "INVALID_LOOP_TASK_PACKET" None None None None), w') ∧
    w' = (demo_store, tt).
Proof.
  assert (E : run_loop_task_packet demo_engine (JInt 3) (demo_store, tt)
    = (Ok (_blocked_receipt "INVALID_LOOP_TASK_PACKET" None None None None), (demo_store, tt)))
    by reflexivity.
  eexists. split; [exact E|].
  destruct (adapter_truthful demo_engine eq_refl demo_spec (demo_store, tt) (JInt 3) _ _
    demo_represents E) as [[_ H]|(d & σ' & H & _)]; [exact H|discriminate H].
Defined.

Lemma adapter_overflow_escapes_witness :
  run_loop_task_packet demo_engine (demo_packet (2 ^ 63)) (demo_store, tt)
  = (Raise (OverflowError "Python int too large to convert to SQLite INTEGER"), (demo_store, tt)).
Proof.
  apply (adapter_overflow_escapes demo_engine (demo_store, tt) (demo_packet (2 ^ 63))
    (demo_normalized (2 ^ 63))); [vm_compute; reflexivity|reflexivity|reflexivity || (cbn; lia)].
Defined.
