(* ===== verification/LoopRecovery.v ===== *)
(** * Loop recovery packets

    [src/core/loop_recovery_packet.py]: the instruction for one recovery
    transition of a loop, read from and written to a mapping. *)

From S2P Require Import Prelude.
From S2P Require Import PyStr.
From S2P Require Import Json.
From S2P Require Import Sha256.
From S2P Require Import Loop.
From S2P Require Import LoopStore.

Definition LOOP_RECOVERY_PACKET_SCHEMA : string := "skeleton.loop_recovery_packet.v1".
Definition LOOP_RECOVERY_ACTIONS : list string := ["resume_checkpointed"; "record_lease_expired"].
Definition _REQUIRED_FIELDS : list string :=
  ["schema"; "action"; "task_id"; "run_id"; "expected_version"; "expected_state"; "policy_profile";
   "approval_reference"; "idempotency_key"; "recovery_reason"; "public_safe"; "no_secrets";
   "no_external_side_effects"].

Record LoopRecoveryPacket := {
  lp_schema : string;
  lp_action : string;
  lp_task_id : string;
  lp_run_id : string;
  lp_expected_version : Z;
  lp_expected_state : LoopState;
  lp_policy_profile : string;
  lp_approval_reference : string;
  lp_idempotency_key : string;
  lp_recovery_reason : string;
  lp_public_safe : bool;
  lp_no_secrets : bool;
  lp_no_external_side_effects : bool
}.

Definition _ACTION_EVENTS (action : string) : option LoopEvent :=
  if action == "resume_checkpointed" then Some STARTED
  else if action == "record_lease_expired" then Some LEASE_EXPIRED
  else None.

Definition _ACTION_STATES (action : string) : list LoopState :=
  if action == "resume_checkpointed" then [CHECKPOINTED]
  else if action == "record_lease_expired" then LEASED
  else [].

Definition perr (code message : string) : exn := LoopRecoveryPacketError code message.

Definition _safe_token (value : option json) (field : string) : result string :=
  let error := perr "INVALID_LOOP_RECOVERY_TOKEN" (field +:+ " must be a bounded public-safe token") in
  match value with
  | Some (JStr s) => raise_if (negb (_SAFE_TOKEN_RE s)) error;; Ok s
  | _ => Raise error
  end.

(** [unknown] and [missing], sorted; the first is named in the message. *)
Definition check_fields (d : list (string * json)) : result unit :=
  match sorted_set (List.filter (λ k, k ∉? _REQUIRED_FIELDS) d.*1) with
  | k :: _ => Raise (perr "UNKNOWN_LOOP_RECOVERY_FIELD" ("unknown Loop recovery field: " +:+ k))
  | [] =>
      match sorted_set (List.filter (λ k, negb (has_key d k)) _REQUIRED_FIELDS) with
      | k :: _ => Raise (perr "MISSING_LOOP_RECOVERY_FIELD" ("missing Loop recovery field: " +:+ k))
      | [] => Ok tt
      end
  end.

Definition packet_action (v : option json) : result string :=
  let error := perr "INVALID_LOOP_RECOVERY_ACTION" "unsupported Loop recovery action" in
  match v with
  | Some (JStr a) => raise_if (a ∉? LOOP_RECOVERY_ACTIONS) error;; Ok a
  | _ => Raise error
  end.

Definition packet_version (v : option json) : result Z :=
  let error := perr "INVALID_LOOP_RECOVERY_VERSION" "expected_version must be a non-negative integer" in
  match v with
  | Some (JInt z) => raise_if (z <? 0) error;; Ok z
  | _ => Raise error
  end.

Definition packet_state (v : option json) (action : string) : result LoopState :=
  match v with
  | Some (JStr s) =>
      state ← some_or (state_of s)
        (perr "INVALID_LOOP_RECOVERY_STATE" "expected_state is not a registered Loop state");
      raise_if (state ∉? _ACTION_STATES action)
        (perr "LOOP_RECOVERY_STATE_MISMATCH" "recovery action is not valid for expected_state");;
      Ok state
  | _ => Raise (perr "INVALID_LOOP_RECOVERY_STATE" "expected_state must be a Loop state string")
  end.

(** [resolve_loop_policy_profile], its errors re-raised. *)
Definition check_profile (policy_profile : string) : result unit :=
  match resolve_loop_policy_profile (JStr policy_profile) with
  | Ok _ => Ok tt
  | Raise (LoopPolicyProfileError code message) => Raise (perr code message)
  | Raise e => Raise e
  end.

Definition from_mapping (value : json) : result LoopRecoveryPacket :=
  match value with
  | JObj d =>
      check_fields d;;
      raise_if (negb (py_eq_str (dict_get d "schema") LOOP_RECOVERY_PACKET_SCHEMA))
        (perr "INVALID_LOOP_RECOVERY_SCHEMA" "invalid Loop recovery packet schema");;
      action ← packet_action (dict_get d "action");
      expected_version ← packet_version (dict_get d "expected_version");
      expected_state ← packet_state (dict_get d "expected_state") action;
      each (λ field, raise_if (negb (is_true (dict_get d field)))
          (perr "INVALID_LOOP_RECOVERY_BOUNDARY" (field +:+ " must be true")))
        ["public_safe"; "no_secrets"; "no_external_side_effects"];;
      task_id ← _safe_token (dict_get d "task_id") "task_id";
      run_id ← _safe_token (dict_get d "run_id") "run_id";
      policy_profile ← _safe_token (dict_get d "policy_profile") "policy_profile";
      approval_reference ← _safe_token (dict_get d "approval_reference") "approval_reference";
      idempotency_key ← _safe_token (dict_get d "idempotency_key") "idempotency_key";
      recovery_reason ← _safe_token (dict_get d "recovery_reason") "recovery_reason";
      check_profile policy_profile;;
      Ok {| lp_schema := LOOP_RECOVERY_PACKET_SCHEMA; lp_action := action; lp_task_id := task_id;
            lp_run_id := run_id; lp_expected_version := expected_version;
            lp_expected_state := expected_state; lp_policy_profile := policy_profile;
            lp_approval_reference := approval_reference; lp_idempotency_key := idempotency_key;
            lp_recovery_reason := recovery_reason; lp_public_safe := true; lp_no_secrets := true;
            lp_no_external_side_effects := true |}
  | _ => Raise (perr "INVALID_LOOP_RECOVERY_PACKET" "Loop recovery packet must be a mapping")
  end.

Definition event (p : LoopRecoveryPacket) : result LoopEvent :=
  some_or (_ACTION_EVENTS (lp_action p)) (KeyError (lp_action p)).

Definition mapping_fields (p : LoopRecoveryPacket) : list (string * json) :=
  [("schema", JStr (lp_schema p)); ("action", JStr (lp_action p)); ("task_id", JStr (lp_task_id p));
   ("run_id", JStr (lp_run_id p)); ("expected_version", JInt (lp_expected_version p));
   ("expected_state", JStr (state_value (lp_expected_state p)));
   ("policy_profile", JStr (lp_policy_profile p));
   ("approval_reference", JStr (lp_approval_reference p));
   ("idempotency_key", JStr (lp_idempotency_key p));
   ("recovery_reason", JStr (lp_recovery_reason p)); ("public_safe", JBool (lp_public_safe p));
   ("no_secrets", JBool (lp_no_secrets p));
   ("no_external_side_effects", JBool (lp_no_external_side_effects p))].

Definition to_mapping (p : LoopRecoveryPacket) : json := JObj (mapping_fields p).

(** ** Properties of recovery packets *)

(** What a constructed packet satisfies. *)
Record packet_ok (p : LoopRecoveryPacket) : Prop := {
  po_schema : lp_schema p = LOOP_RECOVERY_PACKET_SCHEMA;
  po_action : lp_action p ∈ LOOP_RECOVERY_ACTIONS;
  po_version : 0 ≤ lp_expected_version p;
  po_state : lp_expected_state p ∈ _ACTION_STATES (lp_action p);
  po_tokens : ∀ s, s ∈ [lp_task_id p; lp_run_id p; lp_policy_profile p; lp_approval_reference p;
    lp_idempotency_key p; lp_recovery_reason p] → _SAFE_TOKEN_RE s = true;
  po_profile : lp_policy_profile p ∈ registered_loop_policy_profiles;
  po_boundary : lp_public_safe p = true ∧ lp_no_secrets p = true ∧ lp_no_external_side_effects p = true
}.

Lemma token_ok v field s : _safe_token v field = Ok s ↔ v = Some (JStr s) ∧ _SAFE_TOKEN_RE s = true.
Proof.
  unfold _safe_token. destruct v as [[| | | |x| |]|]; try (split; [discriminate|intros [? _]; congruence]).
  rewrite seq_ok, raise_if_ok, negb_false_iff, Ok_inj. naive_solver.
Qed.

Lemma check_profile_ok name :
  check_profile name = Ok tt ↔ name ≠ "" ∧ name ∈ registered_loop_policy_profiles.
Proof.
  unfold check_profile, resolve_loop_policy_profile.
  destruct (falsy name) eqn:Ef; cbn [raise_if mbind result_bind].
  - split; [discriminate|]. apply falsy_spec in Ef. by intros [].
  - unfold falsy in Ef. apply bool_decide_eq_false in Ef.
    destruct (_PROFILES !! name) as [p|] eqn:E; cbn [some_or].
    + apply profile_lookup in E as [? _]. by split.
    + split; [discriminate|]. intros [_ Hr]. exfalso.
      assert (_PROFILES !! name = Some default_bounded) by by apply profile_lookup. congruence.
Qed.

Lemma packet_inv v p : from_mapping v = Ok p → packet_ok p.
Proof.
  unfold from_mapping. destruct v as [| | | | | |d]; try discriminate.
  rewrite seq_ok. intros [_ H]. rewrite seq_ok in H. destruct H as [_ H].
  apply result_bind_ok in H as (action & Ha & H). apply result_bind_ok in H as (ver & Hv & H).
  apply result_bind_ok in H as (st & Hs & H). rewrite seq_ok in H. destruct H as [_ H].
  do 6 (let s := fresh "s" in let Ht := fresh "Ht" in
    apply result_bind_ok in H as (s & Ht & H); apply token_ok in Ht as [_ Ht]).
  rewrite seq_ok, check_profile_ok in H. destruct H as [[_ Hp] [= <-]].
  split; cbn; try done.
  - unfold packet_action in Ha. destruct (dict_get d "action") as [[]|]; try discriminate.
    rewrite seq_ok, raise_if_ok, negb_false_iff, bool_decide_eq_true in Ha. by destruct Ha as [? [= <-]].
  - unfold packet_version in Hv. destruct (dict_get d "expected_version") as [[]|]; try discriminate.
    rewrite seq_ok, raise_if_ok, Z.ltb_ge in Hv. by destruct Hv as [? [= <-]].
  - unfold packet_state in Hs. destruct (dict_get d "expected_state") as [[]|]; try discriminate.
    apply some_bind_ok in Hs as (st' & _ & Hs).
    rewrite seq_ok, raise_if_ok, negb_false_iff, bool_decide_eq_true in Hs. by destruct Hs as [? [= <-]].
  - intros x. rewrite !elem_of_cons, elem_of_nil. naive_solver.
Qed.

Lemma mapping_get p k v : (k, v) ∈ mapping_fields p → dict_get (mapping_fields p) k = Some v.
Proof. apply dict_get_nodup. by_decide. Qed.

(** Membership in a literal list. *)
Ltac mem := solve [unfold mapping_fields; repeat first [left | right]].

(** Each field of the mapping passes its check. *)
Lemma token_get p k s field :
  (k, JStr s) ∈ mapping_fields p → _SAFE_TOKEN_RE s = true →
  _safe_token (dict_get (mapping_fields p) k) field = Ok s.
Proof. intros Hk Hs. rewrite (mapping_get p k _ Hk). by apply token_ok. Qed.

Lemma from_to_mapping p : packet_ok p → from_mapping (to_mapping p) = Ok p.
Proof.
  intros [Hsch Hact Hver Hst Htok Hprof (Hb1 & Hb2 & Hb3)]. unfold from_mapping, to_mapping.
  assert (check_fields (mapping_fields p) = Ok tt) as -> by (vm_compute; reflexivity).
  rewrite (mapping_get p "schema" (JStr (lp_schema p))) by mem.
  rewrite (mapping_get p "action" (JStr (lp_action p))) by mem.
  rewrite (mapping_get p "expected_version" (JInt (lp_expected_version p))) by mem.
  rewrite (mapping_get p "expected_state" (JStr (state_value (lp_expected_state p)))) by mem.
  cbn [mbind result_bind py_eq_str packet_action packet_version packet_state each].
  rewrite (mapping_get p "public_safe" (JBool (lp_public_safe p))) by mem.
  rewrite (mapping_get p "no_secrets" (JBool (lp_no_secrets p))) by mem.
  rewrite (mapping_get p "no_external_side_effects" (JBool (lp_no_external_side_effects p)))
    by mem.
  rewrite Hb1, Hb2, Hb3, (bool_decide_eq_true_2 _ Hsch), (bool_decide_eq_true_2 _ Hact).
  rewrite (proj2 (Z.ltb_ge _ _)) by done. cbn [negb raise_if mbind result_bind].
  rewrite state_roundtrip. cbn [some_or mbind result_bind]. rewrite (bool_decide_eq_true_2 _ Hst).
  cbn [negb raise_if mbind result_bind is_true].
  rewrite (token_get p "task_id" (lp_task_id p)) by (mem || (apply Htok; mem)).
  rewrite (token_get p "run_id" (lp_run_id p)) by (mem || (apply Htok; mem)).
  rewrite (token_get p "policy_profile" (lp_policy_profile p)) by (mem || (apply Htok; mem)).
  rewrite (token_get p "approval_reference" (lp_approval_reference p))
    by (mem || (apply Htok; mem)).
  rewrite (token_get p "idempotency_key" (lp_idempotency_key p))
    by (mem || (apply Htok; mem)).
  rewrite (token_get p "recovery_reason" (lp_recovery_reason p))
    by (mem || (apply Htok; mem)).
  cbn [mbind result_bind].
  assert (check_profile (lp_policy_profile p) = Ok tt) as ->.
  { apply check_profile_ok. split; [|done]. intros E. rewrite registered_profiles in Hprof.
    apply list_elem_of_singleton in Hprof. by rewrite E in Hprof. }
  cbn [mbind result_bind]. f_equal. rewrite <-Hsch. destruct p; cbn in *; by subst.
Qed.

(** A recovery packet survives its own mapping: what [from_mapping] accepts
    is a well-formed packet - a registered action in a state it applies to, a
    registered policy, bounded tokens, the three boundaries declared - and
    [to_mapping] writes it back to a mapping that is read as the same packet. *)
Theorem packet_roundtrip v p :
  from_mapping v = Ok p → packet_ok p ∧ from_mapping (to_mapping p) = Ok p.
Proof. intros H%packet_inv. split; [exact H|]. by apply from_to_mapping. Qed.

(** The transition of a recovery packet is a legal one: in the state the
    packet expects, the controller accepts the packet's event under every policy,
    at every time and budget - it resumes, checkpoints or halts the loop, but
    never rejects. *)
Theorem packet_event_accepted v p policy c now d :
  from_mapping v = Ok p → lc_state c = lp_expected_state p → ctx_ok c → opt_nonneg now → 0 ≤ d →
  ∃ e r, event p = Ok e ∧ advance_loop c e policy now d = Ok r ∧ lr_accepted r = true.
Proof.
  intros H%packet_inv Hstate Hc Hn Hd. destruct H as [_ Ha _ Hs _ _ _].
  assert (∃ e, event p = Ok e ∧ ((e = STARTED ∧ lc_state c = CHECKPOINTED) ∨
    (e = LEASE_EXPIRED ∧ lc_state c ∈ LEASED))) as (e & Hev & Hcase).
  { unfold event, _ACTION_EVENTS, _ACTION_STATES in *. rewrite <-Hstate in Hs.
    apply elem_of_cons in Ha as [Ha|Ha]; [|apply list_elem_of_singleton in Ha]; rewrite Ha in Hs |- *;
      cbn in Hs |- *; (eexists; split; [reflexivity|]); [left|right; by split].
    split; [done|]. by apply list_elem_of_singleton in Hs. }
  destruct (advance_steps policy c e now d Hc Hn Hd) as (r & Hadv & Hstep).
  exists e, r. split; [exact Hev|]. split; [exact Hadv|]. clear Hadv.
  assert (lc_state c ∉ HALTED) as Hlive.
  { destruct Hcase as [[_ ->]|[_ H]]; [by_decide|by apply leased_live]. }
  step_cases Hstep; try done.
  - destruct Hcase as [[-> _]|[_ H]]; [discriminate|]. rewrite Hst in H. contradict H. by_decide.
  - destruct Hcase as [[-> H]|[-> _]]; [by rewrite H in Hp|].
    by destruct (proj2 (lim_ordinary _ _ _ _ _ Hin)).
Qed.

(** ** Witnesses *)
Definition demo_packet : LoopRecoveryPacket :=
  {| lp_schema := LOOP_RECOVERY_PACKET_SCHEMA; lp_action := "record_lease_expired";
     lp_task_id := "task-1"; lp_run_id := "run-1"; lp_expected_version := 4;
     lp_expected_state := RUNNING; lp_policy_profile := "default_bounded";
     lp_approval_reference := "gh:5"; lp_idempotency_key := "idem-1"; lp_recovery_reason := "expired";
     lp_public_safe := true; lp_no_secrets := true; lp_no_external_side_effects := true |}.

Lemma demo_from : from_mapping (to_mapping demo_packet) = Ok demo_packet.
Proof. vm_compute. reflexivity. Qed.

Lemma packet_roundtrip_witness :
  from_mapping (to_mapping demo_packet) = Ok demo_packet ∧ packet_ok demo_packet.
Proof.
  destruct (packet_roundtrip (to_mapping demo_packet) demo_packet demo_from) as [Hok Hrt].
  split; [exact Hrt|exact Hok].
Defined.

Lemma packet_event_accepted_witness :
  ∃ e r, event demo_packet = Ok e ∧ advance_loop demo_running e default_bounded None 0 = Ok r ∧
    lr_accepted r = true.
Proof.
  apply (packet_event_accepted (to_mapping demo_packet) demo_packet default_bounded demo_running None 0
    demo_from eq_refl demo_running_ok); [intros ? [=]|reflexivity || lia].
Defined.
