(* ===== verification/Cutover.v ===== *)
(** * Cutover readiness

    [src/core/runner_vnext_cutover.py]: the gate that weighs the evidence for
    handing execution to the control plane; it can only ask for an operator's
    decision. *)

From S2P Require Import Prelude.
From S2P Require Import PyStr.
From S2P Require Import Json.
From S2P Require Import Sha256.
From S2P Require Import Contracts.
From S2P Require Import Shadow.
From Stdlib Require Import Permutation.

(** ** Data *)
Record CutoverPolicy := {
  cp_minimum_parity_observations : Z;
  cp_required_validation_profiles : list string;
  cp_required_failure_cases : list string;
  cp_allow_incomparable : bool
}.

Record ValidationEvidence := {
  ve_profile : string;
  ve_commit_ref : string;
  ve_passed : bool;
  ve_test_count : Z;
  ve_evidence_refs : list string
}.

Record FailureInjectionEvidence := {
  fe_case_id : string;
  fe_commit_ref : string;
  fe_passed : bool;
  fe_evidence_refs : list string
}.

Record CutoverEvidence := {
  ce_stack_head_refs : list string;
  ce_parity_receipts : list ShadowParityReceipt;
  ce_validations : list ValidationEvidence;
  ce_failure_cases : list FailureInjectionEvidence;
  ce_rollback_evidence_ref : option string;
  ce_unresolved_started_count : Z;
  ce_privacy_boundary_verified : bool;
  ce_blockers : list string
}.

Record CutoverReadinessReceipt := {
  cr_status : string;
  cr_reason_codes : list string;
  cr_policy_hash : string;
  cr_evidence_hash : string;
  cr_stack_head_hash : string;
  cr_stack_head_refs : list string;
  cr_parity_observation_count : Z;
  cr_parity_match_count : Z;
  cr_parity_vnext_stricter_count : Z;
  cr_parity_legacy_stricter_count : Z;
  cr_parity_incomparable_count : Z;
  cr_parity_invalid_count : Z;
  cr_validation_pass_count : Z;
  cr_failure_case_pass_count : Z;
  cr_unresolved_started_count : Z;
  cr_rollback_evidence_present : bool;
  cr_privacy_boundary_verified : bool;
  cr_operator_approval_required : bool;
  cr_cutover_authorized : bool
}.

Definition cerr (code : string) : exn := CutoverReadinessError code.

(** ** Checks *)
Definition _public_ref (value : string) : bool :=
  truthy value && negb (startswith_any ["/"; "~"] value) && negb (contains "\" value)
  && negb (contains ".." value) && contains ":" value && negb (any_char isspace value).

Definition any_private (refs : list string) : bool := existsb (λ ref, negb (_public_ref ref)) refs.

Definition _validate_policy (policy : CutoverPolicy) : result unit :=
  raise_if (cp_minimum_parity_observations policy <? 1) (cerr "CUTOVER_PARITY_MINIMUM_INVALID");;
  raise_if (is_empty (cp_required_validation_profiles policy)
            || is_empty (cp_required_failure_cases policy)) (cerr "CUTOVER_REQUIRED_EVIDENCE_EMPTY");;
  raise_if (has_dup (cp_required_validation_profiles policy))
    (cerr "CUTOVER_VALIDATION_PROFILE_DUPLICATE");;
  raise_if (has_dup (cp_required_failure_cases policy)) (cerr "CUTOVER_FAILURE_CASE_DUPLICATE").

Definition check_parity (r : ShadowParityReceipt) : result unit :=
  raise_if (sp_side_effects_executed r) (cerr "CUTOVER_SHADOW_SIDE_EFFECT_DETECTED");;
  raise_if (negb (_public_ref (sp_source_task_ref r)) || negb (_public_ref (sp_target_state_ref r)))
    (cerr "CUTOVER_PARITY_REF_INVALID");;
  raise_if (is_empty (sp_evidence_refs r) || any_private (sp_evidence_refs r))
    (cerr "CUTOVER_PARITY_EVIDENCE_INVALID").

Definition check_validation (v : ValidationEvidence) : result unit :=
  raise_if (falsy (ve_profile v) || negb (_public_ref (ve_commit_ref v)) || (ve_test_count v <? 0)
            || is_empty (ve_evidence_refs v)) (cerr "CUTOVER_VALIDATION_EVIDENCE_INVALID");;
  raise_if (any_private (ve_evidence_refs v)) (cerr "CUTOVER_VALIDATION_EVIDENCE_INVALID").

Definition check_failure_case (f : FailureInjectionEvidence) : result unit :=
  raise_if (falsy (fe_case_id f) || negb (_public_ref (fe_commit_ref f))
            || is_empty (fe_evidence_refs f)) (cerr "CUTOVER_FAILURE_EVIDENCE_INVALID");;
  raise_if (any_private (fe_evidence_refs f)) (cerr "CUTOVER_FAILURE_EVIDENCE_INVALID").

Definition _validate_evidence_shape (e : CutoverEvidence) : result unit :=
  raise_if (is_empty (ce_stack_head_refs e) || any_private (ce_stack_head_refs e))
    (cerr "CUTOVER_STACK_HEAD_REF_INVALID");;
  raise_if (has_dup (ce_stack_head_refs e)) (cerr "CUTOVER_STACK_HEAD_REF_DUPLICATE");;
  raise_if (ce_unresolved_started_count e <? 0) (cerr "CUTOVER_UNRESOLVED_COUNT_INVALID");;
  raise_if (match ce_rollback_evidence_ref e with
            | Some ref => negb (_public_ref ref) | None => false end)
    (cerr "CUTOVER_ROLLBACK_REF_INVALID");;
  each check_parity (ce_parity_receipts e);;
  raise_if (has_dup (map ve_profile (ce_validations e))
            || has_dup (map fe_case_id (ce_failure_cases e))) (cerr "CUTOVER_EVIDENCE_ID_DUPLICATE");;
  each check_validation (ce_validations e);;
  each check_failure_case (ce_failure_cases e).

(** ** Hashes *)
Definition _refs_hash (values : list string) : string := text_hash (dumps_compact (jstrs values)).

Definition policy_payload (p : CutoverPolicy) : json :=
  JObj [("minimum_parity_observations", JInt (cp_minimum_parity_observations p));
        ("required_validation_profiles", jstrs (cp_required_validation_profiles p));
        ("required_failure_cases", jstrs (cp_required_failure_cases p));
        ("allow_incomparable", JBool (cp_allow_incomparable p))].

Definition _policy_hash (p : CutoverPolicy) : string := json_hash (policy_payload p).

Definition divergence_value (d : DivergenceKind) : string :=
  match d with
  | MATCH => "MATCH" | VNEXT_STRICTER => "VNEXT_STRICTER" | LEGACY_STRICTER => "LEGACY_STRICTER"
  | INCOMPARABLE => "INCOMPARABLE" | INVALID_LEGACY_INPUT => "INVALID_LEGACY_INPUT"
  end.

Definition parity_payload (r : ShadowParityReceipt) : json :=
  JObj [("source_task_ref", JStr (sp_source_task_ref r));
        ("target_state_ref", JStr (sp_target_state_ref r));
        ("legacy_effect_class", jopt (effect_value <$> sp_legacy_effect_class r));
        ("legacy_status", JStr (sp_legacy_status r));
        ("vnext_effect_class", jopt (effect_value <$> sp_vnext_effect_class r));
        ("vnext_reason_code", JStr (sp_vnext_reason_code r));
        ("divergence", JStr (divergence_value (sp_divergence r)));
        ("evidence_refs", jstrs (sp_evidence_refs r));
        ("side_effects_executed", JBool (sp_side_effects_executed r))].

Definition validation_payload (v : ValidationEvidence) : json :=
  JObj [("profile", JStr (ve_profile v)); ("commit_ref", JStr (ve_commit_ref v));
        ("passed", JBool (ve_passed v)); ("test_count", JInt (ve_test_count v));
        ("evidence_refs", jstrs (ve_evidence_refs v))].

Definition failure_payload (f : FailureInjectionEvidence) : json :=
  JObj [("case_id", JStr (fe_case_id f)); ("commit_ref", JStr (fe_commit_ref f));
        ("passed", JBool (fe_passed f)); ("evidence_refs", jstrs (fe_evidence_refs f))].

Definition evidence_payload (e : CutoverEvidence) : json :=
  JObj [("stack_head_refs", jstrs (ce_stack_head_refs e));
        ("parity", JArr (map parity_payload (ce_parity_receipts e)));
        ("validations", JArr (map validation_payload (ce_validations e)));
        ("failure_cases", JArr (map failure_payload (ce_failure_cases e)));
        ("rollback_evidence_ref", jopt (ce_rollback_evidence_ref e));
        ("unresolved_started_count", JInt (ce_unresolved_started_count e));
        ("privacy_boundary_verified", JBool (ce_privacy_boundary_verified e));
        ("blockers", jstrs (ce_blockers e))].

Definition _evidence_hash (e : CutoverEvidence) : string := json_hash (evidence_payload e).

(** [token.strip("_") or "UNKNOWN"] *)
Definition _reason_token (value : string) : string :=
  let token := unchars (map (λ ch, if isalnum ch then ch else "_"%char) (chars (upper value))) in
  let token := strip_by (λ ch, ch == "_"%char) token in
  if falsy token then "UNKNOWN" else token.

(** ** The gate *)
Definition count {A} (p : A → bool) (l : list A) : Z := Z.of_nat (length (List.filter p l)).

Definition parity_count (e : CutoverEvidence) (kind : DivergenceKind) : Z :=
  count (λ r, sp_divergence r == kind) (ce_parity_receipts e).

(** A list of (test, reason) pairs, in the order the code appends them. *)
Definition reasons (l : list (bool * string)) : list string := map snd (List.filter fst l).

(** [{item.profile: item for item in evidence.validations}] *)
Definition validation_by_profile (e : CutoverEvidence) : gmap string ValidationEvidence :=
  list_to_map (rev (map (λ v, (ve_profile v, v)) (ce_validations e))).
Definition failure_by_case (e : CutoverEvidence) : gmap string FailureInjectionEvidence :=
  list_to_map (rev (map (λ f, (fe_case_id f, f)) (ce_failure_cases e))).

Definition base_blockers (e : CutoverEvidence) : list string := reasons [
  (negb (is_empty (ce_blockers e)), "DECLARED_BLOCKER_PRESENT");
  (negb (ce_privacy_boundary_verified e), "PRIVACY_BOUNDARY_NOT_VERIFIED");
  (0 <? ce_unresolved_started_count e, "UNRESOLVED_STARTED_OPERATIONS");
  (0 <? parity_count e LEGACY_STRICTER, "LEGACY_STRICTER_DIVERGENCE");
  (0 <? parity_count e INVALID_LEGACY_INPUT, "INVALID_LEGACY_INPUT_PRESENT")].

Definition base_missing (p : CutoverPolicy) (e : CutoverEvidence) : list string := reasons [
  ((0 <? parity_count e INCOMPARABLE) && negb (cp_allow_incomparable p),
   "INCOMPARABLE_PARITY_REQUIRES_EVIDENCE");
  (Z.of_nat (length (ce_parity_receipts e)) <? cp_minimum_parity_observations p,
   "PARITY_OBSERVATION_MINIMUM_NOT_MET")].

(** What the two loops append for one required profile or case: to [missing], to
    [blockers]. *)
Definition profile_missing (e : CutoverEvidence) (profile : string) : list string :=
  match validation_by_profile e !! profile with
  | None => ["VALIDATION_PROFILE_MISSING_" +:+ _reason_token profile]
  | Some _ => []
  end.
Definition profile_blockers (e : CutoverEvidence) (profile : string) : list string :=
  match validation_by_profile e !! profile with
  | Some v => if negb (ve_passed v) || (ve_test_count v <? 1)
              then ["VALIDATION_PROFILE_FAILED_" +:+ _reason_token profile] else []
  | None => []
  end.
Definition case_missing (e : CutoverEvidence) (case_id : string) : list string :=
  match failure_by_case e !! case_id with
  | None => ["FAILURE_CASE_MISSING_" +:+ _reason_token case_id]
  | Some _ => []
  end.
Definition case_blockers (e : CutoverEvidence) (case_id : string) : list string :=
  match failure_by_case e !! case_id with
  | Some f => if negb (fe_passed f) then ["FAILURE_CASE_FAILED_" +:+ _reason_token case_id] else []
  | None => []
  end.

Definition blockers (p : CutoverPolicy) (e : CutoverEvidence) : list string :=
  base_blockers e ++ concat (map (profile_blockers e) (cp_required_validation_profiles p))
  ++ concat (map (case_blockers e) (cp_required_failure_cases p)).

Definition missing (p : CutoverPolicy) (e : CutoverEvidence) : list string :=
  base_missing p e ++ concat (map (profile_missing e) (cp_required_validation_profiles p))
  ++ concat (map (case_missing e) (cp_required_failure_cases p))
  ++ reasons [(bool_decide (ce_rollback_evidence_ref e = None), "ROLLBACK_EVIDENCE_MISSING")].

Definition verdict (blockers missing : list string) : string * list string :=
  if negb (is_empty blockers) then ("BLOCKED", sorted_set (blockers ++ missing))
  else if negb (is_empty missing) then ("NEEDS_MORE_EVIDENCE", sorted_set missing)
  else ("READY_FOR_OPERATOR_DECISION", ["CUTOVER_EVIDENCE_COMPLETE"]).

Definition evaluate (p : CutoverPolicy) (e : CutoverEvidence) : result CutoverReadinessReceipt :=
  _validate_policy p;;
  _validate_evidence_shape e;;
  let '(status, reason_codes) := verdict (blockers p e) (missing p e) in
  Ok {| cr_status := status; cr_reason_codes := reason_codes; cr_policy_hash := _policy_hash p;
        cr_evidence_hash := _evidence_hash e; cr_stack_head_hash := _refs_hash (ce_stack_head_refs e);
        cr_stack_head_refs := ce_stack_head_refs e;
        cr_parity_observation_count := Z.of_nat (length (ce_parity_receipts e));
        cr_parity_match_count := parity_count e MATCH;
        cr_parity_vnext_stricter_count := parity_count e VNEXT_STRICTER;
        cr_parity_legacy_stricter_count := parity_count e LEGACY_STRICTER;
        cr_parity_incomparable_count := parity_count e INCOMPARABLE;
        cr_parity_invalid_count := parity_count e INVALID_LEGACY_INPUT;
        cr_validation_pass_count := count ve_passed (ce_validations e);
        cr_failure_case_pass_count := count fe_passed (ce_failure_cases e);
        cr_unresolved_started_count := ce_unresolved_started_count e;
        cr_rollback_evidence_present := bool_decide (is_Some (ce_rollback_evidence_ref e));
        cr_privacy_boundary_verified := ce_privacy_boundary_verified e;
        cr_operator_approval_required := true; cr_cutover_authorized := false |}.

Definition cutover_public_projection (r : CutoverReadinessReceipt) : json :=
  JObj [("schema", JStr "skeleton.runner_cutover_readiness_receipt.v1");
        ("status", JStr (cr_status r)); ("reason_codes", jstrs (cr_reason_codes r));
        ("policy_hash", JStr (cr_policy_hash r)); ("evidence_hash", JStr (cr_evidence_hash r));
        ("stack_head_hash", JStr (cr_stack_head_hash r));
        ("stack_head_refs", jstrs (cr_stack_head_refs r));
        ("parity_observation_count", JInt (cr_parity_observation_count r));
        ("parity_match_count", JInt (cr_parity_match_count r));
        ("parity_vnext_stricter_count", JInt (cr_parity_vnext_stricter_count r));
        ("parity_legacy_stricter_count", JInt (cr_parity_legacy_stricter_count r));
        ("parity_incomparable_count", JInt (cr_parity_incomparable_count r));
        ("parity_invalid_count", JInt (cr_parity_invalid_count r));
        ("validation_pass_count", JInt (cr_validation_pass_count r));
        ("failure_case_pass_count", JInt (cr_failure_case_pass_count r));
        ("unresolved_started_count", JInt (cr_unresolved_started_count r));
        ("rollback_evidence_present", JBool (cr_rollback_evidence_present r));
        ("privacy_boundary_verified", JBool (cr_privacy_boundary_verified r));
        ("operator_approval_required", JBool (cr_operator_approval_required r));
        ("cutover_authorized", JBool (cr_cutover_authorized r))].

(** ** What the verdict means *)

(** Nothing speaks against the cutover. *)
Record unblocked (p : CutoverPolicy) (e : CutoverEvidence) : Prop := {
  ub_declared : ce_blockers e = [];
  ub_privacy : ce_privacy_boundary_verified e = true;
  ub_unresolved : ce_unresolved_started_count e ≤ 0;
  ub_parity : ∀ r, r ∈ ce_parity_receipts e →
    sp_divergence r ≠ LEGACY_STRICTER ∧ sp_divergence r ≠ INVALID_LEGACY_INPUT;
  ub_validations : ∀ v, v ∈ ce_validations e → ve_profile v ∈ cp_required_validation_profiles p →
    ve_passed v = true ∧ 1 ≤ ve_test_count v;
  ub_failures : ∀ f, f ∈ ce_failure_cases e → fe_case_id f ∈ cp_required_failure_cases p →
    fe_passed f = true
}.

(** All the evidence the policy asks for is there. *)
Record sufficient (p : CutoverPolicy) (e : CutoverEvidence) : Prop := {
  su_comparable : cp_allow_incomparable p = false →
    ∀ r, r ∈ ce_parity_receipts e → sp_divergence r ≠ INCOMPARABLE;
  su_parity : cp_minimum_parity_observations p ≤ Z.of_nat (length (ce_parity_receipts e));
  su_validations : ∀ profile, profile ∈ cp_required_validation_profiles p →
    ∃ v, v ∈ ce_validations e ∧ ve_profile v = profile;
  su_failures : ∀ case_id, case_id ∈ cp_required_failure_cases p →
    ∃ f, f ∈ ce_failure_cases e ∧ fe_case_id f = case_id;
  su_rollback : is_Some (ce_rollback_evidence_ref e)
}.

Lemma reasons_nil l : reasons l = [] ↔ Forall (λ x, x.1 = false) l.
Proof.
  unfold reasons. induction l as [|[[] s] l IH]; cbn [List.filter fst map].
  - by rewrite Forall_nil.
  - rewrite Forall_cons. cbn. split; [done|by intros [? _]].
  - rewrite Forall_cons, IH. cbn. tauto.
Qed.

Lemma concat_map_nil {A B} (f : A → list B) l : concat (map f l) = [] ↔ ∀ x, x ∈ l → f x = [].
Proof.
  induction l as [|x l IH]; cbn [map concat].
  - split; [by intros _ ? ?%elem_of_nil|done].
  - rewrite app_nil, IH. split.
    + intros [Hx Hl] y [->|Hy]%elem_of_cons; auto.
    + intros H. split; [apply H; by left|]. intros y Hy. apply H. by right.
Qed.

Lemma count_none {A} (p : A → bool) l : (0 <? count p l) = false ↔ ∀ x, x ∈ l → p x = false.
Proof.
  unfold count. rewrite Z.ltb_ge. induction l as [|x l IH]; cbn [List.filter].
  - split; [by intros _ ? ?%elem_of_nil|done].
  - destruct (p x) eqn:E; cbn [length].
    + split; [lia|]. intros H. rewrite (H x) in E by left. discriminate.
    + rewrite IH. split; [intros H y [->|Hy]%elem_of_cons; auto|]. intros H y Hy. apply H. by right.
Qed.

Lemma parity_none e k :
  (0 <? parity_count e k) = false ↔ ∀ r, r ∈ ce_parity_receipts e → sp_divergence r ≠ k.
Proof.
  unfold parity_count. rewrite count_none. by setoid_rewrite bool_decide_eq_false.
Qed.

(** The dict by a key, when the keys are distinct. *)
Section by_key.
Context {A : Type} (key : A → string).

Lemma by_key_lookup (l : list A) k x :
  NoDup (map key l) →
  (list_to_map (rev (map (λ v, (key v, v)) l)) : gmap string A) !! k = Some x ↔ x ∈ l ∧ key x = k.
Proof.
  intros Hnd.
  assert (Hfst : (rev (map (λ v, (key v, v)) l)).*1 ≡ₚ map key l).
  { rewrite <-Permutation_rev. clear Hnd. induction l as [|y l IH]; cbn; [done|]. by f_equiv. }
  assert (Hin : (k, x) ∈ rev (map (λ v, (key v, v)) l) ↔ x ∈ l ∧ key x = k).
  { rewrite <-Permutation_rev, list_elem_of_In, in_map_iff. setoid_rewrite <-list_elem_of_In.
    split; [by intros (y & [= <- <-] & ?)|]. intros [? <-]. eauto. }
  rewrite <-Hin. symmetry. apply elem_of_list_to_map. by rewrite Hfst.
Qed.

Lemma by_key_none (l : list A) k :
  NoDup (map key l) →
  (list_to_map (rev (map (λ v, (key v, v)) l)) : gmap string A) !! k = None ↔
  ¬ ∃ x, x ∈ l ∧ key x = k.
Proof.
  intros Hnd. rewrite eq_None_not_Some. unfold is_Some.
  apply not_iff_compat. apply exist_proper. intros x. by apply by_key_lookup.
Qed.
End by_key.

Lemma blockers_nil p e :
  NoDup (map ve_profile (ce_validations e)) → NoDup (map fe_case_id (ce_failure_cases e)) →
  blockers p e = [] ↔ unblocked p e.
Proof.
  intros Hv Hf. unfold blockers, base_blockers.
  rewrite !app_nil, reasons_nil, !Forall_cons, Forall_nil, !concat_map_nil. cbn [fst].
  rewrite !parity_none, !negb_false_iff, is_empty_true, Z.ltb_ge. split.
  - intros ((Hd & Hp & Hu & Hl & Hi & _) & Hpv & Hpf). split; try done; [by split; auto| |].
    + intros v Hin Hreq. specialize (Hpv _ Hreq). unfold profile_blockers in Hpv.
      rewrite (proj2 (by_key_lookup ve_profile _ _ v Hv)) in Hpv by done.
      destruct (ve_passed v), (Z.ltb_spec (ve_test_count v) 1); by cbn in Hpv.
    + intros f Hin Hreq. specialize (Hpf _ Hreq). unfold case_blockers in Hpf.
      rewrite (proj2 (by_key_lookup fe_case_id _ _ f Hf)) in Hpf by done.
      by destruct (fe_passed f).
  - intros [Hd Hp Hu Hpar Hval Hfail]. split; [|split].
    + repeat (split; [first [done|intros r Hr; by apply Hpar]|]). done.
    + intros k Hk. unfold profile_blockers. destruct (validation_by_profile e !! k) as [v|] eqn:E; [|done].
      apply (by_key_lookup ve_profile) in E as [Hin <-]; [|done].
      destruct (Hval v Hin Hk) as [-> Ht]. by rewrite (proj2 (Z.ltb_ge _ _)).
    + intros k Hk. unfold case_blockers. destruct (failure_by_case e !! k) as [f|] eqn:E; [|done].
      apply (by_key_lookup fe_case_id) in E as [Hin <-]; [|done]. by rewrite (Hfail f Hin Hk).
Qed.

Lemma missing_nil p e :
  NoDup (map ve_profile (ce_validations e)) → NoDup (map fe_case_id (ce_failure_cases e)) →
  missing p e = [] ↔ sufficient p e.
Proof.
  intros Hv Hf. unfold missing, base_missing.
  rewrite !app_nil, !reasons_nil, !Forall_cons, !Forall_nil, !concat_map_nil. cbn [fst].
  rewrite andb_false_iff, parity_none, negb_false_iff, Z.ltb_ge, bool_decide_eq_false.
  rewrite not_eq_None_Some.
  assert (Hpv : (∀ k, k ∈ cp_required_validation_profiles p → profile_missing e k = []) ↔
    ∀ k, k ∈ cp_required_validation_profiles p → ∃ v, v ∈ ce_validations e ∧ ve_profile v = k).
  { apply forall_proper. intros k. apply forall_proper. intros _. unfold profile_missing.
    destruct (validation_by_profile e !! k) as [v|] eqn:E.
    - apply (by_key_lookup ve_profile) in E as [Hin <-]; [|done]. naive_solver.
    - apply (by_key_none ve_profile) in E; [|done]. by split. }
  assert (Hpf : (∀ k, k ∈ cp_required_failure_cases p → case_missing e k = []) ↔
    ∀ k, k ∈ cp_required_failure_cases p → ∃ f, f ∈ ce_failure_cases e ∧ fe_case_id f = k).
  { apply forall_proper. intros k. apply forall_proper. intros _. unfold case_missing.
    destruct (failure_by_case e !! k) as [f|] eqn:E.
    - apply (by_key_lookup fe_case_id) in E as [Hin <-]; [|done]. naive_solver.
    - apply (by_key_none fe_case_id) in E; [|done]. by split. }
  rewrite Hpv, Hpf. split.
  - intros ((Hc & Hm & _) & Hval & Hfail & Hr & _). split; try done. intros Ha. by destruct Hc; [|congruence].
  - intros [Hc Hm Hval Hfail Hr]. repeat split; try done.
    destruct (cp_allow_incomparable p); [by right|left; auto].
Qed.

Definition is_cutover_error (e : exn) : Prop := ∃ c, e = CutoverReadinessError c.

Lemma cutover_raises p e x : evaluate p e = Raise x → is_cutover_error x.
Proof.
  intros H. eapply only_raises_elim; [|exact H]. unfold evaluate, _validate_policy,
    _validate_evidence_shape, check_parity, check_validation, check_failure_case, verdict.
  raises; by eexists.
Qed.

Lemma shape_nodup e :
  _validate_evidence_shape e = Ok tt →
  NoDup (map ve_profile (ce_validations e)) ∧ NoDup (map fe_case_id (ce_failure_cases e)).
Proof.
  unfold _validate_evidence_shape. rewrite !seq_ok, !raise_if_ok.
  intros (_ & _ & _ & _ & _ & Hd & _). apply orb_false_iff in Hd. by rewrite !has_dup_false in Hd.
Qed.

(** ** Properties of the gate *)

(** The readiness gate is exact and never cuts over: on evidence it accepts it
    says READY_FOR_OPERATOR_DECISION exactly when nothing speaks against the
    cutover and everything the policy asks for is there, BLOCKED exactly when
    something speaks against it, and NEEDS_MORE_EVIDENCE otherwise; every receipt
    asks for the operator's approval and authorizes nothing.  Evidence it does not
    accept raises a [CutoverReadinessError]. *)
Theorem cutover_verdict_exact p e :
  match evaluate p e with
  | Ok r =>
      (cr_status r = "READY_FOR_OPERATOR_DECISION" ↔ unblocked p e ∧ sufficient p e) ∧
      (cr_status r = "BLOCKED" ↔ ¬ unblocked p e) ∧
      (cr_status r = "NEEDS_MORE_EVIDENCE" ↔ unblocked p e ∧ ¬ sufficient p e) ∧
      cr_operator_approval_required r = true ∧ cr_cutover_authorized r = false
  | Raise x => is_cutover_error x
  end.
Proof.
  destruct (evaluate p e) as [r|x] eqn:E; [|by eapply cutover_raises].
  unfold evaluate in E. rewrite !seq_ok in E. destruct E as (_ & Hshape & E).
  destruct (shape_nodup e Hshape) as [Hv Hf].
  rewrite <-(blockers_nil p e Hv Hf), <-(missing_nil p e Hv Hf). revert E. unfold verdict.
  destruct (blockers p e) as [|b bs], (missing p e) as [|m ms]; cbn [is_empty negb];
    intros [= <-]; cbn; naive_solver.
Qed.
