(* ===== verification/CutoverBridge.v ===== *)
(** * The cutover bridge

    [src/core/runner_vnext_cutover_bridge.py]: for a task the legacy runner is
    about to execute, and the configured cutover mode, whether the legacy
    execution may go on.  The metadata of the task is a mapping of Python values,
    modelled as the fields of a JSON object. *)

From S2P Require Import Prelude.
From S2P Require Import PyStr.
From S2P Require Import Json.
From S2P Require Import Authority.
From S2P Require Import Contracts.
From S2P Require Import Shadow.
From S2P Require Import Cutover.

Definition VNEXT_MODE_OFF : string := "off".
Definition VNEXT_MODE_SHADOW : string := "shadow".
Definition VNEXT_MODE_GREEN_CANARY : string := "green_canary".
Definition VNEXT_MODE_AUTHORITATIVE : string := AUTHORITATIVE_MODE.
Definition VNEXT_MODES : list string :=
  [VNEXT_MODE_OFF; VNEXT_MODE_SHADOW; VNEXT_MODE_GREEN_CANARY; VNEXT_MODE_AUTHORITATIVE].

Definition berr (code : string) : exn := VNextCutoverBridgeError code.

Record VNextCutoverBridgeDecision := {
  bd_mode : string;
  bd_status : string;
  bd_divergence : option string;
  bd_vnext_effect_class : option string;
  bd_reason_code : string;
  bd_canary_eligible : bool;
  bd_allow_legacy_execution : bool;
  bd_source_task_ref : option string;
  bd_target_state_ref : option string;
  bd_side_effects_executed : bool
}.

Definition to_public_mapping (d : VNextCutoverBridgeDecision) : json :=
  JObj [("schema", JStr "skeleton.runner_vnext_cutover_bridge.v1"); ("mode", JStr (bd_mode d));
        ("status", JStr (bd_status d)); ("divergence", jopt (bd_divergence d));
        ("vnext_effect_class", jopt (bd_vnext_effect_class d));
        ("reason_code", JStr (bd_reason_code d));
        ("canary_eligible", JBool (bd_canary_eligible d));
        ("allow_legacy_execution", JBool (bd_allow_legacy_execution d));
        ("source_task_ref", jopt (bd_source_task_ref d));
        ("target_state_ref", jopt (bd_target_state_ref d));
        ("side_effects_executed", JBool (bd_side_effects_executed d))].

(** ** Reading the metadata *)
Definition _mode (value : option string) : result string :=
  match value with
  | None => Ok VNEXT_MODE_OFF
  | Some value =>
      if falsy (strip value) then Ok VNEXT_MODE_OFF
      else
        let mode := lower (strip value) in
        raise_if (mode ∉? VNEXT_MODES) (berr "VNEXT_CUTOVER_MODE_INVALID");;
        Ok mode
  end.

Definition _privacy_boundary (value : option json) : result string :=
  match value with
  | Some (JStr s) =>
      raise_if (falsy (strip s)) (berr "VNEXT_METADATA_PRIVACY_REQUIRED");;
      let normalized := upper (strip s) in
      if normalized ∈? ["PUBLIC_SAFE_REPOSITORY_ONLY"; "PUBLIC_SAFE_AGGREGATE_ONLY";
                        "PUBLIC_SAFE_CODE_AND_TESTS_ONLY"; "PUBLIC_SAFE"]
      then Ok "PUBLIC_SAFE_REPOSITORY_ONLY"
      else if normalized ∈? ["LOCAL_PRIVATE"; "PRIVATE_LOCAL"; "PRIVATE"; "PRIVATE_LOCAL_ONLY";
                             "PRIVATE_MEMORY"]
      then Ok "PRIVATE"
      else Raise (berr "VNEXT_METADATA_PRIVACY_UNSUPPORTED")
  | _ => Raise (berr "VNEXT_METADATA_PRIVACY_REQUIRED")
  end.

Definition _string_tuple (value : option json) : list string :=
  match value with
  | Some (JArr items) =>
      match mapM json_string items with
      | Some l => List.filter truthy l
      | None => []
      end
  | _ => []
  end.

(** [isinstance(issue_number, int) and issue_number >= 1]; a [bool] is an [int]. *)
Definition issue_number_ok (value : option json) : bool :=
  match value with
  | Some (JInt n) => 1 <=? n
  | Some (JBool b) => b
  | _ => false
  end.

(** [f"issue:{issue_number}"] *)
Definition issue_text (value : option json) : result string :=
  match value with
  | Some (JInt n) => t ← int_text n; Ok ("issue:" +:+ t)
  | _ => Ok "issue:True"
  end.

Definition _observation (metadata : list (string * json)) : result LegacyTaskObservation :=
  raise_if (negb (issue_number_ok (dict_get metadata "issue_number")))
    (berr "VNEXT_METADATA_ISSUE_INVALID");;
  match dict_get metadata "repo", dict_get metadata "branch" with
  | Some (JStr repo), Some (JStr branch) =>
      match dict_get metadata "base_sha" with
      | Some (JStr base_sha) =>
          raise_if (Z.of_nat (String.length base_sha) != 40) (berr "VNEXT_METADATA_BASE_SHA_REQUIRED");;
          let route := dict_get metadata "legacy_route" in
          let task_kind := if py_eq_str route "code_generation" then "code_edit"
            else if py_eq_str route "publish_only" then "publish" else "diagnostic" in
          let legacy_effect := if task_kind ∈? ["code_edit"; "diagnostic"] then GREEN else YELLOW in
          privacy_boundary ← _privacy_boundary (dict_get metadata "privacy_boundary");
          let capabilities := _string_tuple (dict_get metadata "requested_capabilities") in
          let capabilities := if is_empty capabilities && (task_kind == "code_edit")
            then ["repository_write_allowlisted"; "test_execution"] else capabilities in
          let allowed_files := _string_tuple (dict_get metadata "allowed_files") in
          raise_if (is_empty allowed_files) (berr "VNEXT_METADATA_ALLOWED_FILES_REQUIRED");;
          source ← issue_text (dict_get metadata "issue_number");
          Ok {| lo_source_task_ref := source; lo_target_state_ref := "git:" +:+ lower base_sha;
                lo_repo := repo; lo_branch := branch; lo_task_kind := task_kind;
                lo_requested_capabilities := capabilities; lo_allowed_files := allowed_files;
                lo_privacy_boundary := privacy_boundary; lo_legacy_effect_class := Some legacy_effect;
                lo_legacy_status := "READY"; lo_evidence_refs := [] |}
      | _ => Raise (berr "VNEXT_METADATA_BASE_SHA_REQUIRED")
      end
  | _, _ => Raise (berr "VNEXT_METADATA_REPOSITORY_INVALID")
  end.

(** ** Eligibility *)
Definition _canary_eligible (o : LegacyTaskObservation) : result bool :=
  if lo_task_kind o != "code_edit" then Ok false
  else match adapt_legacy_task o with
  | Raise (CompatError _) => Ok false
  | Raise e => Raise e
  | Ok adapted =>
      Ok ((task_privacy (al_task adapted) == PUBLIC_SAFE)
          && forallb (startswith "repo:") (op_resources (al_operation adapted)))
  end.

Definition AUTHORITATIVE_CAPABILITIES : list string :=
  ["repository_read"; "repository_write_allowlisted"; "test_execution"].

Definition _authoritative_eligible (o : LegacyTaskObservation) : result bool :=
  eligible ← _canary_eligible o;
  if negb eligible then Ok false
  else Ok (lo_requested_capabilities o == AUTHORITATIVE_CAPABILITIES).

(** Both runners say GREEN. *)
Definition both_green (r : ShadowParityReceipt) : bool :=
  (sp_divergence r == MATCH) && (sp_vnext_effect_class r == Some GREEN)
  && (sp_legacy_effect_class r == Some GREEN).

Definition bridge_decision (mode status : string) (r : ShadowParityReceipt) (reason : string)
    (eligible allow : bool) : VNextCutoverBridgeDecision :=
  {| bd_mode := mode; bd_status := status;
     bd_divergence := Some (divergence_value (sp_divergence r));
     bd_vnext_effect_class := effect_value <$> sp_vnext_effect_class r; bd_reason_code := reason;
     bd_canary_eligible := eligible; bd_allow_legacy_execution := allow;
     bd_source_task_ref := Some (sp_source_task_ref r);
     bd_target_state_ref := Some (sp_target_state_ref r); bd_side_effects_executed := false |}.

Definition off_decision (mode : string) : VNextCutoverBridgeDecision :=
  {| bd_mode := mode; bd_status := "off"; bd_divergence := None; bd_vnext_effect_class := None;
     bd_reason_code := "VNEXT_CUTOVER_OFF"; bd_canary_eligible := false;
     bd_allow_legacy_execution := true; bd_source_task_ref := None; bd_target_state_ref := None;
     bd_side_effects_executed := false |}.

(** ** The decision *)
Definition evaluate_vnext_cutover_bridge (configured_mode : option string)
    (metadata : list (string * json)) : result VNextCutoverBridgeDecision :=
  mode ← _mode configured_mode;
  if mode == VNEXT_MODE_OFF then Ok (off_decision mode)
  else
    observation ← _observation metadata;
    receipt ← Shadow.evaluate observation;
    canary_eligible ← _canary_eligible observation;
    if mode == VNEXT_MODE_SHADOW then
      Ok (bridge_decision mode "shadow_observed" receipt (sp_vnext_reason_code receipt)
            canary_eligible true)
    else if mode == VNEXT_MODE_AUTHORITATIVE then
      eligible ← _authoritative_eligible observation;
      if negb eligible then
        Ok (bridge_decision mode "authoritative_block" receipt "VNEXT_AUTHORITATIVE_NOT_ELIGIBLE"
              false false)
      else
        let allowed := both_green receipt in
        Ok (bridge_decision mode (if allowed then "authoritative_green_ready" else "authoritative_block")
              receipt (if allowed then "VNEXT_AUTHORITATIVE_GREEN_READY" else sp_vnext_reason_code receipt)
              true false)
    else if negb canary_eligible then
      Ok (bridge_decision mode "legacy_protected_path" receipt "VNEXT_CANARY_NOT_ELIGIBLE" false true)
    else
      let allowed := both_green receipt in
      Ok (bridge_decision mode (if allowed then "green_canary_pass" else "green_canary_block") receipt
            (if allowed then "VNEXT_GREEN_CANARY_MATCH" else sp_vnext_reason_code receipt) true allowed).

(** ** What eligibility means *)

(** A public-safe code edit of unprotected files. *)
Record green_task (o : LegacyTaskObservation) : Prop := {
  gt_kind : lo_task_kind o = "code_edit";
  gt_well_formed : well_formed o;
  gt_public : _privacy (lo_privacy_boundary o) = Ok PUBLIC_SAFE;
  gt_unprotected : any_protected o = false
}.

Lemma repo_resource path : startswith "repo:" (_resource_ref path) = negb (protected path).
Proof. unfold _resource_ref. destruct path, (protected _); reflexivity. Qed.

Lemma repo_resources paths :
  forallb (startswith "repo:") (map _resource_ref paths) = negb (existsb protected paths).
Proof.
  induction paths as [|p ps IH]; cbn [map forallb existsb]; [done|].
  by rewrite repo_resource, IH, negb_orb.
Qed.

Lemma adapted_privacy o a :
  adapt_legacy_task o = Ok a → _privacy (lo_privacy_boundary o) = Ok (task_privacy (al_task a)).
Proof.
  unfold adapt_legacy_task. rewrite seq_ok. intros [_ H].
  apply some_bind_ok in H as ([[op eff] rev] & _ & H).
  apply result_bind_ok in H as (p & Hp & H). rewrite seq_ok in H. destruct H as [_ H].
  apply result_bind_ok in H as (x & _ & [= <-]). exact Hp.
Qed.

Lemma canary_exact o : ∃ b, _canary_eligible o = Ok b ∧ (b = true ↔ green_task o).
Proof.
  unfold _canary_eligible. case_bool_decide as Hk; cbn [negb].
  2: { exists false. split; [done|]. split; [done|]. by intros []. }
  destruct (adapt_legacy_task o) as [a|e] eqn:E.
  - pose proof (adapted_privacy o a E) as Hp.
    destruct (adapt_ok_inv o a E) as (Hwf & p & op & eff & rev & _ & _ & _ & _ & _ & Hr & _).
    eexists. split; [reflexivity|]. rewrite andb_true_iff, bool_decide_eq_true, Hr, repo_resources.
    rewrite negb_true_iff. split.
    + intros [Hpub Hprot]. split; [done|done|by rewrite Hp, Hpub|done].
    + intros [_ _ Hpub Hprot]. rewrite Hp in Hpub. by injection Hpub.
  - destruct (adapt_raises o e E) as [c ->]. exists false. split; [done|]. split; [done|].
    intros [_ Hwf Hpub _].
    destruct (adapt_succeeds o PUBLIC_SAFE Hwf) as [a Ha]; [|congruence].
    split; [rewrite Hk; by_decide|]. split; [done|]. by rewrite Hk.
Qed.

(** A task that is eligible is GREEN for both runners. *)
Lemma green_task_agreed o r :
  green_task o → lo_legacy_effect_class o = Some GREEN → Shadow.evaluate o = Ok r → both_green r = true.
Proof.
  intros [Hk Hwf Hpub Hprot] Hl. unfold Shadow.evaluate.
  destruct (adapt_legacy_task o) as [a|e] eqn:E.
  - rewrite (adapted_decision o a E). unfold shadow_decision. rewrite Hprot. intros [= <-].
    unfold both_green. cbn. by rewrite Hl.
  - destruct (adapt_succeeds o PUBLIC_SAFE Hwf) as [a Ha]; [|congruence].
    split; [rewrite Hk; by_decide|]. split; [done|]. by rewrite Hk.
Qed.

Lemma observation_green md o :
  _observation md = Ok o → lo_task_kind o = "code_edit" → lo_legacy_effect_class o = Some GREEN.
Proof.
  unfold _observation. rewrite seq_ok. intros [_ H].
  destruct (dict_get md "repo") as [[| | | |repo| |]|]; try done.
  destruct (dict_get md "branch") as [[| | | |branch| |]|]; try done.
  destruct (dict_get md "base_sha") as [[| | | |sha| |]|]; try done.
  rewrite seq_ok in H. destruct H as [_ H]. apply result_bind_ok in H as (priv & _ & H).
  rewrite seq_ok in H. destruct H as [_ H]. apply result_bind_ok in H as (src & _ & [= <-]).
  cbn [lo_task_kind lo_legacy_effect_class]. intros ->. reflexivity.
Qed.

Lemma mode_known cm m : _mode cm = Ok m → m ∈ VNEXT_MODES.
Proof.
  unfold _mode. destruct cm as [v|]; [|intros [= <-]; by_decide].
  destruct (falsy (strip v)); [intros [= <-]; by_decide|].
  rewrite seq_ok, raise_if_ok, negb_false_iff, bool_decide_eq_true. by intros [? [= <-]].
Qed.

(** The exceptions of the bridge. *)
Definition is_bridge_error (e : exn) : Prop :=
  (∃ c, e = VNextCutoverBridgeError c) ∨ ∃ m, e = ValueError m.

Lemma mode_raises cm : only_raises is_bridge_error (_mode cm).
Proof. unfold _mode. raises; by left; eexists. Qed.

Lemma observation_raises md : only_raises is_bridge_error (_observation md).
Proof.
  unfold _observation, _privacy_boundary, issue_text, int_text.
  raises; first [by left; eexists|by right; eexists].
Qed.

(** ** Properties *)

(** The bridge is exact.  A decision executes nothing and is for the
    configured mode; the legacy runner may go on in every mode but the
    authoritative one, where it never may; the control plane is declared ready
    exactly in the authoritative mode, for a public-safe code edit of unprotected
    files with the full capabilities; and the canary's comparison never blocks: an
    eligible task is GREEN for both runners.  Nothing but the bridge's own error
    is raised, apart from an issue number too long to be written. *)
Theorem bridge_exact cm md :
  match evaluate_vnext_cutover_bridge cm md with
  | Ok d =>
      _mode cm = Ok (bd_mode d) ∧ bd_side_effects_executed d = false ∧
      (bd_allow_legacy_execution d = true ↔ bd_mode d ≠ AUTHORITATIVE_MODE) ∧
      (bd_status d = "authoritative_green_ready" ↔ bd_mode d = AUTHORITATIVE_MODE ∧
        ∃ o, _observation md = Ok o ∧ green_task o ∧
          lo_requested_capabilities o = AUTHORITATIVE_CAPABILITIES) ∧
      bd_status d ≠ "green_canary_block"
  | Raise e => is_bridge_error e
  end.
Proof.
  unfold evaluate_vnext_cutover_bridge. pose proof (mode_raises cm) as Hmr.
  destruct (_mode cm) as [m|e] eqn:Em; [|exact Hmr]. cbn [mbind result_bind].
  apply mode_known in Em as Hm. clear Hmr Em.
  case_bool_decide as Hoff.
  { subst m. cbn. split; [done|]. split; [done|]. split; [done|]. split; [|done].
    split; [done|by intros [? _]]. }
  pose proof (observation_raises md) as Hor.
  destruct (_observation md) as [o|e] eqn:Eo; [|exact Hor]. cbn [mbind result_bind].
  destruct (canary_exact o) as (b & Hb & Hgreen). unfold _authoritative_eligible. rewrite Hb.
  assert (∃ r, Shadow.evaluate o = Ok r) as [r Hr].
  { unfold Shadow.evaluate. destruct (adapt_legacy_task o) as [a|e] eqn:E; [by eexists|].
    destruct (adapt_raises o e E) as [c ->]. by eexists. }
  rewrite Hr. cbn [mbind result_bind].
  assert (Hboth : b = true → both_green r = true).
  { intros Hbt. apply Hgreen in Hbt as Hg. apply (green_task_agreed o r Hg); [|done].
    apply (observation_green md); [done|apply Hg]. }
  case_bool_decide as Hsh.
  { subst m. cbn. do 2 (split; [done|]). split; [done|]. split; [|done].
    split; [done|by intros [? _]]. }
  case_bool_decide as Hau.
  - subst m. destruct b; cbn [negb mbind result_bind].
    + case_bool_decide as Hcap; cbn [negb]; [rewrite Hboth by done|]; cbn.
      * do 2 (split; [done|]). split; [done|]. split; [|done]. split; [|done].
        intros _. split; [done|]. exists o. split; [done|]. split; [by apply Hgreen|done].
      * do 2 (split; [done|]). split; [done|]. split; [|done]. split; [done|].
        intros (_ & o' & [= <-] & _ & Hc). done.
    + cbn. do 2 (split; [done|]). split; [done|]. split; [|done]. split; [done|].
      intros (_ & o' & [= <-] & Hg & _). apply Hgreen in Hg. discriminate.
  - destruct b; cbn [negb]; [rewrite Hboth by done|]; cbn.
    + do 2 (split; [done|]). split; [done|]. split; [|done]. split; [done|by intros [? _]].
    + do 2 (split; [done|]). split; [done|]. split; [|done]. split; [done|by intros [? _]].
Qed.
