(* ===== verification/Schedule.v ===== *)
(** * Schedules

    [src/core/scheduler_models.py]: typed schedules, their five-field cron
    expressions, the times they are due and the identities of their occurrences.
    Time zones are external data: [ZoneInfo] is a parameter that gives the offset
    from UTC, in seconds, at every instant, or raises for an unknown name (a
    [KeyError], which [ZoneInfoNotFoundError] is) or a malformed one. *)

From S2P Require Import Prelude.
From S2P Require Import PyStr.
From S2P Require Import Json.
From S2P Require Import Sha256.
From S2P Require Import Frozen.

(** ** Constants *)
Definition SCHEDULE_SCHEMA : string := "skeleton.schedule.v1".
Definition SCHEDULE_RECORD_SCHEMA : string := "skeleton.schedule_record.v1".
Definition EXECUTION_PROPOSAL_SCHEMA : string := "skeleton.scheduler_execution_proposal.v1".
Definition OCCURRENCE_RECEIPT_SCHEMA : string := "skeleton.scheduler_occurrence_receipt.v1".
Definition TICK_RECEIPT_SCHEMA : string := "skeleton.scheduler_tick_receipt.v1".

Definition TRIGGER_KINDS : list string := ["cron"; "once"].
Definition ROUTE_TYPES : list string := ["notify"; "skill"; "workflow"; "loop"; "runner"].
Definition APPROVAL_POLICIES : list string :=
  ["notify_only"; "auto_run_low_risk"; "require_operator_each_occurrence"].
Definition OVERLAP_POLICIES : list string := ["skip"; "queue_one"; "needs_operator"].
Definition MISFIRE_POLICIES : list string := ["run_once"; "skip"; "needs_operator"].
Definition OCCURRENCE_STATES : list string :=
  ["pending"; "running"; "done"; "failed"; "waiting_dependency"; "needs_operator"; "skipped"].

Definition _SAFE_TOKEN_RE : string → bool := bounded_token ALNUM (ALNUM +:+ "._:-") 127.
Definition _MAX_PAYLOAD_BYTES : N := 64 * 1024.
Definition _MAX_PAYLOAD_DEPTH : nat := 12.
Definition _MAX_PAYLOAD_ITEMS : nat := 256.
Definition _MAX_STRING_LENGTH : nat := 4096.

Definition verr (reason_code : string) : exn := SchedulerValidationError reason_code.

(** [f"INVALID_{field.upper()}"] *)
Definition invalid (field : string) : exn := verr ("INVALID_" +:+ upper field).

(** ** Fields *)
Definition _safe_token (value : json) (field : string) : result string :=
  string_with _SAFE_TOKEN_RE (invalid field) value.

Definition _enum (value : json) (allowed : list string) (field : string) : result string :=
  string_with (λ s, s ∈? allowed) (invalid field) value.

Definition _non_negative_int (value : json) (field : string) : result Z :=
  match value with
  | JInt z => raise_if (z <? 0) (invalid field);; Ok z
  | _ => Raise (invalid field)
  end.

Definition _positive_int (value : json) (field : string) : result Z :=
  normalized ← _non_negative_int value field;
  raise_if (normalized =? 0) (invalid field);;
  Ok normalized.

Definition schedule_limits : limits :=
  {| max_depth := _MAX_PAYLOAD_DEPTH; max_items := _MAX_PAYLOAD_ITEMS;
     max_string := _MAX_STRING_LENGTH; max_bytes := _MAX_PAYLOAD_BYTES;
     safe_key := λ k, truthy k && negb (longer 128 k); too_deep := verr "PAYLOAD_TOO_DEEP";
     string_too_long := verr "PAYLOAD_STRING_TOO_LONG"; too_large := verr "PAYLOAD_TOO_LARGE";
     invalid_key := verr "INVALID_PAYLOAD_KEY"; not_object := verr "INVALID_PAYLOAD" |}.

Definition _freeze_json : nat → json → result json := freeze schedule_limits.
Definition _payload : json → result json := bounded_payload schedule_limits.

(** ** Python's [str.split()] and [int(str)] *)
Fixpoint words (cur l : list ascii) : list (list ascii) :=
  match l with
  | [] => if is_empty cur then [] else [rev cur]
  | c :: l =>
      if isspace c then (if is_empty cur then words [] l else rev cur :: words [] l)
      else words (c :: cur) l
  end.

Definition split_words (s : string) : list string := map unchars (words [] (chars s)).

(** Digits with single underscores between them. *)
Fixpoint int_digits (after_digit : bool) (acc : Z) (l : list ascii) : option Z :=
  match l with
  | [] => if after_digit then Some acc else None
  | c :: l =>
      if decide (c = "_"%char) then (if after_digit then int_digits false acc l else None)
      else match digit_value c with
           | Some d => int_digits true (10 * acc + d) l
           | None => None
           end
  end.

(** [int(text)], [None] where it raises a [ValueError]. *)
Definition py_int (text : string) : option Z :=
  let l := chars (strip text) in
  let '(sign, l) := match l with
                    | "-"%char :: l' => (-1, l')
                    | "+"%char :: l' => (1, l')
                    | _ => (1, l)
                    end in
  if (4300 <? length (List.filter isdigit l))%nat then None
  else Z.mul sign <$> int_digits false 0 l.

(** ** Cron *)
Record _CronField := { cf_values : list Z; cf_wildcard : bool }.

Definition bad_cron : exn := verr "INVALID_CRON".

Definition _cron_int (text : string) (minimum maximum : Z) : result Z :=
  value ← some_or (py_int text) bad_cron;
  raise_if ((value <? minimum) || (maximum <? value)) bad_cron;;
  Ok value.

(** [range(start, end + 1, step)] *)
Definition steps (start last step : Z) : list Z :=
  map (λ i, start + step * i) (seqZ 0 ((last - start) / step + 1)).

(** One comma-separated part: [base] or [base/step]. *)
Definition cron_part (minimum maximum : Z) (part : string) : result (list Z) :=
  raise_if (falsy part) bad_cron;;
  let '(base, slash, step_text) := partition "/" part in
  step ← (if slash : bool then
            step ← some_or (py_int step_text) bad_cron;
            raise_if (step <=? 0) bad_cron;;
            Ok step
          else Ok 1);
  if base == "*" then Ok (steps minimum maximum step)
  else
    let '(start_text, hyphen, end_text) := partition "-" base in
    if hyphen : bool then
      start ← _cron_int start_text minimum maximum;
      last ← _cron_int end_text minimum maximum;
      raise_if (last <? start) bad_cron;;
      Ok (steps start last step)
    else
      start ← _cron_int base minimum maximum;
      Ok (steps start (if slash : bool then maximum else start) step).

Definition _parse_cron_field (text : string) (minimum maximum : Z) (normalize_weekday : bool)
    : result _CronField :=
  raise_if (falsy text) bad_cron;;
  parts ← collect (cron_part minimum maximum) (split_on "," text);
  let values := map (λ item, if normalize_weekday && (item =? 7) then 0 else item) (concat parts) in
  raise_if (is_empty values) bad_cron;;
  Ok {| cf_values := values; cf_wildcard := (text == "*") || startswith "*/" text |}.

Record cron := {
  cr_minute : _CronField;
  cr_hour : _CronField;
  cr_day : _CronField;
  cr_month : _CronField;
  cr_weekday : _CronField
}.

Definition _parse_cron (expression : string) : result cron :=
  match split_words expression with
  | [minute; hour; day; month; weekday] =>
      minute ← _parse_cron_field minute 0 59 false;
      hour ← _parse_cron_field hour 0 23 false;
      day ← _parse_cron_field day 1 31 false;
      month ← _parse_cron_field month 1 12 false;
      weekday ← _parse_cron_field weekday 0 7 true;
      Ok {| cr_minute := minute; cr_hour := hour; cr_day := day; cr_month := month;
            cr_weekday := weekday |}
  | _ => Raise bad_cron
  end.

Definition _cron_expression (value : json) : result string :=
  match value with
  | JStr s =>
      raise_if (longer 128 s) bad_cron;;
      let normalized := join_with " " (split_words s) in
      _parse_cron normalized;;
      Ok normalized
  | _ => Raise bad_cron
  end.

(** ** Local time *)

(** Year, month and day of a day counted from 1970-01-01, in the proleptic
    Gregorian calendar: eras of 400 years, whose years begin in March. *)
Definition civil (days : Z) : Z * Z * Z :=
  let z := days + 719468 in
  let era := z / 146097 in
  let doe := z mod 146097 in
  let yoe := (doe - doe / 1460 + doe / 36524 - doe / 146096) / 365 in
  let doy := doe - (365 * yoe + yoe / 4 - yoe / 100) in
  let mp := (5 * doy + 2) / 153 in
  let d := doy - (153 * mp + 2) / 5 + 1 in
  let m := if mp <? 10 then mp + 3 else mp - 9 in
  (yoe + era * 400 + (if m <=? 2 then 1 else 0), m, d).

(** [datetime.weekday()]: Monday is 0; 1970-01-01 was a Thursday. *)
Definition weekday (days : Z) : Z := (days + 3) mod 7.

Record local_time := {
  lt_second : Z;
  lt_minute : Z;
  lt_hour : Z;
  lt_day : Z;
  lt_month : Z;
  lt_weekday : Z
}.

Definition local_of (seconds : Z) : local_time :=
  let days := seconds / 86400 in
  let s := seconds mod 86400 in
  let '(_, m, d) := civil days in
  {| lt_second := s mod 60; lt_minute := s / 60 mod 60; lt_hour := s / 3600;
     lt_day := d; lt_month := m; lt_weekday := weekday days |}.

(** The last second of the year 9999, the range of [datetime]; [gmtime] fails
    beyond the years of a C [int], and a time must fit [time_t]. *)
Definition MAX_DATETIME : Z := 253402300799.
Definition MAX_GMTIME : Z := 67768036191676799.

(** [datetime.fromtimestamp(t, tz=timezone.utc).astimezone(zone)] for [t >= 0] *)
Definition localize (zone : Z → Z) (t : Z) : result local_time :=
  raise_if (2 ^ 63 <=? t) (OverflowError "timestamp out of range for platform time_t");;
  raise_if (MAX_GMTIME <? t) (OSError "Value too large for defined data type");;
  raise_if (MAX_DATETIME <? t) (ValueError "year is out of range");;
  raise_if (MAX_DATETIME <? t + zone t) (OverflowError "date value out of range");;
  Ok (local_of (t + zone t)).

Definition _cron_matches (fields : cron) (l : local_time) : bool :=
  if (lt_minute l ∉? cf_values (cr_minute fields)) || (lt_hour l ∉? cf_values (cr_hour fields))
  then false
  else if lt_month l ∉? cf_values (cr_month fields) then false
  else
    let day_match := lt_day l ∈? cf_values (cr_day fields) in
    let weekday_match := (lt_weekday l + 1) mod 7 ∈? cf_values (cr_weekday fields) in
    if cf_wildcard (cr_day fields) && cf_wildcard (cr_weekday fields) then true
    else if cf_wildcard (cr_day fields) then weekday_match
    else if cf_wildcard (cr_weekday fields) then day_match
    else day_match || weekday_match.

(** ** Schedules *)
Record ScheduleSpec := {
  schedule_id : string;
  trigger_kind : string;
  cron_expression : option string;
  once_at : option Z;
  timezone : string;
  route_type : string;
  route_id : string;
  approval_policy : string;
  overlap_policy : string;
  misfire_policy : string;
  payload : json
}.

Definition SCHEDULE_FIELDS : list string :=
  ["schema"; "schedule_id"; "trigger_kind"; "cron_expression"; "once_at"; "timezone"; "route_type";
   "route_id"; "approval_policy"; "overlap_policy"; "misfire_policy"; "payload"].

Definition is_null (v : json) : bool := match v with JNull => true | _ => false end.

Section zones.
Context (ZoneInfo : string → result (Z → Z)).

Definition _timezone_name (value : json) : result string :=
  match value with
  | JStr s =>
      raise_if (falsy s || longer 128 s) (verr "INVALID_TIMEZONE");;
      match ZoneInfo s with
      | Ok _ => Ok s
      | Raise (KeyError _) => Raise (verr "INVALID_TIMEZONE")
      | Raise e => Raise e
      end
  | _ => Raise (verr "INVALID_TIMEZONE")
  end.

(** The trigger fields, checked after all others. *)
Definition trigger (d : list (string * json)) (kind : string) : result (option string * option Z) :=
  if kind == "cron" then
    expression ← _cron_expression (field d "cron_expression");
    raise_if (negb (is_null (field d "once_at"))) (verr "INVALID_TRIGGER_FIELDS");;
    Ok (Some expression, None)
  else
    raise_if (negb (is_null (field d "cron_expression"))) (verr "INVALID_TRIGGER_FIELDS");;
    at_time ← _non_negative_int (field d "once_at") "once_at";
    Ok (None, Some at_time).

Definition from_mapping (value : json) : result ScheduleSpec :=
  match value with
  | JObj d =>
      raise_if (negb (forallb (λ k, k ∈? SCHEDULE_FIELDS) d.*1)) (verr "UNKNOWN_SCHEDULE_FIELD");;
      raise_if (negb (forallb (λ k, k ∈? d.*1) SCHEDULE_FIELDS)) (verr "MISSING_SCHEDULE_FIELD");;
      raise_if (negb (py_eq_str (dict_get d "schema") SCHEDULE_SCHEMA)) (verr "INVALID_SCHEDULE_SCHEMA");;
      schedule_id ← _safe_token (field d "schedule_id") "schedule_id";
      trigger_kind ← _enum (field d "trigger_kind") TRIGGER_KINDS "trigger_kind";
      timezone ← _timezone_name (field d "timezone");
      route_type ← _enum (field d "route_type") ROUTE_TYPES "route_type";
      route_id ← _safe_token (field d "route_id") "route_id";
      approval_policy ← _enum (field d "approval_policy") APPROVAL_POLICIES "approval_policy";
      overlap_policy ← _enum (field d "overlap_policy") OVERLAP_POLICIES "overlap_policy";
      misfire_policy ← _enum (field d "misfire_policy") MISFIRE_POLICIES "misfire_policy";
      payload ← _payload (field d "payload");
      '(cron_expression, once_at) ← trigger d trigger_kind;
      Ok {| schedule_id := schedule_id; trigger_kind := trigger_kind;
            cron_expression := cron_expression; once_at := once_at; timezone := timezone;
            route_type := route_type; route_id := route_id; approval_policy := approval_policy;
            overlap_policy := overlap_policy; misfire_policy := misfire_policy;
            payload := payload |}
  | _ => Raise (verr "INVALID_SCHEDULE")
  end.

(** ** Due times *)
Definition due_at (fields : cron) (zone : Z → Z) (t : Z) : result bool :=
  l ← localize zone t; Ok ((lt_second l =? 0) && _cron_matches fields l).

(** The loop over minutes; [fuel] counts them. *)
Fixpoint scan (fields : cron) (zone : Z → Z) (until_inclusive : Z) (limit : nat) (fuel : nat)
    (candidate : Z) (due : list Z) : result (list Z) :=
  match fuel with
  | O => Ok due
  | S fuel =>
      if (candidate <=? until_inclusive) && (length due <? limit)%nat then
        matches ← due_at fields zone candidate;
        scan fields zone until_inclusive limit fuel (candidate + 60)
          (if matches : bool then due ++ [candidate] else due)
      else Ok due
  end.

Definition iter_due_times (spec : ScheduleSpec) (after_exclusive until_inclusive limit : Z)
    : result (list Z) :=
  after ← _non_negative_int (JInt after_exclusive) "after_exclusive";
  until ← _non_negative_int (JInt until_inclusive) "until_inclusive";
  limit ← _positive_int (JInt limit) "limit";
  if until <=? after then Ok []
  else if trigger_kind spec == "once" then
    at_time ← some_or (once_at spec) (RuntimeError "AssertionError");
    Ok (if (after <? at_time) && (at_time <=? until) then [at_time] else [])
  else
    expression ← some_or (cron_expression spec) (RuntimeError "AssertionError");
    fields ← _parse_cron expression;
    zone ← ZoneInfo (timezone spec);
    let first := (after / 60 + 1) * 60 in
    scan fields zone until (Z.to_nat limit) (Z.to_nat ((until - first) / 60 + 1)) first [].
End zones.

(** ** Mappings and identities *)
Definition jint_opt (o : option Z) : json := match o with None => JNull | Some z => JInt z end.

(** [to_mapping] without its schema. *)
Definition spec_fields (s : ScheduleSpec) : list (string * json) :=
  [("schedule_id", JStr (schedule_id s)); ("trigger_kind", JStr (trigger_kind s));
   ("cron_expression", jopt (cron_expression s)); ("once_at", jint_opt (once_at s));
   ("timezone", JStr (timezone s)); ("route_type", JStr (route_type s));
   ("route_id", JStr (route_id s)); ("approval_policy", JStr (approval_policy s));
   ("overlap_policy", JStr (overlap_policy s)); ("misfire_policy", JStr (misfire_policy s));
   ("payload", payload s)].

Definition to_mapping (s : ScheduleSpec) : json :=
  JObj (("schema", JStr SCHEDULE_SCHEMA) :: spec_fields s).

Definition deterministic_hash (s : ScheduleSpec) : result string :=
  encoded ← canonical_json (to_mapping s); Ok (text_hash encoded).

Record StoredSchedule := {
  spec : ScheduleSpec;
  version : Z;
  enabled : bool;
  created_at : Z;
  last_evaluated_at : option Z
}.

Definition stored_to_mapping (s : StoredSchedule) (include_payload : bool) : json :=
  JObj ([("schema", JStr SCHEDULE_RECORD_SCHEMA); ("version", JInt (version s));
         ("enabled", JBool (enabled s)); ("created_at", JInt (created_at s));
         ("last_evaluated_at", jint_opt (last_evaluated_at s))]
        ++ (if include_payload then spec_fields (spec s) else take 10 (spec_fields (spec s)))).

Record OccurrenceRecord := {
  or_occurrence_id : string;
  or_schedule_id : string;
  or_schedule_version : Z;
  or_scheduled_for : Z;
  or_state : string;
  or_reason : string;
  or_proposal : json;
  or_created_at : Z;
  or_updated_at : Z;
  or_started_at : option Z;
  or_attempt : Z;
  or_idempotency_key : option string;
  or_parent_occurrence_id : option string;
  or_parent_receipt_id : option string
}.

Definition public_receipt (o : OccurrenceRecord) : json :=
  JObj [("schema", JStr OCCURRENCE_RECEIPT_SCHEMA); ("occurrence_id", JStr (or_occurrence_id o));
        ("schedule_id", JStr (or_schedule_id o)); ("schedule_version", JInt (or_schedule_version o));
        ("scheduled_for", JInt (or_scheduled_for o)); ("state", JStr (or_state o));
        ("reason", JStr (or_reason o)); ("attempt", JInt (or_attempt o));
        ("idempotency_key", jopt (or_idempotency_key o));
        ("parent_occurrence_id", jopt (or_parent_occurrence_id o));
        ("parent_receipt_id", jopt (or_parent_receipt_id o)); ("public_safe", JBool true);
        ("payload_included", JBool false)].

Definition newline : string := String (ascii_of_N 10) "".

(** [f"occ_{digest[:32]}"] *)
Definition occ_id (text : string) : string :=
  "occ_" +:+ unchars (take 32 (chars (text_hash text))).

Definition stable_occurrence_id (schedule_id : string) (version scheduled_for : Z) : result string :=
  schedule_id ← _safe_token (JStr schedule_id) "schedule_id";
  version ← _positive_int (JInt version) "version";
  scheduled_for ← _non_negative_int (JInt scheduled_for) "scheduled_for";
  v ← int_text version; t ← int_text scheduled_for;
  Ok (occ_id (schedule_id +:+ newline +:+ v +:+ newline +:+ t)).

Definition stable_followup_occurrence_id (parent_occurrence_id step_id : string) : result string :=
  parent ← _safe_token (JStr parent_occurrence_id) "parent_occurrence_id";
  step_id ← _safe_token (JStr step_id) "step_id";
  Ok (occ_id (parent +:+ newline +:+ step_id)).

Definition authority : json :=
  JObj [("proposal_only", JBool true); ("external_side_effects_executed", JBool false);
        ("runner_enqueued", JBool false); ("loop_started", JBool false)].

Definition build_execution_proposal (schedule : StoredSchedule) (occurrence_id : string)
    (scheduled_for : Z) : result json :=
  _safe_token (JStr occurrence_id) "occurrence_id";;
  _non_negative_int (JInt scheduled_for) "scheduled_for";;
  Ok (JObj [("schema", JStr EXECUTION_PROPOSAL_SCHEMA); ("occurrence_id", JStr occurrence_id);
            ("schedule_id", JStr (schedule_id (spec schedule)));
            ("schedule_version", JInt (version schedule)); ("scheduled_for", JInt scheduled_for);
            ("route_type", JStr (route_type (spec schedule)));
            ("route_id", JStr (route_id (spec schedule)));
            ("approval_policy", JStr (approval_policy (spec schedule)));
            ("payload", payload (spec schedule)); ("authority", authority)]).

(** ** The calendar

    [civil] counts days as the Gregorian calendar does: it starts at 1970-01-01 and
    every day is followed by the next one of its month, month or year. *)
Definition leap (y : Z) : bool :=
  (y mod 4 =? 0) && (negb (y mod 100 =? 0) || (y mod 400 =? 0)).

Definition month_days (y m : Z) : Z :=
  if m =? 2 then (if leap y then 29 else 28) else if (m =? 4) || (m =? 6) || (m =? 9) || (m =? 11) then 30 else 31.

Definition next_day (date : Z * Z * Z) : Z * Z * Z :=
  let '(y, m, d) := date in
  if d <? month_days y m then (y, m, d + 1)
  else if m <? 12 then (y, m + 1, 1) else (y + 1, 1, 1).

Lemma leap_era k y : leap (y + 400 * k) = leap y.
Proof.
  unfold leap. replace (y + 400 * k) with (y + 100 * k * 4) at 1 by lia.
  replace (y + 400 * k) with (y + 4 * k * 100) at 1 by lia.
  replace (y + 400 * k) with (y + k * 400) by lia. by rewrite !Z.mod_add by lia.
Qed.

Definition date_eqb (a b : Z * Z * Z) : bool :=
  let '(y, m, d) := a in let '(y', m', d') := b in (y =? y') && (m =? m') && (d =? d').

Lemma date_eqb_eq a b : date_eqb a b = true → a = b.
Proof.
  destruct a as [[y m] d], b as [[y' m'] d']. cbn. rewrite !andb_true_iff, !Z.eqb_eq. naive_solver.
Qed.

(** Within an era: the year (beginning in March) of a day, by its first and last
    day, and the month and day of a day of the year. *)
Definition year_of_era (doe : Z) : Z :=
  (doe - doe / 1460 + doe / 36524 - doe / 146096) / 365.
Definition year_start (y : Z) : Z := 365 * y + y / 4 - y / 100.
Definition year_last (y : Z) : Z := if y =? 399 then 146096 else year_start (y + 1) - 1.
Definition month_day (doy : Z) : Z * Z :=
  let mp := (5 * doy + 2) / 153 in
  (if mp <? 10 then mp + 3 else mp - 9, doy - (153 * mp + 2) / 5 + 1).

Lemma year_of_era_step d : 0 ≤ d < 146096 → year_of_era d ≤ year_of_era (d + 1).
Proof.
  intros Hd. unfold year_of_era. apply Z.div_le_mono; [lia|].
  assert ((d + 1) / 1460 ≤ d / 1460 + 1) by (rewrite <-Z.div_add by lia; apply Z.div_le_mono; lia).
  assert (d / 36524 ≤ (d + 1) / 36524) by (apply Z.div_le_mono; lia).
  destruct (decide (d = 146095)) as [->|]; [vm_compute; discriminate|].
  rewrite !(Z.div_small _ 146096) by lia. lia.
Qed.

Lemma year_of_era_mono d d' : 0 ≤ d ≤ d' → d' ≤ 146096 → year_of_era d ≤ year_of_era d'.
Proof.
  intros Hd Hd'.
  assert (H : ∀ n : nat, d + Z.of_nat n ≤ 146096 → year_of_era d ≤ year_of_era (d + Z.of_nat n)).
  { induction n as [|n IH]; intros Hle; [rewrite Z.add_0_r; lia|].
    etransitivity; [apply IH; lia|]. replace (d + Z.of_nat (S n)) with (d + Z.of_nat n + 1) by lia.
    apply year_of_era_step. lia. }
  specialize (H (Z.to_nat (d' - d))). rewrite Z2Nat.id in H by lia.
  replace (d + (d' - d)) with d' in H by lia. by apply H.
Qed.

Definition year_ok (y : Z) : bool :=
  (year_of_era (year_start y) =? y) && (year_of_era (year_last y) =? y)
  && (year_last y - year_start y =? 364 + Z.b2z (leap (y + 1)))
  && (0 <=? year_start y) && (year_last y <=? 146096).

Lemma years_ok y : 0 ≤ y < 400 → year_ok y = true.
Proof.
  assert (H : forallb year_ok (seqZ 0 400) = true) by (vm_compute; reflexivity).
  intros Hy. apply (proj1 (forallb_elem _ _) H), elem_of_seqZ. lia.
Qed.

Lemma year_facts y : 0 ≤ y < 400 →
  year_of_era (year_start y) = y ∧ year_of_era (year_last y) = y ∧
  year_last y - year_start y = 364 + Z.b2z (leap (y + 1)) ∧
  0 ≤ year_start y ∧ year_last y ≤ 146096.
Proof.
  intros H%years_ok. unfold year_ok in H. rewrite !andb_true_iff, !Z.eqb_eq, !Z.leb_le in H. tauto.
Qed.

Lemma year_bounds doe : 0 ≤ doe ≤ 146096 →
  let y := year_of_era doe in 0 ≤ y < 400 ∧ year_start y ≤ doe ≤ year_last y.
Proof.
  intros Hd y.
  assert (Hy : 0 ≤ y < 400).
  { pose proof (year_of_era_mono 0 doe ltac:(lia) ltac:(lia)) as H0.
    pose proof (year_of_era_mono doe 146096 ltac:(lia) ltac:(lia)) as H1.
    change (year_of_era 0) with 0 in H0. change (year_of_era 146096) with 399 in H1.
    fold y in H0, H1. lia. }
  split; [done|]. split; apply Z.nlt_ge; intros Hlt.
  - destruct (year_facts (y - 1)) as (_ & Hl & _ & _ & _).
    { assert (y ≠ 0); [|lia]. intros E. rewrite E in Hlt. change (year_start 0) with 0 in Hlt. lia. }
    unfold year_last in Hl. destruct (Z.eqb_spec (y - 1) 399); [lia|].
    replace (y - 1 + 1) with y in Hl by lia.
    pose proof (year_of_era_mono doe (year_start y - 1) ltac:(lia)) as Hm.
    destruct (year_facts y Hy) as (_ & _ & Hlen & _ & Hmax). fold y in Hm.
    pose proof (leap (y + 1)) as lp. destruct (leap (y + 1)); cbn in Hlen; lia.
  - unfold year_last in Hlt. destruct (Z.eqb_spec y 399); [lia|].
    destruct (year_facts (y + 1) ltac:(lia)) as (Hs & _ & _ & Hpos & _).
    pose proof (year_of_era_mono (year_start (y + 1)) doe ltac:(lia) ltac:(lia)) as Hm.
    fold y in Hm. lia.
Qed.

(** The day after a day of a year, with the carry into the next year. *)
Definition next_md (lp : bool) (m d : Z) : Z * Z * Z :=
  let days := if m =? 2 then (if lp then 29 else 28)
              else if (m =? 4) || (m =? 6) || (m =? 9) || (m =? 11) then 30 else 31 in
  if d <? days then (0, m, d + 1) else if m <? 12 then (0, m + 1, 1) else (1, 1, 1).

Definition winter (m : Z) : Z := if m <=? 2 then 1 else 0.

Definition doy_ok (lp : bool) (doy : Z) : bool :=
  let '(m, d) := month_day doy in
  if doy =? 364 + Z.b2z lp then (m =? 2) && (d =? 28 + Z.b2z lp)
  else let '(m', d') := month_day (doy + 1) in
    date_eqb (winter m', m', d') (let '(c, m2, d2) := next_md lp m d in (winter m + c, m2, d2)).

Lemma doys_ok lp doy : 0 ≤ doy ≤ 364 + Z.b2z lp → doy_ok lp doy = true.
Proof.
  assert (H : ∀ lp, forallb (doy_ok lp) (seqZ 0 (365 + Z.b2z lp)) = true) by (intros []; vm_compute; reflexivity).
  intros Hy. apply (proj1 (forallb_elem _ _) (H lp)), elem_of_seqZ. lia.
Qed.

Definition date_of (era y doy : Z) : Z * Z * Z :=
  let '(m, d) := month_day doy in (y + era * 400 + winter m, m, d).

Lemma civil_date n : civil n =
  let z := n + 719468 in let y := year_of_era (z mod 146097) in
  date_of (z / 146097) y (z mod 146097 - year_start y).
Proof. reflexivity. Qed.

Lemma next_day_md y m d : next_day (y, m, d) =
  let '(c, m', d') := next_md (leap y) m d in (y + c, m', d').
Proof.
  unfold next_day, next_md, month_days. destruct (d <? _); [by rewrite Z.add_0_r|].
  destruct (m <? 12); [by rewrite Z.add_0_r|done].
Qed.

Lemma next_md_leap lp lp' m d : m ≠ 2 → next_md lp m d = next_md lp' m d.
Proof. intros Hm. unfold next_md. by rewrite (proj2 (Z.eqb_neq _ _) Hm). Qed.

(** Inside a year and over its end. *)
Lemma date_of_next era y doy : 0 ≤ doy < 364 + Z.b2z (leap (y + 1)) →
  date_of era y (doy + 1) = next_day (date_of era y doy).
Proof.
  intros Hd. pose proof (doys_ok (leap (y + 1)) doy ltac:(lia)) as H. unfold doy_ok, date_of in *.
  destruct (month_day doy) as [m d], (month_day (doy + 1)) as [m' d'].
  rewrite (proj2 (Z.eqb_neq doy _)) in H by lia. apply date_eqb_eq in H.
  rewrite next_day_md.
  assert (E : next_md (leap (y + era * 400 + winter m)) m d = next_md (leap (y + 1)) m d).
  { destruct (decide (m = 2)) as [->|Hm]; [|by apply next_md_leap]. f_equal.
    change (winter 2) with 1. replace (y + era * 400 + 1) with (y + 1 + 400 * era) by lia.
    apply leap_era. }
  rewrite E. destruct (next_md _ m d) as [[c m2] d2]. injection H as Hw -> ->. do 2 f_equal. lia.
Qed.

Lemma date_of_last era y : date_of era (y + 1) 0 = next_day (date_of era y (364 + Z.b2z (leap (y + 1)))).
Proof.
  pose proof (doys_ok (leap (y + 1)) (364 + Z.b2z (leap (y + 1))) ltac:(destruct (leap _); cbn; lia)) as H.
  unfold doy_ok, date_of in *. destruct (month_day (364 + Z.b2z (leap (y + 1)))) as [m d].
  rewrite Z.eqb_refl in H. apply andb_true_iff in H as [->%Z.eqb_eq ->%Z.eqb_eq].
  change (month_day 0) with (3, 1). rewrite next_day_md. change (winter 2) with 1.
  replace (y + era * 400 + 1) with (y + 1 + 400 * era) by lia. rewrite leap_era.
  change (winter 3) with 0. destruct (leap (y + 1)); cbn; do 2 f_equal; lia.
Qed.

Lemma civil_next n : civil (n + 1) = next_day (civil n).
Proof.
  rewrite !civil_date. cbv zeta. replace (n + 1 + 719468) with (n + 719468 + 1) by lia.
  generalize (n + 719468) as z. clear n. intros z.
  pose proof (Z.mod_pos_bound z 146097 ltac:(lia)) as Hz.
  destruct (year_bounds (z mod 146097) ltac:(lia)) as [Hy Hb].
  destruct (year_facts _ Hy) as (_ & _ & Hlen & _ & _).
  pose proof (Z.div_mod z 146097 ltac:(lia)) as Ez.
  set (doe := z mod 146097) in *. set (era := z / 146097) in *. set (y := year_of_era doe) in *.
  clearbody doe era. subst z.
  destruct (decide (doe = 146096)) as [->|Hlast].
  - replace (146097 * era + 146096 + 1) with ((era + 1) * 146097) by lia.
    rewrite Z.mod_mul, Z.div_mul by lia. change (year_of_era 0 : Z) with 0 in *.
    subst y. change (year_of_era 146096) with 399.
    change (146096 - year_start 399) with (364 + Z.b2z (leap (399 + 1))). rewrite <-date_of_last.
    change (0 - year_start 0) with 0. unfold date_of. destruct (month_day 0). do 2 f_equal. lia.
  - replace (146097 * era + doe + 1) with (doe + 1 + era * 146097) by lia.
    rewrite Z.mod_add, Z.div_add, Z.mod_small, (Z.div_small (doe + 1)) by lia. rewrite Z.add_0_l.
    destruct (year_bounds (doe + 1) ltac:(lia)) as [Hy' Hb'].
    destruct (decide (doe = year_last y)) as [E|E].
    + assert (Hy1 : y ≠ 399).
      { intros E'. rewrite E' in E. change (year_last 399) with 146096 in E. lia. }
      assert (Hs : year_start (y + 1) = doe + 1).
      { rewrite E. unfold year_last. rewrite (proj2 (Z.eqb_neq _ _) Hy1). lia. }
      destruct (year_facts (y + 1) ltac:(lia)) as (Hys & _). rewrite <-Hs, Hys.
      replace (year_start (y + 1) - year_start (y + 1)) with 0 by lia. rewrite date_of_last. do 2 f_equal. lia.
    + assert (Hsame : year_of_era (doe + 1) = y).
      { pose proof (year_of_era_mono doe (doe + 1) ltac:(lia) ltac:(lia)) as H1.
        destruct (year_facts y Hy) as (_ & Hl & _ & _ & Hmax).
        pose proof (year_of_era_mono (doe + 1) (year_last y) ltac:(lia) ltac:(lia)) as H2.
        fold y in H1. lia. }
      rewrite Hsame. replace (doe + 1 - year_start y) with (doe - year_start y + 1) by lia.
      apply date_of_next. lia.
Qed.

(** ** Due times *)

(** The days of the calendar, whatever way they are computed: the epoch, and each day
    after the one before. *)
Record gregorian (calendar : Z → Z * Z * Z) : Prop := {
  gr_epoch : calendar 0 = (1970, 1, 1);
  gr_next : ∀ n, calendar (n + 1) = next_day (calendar n);
  gr_dates : ∀ n, let '(y, m, d) := calendar n in 1 ≤ m ≤ 12 ∧ 1 ≤ d ≤ month_days y m
}.

Definition date_ok (lp : bool) (doy : Z) : bool :=
  let '(m, d) := month_day doy in
  (1 <=? m) && (m <=? 12) && (1 <=? d) &&
  (d <=? if m =? 2 then (if lp then 29 else 28)
         else if (m =? 4) || (m =? 6) || (m =? 9) || (m =? 11) then 30 else 31).

Lemma dates_ok lp doy : 0 ≤ doy ≤ 364 + Z.b2z lp → date_ok lp doy = true.
Proof.
  assert (H : ∀ lp, forallb (date_ok lp) (seqZ 0 (365 + Z.b2z lp)) = true) by (intros []; vm_compute; reflexivity).
  intros Hy. apply (proj1 (forallb_elem _ _) (H lp)), elem_of_seqZ. lia.
Qed.

Lemma civil_dates n : let '(y, m, d) := civil n in 1 ≤ m ≤ 12 ∧ 1 ≤ d ≤ month_days y m.
Proof.
  rewrite civil_date. cbv zeta. generalize (n + 719468) as z. clear n. intros z.
  pose proof (Z.mod_pos_bound z 146097 ltac:(lia)) as Hz.
  destruct (year_bounds (z mod 146097) ltac:(lia)) as [Hy Hb].
  destruct (year_facts _ Hy) as (_ & _ & Hlen & _ & _).
  set (doe := z mod 146097) in *. set (era := z / 146097). set (y := year_of_era doe) in *.
  clearbody era y doe.
  pose proof (dates_ok (leap (y + 1)) (doe - year_start y) ltac:(lia)) as H.
  unfold date_ok, date_of in *. destruct (month_day _) as [m d].
  rewrite !andb_true_iff, !Z.leb_le in H. split; [lia|]. split; [lia|]. unfold month_days.
  destruct (Z.eqb_spec m 2) as [->|Hm]; [|tauto]. change (winter 2) with 1.
  replace (y + era * 400 + 1) with (y + 1 + 400 * era) by lia. rewrite leap_era. tauto.
Qed.

Lemma gregorian_civil : gregorian civil.
Proof. split; [reflexivity|apply civil_next|apply civil_dates]. Qed.

Lemma next_day_inj a b : (let '(y, m, d) := a in 1 ≤ m ≤ 12 ∧ 1 ≤ d ≤ month_days y m) →
  (let '(y, m, d) := b in 1 ≤ m ≤ 12 ∧ 1 ≤ d ≤ month_days y m) → next_day a = next_day b → a = b.
Proof.
  destruct a as [[y m] d], b as [[y' m'] d']. intros [Hm Hd] [Hm' Hd']. unfold next_day.
  destruct (Z.ltb_spec d (month_days y m)), (Z.ltb_spec d' (month_days y' m')).
  - intros [= -> -> H2]. do 2 f_equal. lia.
  - destruct (Z.ltb_spec m' 12); intros [= _ _ H2]; lia.
  - destruct (Z.ltb_spec m 12); intros [= _ _ H2]; lia.
  - destruct (Z.ltb_spec m 12), (Z.ltb_spec m' 12); intros [=]; try lia.
    + assert (m = m') as -> by lia. subst y'. do 2 f_equal. lia.
    + assert (m = 12) as -> by lia. assert (m' = 12) as -> by lia. assert (y = y') as -> by lia.
      f_equal. lia.
Qed.

(** There is one such calendar. *)
Lemma gregorian_unique c : gregorian c → ∀ n, c n = civil n.
Proof.
  intros [E0 Hn Hd]. apply Z.bi_induction; [by intros ?? ->|by rewrite E0|]. intros n.
  replace (Z.succ n) with (n + 1) by lia. rewrite Hn, civil_next. split; [by intros ->|].
  intros H. apply next_day_inj; [apply Hd|apply civil_dates|done].
Qed.

(** The day of a cron expression: a field counts as a wildcard when its text is [*]
    or begins with [*/], and then its values do not matter; of two fields that are
    none, one is enough. *)
Definition day_due (day weekday : _CronField) (d w : Z) : Prop :=
  match cf_wildcard day, cf_wildcard weekday with
  | true, true => True
  | true, false => w ∈ cf_values weekday
  | false, true => d ∈ cf_values day
  | false, false => d ∈ cf_values day ∨ w ∈ cf_values weekday
  end.

(** The local time [s] falls on a minute that the fields name.  Day 0 was a
    Thursday, and Sunday is weekday 0. *)
Definition cron_due (calendar : Z → Z * Z * Z) (fields : cron) (s : Z) : Prop :=
  let '(_, month, day) := calendar (s / 86400) in
  s mod 60 = 0 ∧ s / 60 mod 60 ∈ cf_values (cr_minute fields) ∧
  s / 3600 mod 24 ∈ cf_values (cr_hour fields) ∧ month ∈ cf_values (cr_month fields) ∧
  day_due (cr_day fields) (cr_weekday fields) day ((s / 86400 + 4) mod 7).

(** The same as the code tests it. *)
Definition is_due (fields : cron) (zone : Z → Z) (t : Z) : bool :=
  let l := local_of (t + zone t) in (lt_second l =? 0) && _cron_matches fields l.

Lemma is_due_spec calendar fields zone t : gregorian calendar →
  is_due fields zone t = true ↔ cron_due calendar fields (t + zone t).
Proof.
  intros Hc. unfold is_due, cron_due, local_of. rewrite (gregorian_unique _ Hc).
  generalize (t + zone t) as s. intros s.
  assert (Hs : s mod 86400 mod 60 = s mod 60).
  { rewrite (Z.mod_eq s 86400) by lia.
    replace (s - 86400 * (s / 86400)) with (s + (- (s / 86400) * 1440) * 60) by lia. by rewrite Z.mod_add. }
  assert (Hm : s mod 86400 / 60 mod 60 = s / 60 mod 60).
  { rewrite (Z.mod_eq s 86400) by lia. replace (s - 86400 * (s / 86400)) with (s + (- (s / 86400) * 1440) * 60) by lia.
    rewrite Z.div_add by lia. replace (- (s / 86400) * 1440) with (- (s / 86400) * 24 * 60) by lia.
    by rewrite Z.mod_add. }
  assert (Hh : s mod 86400 / 3600 = s / 3600 mod 24).
  { rewrite (Z.mod_eq s 86400) by lia. replace (s - 86400 * (s / 86400)) with (s + (- (s / 86400) * 24) * 3600) by lia.
    rewrite Z.div_add by lia. rewrite Z.mod_eq, Z.div_div by lia. change (3600 * 24) with 86400. lia. }
  assert (Hw : (weekday (s / 86400) + 1) mod 7 = (s / 86400 + 4) mod 7).
  { unfold weekday. rewrite Zplus_mod_idemp_l. f_equal. lia. }
  destruct (civil (s / 86400)) as [[y m] d]. unfold _cron_matches, day_due. cbn.
  rewrite Hs, Hm, Hh, Hw. rewrite andb_true_iff, Z.eqb_eq.
  repeat case_bool_decide; destruct (cf_wildcard (cr_day fields)), (cf_wildcard (cr_weekday fields));
    cbn; intuition discriminate.
Qed.

Definition minutes (first : Z) (n : nat) : list Z := map (λ i, first + 60 * i) (seqZ 0 (Z.of_nat n)).

Lemma minutes_S first n : minutes first (S n) = first :: minutes (first + 60) n.
Proof.
  unfold minutes. rewrite seqZ_cons by lia. rewrite Nat2Z.inj_succ, Z.pred_succ. cbn [map].
  f_equal; [lia|]. change (Z.succ 0) with (1 + 0). rewrite <-(fmap_add_seqZ 1 0 (Z.of_nat n)).
  change (map ?f ?l) with (f <$> l). rewrite <-list_fmap_compose. apply list_fmap_ext.
  intros i x _. cbn. lia.
Qed.

Lemma minutes_elem first n t :
  t ∈ minutes first n ↔ ∃ i, 0 ≤ i < Z.of_nat n ∧ t = first + 60 * i.
Proof.
  unfold minutes. change (map ?f ?l) with (f <$> l). rewrite list_elem_of_fmap.
  setoid_rewrite elem_of_seqZ. split; intros (i & ? & ?); exists i; (split; lia).
Qed.

Lemma minutes_sorted first n : StronglySorted Z.lt (minutes first n).
Proof.
  revert first. induction n as [|n IH]; intros first; [constructor|]. rewrite minutes_S.
  constructor; [apply IH|]. apply Forall_forall. intros t (i & Hi & ->)%minutes_elem. lia.
Qed.

Lemma filter_sorted {A} (R : A → A → Prop) (p : A → bool) l :
  StronglySorted R l → StronglySorted R (List.filter p l).
Proof.
  induction 1 as [|x l Hl IH Hx]; [constructor|]. cbn. destruct (p x); [|done].
  constructor; [done|]. rewrite Forall_forall in *. intros y [Hy _]%filter_elem. auto.
Qed.

Lemma scan_minutes fields zone until limit fuel first due :
  (∀ t, t ∈ minutes first fuel → t ≤ until ∧ due_at fields zone t = Ok (is_due fields zone t)) →
  (length due ≤ limit)%nat →
  scan fields zone until limit fuel first due =
  Ok (take limit (due ++ List.filter (is_due fields zone) (minutes first fuel))).
Proof.
  revert first due. induction fuel as [|fuel IH]; intros first due Hin Hlen; cbn [scan].
  { cbn. rewrite app_nil_r. by rewrite take_ge. }
  rewrite minutes_S in *. destruct (Hin first) as [Hle Hdue]; [by left|].
  rewrite (proj2 (Z.leb_le _ _) Hle). cbn [andb].
  destruct (length due <? limit)%nat eqn:Hlt; [apply Nat.ltb_lt in Hlt|apply Nat.ltb_ge in Hlt].
  - rewrite Hdue. cbn [mbind result_bind]. rewrite IH.
    + cbn [List.filter]. destruct (is_due fields zone first); [by rewrite <-app_assoc|done].
    + intros t Ht. apply Hin. by right.
    + destruct (is_due fields zone first); [rewrite length_app; cbn; lia|done].
  - rewrite take_app_le by lia. by rewrite take_ge by lia.
Qed.

Lemma due_at_in_range fields zone t :
  t ≤ MAX_DATETIME → t + zone t ≤ MAX_DATETIME → due_at fields zone t = Ok (is_due fields zone t).
Proof.
  intros H1 H2. unfold due_at, localize, MAX_GMTIME, MAX_DATETIME in *.
  rewrite !(proj2 (Z.leb_gt _ _)), !(proj2 (Z.ltb_ge _ _)) by lia. done.
Qed.

(** The candidates of [iter_due_times] are the whole minutes after [after]. *)
Lemma candidates_elem after until t :
  t ∈ minutes ((after / 60 + 1) * 60) (Z.to_nat ((until - (after / 60 + 1) * 60) / 60 + 1)) ↔
  after < t ≤ until ∧ t mod 60 = 0.
Proof.
  rewrite minutes_elem. set (first := (after / 60 + 1) * 60).
  assert (Hf : after < first ≤ after + 60)
    by (unfold first; pose proof (Z.div_mod after 60); pose proof (Z.mod_pos_bound after 60); lia).
  split.
  - intros (i & Hi & ->). split; [|unfold first; replace ((after / 60 + 1) * 60 + 60 * i)
      with ((after / 60 + 1 + i) * 60) by lia; apply Z.mod_mul; lia].
    pose proof (Z.div_mod (until - first) 60). pose proof (Z.mod_pos_bound (until - first) 60). lia.
  - intros [Ht Hm]. exists ((t - first) / 60).
    assert (Hd : (t - first) mod 60 = 0).
    { unfold first. rewrite Zminus_mod, Z.mod_mul, Hm by lia. done. }
    pose proof (Z.div_mod (t - first) 60) as E. rewrite Hd in E.
    assert (first ≤ t).
    { unfold first in *. pose proof (Z.div_mod t 60) as E2. rewrite Hm in E2.
      assert (after / 60 < t / 60); [|lia]. pose proof (Z.div_mod after 60).
      pose proof (Z.mod_pos_bound after 60). lia. }
    assert ((t - first) / 60 ≤ (until - first) / 60) by (apply Z.div_le_mono; lia). lia.
Qed.

(** ** Cron expressions *)
Lemma chars_append s t : chars (s +:+ t) = chars s ++ chars t.
Proof.
  induction s as [|c s IH]; [done|].
  change (c :: chars (s +:+ t) = c :: chars s ++ chars t). by rewrite IH.
Qed.

Lemma words_word w l cur : forallb (λ c, negb (isspace c)) w = true →
  words cur (w ++ l) = words (rev w ++ cur) l.
Proof.
  revert cur.
  induction w as [|c w IH]; intros cur Hw; [done|]. cbn in Hw. apply andb_true_iff in Hw as [Hc Hw].
  cbn. rewrite (proj1 (negb_true_iff _) Hc), IH by done. by rewrite <-app_assoc.
Qed.

(** A word: at least one character, and none of them a space. *)
Definition is_word (s : list ascii) : bool := negb (is_empty s) && forallb (λ c, negb (isspace c)) s.

Lemma words_are cur l : forallb (λ c, negb (isspace c)) cur = true →
  Forall (λ w, is_word w = true) (words cur l).
Proof.
  assert (Hrev : ∀ cur, is_empty cur = false → forallb (λ c, negb (isspace c)) cur = true →
    is_word (rev cur) = true).
  { intros [|c k] He Hk; [done|]. unfold is_word. apply andb_true_iff. split.
    - cbn. by destruct (rev k).
    - apply forallb_elem. intros x Hx. apply (proj1 (forallb_elem _ _) Hk).
      by apply list_elem_of_In, in_rev, list_elem_of_In. }
  revert cur. induction l as [|c l IH]; intros cur Hc; cbn.
  - destruct (is_empty cur) eqn:E; [constructor|]. constructor; [by apply Hrev|constructor].
  - destruct (isspace c) eqn:Es.
    + destruct (is_empty cur) eqn:E; [by apply IH|]. constructor; [by apply Hrev|by apply IH].
    + apply IH. cbn. by rewrite Es.
Qed.

Lemma split_words_are s : Forall (λ w, is_word (chars w) = true) (split_words s).
Proof.
  unfold split_words. apply Forall_map. eapply Forall_impl; [by apply words_are|].
  intros w Hw. by rewrite chars_unchars.
Qed.

Lemma words_end k l : is_word k = true → words (rev k) l =
  match l with [] => [k] | c :: l => if isspace c then k :: words [] l else words (c :: rev k) l end.
Proof.
  intros Hk. assert (E : is_empty (rev k) = false)
    by (destruct k; [done|]; cbn; by destruct (rev k)).
  destruct l as [|c l]; cbn [words]; rewrite E, rev_involutive; done.
Qed.

Lemma words_join ws : Forall (λ w, is_word (chars w) = true) ws →
  words [] (chars (join_with " " ws)) = map chars ws.
Proof.
  induction ws as [|w ws IH]; intros Hws; [done|].
  apply Forall_cons in Hws as [Hw Hws].
  assert (Ha : forallb (λ c, negb (isspace c)) (chars w) = true)
    by (unfold is_word in Hw; by apply andb_true_iff in Hw as [_ Hw]).
  destruct ws as [|w' ws].
  - cbn [join_with]. rewrite <-(app_nil_r (chars w)), words_word, app_nil_r, words_end by done.
    done.
  - change (join_with " " (w :: w' :: ws)) with (w +:+ " " +:+ join_with " " (w' :: ws)).
    rewrite !chars_append, words_word, app_nil_r, words_end by done.
    change (chars " ") with [" "%char]. cbn [app]. change (isspace " ") with true. cbv iota.
    rewrite IH by done. done.
Qed.

Lemma split_words_join ws : Forall (λ w, is_word (chars w) = true) ws →
  split_words (join_with " " ws) = ws.
Proof.
  intros H. unfold split_words. rewrite words_join by done. rewrite map_map.
  apply map_same, Forall_true, unchars_chars.
Qed.

Definition total (ls : list (list ascii)) : nat := length (concat ls) + length ls.

Lemma words_length cur l : (total (words cur l) ≤ length cur + length l + 1)%nat.
Proof.
  unfold total. revert cur. induction l as [|c l IH]; intros cur; cbn.
  - destruct cur as [|a k]; cbn; [lia|]. rewrite !length_app, length_rev. cbn. lia.
  - destruct (isspace c).
    + destruct cur as [|a k]; cbn; [pose proof (IH []); cbn in *; lia|].
      rewrite !length_app, length_rev. pose proof (IH []). cbn in *. lia.
    + pose proof (IH (c :: cur)). cbn in *. lia.
Qed.

Lemma join_length ws : (length (chars (join_with " " ws)) ≤ total (map chars ws) - 1)%nat.
Proof.
  unfold total. induction ws as [|w [|w' ws] IH]; [done| |].
  - cbn. rewrite app_nil_r. lia.
  - change (join_with " " (w :: w' :: ws)) with (w +:+ " " +:+ join_with " " (w' :: ws)).
    rewrite !chars_append, !length_app. change (length (chars " ")) with 1%nat.
    set (j := join_with " " (w' :: ws)) in *. cbn [map concat length] in *.
    rewrite !length_app in *. cbn [length] in *. lia.
Qed.

Lemma normal_length s : (length (chars (join_with " " (split_words s))) ≤ length (chars s))%nat.
Proof.
  etransitivity; [apply join_length|]. unfold split_words. rewrite map_map.
  rewrite (map_ext _ id) by apply chars_unchars. rewrite map_id.
  pose proof (words_length [] (chars s)). cbn in *. lia.
Qed.

(** The canonical cron expressions: five fields, single spaces. *)
Definition cron_canonical (s : string) : Prop := _cron_expression (JStr s) = Ok s.

Lemma cron_expression_canonical v s : _cron_expression v = Ok s → cron_canonical s.
Proof.
  destruct v as [| | | |t| |]; try discriminate. cbn [_cron_expression]. cbv zeta.
  rewrite seq_ok, raise_if_ok, longer_ok, result_bind_ok. intros (Hl & c & Hc & [= <-]).
  unfold cron_canonical, _cron_expression. cbv zeta.
  rewrite split_words_join by apply split_words_are. rewrite Hc.
  rewrite (proj2 (longer_ok _ _)); [done|]. pose proof (normal_length t). lia.
Qed.

(** *** Fields *)
Lemma steps_elem start last step i : 0 < step →
  i ∈ steps start last step ↔ start ≤ i ≤ last ∧ (i - start) mod step = 0.
Proof.
  intros Hs. unfold steps. change (map ?f ?l) with (f <$> l). rewrite list_elem_of_fmap.
  setoid_rewrite elem_of_seqZ. split.
  - intros (k & -> & Hk). replace (start + step * k - start) with (k * step) by lia.
    rewrite Z.mod_mul by lia. split; [|done].
    pose proof (Z.mul_div_le (last - start) step Hs). nia.
  - intros [Hi Hm]. exists ((i - start) / step).
    pose proof (Z.div_mod (i - start) step ltac:(lia)) as E.
    split; [lia|]. split; [apply Z.div_pos; lia|].
    enough ((i - start) / step ≤ (last - start) / step) by lia. apply Z.div_le_mono; lia.
Qed.

Lemma cron_int_range text mn mx z : _cron_int text mn mx = Ok z → mn ≤ z ≤ mx.
Proof.
  unfold _cron_int. rewrite result_bind_ok. intros (v & _ & H).
  rewrite seq_ok, raise_if_ok in H. destruct H as [H [= <-]].
  apply orb_false_iff in H as [H1%Z.ltb_ge H2%Z.ltb_ge]. lia.
Qed.

(** The items of a part lie in the range of its field, and there is one. *)
Lemma cron_part_range mn mx part l : mn ≤ mx → cron_part mn mx part = Ok l →
  l ≠ [] ∧ ∀ i, i ∈ l → mn ≤ i ≤ mx.
Proof.
  intros Hm. unfold cron_part. rewrite seq_ok. intros [_ H].
  destruct (partition "/" part) as [[base slash] step_text].
  rewrite result_bind_ok in H. destruct H as (step & Hstep & H).
  assert (Hpos : 0 < step).
  { destruct slash; [|injection Hstep as <-; lia]. rewrite result_bind_ok in Hstep.
    destruct Hstep as (v & _ & Hv). rewrite seq_ok, raise_if_ok, Z.leb_gt in Hv.
    destruct Hv as [? [= <-]]. lia. }
  assert (Hsteps : ∀ a b, mn ≤ a → a ≤ b → b ≤ mx →
    steps a b step ≠ [] ∧ ∀ i, i ∈ steps a b step → mn ≤ i ≤ mx).
  { intros a b Ha Hab Hb. split.
    - intros E. assert (a ∈ steps a b step) as Hin.
      { apply steps_elem; [done|]. rewrite Z.sub_diag, Z.mod_0_l by lia. lia. }
      rewrite E in Hin. inversion Hin.
    - intros i Hi. apply steps_elem in Hi; [lia|done]. }
  destruct (base == "*"); [injection H as <-; by apply Hsteps|].
  destruct (partition "-" base) as [[start_text hyphen] end_text]. destruct hyphen.
  - rewrite result_bind_ok in H. destruct H as (a & Ha & H).
    rewrite result_bind_ok in H. destruct H as (b & Hb & H).
    rewrite seq_ok, raise_if_ok, Z.ltb_ge in H. destruct H as [Hab [= <-]].
    apply cron_int_range in Ha, Hb. apply Hsteps; lia.
  - rewrite result_bind_ok in H. destruct H as (a & Ha & [= <-]).
    apply cron_int_range in Ha. destruct slash; apply Hsteps; lia.
Qed.

(** The values of a parsed field: never none, always in range, Sunday only as 0. *)
Lemma cron_field_range text mn mx norm f : mn ≤ mx → (norm = true → mn ≤ 0) →
  _parse_cron_field text mn mx norm = Ok f →
  cf_values f ≠ [] ∧ ∀ i, i ∈ cf_values f → mn ≤ i ≤ mx ∧ (norm = true → i ≠ 7).
Proof.
  intros Hm Hn. unfold _parse_cron_field. cbv zeta. rewrite seq_ok, result_bind_ok.
  intros (_ & parts & Hparts & H). rewrite seq_ok, raise_if_ok in H.
  destruct H as [Hne [= <-]]. cbn [cf_values]. split; [intros E; by rewrite E in Hne|].
  intros i (j & -> & Hj)%list_elem_of_fmap.
  apply collect_ok in Hparts. apply list_elem_of_In, in_concat in Hj.
  destruct Hj as (l & Hl%list_elem_of_In & Hj%list_elem_of_In).
  assert (Hr : mn ≤ j ≤ mx).
  { clear Hne. induction Hparts as [|p l' ps ls Hp _ IH]; [inversion Hl|].
    apply elem_of_cons in Hl as [<-|Hl]; [|by apply IH].
    by apply (cron_part_range mn mx p l Hm Hp). }
  destruct (norm && (j =? 7)) eqn:E.
  - apply andb_true_iff in E as [-> E%Z.eqb_eq]. specialize (Hn eq_refl). lia.
  - split; [done|]. intros ->. by apply Z.eqb_neq in E.
Qed.

(** ** Due times, exactly *)
Section due.
Context (ZoneInfo : string → result (Z → Z)).

(** C21. The due times of a cron schedule are exact: they are the first [limit], in
    increasing order, of the whole minutes in the interval whose local time is one the
    fields name - its minute, its hour, its month, and its day of the month or its
    weekday, where dates follow the Gregorian calendar and a field of days that is
    [*] or begins with [*/] restricts nothing (so the step of [*/n] is lost there). *)
Theorem cron_due_exact calendar spec expression fields zone after until limit :
  gregorian calendar → trigger_kind spec = "cron" → cron_expression spec = Some expression →
  _parse_cron expression = Ok fields → ZoneInfo (timezone spec) = Ok zone →
  0 ≤ after → 0 ≤ until ≤ MAX_DATETIME → 0 < limit →
  (∀ t, after < t ≤ until → t + zone t ≤ MAX_DATETIME) →
  ∃ due, iter_due_times ZoneInfo spec after until limit = Ok (take (Z.to_nat limit) due) ∧
    StronglySorted Z.lt due ∧
    ∀ t, t ∈ due ↔ after < t ≤ until ∧ t mod 60 = 0 ∧ cron_due calendar fields (t + zone t).
Proof.
  intros Hg Hk He Hf Hz Ha Hu Hl Hr.
  set (first := (after / 60 + 1) * 60).
  set (n := Z.to_nat ((until - first) / 60 + 1)).
  exists (if until <=? after then [] else List.filter (is_due fields zone) (minutes first n)).
  unfold iter_due_times, _positive_int, _non_negative_int.
  rewrite (proj2 (Z.ltb_ge after 0)), (proj2 (Z.ltb_ge until 0)),
    (proj2 (Z.ltb_ge limit 0)) by lia. cbn [raise_if mbind result_bind].
  rewrite (proj2 (Z.eqb_neq limit 0)) by lia. cbn [raise_if mbind result_bind].
  destruct (until <=? after) eqn:Hle.
  { rewrite take_nil. apply Z.leb_le in Hle. split; [done|]. split; [constructor|].
    intros t. split; [intros Ht; inversion Ht|lia]. }
  rewrite Hk, He. change ("cron" == "once") with false. cbn [some_or mbind result_bind].
  rewrite Hf, Hz. cbn [mbind result_bind]. fold first. fold n.
  assert (Hc : ∀ t, t ∈ minutes first n ↔ after < t ≤ until ∧ t mod 60 = 0).
  { intros t. unfold first, n. apply candidates_elem. }
  split; [|split; [apply filter_sorted, minutes_sorted|]].
  - rewrite scan_minutes; [done| |cbn; lia].
    intros t Ht. apply Hc in Ht. split; [lia|]. apply due_at_in_range; [lia|]. apply Hr. lia.
  - intros t. rewrite filter_elem, Hc, (is_due_spec calendar) by done. tauto.
Qed.
End due.

(** ** Well-formed schedules *)
Section specs.
Context (ZoneInfo : string → result (Z → Z)).

Inductive trigger_ok : string → option string → option Z → Prop :=
  | cron_ok s : cron_canonical s → trigger_ok "cron" (Some s) None
  | once_ok z : 0 ≤ z → trigger_ok "once" None (Some z).

Record spec_ok (s : ScheduleSpec) : Prop := {
  so_id : _SAFE_TOKEN_RE (schedule_id s) = true;
  so_trigger : trigger_ok (trigger_kind s) (cron_expression s) (once_at s);
  so_timezone : _timezone_name ZoneInfo (JStr (timezone s)) = Ok (timezone s);
  so_route_type : route_type s ∈ ROUTE_TYPES;
  so_route_id : _SAFE_TOKEN_RE (route_id s) = true;
  so_approval : approval_policy s ∈ APPROVAL_POLICIES;
  so_overlap : overlap_policy s ∈ OVERLAP_POLICIES;
  so_misfire : misfire_policy s ∈ MISFIRE_POLICIES;
  so_payload : payload_ok schedule_limits (payload s)
}.

Lemma timezone_name_ok v s :
  _timezone_name ZoneInfo v = Ok s → _timezone_name ZoneInfo (JStr s) = Ok s.
Proof.
  destruct v as [| | | |t| |]; try discriminate. intros H. assert (t = s) as <-; [|done].
  revert H. cbn. rewrite seq_ok. intros [_ H].
  destruct (ZoneInfo t) as [z|[]]; congruence.
Qed.

Lemma enum_str_ok v allowed f s : _enum v allowed f = Ok s ↔ v = JStr s ∧ s ∈ allowed.
Proof. unfold _enum. rewrite string_with_ok, bool_decide_eq_true. done. Qed.

Lemma route_token_ok v f s : _safe_token v f = Ok s ↔ v = JStr s ∧ _SAFE_TOKEN_RE s = true.
Proof. apply string_with_ok. Qed.

Lemma non_neg_ok v f z : _non_negative_int v f = Ok z ↔ v = JInt z ∧ 0 ≤ z.
Proof.
  destruct v; try (split; [discriminate|intros [? _]; discriminate]). cbn.
  rewrite seq_ok, raise_if_ok, Z.ltb_ge. naive_solver.
Qed.

Lemma trigger_result d kind c o : kind ∈ TRIGGER_KINDS →
  trigger d kind = Ok (c, o) → trigger_ok kind c o.
Proof.
  unfold trigger. intros Hk. apply elem_of_cons in Hk as [->|Hk].
  - change ("cron" == "cron") with true. cbv iota. rewrite result_bind_ok.
    intros (e & He & H). rewrite seq_ok in H. destruct H as [_ [= <- <-]].
    constructor. by eapply cron_expression_canonical.
  - apply list_elem_of_singleton in Hk as ->. change ("once" == "cron") with false. cbv iota.
    rewrite seq_ok, result_bind_ok. intros (_ & z & [_ Hz]%non_neg_ok & [= <- <-]).
    by constructor.
Qed.

Lemma spec_from_mapping_ok v s : dicts_ok v → from_mapping ZoneInfo v = Ok s → spec_ok s.
Proof.
  intros Hd H. destruct v as [| | | | | |d]; try discriminate. unfold from_mapping in H.
  rewrite !seq_ok in H. destruct H as (_ & _ & _ & H).
  rewrite result_bind_ok in H. destruct H as (? & [_ Hid]%route_token_ok & H).
  rewrite result_bind_ok in H. destruct H as (? & [_ Hkind]%enum_str_ok & H).
  rewrite result_bind_ok in H. destruct H as (? & Hzone%timezone_name_ok & H).
  rewrite result_bind_ok in H. destruct H as (? & [_ Hrt]%enum_str_ok & H).
  rewrite result_bind_ok in H. destruct H as (? & [_ Hrid]%route_token_ok & H).
  rewrite result_bind_ok in H. destruct H as (? & [_ Hap]%enum_str_ok & H).
  rewrite result_bind_ok in H. destruct H as (? & [_ Hov]%enum_str_ok & H).
  rewrite result_bind_ok in H. destruct H as (? & [_ Hmi]%enum_str_ok & H).
  rewrite result_bind_ok in H. destruct H as (? & Hp & H).
  rewrite result_bind_ok in H. destruct H as ([c o] & Ht & [= <-]).
  split; cbn; try done.
  - by eapply trigger_result.
  - eapply payload_result; [|exact Hp]. by apply field_dicts.
Qed.

(** ** Reading a mapping back *)
Definition all_fields (s : ScheduleSpec) : list (string * json) :=
  ("schema", JStr SCHEDULE_SCHEMA) :: spec_fields s.

Lemma fields_nodup : NoDup SCHEDULE_FIELDS.
Proof. by_decide. Qed.

Lemma spec_field s k v : (k, v) ∈ all_fields s → dict_get (all_fields s) k = Some v.
Proof. apply dict_get_nodup. apply fields_nodup. Qed.

(** Membership in the literal list of fields. *)
Ltac spec_field := solve [unfold all_fields, spec_fields; repeat first [left | right]].

Lemma trigger_id s : spec_ok s →
  trigger (all_fields s) (trigger_kind s) = Ok (cron_expression s, once_at s).
Proof.
  intros Hs. pose proof (so_trigger s Hs) as Ht. unfold trigger, field.
  rewrite (spec_field s "cron_expression" (jopt (cron_expression s))) by spec_field.
  rewrite (spec_field s "once_at" (jint_opt (once_at s))) by spec_field. unfold default, id.
  destruct Ht as [e He|z Hz].
  - change ("cron" == "cron") with true. cbv iota. cbn [jopt]. unfold cron_canonical in He. by rewrite He.
  - change ("once" == "cron") with false. cbv iota. cbn [jopt jint_opt is_null negb raise_if mbind result_bind].
    by rewrite (proj2 (non_neg_ok (JInt z) "once_at" z)) by done.
Qed.

Lemma mapping_id s : spec_ok s → from_mapping ZoneInfo (to_mapping s) = Ok s.
Proof.
  intros Hs. pose proof (trigger_id s Hs) as Htr. destruct Hs.
  change (to_mapping s) with (JObj (all_fields s)). unfold from_mapping.
  change (all_fields s).*1 with SCHEDULE_FIELDS.
  change (negb (forallb _ SCHEDULE_FIELDS)) with false. cbn [raise_if mbind result_bind].
  unfold field at 1 2 3 4 5 6 7 8 9.
  rewrite (spec_field s "schema" (JStr SCHEDULE_SCHEMA)) by spec_field.
  rewrite (spec_field s "schedule_id" (JStr (schedule_id s))) by spec_field.
  rewrite (spec_field s "trigger_kind" (JStr (trigger_kind s))) by spec_field.
  rewrite (spec_field s "timezone" (JStr (timezone s))) by spec_field.
  rewrite (spec_field s "route_type" (JStr (route_type s))) by spec_field.
  rewrite (spec_field s "route_id" (JStr (route_id s))) by spec_field.
  rewrite (spec_field s "approval_policy" (JStr (approval_policy s))) by spec_field.
  rewrite (spec_field s "overlap_policy" (JStr (overlap_policy s))) by spec_field.
  rewrite (spec_field s "misfire_policy" (JStr (misfire_policy s))) by spec_field.
  rewrite (spec_field s "payload" (payload s)) by spec_field.
  change (negb (py_eq_str (Some (JStr SCHEDULE_SCHEMA)) SCHEDULE_SCHEMA)) with false.
  unfold default, id. cbn [raise_if mbind result_bind].
  assert (Hkind : trigger_kind s ∈ TRIGGER_KINDS) by (destruct so_trigger0; by_decide).
  rewrite !(proj2 (route_token_ok (JStr _) _ _)) by done.
  rewrite (proj2 (enum_str_ok (JStr (trigger_kind s)) _ _ _)) by done.
  rewrite so_timezone0. cbn [mbind result_bind].
  rewrite (proj2 (enum_str_ok (JStr (route_type s)) _ _ _)) by done.
  rewrite (proj2 (enum_str_ok (JStr (approval_policy s)) _ _ _)) by done.
  rewrite (proj2 (enum_str_ok (JStr (overlap_policy s)) _ _ _)) by done.
  rewrite (proj2 (enum_str_ok (JStr (misfire_policy s)) _ _ _)) by done.
  unfold _payload. rewrite payload_id by done. cbn [mbind result_bind]. rewrite Htr.
  cbn [mbind result_bind]. by destruct s.
Qed.

Lemma mapping_sorted s : spec_ok s →
  sort_keys (to_mapping s) = JObj (sort_by (λ a b, str_leb a.1 b.1) (all_fields s)).
Proof.
  intros Hs. change (to_mapping s) with (JObj (all_fields s)). cbn [sort_keys]. do 2 f_equal.
  apply map_same.
  repeat (apply Forall_cons; split; cbn [fst snd]); try done.
  - by destruct (cron_expression s).
  - by destruct (once_at s).
  - by rewrite (frozen_sorted _ _ _ (po_frozen _ _ (so_payload _ Hs))).
Qed.

Lemma mapping_inj s s' : spec_ok s → spec_ok s' →
  sort_keys (to_mapping s) = sort_keys (to_mapping s') → s' = s.
Proof.
  intros Hs Hs' E. rewrite !mapping_sorted in E by done. injection E as E.
  enough (Ok s' = Ok s) as [= ->] by done. rewrite <-!mapping_id by done. f_equal.
  unfold to_mapping, spec_fields. congruence.
Qed.

Lemma mapping_wf s : json_wf (payload s) → json_wf (to_mapping s).
Proof.
  intros Hp. apply json_wf_obj.
  repeat (apply Forall_cons; split; cbn [fst snd]); try done.
  - by destruct (cron_expression s).
  - by destruct (once_at s).
Qed.

Lemma hash_text s h : deterministic_hash s = Ok h → h = text_hash (dumps_canonical (to_mapping s)).
Proof.
  unfold deterministic_hash, canonical_json. rewrite result_bind_ok. intros (t & Ht & [= <-]).
  rewrite seq_ok in Ht. by destruct Ht as [_ [= <-]].
Qed.

(** Two schedules with the same hash are one. *)
Lemma same_hash s s' h : spec_ok s → spec_ok s' → json_wf (payload s) → json_wf (payload s') →
  deterministic_hash s = Ok h → deterministic_hash s' = Ok h →
  s' = s ∨ sha256_collision (dumps_canonical (to_mapping s)) (dumps_canonical (to_mapping s')).
Proof.
  intros Hs Hs' Hwf Hwf' Hh%hash_text Hh'%hash_text.
  destruct (decide (dumps_canonical (to_mapping s) = dumps_canonical (to_mapping s'))) as [E|E].
  - left. apply mapping_inj; [done..|]. by apply dumps_canonical_inj; [apply mapping_wf..|].
  - right. split; [done|congruence].
Qed.

(** C25. A schedule survives its mapping: what [from_mapping] builds from any value is
    built again from its own mapping, and two schedules with the same hash - the
    test for an unchanged registration - are one schedule, up to SHA-256
    collisions.  (Its payload holds floats the model has a text for.) *)
Theorem schedule_roundtrip v s :
  dicts_ok v → from_mapping ZoneInfo v = Ok s → json_wf (payload s) →
  from_mapping ZoneInfo (to_mapping s) = Ok s ∧
  ∀ v' s' h, dicts_ok v' → from_mapping ZoneInfo v' = Ok s' → json_wf (payload s') →
    deterministic_hash s = Ok h → deterministic_hash s' = Ok h →
    s' = s ∨ sha256_collision (dumps_canonical (to_mapping s)) (dumps_canonical (to_mapping s')).
Proof.
  intros Hd H Hwf. apply spec_from_mapping_ok in H; [|done]. split; [by apply mapping_id|].
  intros v' s' h Hd' H' Hwf' Hh Hh'. apply spec_from_mapping_ok in H'; [|done].
  by eapply same_hash.
Qed.
End specs.

(** *** A step of the day of the month

    A field that begins with [*/] counts as a bare [*] when days are compared, so
    its step is lost: the expression means every day. *)
Lemma star_step_day_ignored fields l day :
  cf_wildcard (cr_day fields) = true →
  _cron_matches fields l =
  _cron_matches fields {| lt_second := lt_second l; lt_minute := lt_minute l; lt_hour := lt_hour l;
    lt_day := day; lt_month := lt_month l; lt_weekday := lt_weekday l |}.
Proof. intros H. unfold _cron_matches. cbn. by rewrite H. Qed.

Lemma every_other_day_is_daily :
  iter_due_times (λ _, Ok (λ _, 0))
    {| schedule_id := "s"; trigger_kind := "cron"; cron_expression := Some "0 0 */2 * *";
       once_at := None; timezone := "UTC"; route_type := "notify"; route_id := "r";
       approval_policy := "notify_only"; overlap_policy := "skip"; misfire_policy := "skip";
       payload := JObj [] |} 86399 172800 4 = Ok [86400; 172800].
Proof. vm_compute. reflexivity. Qed.

(** ** Witnesses *)
Definition demo_zones (name : string) : result (Z → Z) :=
  if name == "Europe/Rome" then Ok (λ _, 3600) else Raise (KeyError name).

Definition demo_spec : ScheduleSpec := {|
  schedule_id := "daily-digest"; trigger_kind := "cron"; cron_expression := Some "30 9 * * 1-5";
  once_at := None; timezone := "Europe/Rome"; route_type := "loop"; route_id := "loop_engine_packet";
  approval_policy := "auto_run_low_risk"; overlap_policy := "skip"; misfire_policy := "run_once";
  payload := JObj [("bounded", JBool true); ("notes", JArr [JStr "a"; JNull])] |}.

Definition demo_fields : cron := Eval vm_compute in
  match _parse_cron "30 9 * * 1-5" with Ok f => f | _ => {| cr_minute := {| cf_values := []; cf_wildcard := false |};
    cr_hour := {| cf_values := []; cf_wildcard := false |}; cr_day := {| cf_values := []; cf_wildcard := false |};
    cr_month := {| cf_values := []; cf_wildcard := false |}; cr_weekday := {| cf_values := []; cf_wildcard := false |} |} end.

Lemma demo_from_mapping : from_mapping demo_zones (to_mapping demo_spec) = Ok demo_spec.
Proof. vm_compute. reflexivity. Qed.

Lemma demo_spec_dicts : dicts_ok (to_mapping demo_spec).
Proof. apply dicts_ok_obj. split; [by_decide|]. repeat constructor; by_decide. Qed.

Lemma cron_due_exact_witness :
  ∃ due, iter_due_times demo_zones demo_spec 1000 31000 10 = Ok (take (Z.to_nat 10) due) ∧
    StronglySorted Z.lt due ∧
    ∀ t, t ∈ due ↔ 1000 < t ≤ 31000 ∧ t mod 60 = 0 ∧ cron_due civil demo_fields (t + 3600).
Proof.
  apply (cron_due_exact demo_zones civil demo_spec "30 9 * * 1-5" demo_fields (λ _, 3600) 1000 31000 10
    gregorian_civil); try reflexivity; unfold MAX_DATETIME; lia.
Defined.

Lemma schedule_roundtrip_witness :
  from_mapping demo_zones (to_mapping demo_spec) = Ok demo_spec ∧
  ∀ v' s' h, dicts_ok v' → from_mapping demo_zones v' = Ok s' → json_wf (payload s') →
    deterministic_hash demo_spec = Ok h → deterministic_hash s' = Ok h →
    s' = demo_spec ∨
    sha256_collision (dumps_canonical (to_mapping demo_spec)) (dumps_canonical (to_mapping s')).
Proof.
  apply (schedule_roundtrip demo_zones (to_mapping demo_spec)).
  - exact demo_spec_dicts.
  - exact demo_from_mapping.
  - vm_compute. tauto.
Defined.
