(* ===== verification/ScheduleStore.v ===== *)
(** * The schedule store

    [src/core/scheduler_store.py]: versions of schedules, their heads with the
    cursor of the last evaluation, occurrences and dispatch receipts, in SQLite.
    A table is a map from its primary key; a transaction is one atomic step, and
    one that raises is rolled back. *)

From S2P Require Import Prelude.
From S2P Require Import PyStr.
From S2P Require Import Json.
From S2P Require Import Sha256.
From S2P Require Import Frozen.
From S2P Require Import Schedule.

(** [_ALLOWED_TRANSITIONS[state]] *)
Definition _ALLOWED_TRANSITIONS (state : string) : list string :=
  if state == "pending" then ["running"; "skipped"; "needs_operator"; "failed"]
  else if state == "running" then
    ["done"; "failed"; "waiting_dependency"; "needs_operator"; "pending"]
  else if state == "waiting_dependency" then ["pending"; "needs_operator"; "failed"; "skipped"]
  else if state == "needs_operator" then ["pending"; "skipped"; "failed"; "done"]
  else [].

(** ** Tables *)
Record version_row := {
  v_trigger_kind : string;
  v_cron_expression : option string;
  v_once_at : option Z;
  v_timezone : string;
  v_route_type : string;
  v_route_id : string;
  v_approval_policy : string;
  v_overlap_policy : string;
  v_misfire_policy : string;
  v_payload_json : string;
  v_created_at : Z;
  v_spec_hash : string
}.

Record head_row := { h_version : Z; h_enabled : bool; h_last_evaluated_at : option Z }.

Record occurrence_row := {
  o_schedule_id : string;
  o_version : Z;
  o_scheduled_for : Z;
  o_state : string;
  o_reason : string;
  o_proposal_json : string;
  o_created_at : Z;
  o_updated_at : Z;
  o_started_at : option Z;
  o_attempt : Z;
  o_idempotency_key : option string;
  o_parent_occurrence_id : option string;
  o_parent_receipt_id : option string;
  o_claim_owner : option string;
  o_lease_expires_at : option Z;
  o_heartbeat_at : option Z
}.

Record receipt_row := {
  r_occurrence_id : string;
  r_attempt : Z;
  r_idempotency_key : string;
  r_status : string;
  r_reason : string;
  r_evidence_ref : string;
  r_result_json : string;
  r_created_at : Z;
  r_parent_receipt_id : option string
}.

Record SchedulerStore := {
  versions : gmap (string * Z) version_row;
  heads : gmap string head_row;
  occurrences : gmap string occurrence_row;
  receipts : gmap string receipt_row
}.

(** What [initialize] makes of a new file. *)
Definition empty_store : SchedulerStore :=
  {| versions := ∅; heads := ∅; occurrences := ∅; receipts := ∅ |}.

Definition set_versions (f : gmap (string * Z) version_row → gmap (string * Z) version_row)
    (s : SchedulerStore) : SchedulerStore :=
  {| versions := f (versions s); heads := heads s; occurrences := occurrences s;
     receipts := receipts s |}.
Definition set_heads (f : gmap string head_row → gmap string head_row) (s : SchedulerStore)
    : SchedulerStore :=
  {| versions := versions s; heads := f (heads s); occurrences := occurrences s;
     receipts := receipts s |}.
Definition set_occurrences (f : gmap string occurrence_row → gmap string occurrence_row)
    (s : SchedulerStore) : SchedulerStore :=
  {| versions := versions s; heads := heads s; occurrences := f (occurrences s);
     receipts := receipts s |}.
Definition set_receipts (f : gmap string receipt_row → gmap string receipt_row)
    (s : SchedulerStore) : SchedulerStore :=
  {| versions := versions s; heads := heads s; occurrences := occurrences s;
     receipts := f (receipts s) |}.

(** ** Validation *)
Definition _timestamp (value : Z) (field : string) : result unit :=
  raise_if (value <? 0) (invalid field).

Definition _state (value : string) : result unit :=
  raise_if (value ∉? OCCURRENCE_STATES) (verr "INVALID_OCCURRENCE_STATE").

Definition _reason (value : string) : result unit :=
  raise_if (falsy value || longer 128 value) (verr "INVALID_REASON").

Definition _owner (value : string) : result unit :=
  raise_if (falsy value || longer 128 value) (verr "INVALID_CLAIM_OWNER").

Definition check_lease (lease_seconds : Z) : result unit :=
  raise_if (lease_seconds <=? 0) (verr "INVALID_LEASE_SECONDS").

Definition assertion : exn := RuntimeError "AssertionError".

Definition sqlite_opt (o : option Z) : result (option Z) :=
  match o with None => Ok None | Some z => z ← sqlite_int z; Ok (Some z) end.

(** ** Reading receipts

    [word in str(value or "").upper()] for a word of capital letters: the [str] of
    a JSON value shows every text inside it, and no such word is made by quotes,
    escapes and punctuation. *)
Fixpoint mentions (word : string) (value : json) : bool :=
  match value with
  | JStr s => contains word (upper s)
  | JArr l => existsb (mentions word) l
  | JObj d => existsb (λ f, contains word (upper f.1) || mentions word f.2) d
  | _ => false
  end.

(** [str(value or "").upper() in words] for words of capital letters. *)
Definition upper_in (words : list string) (value : json) : bool :=
  match value with JStr s => upper s ∈? words | _ => false end.

Definition ambiguous_fields (d : list (string * json)) : bool :=
  match field d "external_side_effects_executed" with
  | JBool true =>
      upper_in ["UNKNOWN"; "AMBIGUOUS"] (field d "status")
      || upper_in ["UNKNOWN"; "AMBIGUOUS"] (field d "decision")
      || mentions "AMBIGUOUS" (field d "reason")
  | _ => false
  end.

(** The recursion follows the last field [route_receipt], which is the one
    [get] finds. *)
Fixpoint _receipt_is_ambiguous_mutating (value : json) : bool :=
  match value with
  | JObj d =>
      ambiguous_fields d ||
      (fix go (d : list (string * json)) (found : bool) :=
         match d with
         | [] => found
         | (k, x) :: d => go d (if k == "route_receipt" then _receipt_is_ambiguous_mutating x else found)
         end) d false
  | _ => false
  end.

Definition _sha256_hex (value : string) : string := text_hash value.

(** ** Rows and records *)
Section store.
Context (ZoneInfo : string → result (Z → Z)).

Definition _schedule_from_row (schedule_id : string) (version : Z) (row : version_row)
    (head : head_row) : result StoredSchedule :=
  payload ← json_loads (v_payload_json row);
  spec ← from_mapping ZoneInfo (JObj
    [("schema", JStr "skeleton.schedule.v1"); ("schedule_id", JStr schedule_id);
     ("trigger_kind", JStr (v_trigger_kind row)); ("cron_expression", jopt (v_cron_expression row));
     ("once_at", jint_opt (v_once_at row)); ("timezone", JStr (v_timezone row));
     ("route_type", JStr (v_route_type row)); ("route_id", JStr (v_route_id row));
     ("approval_policy", JStr (v_approval_policy row)); ("overlap_policy", JStr (v_overlap_policy row));
     ("misfire_policy", JStr (v_misfire_policy row)); ("payload", payload)]);
  Ok {| spec := spec; version := version; enabled := h_enabled head;
        created_at := v_created_at row; last_evaluated_at := h_last_evaluated_at head |}.

Definition _occurrence_from_row (occurrence_id : string) (row : occurrence_row)
    : result OccurrenceRecord :=
  proposal ← json_loads (o_proposal_json row);
  Ok {| or_occurrence_id := occurrence_id; or_schedule_id := o_schedule_id row;
        or_schedule_version := o_version row; or_scheduled_for := o_scheduled_for row;
        or_state := o_state row; or_reason := o_reason row; or_proposal := proposal;
        or_created_at := o_created_at row; or_updated_at := o_updated_at row;
        or_started_at := o_started_at row; or_attempt := o_attempt row;
        or_idempotency_key := o_idempotency_key row;
        or_parent_occurrence_id := o_parent_occurrence_id row;
        or_parent_receipt_id := o_parent_receipt_id row |}.

(** The JOIN of a head with the version it names. *)
Definition current_row (s : SchedulerStore) (schedule_id : string)
    : option (head_row * version_row) :=
  head ← heads s !! schedule_id;
  row ← versions s !! (schedule_id, h_version head);
  Some (head, row).

Definition load_row (schedule_id : string) (row : head_row * version_row) : result StoredSchedule :=
  _schedule_from_row schedule_id (h_version row.1) row.2 row.1.

Definition _load_current (schedule_id : string) (s : SchedulerStore)
    : result (option StoredSchedule) :=
  match current_row s schedule_id with
  | None => Ok None
  | Some row => record ← load_row schedule_id row; Ok (Some record)
  end.

(** The record of a schedule that was just written. *)
Definition load_written (schedule_id : string) : M SchedulerStore StoredSchedule :=
  record ← query (_load_current schedule_id);
  lift (some_or record assertion).

Definition _load_occurrence (occurrence_id : string) (s : SchedulerStore)
    : result (option OccurrenceRecord) :=
  match occurrences s !! occurrence_id with
  | None => Ok None
  | Some row => record ← _occurrence_from_row occurrence_id row; Ok (Some record)
  end.

Definition load_occurrence (occurrence_id : string) : M SchedulerStore OccurrenceRecord :=
  record ← query (_load_occurrence occurrence_id);
  lift (some_or record assertion).

(** ** Schedules *)
Definition version_of_spec (spec : ScheduleSpec) (once_at : option Z) (payload_json : string)
    (now : Z) (spec_hash : string) : version_row :=
  {| v_trigger_kind := trigger_kind spec; v_cron_expression := cron_expression spec;
     v_once_at := once_at; v_timezone := timezone spec; v_route_type := route_type spec;
     v_route_id := route_id spec; v_approval_policy := approval_policy spec;
     v_overlap_policy := overlap_policy spec; v_misfire_policy := misfire_policy spec;
     v_payload_json := payload_json; v_created_at := now; v_spec_hash := spec_hash |}.

(** [INSERT INTO schedule_versions]; [now >= 0] was checked. *)
Definition insert_version (spec : ScheduleSpec) (version : Z) (payload_json : string) (now : Z)
    (spec_hash : string) : M SchedulerStore unit :=
  version ← lift (sqlite_int version);
  once_at ← lift (sqlite_opt (once_at spec));
  now ← lift (sqlite_int now);
  lift (raise_if (version <? 1) (IntegrityError "CHECK constraint failed"));;
  rows ← gets versions;
  lift (raise_if (bool_decide (is_Some (rows !! (schedule_id spec, version))))
    (IntegrityError "UNIQUE constraint failed: schedule_versions.schedule_id, schedule_versions.version"));;
  modify (set_versions
    <[(schedule_id spec, version) := version_of_spec spec once_at payload_json now spec_hash]>).

(** [INSERT INTO schedule_heads ... ON CONFLICT(schedule_id) DO UPDATE] *)
Definition upsert_head (schedule_id : string) (version : Z) (enabled : bool) (cursor : Z)
    : M SchedulerStore unit :=
  cursor ← lift (sqlite_int cursor);
  modify (set_heads <[schedule_id :=
    {| h_version := version; h_enabled := enabled; h_last_evaluated_at := Some cursor |}]>).

Definition register (spec : ScheduleSpec) (now : Z) (enabled : bool)
    : M SchedulerStore (StoredSchedule * bool) :=
  lift (_timestamp now "now");;
  payload_json ← lift (canonical_json (payload spec));
  spec_hash ← lift (deterministic_hash spec);
  transaction (
    head ← gets (λ s, current_row s (schedule_id spec));
    if match head with Some (_, row) => v_spec_hash row == spec_hash | None => false end then
      record ← load_written (schedule_id spec);
      mret (record, false)
    else
      let version := match head with None => 1 | Some (h, _) => h_version h + 1 end in
      insert_version spec version payload_json now spec_hash;;
      upsert_head (schedule_id spec) version enabled (Z.max 0 (now - 60));;
      record ← load_written (schedule_id spec);
      mret (record, true)).

Definition set_enabled (schedule_id : string) (enabled : bool) : M SchedulerStore StoredSchedule :=
  transaction (
    head ← gets (λ s, heads s !! schedule_id);
    head ← lift (some_or head (SchedulerStoreError "SCHEDULE_NOT_FOUND"));
    modify (set_heads <[schedule_id :=
      {| h_version := h_version head; h_enabled := enabled;
         h_last_evaluated_at := h_last_evaluated_at head |}]>);;
    load_written schedule_id).

Definition get_current (schedule_id : string) : M SchedulerStore (option StoredSchedule) :=
  query (_load_current schedule_id).

(** The enabled heads with their versions, [ORDER BY v.schedule_id]. *)
Definition enabled_rows (s : SchedulerStore) : list (string * (head_row * version_row)) :=
  omap (λ id, row ← current_row s id;
              if h_enabled row.1 then Some (id, row) else None)
    (sort_strs (map fst (map_to_list (heads s)))).

Definition list_enabled : M SchedulerStore (list StoredSchedule) :=
  query (λ s, collect (λ x, load_row x.1 x.2) (enabled_rows s)).

Definition advance_cursor (schedule_id : string) (expected_version evaluated_at : Z)
    : M SchedulerStore bool :=
  lift (_timestamp evaluated_at "evaluated_at");;
  transaction (
    evaluated_at ← lift (sqlite_int evaluated_at);
    expected_version ← lift (sqlite_int expected_version);
    head ← gets (λ s, heads s !! schedule_id);
    match head with
    | Some head =>
        if h_version head =? expected_version then
          modify (set_heads <[schedule_id :=
            {| h_version := h_version head; h_enabled := h_enabled head;
               h_last_evaluated_at := Some (match h_last_evaluated_at head with
                                            | None => evaluated_at
                                            | Some t => if t <? evaluated_at then evaluated_at else t
                                            end) |}]>);;
          mret true
        else mret false
    | None => mret false
    end).

(** ** Occurrences *)
Definition same_slot (schedule_id : string) (version scheduled_for : Z) (row : occurrence_row) : bool :=
  (o_schedule_id row == schedule_id) && (o_version row =? version)
  && (o_scheduled_for row =? scheduled_for).

(** [SELECT * FROM occurrences WHERE schedule_id = ? AND schedule_version = ? AND
    scheduled_for = ?]: at most one row, by the UNIQUE constraint. *)
Definition find_slot (schedule_id : string) (version scheduled_for : Z)
    (rows : gmap string occurrence_row) : option (string * occurrence_row) :=
  List.find (λ x, same_slot schedule_id version scheduled_for x.2) (map_to_list rows).

Definition new_occurrence (schedule_id : string) (version scheduled_for : Z)
    (state reason proposal_json : string) (now : Z)
    (parent_occurrence_id parent_receipt_id : option string) : occurrence_row :=
  {| o_schedule_id := schedule_id; o_version := version; o_scheduled_for := scheduled_for;
     o_state := state; o_reason := reason; o_proposal_json := proposal_json;
     o_created_at := now; o_updated_at := now;
     o_started_at := if state == "running" then Some now else None; o_attempt := 0;
     o_idempotency_key := None; o_parent_occurrence_id := parent_occurrence_id;
     o_parent_receipt_id := parent_receipt_id; o_claim_owner := None; o_lease_expires_at := None;
     o_heartbeat_at := None |}.

(** [INSERT OR IGNORE INTO occurrences]: a row that breaks a PRIMARY KEY, UNIQUE or
    CHECK constraint is left out, a missing schedule version raises. *)
Definition insert_occurrence (occurrence_id : string) (row : occurrence_row)
    : M SchedulerStore bool :=
  rows ← gets occurrences;
  if bool_decide (is_Some (rows !! occurrence_id))
     || bool_decide (is_Some (find_slot (o_schedule_id row) (o_version row) (o_scheduled_for row) rows))
     || (o_version row <? 1)
  then mret false
  else
    parents ← gets versions;
    lift (raise_if (bool_decide (parents !! (o_schedule_id row, o_version row) = None))
      (IntegrityError "FOREIGN KEY constraint failed"));;
    modify (set_occurrences <[occurrence_id := row]>);;
    mret true.

Definition create_occurrence (occurrence_id : string) (schedule : StoredSchedule)
    (scheduled_for : Z) (state reason : string) (proposal : json) (now : Z)
    (parent_occurrence_id parent_receipt_id : option string)
    : M SchedulerStore (OccurrenceRecord * bool) :=
  lift (_timestamp scheduled_for "scheduled_for");;
  lift (_timestamp now "now");;
  lift (_state state);;
  lift (_reason reason);;
  proposal_json ← lift (canonical_json proposal);
  transaction (
    version ← lift (sqlite_int (version schedule));
    scheduled_for ← lift (sqlite_int scheduled_for);
    now ← lift (sqlite_int now);
    created ← insert_occurrence occurrence_id
      (new_occurrence (schedule_id (spec schedule)) version scheduled_for state reason
        proposal_json now parent_occurrence_id parent_receipt_id);
    rows ← gets occurrences;
    let found := match rows !! occurrence_id with
                 | Some row => Some (occurrence_id, row)
                 | None => find_slot (schedule_id (spec schedule)) version scheduled_for rows
                 end in
    '(id, row) ← lift (some_or found (SchedulerStoreError "OCCURRENCE_CREATE_FAILED"));
    record ← lift (_occurrence_from_row id row);
    mret (record, created)).

(** [ORDER BY scheduled_for, occurrence_id] *)
Definition slot_leb (a b : string * occurrence_row) : bool :=
  (o_scheduled_for a.2 <? o_scheduled_for b.2)
  || ((o_scheduled_for a.2 =? o_scheduled_for b.2) && str_leb a.1 b.1).

Definition select (p : string → occurrence_row → bool) (s : SchedulerStore)
    : list (string * occurrence_row) :=
  sort_by slot_leb (List.filter (λ x, p x.1 x.2) (map_to_list (occurrences s))).

(** The columns a claim and the other updates write. *)
Definition claim_row (now next_attempt lease_expires_at : Z) (idempotency_key owner : string)
    (r : occurrence_row) : occurrence_row :=
  {| o_schedule_id := o_schedule_id r; o_version := o_version r;
     o_scheduled_for := o_scheduled_for r; o_state := "running"; o_reason := "DISPATCH_CLAIMED";
     o_proposal_json := o_proposal_json r; o_created_at := o_created_at r; o_updated_at := now;
     o_started_at := Some now; o_attempt := next_attempt; o_idempotency_key := Some idempotency_key;
     o_parent_occurrence_id := o_parent_occurrence_id r;
     o_parent_receipt_id := o_parent_receipt_id r; o_claim_owner := Some owner;
     o_lease_expires_at := Some lease_expires_at; o_heartbeat_at := Some now |}.

Definition with_state (state reason : string) (now : Z) (started_at : option Z)
    (claim_owner : option string) (lease_expires_at heartbeat_at : option Z) (r : occurrence_row)
    : occurrence_row :=
  {| o_schedule_id := o_schedule_id r; o_version := o_version r;
     o_scheduled_for := o_scheduled_for r; o_state := state; o_reason := reason;
     o_proposal_json := o_proposal_json r; o_created_at := o_created_at r; o_updated_at := now;
     o_started_at := started_at; o_attempt := o_attempt r;
     o_idempotency_key := o_idempotency_key r; o_parent_occurrence_id := o_parent_occurrence_id r;
     o_parent_receipt_id := o_parent_receipt_id r; o_claim_owner := claim_owner;
     o_lease_expires_at := lease_expires_at; o_heartbeat_at := heartbeat_at |}.

Definition put_occurrence (occurrence_id : string) (row : occurrence_row) : M SchedulerStore unit :=
  modify (set_occurrences <[occurrence_id := row]>).

Definition claim_next_pending (now : Z) (owner : string) (lease_seconds : Z)
    (exclude_occurrence_ids : list string) : M SchedulerStore (option OccurrenceRecord) :=
  lift (_timestamp now "now");;
  lift (_owner owner);;
  lift (check_lease lease_seconds);;
  let lease_expires_at := now + lease_seconds in
  transaction (
    rows ← gets (select (λ id r, (o_state r == "pending") && (id ∉? exclude_occurrence_ids)));
    match rows with
    | [] => mret None
    | (id, row) :: _ =>
        current ← lift (_occurrence_from_row id row);
        let next_attempt := or_attempt current + 1 in
        text ← lift (int_text next_attempt);
        let idempotency_key := or_occurrence_id current +:+ ":attempt:" +:+ text in
        now ← lift (sqlite_int now);
        next_attempt ← lift (sqlite_int next_attempt);
        lease_expires_at ← lift (sqlite_int lease_expires_at);
        put_occurrence id (claim_row now next_attempt lease_expires_at idempotency_key owner row);;
        record ← load_occurrence id;
        mret (Some record)
    end).

Definition renew_running_claim (occurrence_id owner : string) (lease_seconds now : Z)
    : M SchedulerStore bool :=
  lift (_timestamp now "now");;
  lift (_owner owner);;
  lift (check_lease lease_seconds);;
  transaction (
    now ← lift (sqlite_int now);
    lease_expires_at ← lift (sqlite_int (now + lease_seconds));
    row ← gets (λ s, occurrences s !! occurrence_id);
    match row with
    | Some r =>
        if (o_state r == "running") && (o_claim_owner r == Some owner)
           && match o_lease_expires_at r with None => true | Some l => now <=? l end
        then
          put_occurrence occurrence_id
            (with_state "running" (o_reason r) now (o_started_at r) (o_claim_owner r)
              (Some lease_expires_at) (Some now) r);;
          mret true
        else mret false
    | None => mret false
    end).

(** [expected_states] in the order Python iterates it. *)
Definition transition_occurrence (occurrence_id : string) (expected_states : list string)
    (new_state reason : string) (now : Z) : M SchedulerStore OccurrenceRecord :=
  lift (_state new_state);;
  lift (_reason reason);;
  lift (_timestamp now "now");;
  lift (raise_if (is_empty expected_states) (verr "INVALID_EXPECTED_STATES"));;
  lift (each (λ state, _state state;;
    raise_if (new_state ∉? _ALLOWED_TRANSITIONS state) (verr "INVALID_OCCURRENCE_TRANSITION"))
    expected_states);;
  transaction (
    now ← lift (sqlite_int now);
    row ← gets (λ s, occurrences s !! occurrence_id);
    match row with
    | Some r =>
        lift (raise_if (o_state r ∉? expected_states) (SchedulerStoreError "OCCURRENCE_STATE_CONFLICT"));;
        let running := new_state == "running" in
        put_occurrence occurrence_id
          (with_state new_state reason now (if running : bool then Some now else o_started_at r)
            (if running : bool then o_claim_owner r else None)
            (if running : bool then o_lease_expires_at r else None)
            (if running : bool then o_heartbeat_at r else None) r);;
        load_occurrence occurrence_id
    | None => raise (SchedulerStoreError "OCCURRENCE_STATE_CONFLICT")
    end).

(** ** Stale claims and dependencies *)

(** [ORDER BY created_at DESC, receipt_id DESC LIMIT 1] *)
Definition receipt_after (best : option (string * receipt_row)) (x : string * receipt_row)
    : option (string * receipt_row) :=
  match best with
  | None => Some x
  | Some b =>
      if (r_created_at b.2 <? r_created_at x.2)
         || ((r_created_at b.2 =? r_created_at x.2) && str_leb b.1 x.1)
      then Some x else best
  end.

Definition _latest_receipt_for_attempt (occurrence_id : string) (attempt : Z) (s : SchedulerStore)
    : option (string * receipt_row) :=
  foldl receipt_after None (List.filter
    (λ x, (r_occurrence_id x.2 == occurrence_id) && (r_attempt x.2 =? attempt))
    (map_to_list (receipts s))).

Definition stale (now cutoff : Z) (r : occurrence_row) : bool :=
  (o_state r == "running")
  && match o_started_at r with
     | None => false
     | Some started_at =>
         match o_lease_expires_at r with
         | Some l => l <=? now
         | None => started_at <=? cutoff
         end
     end.

Inductive recovery := Retried | NeedsOperator | Finalized.

(** The decision for one stale claim, with the row it leaves. *)
Definition recover_row (now max_attempts : Z) (occurrence_id : string) (r : occurrence_row)
    (s : SchedulerStore) : result (recovery * occurrence_row) :=
  record ← _occurrence_from_row occurrence_id r;
  status ← match _latest_receipt_for_attempt (or_occurrence_id record) (or_attempt record) s with
           | None => Ok None
           | Some (_, receipt) =>
               answer ← json_loads (r_result_json receipt);
               Ok (Some (r_status receipt, answer))
           end;
  let finish state reason owner :=
    with_state state reason now (o_started_at r) owner None (o_heartbeat_at r) r in
  let undecided :=
    if or_attempt record <? max_attempts
    then (Retried, finish "pending" "STALE_RUNNING_RETRY" None)
    else (NeedsOperator, finish "needs_operator" "STALE_RUNNING_RECOVERY_EXHAUSTED" (o_claim_owner r)) in
  Ok (match status with
      | None => undecided
      | Some (status, answer) =>
          if status == "done"
          then (Finalized, finish "done" "DISPATCH_DONE_AFTER_RESTART" (o_claim_owner r))
          else if _receipt_is_ambiguous_mutating answer
          then (NeedsOperator, finish "needs_operator" "AMBIGUOUS_MUTATING_RECEIPT" (o_claim_owner r))
          else undecided
      end).

(** Retried, needing an operator, finalized. *)
Definition tally : Type := Z * Z * Z.

Definition add_recovery (d : recovery) (t : tally) : tally :=
  let '(retried, needs_operator, finalized) := t in
  match d with
  | Retried => (retried + 1, needs_operator, finalized)
  | NeedsOperator => (retried, needs_operator + 1, finalized)
  | Finalized => (retried, needs_operator, finalized + 1)
  end.

Fixpoint recover_rows (now max_attempts : Z) (rows : list (string * occurrence_row)) (t : tally)
    : M SchedulerStore tally :=
  match rows with
  | [] => mret t
  | (id, r) :: rows =>
      '(d, r') ← query (recover_row now max_attempts id r);
      put_occurrence id r';;
      recover_rows now max_attempts rows (add_recovery d t)
  end.

Definition recover_stale_running (now stale_after_seconds max_attempts : Z)
    : M SchedulerStore tally :=
  lift (_timestamp now "now");;
  lift (raise_if (stale_after_seconds <=? 0) (verr "INVALID_STALE_AFTER"));;
  lift (raise_if (max_attempts <=? 0) (verr "INVALID_MAX_ATTEMPTS"));;
  let cutoff := Z.max 0 (now - stale_after_seconds) in
  transaction (
    now ← lift (sqlite_int now);
    cutoff ← lift (sqlite_int cutoff);
    rows ← gets (select (λ _ r, stale now cutoff r));
    recover_rows now max_attempts rows (0, 0, 0)).

(** [payload.get("wait_for")] of a proposal, if it is a text. *)
Definition wait_for (proposal : json) : result (option string) :=
  match proposal with
  | JObj d =>
      match field d "payload" with
      | JObj p => match field p "wait_for" with JStr s => Ok (Some s) | _ => Ok None end
      | _ => Ok None
      end
  | _ => Raise (AttributeError "get")
  end.

Definition dependency_done (dependency : string) (s : SchedulerStore) : bool :=
  match occurrences s !! dependency with Some r => o_state r == "done" | None => false end.

(** The loop over the waiting occurrences; the rows are in no given order, and none
    of them is a dependency that is done. *)
Fixpoint resume_rows (now : Z) (rows : list (string * occurrence_row)) (resumed : Z)
    : M SchedulerStore Z :=
  match rows with
  | [] => mret resumed
  | (id, r) :: rows =>
      record ← lift (_occurrence_from_row id r);
      dependency ← lift (wait_for (or_proposal record));
      ready ← match dependency with
              | Some d => gets (dependency_done d)
              | None => mret false
              end;
      if ready : bool then
        now' ← lift (sqlite_int now);
        put_occurrence id (with_state "pending" "DEPENDENCY_SATISFIED" now' (o_started_at r)
          (o_claim_owner r) (o_lease_expires_at r) (o_heartbeat_at r) r);;
        resume_rows now rows (resumed + 1)
      else resume_rows now rows resumed
  end.

Definition resume_waiting_dependencies (now : Z) : M SchedulerStore Z :=
  lift (_timestamp now "now");;
  transaction (
    rows ← gets (select (λ _ r, o_state r == "waiting_dependency"));
    resume_rows now rows 0).

(** ** Receipts *)
Definition receipt_id_of (idempotency_key : string) : string :=
  "receipt_" +:+ unchars (take 32 (chars (_sha256_hex idempotency_key))).

Definition record_dispatch_receipt (occurrence_id : string) (attempt : Z)
    (idempotency_key status reason evidence_ref : string) (answer : json) (now : Z)
    (parent_receipt_id : option string) : M SchedulerStore string :=
  lift (_timestamp now "now");;
  lift (raise_if (attempt <=? 0) (verr "INVALID_ATTEMPT"));;
  lift (_reason reason);;
  let receipt_id := receipt_id_of idempotency_key in
  result_json ← lift (canonical_json answer);
  transaction (
    attempt ← lift (sqlite_int attempt);
    now ← lift (sqlite_int now);
    rows ← gets receipts;
    if bool_decide (is_Some (rows !! receipt_id))
       || existsb (λ x, r_idempotency_key x.2 == idempotency_key) (map_to_list rows)
    then mret tt
    else
      parents ← gets occurrences;
      lift (raise_if (bool_decide (parents !! occurrence_id = None))
        (IntegrityError "FOREIGN KEY constraint failed"));;
      modify (set_receipts <[receipt_id :=
        {| r_occurrence_id := occurrence_id; r_attempt := attempt;
           r_idempotency_key := idempotency_key; r_status := status; r_reason := reason;
           r_evidence_ref := evidence_ref; r_result_json := result_json; r_created_at := now;
           r_parent_receipt_id := parent_receipt_id |}]>));;
  mret receipt_id.

(** [ORDER BY attempt, receipt_id] *)
Definition receipt_leb (a b : string * receipt_row) : bool :=
  (r_attempt a.2 <? r_attempt b.2) || ((r_attempt a.2 =? r_attempt b.2) && str_leb a.1 b.1).

Definition receipt_mapping (x : string * receipt_row) : result json :=
  let '(id, r) := x in
  answer ← json_loads (r_result_json r);
  Ok (JObj [("receipt_id", JStr id); ("occurrence_id", JStr (r_occurrence_id r));
            ("attempt", JInt (r_attempt r)); ("idempotency_key", JStr (r_idempotency_key r));
            ("status", JStr (r_status r)); ("reason", JStr (r_reason r));
            ("evidence_ref", JStr (r_evidence_ref r)); ("result", answer);
            ("created_at", JInt (r_created_at r));
            ("parent_receipt_id", jopt (r_parent_receipt_id r))]).

Definition list_dispatch_receipts (occurrence_id : string) : M SchedulerStore (list json) :=
  query (λ s, collect receipt_mapping (sort_by receipt_leb (List.filter
    (λ x, r_occurrence_id x.2 == occurrence_id) (map_to_list (receipts s))))).

(** ** Reading *)
Definition get_occurrence (occurrence_id : string) : M SchedulerStore (option OccurrenceRecord) :=
  query (_load_occurrence occurrence_id).

Definition count_rows (p : occurrence_row → bool) (s : SchedulerStore) : Z :=
  Z.of_nat (length (List.filter (λ x, p x.2) (map_to_list (occurrences s)))).

(** The pending and the running occurrences of a schedule. *)
Definition active_counts (schedule_id : string) : M SchedulerStore (Z * Z) :=
  gets (λ s,
    (count_rows (λ r, (o_schedule_id r == schedule_id) && (o_state r == "pending")) s,
     count_rows (λ r, (o_schedule_id r == schedule_id) && (o_state r == "running")) s)).

Definition occurrence_count (schedule_id : option string) : M SchedulerStore Z :=
  gets (count_rows (λ r, match schedule_id with
                         | None => true
                         | Some id => o_schedule_id r == id
                         end)).

Definition list_occurrences (schedule_id : string) : M SchedulerStore (list OccurrenceRecord) :=
  query (λ s, collect (λ x, _occurrence_from_row x.1 x.2)
    (select (λ _ r, o_schedule_id r == schedule_id) s)).

(** Schedules, enabled schedules, and the occurrences by state. *)
Definition status_counts : M SchedulerStore (Z * Z * list (string * Z)) :=
  gets (λ s,
    (Z.of_nat (length (map_to_list (heads s))),
     Z.of_nat (length (List.filter (λ x, h_enabled x.2) (map_to_list (heads s)))),
     map (λ state, (state, count_rows (λ r, o_state r == state) s)) (sort_strs OCCURRENCE_STATES))).
End store.

(** ** The life of an occurrence

    What the store promises about one occurrence: it is created once, claimed from
    [pending] with a new attempt and its key, renewed while it runs, and otherwise
    moved along [_ALLOWED_TRANSITIONS]; its slot and its proposal never change. *)
Definition identity (r : occurrence_row) :=
  (o_schedule_id r, o_version r, o_scheduled_for r, o_proposal_json r, o_created_at r,
   o_parent_occurrence_id r, o_parent_receipt_id r).

Definition attempt_key (id : string) (n : Z) (key : string) : Prop :=
  ∃ text, int_text n = Ok text ∧ key = id +:+ ":attempt:" +:+ text.

Inductive lifecycle (id : string) : option occurrence_row → option occurrence_row → Prop :=
  | lc_same o : lifecycle id o o
  | lc_new r :
      o_state r ∈ OCCURRENCE_STATES → o_attempt r = 0 → o_idempotency_key r = None →
      lifecycle id None (Some r)
  | lc_claim r r' key :
      identity r' = identity r → o_state r = "pending" → o_state r' = "running" →
      o_attempt r' = o_attempt r + 1 → o_idempotency_key r' = Some key →
      attempt_key id (o_attempt r') key → lifecycle id (Some r) (Some r')
  | lc_renew r r' :
      identity r' = identity r → o_state r = "running" → o_state r' = "running" →
      o_attempt r' = o_attempt r → o_idempotency_key r' = o_idempotency_key r →
      o_claim_owner r' = o_claim_owner r → lifecycle id (Some r) (Some r')
  | lc_move r r' :
      identity r' = identity r → o_state r' ∈ _ALLOWED_TRANSITIONS (o_state r) →
      o_attempt r' = o_attempt r → o_idempotency_key r' = o_idempotency_key r →
      lifecycle id (Some r) (Some r').

(** The writing calls of the store. *)
Inductive store_call :=
  | Register (spec : ScheduleSpec) (now : Z) (enabled : bool)
  | SetEnabled (schedule_id : string) (enabled : bool)
  | AdvanceCursor (schedule_id : string) (expected_version evaluated_at : Z)
  | CreateOccurrence (occurrence_id : string) (schedule : StoredSchedule) (scheduled_for : Z)
      (state reason : string) (proposal : json) (now : Z)
      (parent_occurrence_id parent_receipt_id : option string)
  | ClaimNext (now : Z) (owner : string) (lease_seconds : Z) (exclude : list string)
  | RenewClaim (occurrence_id owner : string) (lease_seconds now : Z)
  | Transition (occurrence_id : string) (expected_states : list string) (new_state reason : string)
      (now : Z)
  | RecoverStale (now stale_after_seconds max_attempts : Z)
  | ResumeWaiting (now : Z)
  | RecordReceipt (occurrence_id : string) (attempt : Z)
      (idempotency_key status reason evidence_ref : string) (answer : json) (now : Z)
      (parent_receipt_id : option string).

(** Forget the answer of a call. *)
Definition quiet {A} (m : M SchedulerStore A) : M SchedulerStore unit := m;; mret tt.

Section calls.
Context (ZoneInfo : string → result (Z → Z)).

Definition call (c : store_call) : M SchedulerStore unit :=
  match c with
  | Register spec now enabled => quiet (register ZoneInfo spec now enabled)
  | SetEnabled id enabled => quiet (set_enabled ZoneInfo id enabled)
  | AdvanceCursor id v t => quiet (advance_cursor id v t)
  | CreateOccurrence id schedule t st reason proposal now p r =>
      quiet (create_occurrence id schedule t st reason proposal now p r)
  | ClaimNext now owner lease exclude => quiet (claim_next_pending now owner lease exclude)
  | RenewClaim id owner lease now => quiet (renew_running_claim id owner lease now)
  | Transition id expected st reason now => quiet (transition_occurrence id expected st reason now)
  | RecoverStale now after attempts => quiet (recover_stale_running now after attempts)
  | ResumeWaiting now => quiet (resume_waiting_dependencies now)
  | RecordReceipt id n key st reason evidence answer now p =>
      quiet (record_dispatch_receipt id n key st reason evidence answer now p)
  end.

(** The store after a call, whether it returned or raised. *)
Definition after (c : store_call) (s : SchedulerStore) : SchedulerStore := (call c s).2.
Definition after_all (cs : list store_call) (s : SchedulerStore) : SchedulerStore :=
  foldl (λ s c, after c s) s cs.


(** *** Calls that leave the occurrences alone *)
Definition same_occurrences (s s' : SchedulerStore) : Prop := occurrences s' = occurrences s.
#[local] Instance same_occurrences_refl : Reflexive same_occurrences.
Proof. done. Qed.
#[local] Instance same_occurrences_trans : Transitive same_occurrences.
Proof. intros s1 s2 s3. unfold same_occurrences. congruence. Qed.

Definition quiet_call (c : store_call) : bool :=
  match c with
  | Register _ _ _ | SetEnabled _ _ | AdvanceCursor _ _ _ | RecordReceipt _ _ _ _ _ _ _ _ _ => true
  | _ => false
  end.

Lemma quiet_call_occurrences c s : quiet_call c = true → occurrences (after c s) = occurrences s.
Proof.
  intros Hc. change (same_occurrences s (after c s)). unfold after. revert s.
  change (relates same_occurrences (call c)). destruct c; try discriminate; unfold call, quiet.
  - unfold register, load_written, insert_version, upsert_head. repeat relates_step.
  - unfold set_enabled, load_written. repeat relates_step.
  - unfold advance_cursor. repeat relates_step.
  - unfold record_dispatch_receipt. repeat relates_step.
Qed.

(** *** Calls that write occurrences *)
Record moves (r r' : occurrence_row) : Prop := {
  mv_identity : identity r' = identity r;
  mv_state : o_state r' ∈ _ALLOWED_TRANSITIONS (o_state r);
  mv_attempt : o_attempt r' = o_attempt r;
  mv_key : o_idempotency_key r' = o_idempotency_key r
}.

(** A new occurrence takes a free slot of a version that exists. *)
Definition slot (r : occurrence_row) := (o_schedule_id r, o_version r, o_scheduled_for r).

Record lives (s s' : SchedulerStore) : Prop := {
  li_versions : versions s' = versions s;
  li_heads : heads s' = heads s;
  li_receipts : receipts s' = receipts s;
  li_rows : ∀ id, lifecycle id (occurrences s !! id) (occurrences s' !! id);
  li_new : ∀ id r, occurrences s !! id = None → occurrences s' !! id = Some r →
    is_Some (versions s !! (o_schedule_id r, o_version r)) ∧
    (∀ id' r', occurrences s !! id' = Some r' → slot r' ≠ slot r) ∧
    ∀ id', id' ≠ id → occurrences s' !! id' = occurrences s !! id'
}.

#[local] Instance lives_refl : Reflexive lives.
Proof. intros s. split; [done..| |]; [constructor|congruence]. Qed.

(** Writing one row that is there. *)
Lemma lives_put id r r' s : occurrences s !! id = Some r → lifecycle id (Some r) (Some r') →
  lives s (set_occurrences <[id := r']> s).
Proof.
  intros Hr Hl. split; [done..| |].
  - intros j. cbn. destruct (decide (j = id)) as [->|Hj].
    + by rewrite lookup_insert_eq, Hr.
    + rewrite lookup_insert_ne by done. constructor.
  - intros j x Hn Hx. cbn in Hx. destruct (decide (j = id)) as [->|Hj]; [congruence|].
    rewrite lookup_insert_ne in Hx by done. congruence.
Qed.

(** At most one row is written, and it is one that [p] selects. *)
Definition puts (p : string → occurrence_row → Prop) (s s' : SchedulerStore) : Prop :=
  s' = s ∨ ∃ id r r', occurrences s !! id = Some r ∧ p id r ∧ lifecycle id (Some r) (Some r') ∧
    s' = set_occurrences <[id := r']> s.

#[local] Instance puts_refl p : Reflexive (puts p).
Proof. by left. Qed.

Lemma puts_lives p s s' : puts p s s' → lives s s'.
Proof. intros [->|(id & r & r' & Hr & _ & Hl & ->)]; [reflexivity|by eapply lives_put]. Qed.

Lemma puts_others p s s' id r : puts p s s' → occurrences s !! id = Some r → ¬ p id r →
  occurrences s' !! id = Some r.
Proof.
  intros [->|(j & x & x' & Hx & Hp & _ & ->)] Hr Hn; [done|]. cbn.
  rewrite lookup_insert_ne; [done|]. intros ->. congruence.
Qed.

(** The write, then reads. *)
Lemma relates_put_read {A} p id r r' (k : M SchedulerStore A) s :
  occurrences s !! id = Some r → p id r → lifecycle id (Some r) (Some r') → (∀ s, (k s).2 = s) →
  puts p s ((put_occurrence id r' ;; k) s).2.
Proof.
  intros Hr Hp Hl Hk. change (puts p s (k (set_occurrences <[id := r']> s)).2).
  rewrite Hk. right. eauto 10.
Qed.

Lemma load_occurrence_reads id s : (load_occurrence id s).2 = s.
Proof. by apply reads_bind. Qed.

Lemma select_elem p s id r : (id, r) ∈ select p s ↔ occurrences s !! id = Some r ∧ p id r = true.
Proof.
  unfold select. rewrite (sort_by_perm slot_leb). rewrite filter_elem, elem_of_map_to_list. done.
Qed.

Lemma fst_filter_nodup {A} (p : string * A → bool) (l : list (string * A)) :
  NoDup l.*1 → NoDup (List.filter p l).*1.
Proof.
  induction l as [|x l IH]; [done|]. cbn. intros [Hx Hl]%NoDup_cons. destruct (p x); [|auto].
  cbn. apply NoDup_cons. split; [|auto]. intros (y & E & [Hy _]%filter_elem)%list_elem_of_fmap.
  apply Hx. rewrite E. by apply list_elem_of_fmap_2.
Qed.

Lemma select_nodup p s : NoDup (select p s).*1.
Proof.
  unfold select. rewrite (sort_by_perm slot_leb). apply fst_filter_nodup, NoDup_fst_map_to_list.
Qed.

Lemma find_slot_none sid v t rows : find_slot sid v t rows = None →
  ∀ id r, rows !! id = Some r → slot r ≠ (sid, v, t).
Proof.
  intros H id r Hr [= E1 E2 E3]. apply elem_of_map_to_list, list_elem_of_In in Hr.
  apply (find_none _ _ H) in Hr. cbn in Hr. unfold same_slot in Hr.
  by rewrite E1, E2, E3, !Z.eqb_refl, bool_decide_true in Hr.
Qed.

(** Creation leaves what there is alone. *)
Definition creates (s s' : SchedulerStore) : Prop :=
  lives s s' ∧ ∀ id r, occurrences s !! id = Some r → occurrences s' !! id = Some r.

#[local] Instance creates_refl : Reflexive creates.
Proof. intros s. by split. Qed.

Lemma insert_occurrence_creates id row : o_state row ∈ OCCURRENCE_STATES → o_attempt row = 0 →
  o_idempotency_key row = None → relates creates (insert_occurrence id row).
Proof.
  intros Hst Hat Hkey. apply relates_gets_bind. intros s.
  destruct (bool_decide (is_Some (occurrences s !! id))) eqn:E1; [reflexivity|].
  destruct (bool_decide (is_Some (find_slot _ _ _ _))) eqn:E2; [reflexivity|].
  destruct (o_version row <? 1); [reflexivity|]. cbn [orb].
  apply bool_decide_eq_false, eq_None_not_Some in E1, E2.
  change (creates s ((lift (raise_if (bool_decide (versions s !! (o_schedule_id row, o_version row) = None))
    (IntegrityError "FOREIGN KEY constraint failed"));;
    modify (set_occurrences <[id := row]>);; mret true) s).2).
  destruct (bool_decide _) eqn:E3; [reflexivity|].
  apply bool_decide_eq_false, not_eq_None_Some in E3.
  change (creates s (set_occurrences <[id := row]> s)). split; [split; [done..| |]|].
  - intros j. cbn. destruct (decide (j = id)) as [->|Hj].
    + rewrite lookup_insert_eq, E1. by apply lc_new.
    + rewrite lookup_insert_ne by done. constructor.
  - intros j x Hn Hx. cbn in Hx |- *. destruct (decide (j = id)) as [->|Hj];
      [|rewrite lookup_insert_ne in Hx by done; congruence].
    rewrite lookup_insert_eq in Hx. injection Hx as <-. split_and!; [done| |].
    + by apply find_slot_none.
    + intros id' Hid. by rewrite lookup_insert_ne.
  - intros j x Hx. cbn. rewrite lookup_insert_ne; [done|congruence].
Qed.

Lemma create_creates id schedule t st reason proposal now p r :
  relates creates (create_occurrence id schedule t st reason proposal now p r).
Proof.
  unfold create_occurrence. do 2 pass. pass. rename select (_state st = _) into Hst.
  do 2 pass. apply relates_transaction; [apply _|]. do 3 pass.
  apply raise_if_ok, negb_false_iff, bool_decide_eq_true in Hst.
  apply relates_write; [by apply insert_occurrence_creates|]. intros created s.
  apply reads_bind; [done|]. intros rows. apply reads_bind; [done|]. intros [id' row].
  by apply reads_bind.
Qed.

Lemma with_state_moves st reason now started owner lease beat r :
  st ∈ _ALLOWED_TRANSITIONS (o_state r) → moves r (with_state st reason now started owner lease beat r).
Proof. by split. Qed.

Lemma moves_lifecycle id r r' : moves r r' → lifecycle id (Some r) (Some r').
Proof. intros []. by apply lc_move. Qed.

Lemma claim_puts now owner lease exclude :
  relates (puts (λ _ r, o_state r = "pending")) (claim_next_pending now owner lease exclude).
Proof.
  unfold claim_next_pending. cbv zeta. do 3 pass. apply relates_transaction; [apply _|].
  apply relates_gets_bind. intros s. destruct (select _ s) as [|[id row] rows] eqn:E; [reflexivity|].
  assert (Hin : (id, row) ∈ select (λ id r, (o_state r == "pending") && (id ∉? exclude)) s)
    by (rewrite E; left).
  apply select_elem in Hin as [Hrow Hp]. apply andb_true_iff in Hp as [Hp _].
  apply bool_decide_eq_true in Hp. revert s E Hrow. intros s _ Hrow.
  apply lift_bind_related; [apply _|]. intros current Hc.
  apply lift_bind_related; [apply _|]. intros text Ht.
  apply lift_bind_related; [apply _|]. intros now' _.
  apply lift_bind_related; [apply _|]. intros n Hn.
  apply lift_bind_related; [apply _|]. intros expires _.
  apply sqlite_int_ok in Hn as [_ ->].
  unfold _occurrence_from_row in Hc. apply result_bind_ok in Hc as (proposal & _ & [= <-]).
  cbn [or_attempt or_occurrence_id] in *.
  apply (relates_put_read _ _ _ _ _ s Hrow Hp).
  - eapply lc_claim; try done. by exists text.
  - intros s'. apply reads_bind; [apply load_occurrence_reads|done].
Qed.

Lemma renew_puts id owner lease now :
  relates (puts (λ j r, j = id ∧ o_claim_owner r = Some owner)) (renew_running_claim id owner lease now).
Proof.
  unfold renew_running_claim. do 3 pass. apply relates_transaction; [apply _|]. do 2 pass.
  apply relates_gets_bind. intros s. destruct (occurrences s !! id) as [r|] eqn:Hr; [|reflexivity].
  destruct (o_state r == "running") eqn:Hs; [|reflexivity].
  destruct (o_claim_owner r == Some owner) eqn:Ho; [|reflexivity]. cbn [andb].
  destruct (match o_lease_expires_at r with None => true | Some l => _ end); [|reflexivity].
  apply bool_decide_eq_true in Hs, Ho. apply (relates_put_read _ _ _ _ _ s Hr); [done| |done].
  by apply lc_renew.
Qed.

Lemma transition_puts id expected st reason now :
  relates (puts (λ j _, j = id)) (transition_occurrence id expected st reason now).
Proof.
  unfold transition_occurrence. do 4 pass. pass. rename select (each _ _ = _) into He.
  apply relates_transaction; [apply _|]. pass. apply relates_gets_bind. intros s.
  destruct (occurrences s !! id) as [r|] eqn:Hr; [|reflexivity].
  apply lift_bind_related; [apply _|]. intros ? E.
  apply raise_if_ok, negb_false_iff, bool_decide_eq_true in E. cbv zeta.
  apply (relates_put_read _ _ _ _ _ s Hr); [done| |apply load_occurrence_reads].
  apply moves_lifecycle, with_state_moves.
  rename select unit into u. destruct u. apply each_ok in He. rewrite Forall_forall in He.
  specialize (He _ E). apply seq_ok in He as [_ He].
  by apply raise_if_ok, negb_false_iff, bool_decide_eq_true in He.
Qed.

(** *** Sweeps over several occurrences *)
Record sweeps (ids : list string) (s s' : SchedulerStore) : Prop := {
  sw_versions : versions s' = versions s;
  sw_heads : heads s' = heads s;
  sw_receipts : receipts s' = receipts s;
  sw_others : ∀ id, id ∉ ids → occurrences s' !! id = occurrences s !! id;
  sw_rows : ∀ id r, occurrences s !! id = Some r →
    ∃ r', occurrences s' !! id = Some r' ∧ (r' = r ∨ moves r r');
  sw_none : ∀ id, occurrences s !! id = None → occurrences s' !! id = None
}.

Lemma sweeps_refl ids s : sweeps ids s s.
Proof. split; try done. intros id r Hr. exists r. auto. Qed.

Lemma sweeps_put id r r' s : occurrences s !! id = Some r → moves r r' →
  sweeps [id] s (set_occurrences <[id := r']> s).
Proof.
  intros Hr Hm. split; try done; cbn.
  - intros j Hj. rewrite lookup_insert_ne; [done|]. intros ->. apply Hj. by left.
  - intros j x Hx. destruct (decide (j = id)) as [->|Hj].
    + rewrite lookup_insert_eq. replace x with r by congruence. eauto.
    + rewrite lookup_insert_ne by done. eauto.
  - intros j Hx. rewrite lookup_insert_ne; [done|congruence].
Qed.

Lemma sweeps_trans ids1 ids2 s1 s2 s3 : (∀ id, id ∈ ids1 → id ∉ ids2) →
  sweeps ids1 s1 s2 → sweeps ids2 s2 s3 → sweeps (ids1 ++ ids2) s1 s3.
Proof.
  intros Hd [Hv1 Hh1 Hr1 Ho1 Hm1 Hn1] [Hv2 Hh2 Hr2 Ho2 Hm2 Hn2]. split; try congruence; auto.
  - intros id Hid. rewrite elem_of_app in Hid. rewrite Ho2, Ho1; tauto.
  - intros id r Hr. destruct (decide (id ∈ ids1)) as [Hi|Hi].
    + rewrite Ho2 by auto. auto.
    + rewrite <-Ho1 in Hr by done. auto.
Qed.

Lemma sweeps_lives ids s s' : sweeps ids s s' → lives s s'.
Proof.
  intros [Hv Hh Hr Ho Hm Hn]. split; try done.
  - intros id. destruct (occurrences s !! id) as [r|] eqn:E.
    + destruct (Hm _ _ E) as (r' & -> & [->|Hmv]); [constructor|]. by apply moves_lifecycle.
    + rewrite (Hn _ E). constructor.
  - intros id r E. rewrite (Hn _ E). discriminate.
Qed.

(** A sweep that handles each row of a list once. *)
Definition present (p : occurrence_row → bool) (s : SchedulerStore)
    (rows : list (string * occurrence_row)) : Prop :=
  NoDup rows.*1 ∧ ∀ id r, (id, r) ∈ rows → occurrences s !! id = Some r ∧ p r = true.

Lemma present_select p s : present p s (select (λ _ r, p r) s).
Proof.
  split; [apply select_nodup|]. intros id r [? ?]%select_elem. done.
Qed.

Lemma present_next p id r rows s s' : present p s ((id, r) :: rows) → sweeps [id] s s' →
  present p s' rows.
Proof.
  intros [Hnd Hin] Hs. apply NoDup_cons in Hnd as [Hid Hnd]. split; [done|].
  intros j x Hx. rewrite (sw_others _ _ _ Hs).
  - apply Hin. by right.
  - intros ->%list_elem_of_singleton. apply Hid. by apply (list_elem_of_fmap_2 fst _ _ Hx).
Qed.

(** One row of a sweep, then the others. *)
Lemma sweeps_cons p id r rows s s1 s2 : present p s ((id, r) :: rows) →
  sweeps [id] s s1 → (present p s1 rows → sweeps rows.*1 s1 s2) → sweeps (id :: rows.*1) s s2.
Proof.
  intros Hp H1 H2. apply (sweeps_trans [id] _ _ s1); [|done|apply H2; by eapply present_next].
  intros j ->%list_elem_of_singleton. destruct Hp as [Hnd _]. by apply NoDup_cons in Hnd as [? _].
Qed.

Lemma sweeps_weaken ids ids' s s' : sweeps ids s s' → ids ⊆ ids' → sweeps ids' s s'.
Proof. intros [] Hsub. split; try done. intros id Hid. auto. Qed.

Definition is_running (r : occurrence_row) : bool := o_state r == "running".
Definition is_waiting (r : occurrence_row) : bool := o_state r == "waiting_dependency".

Lemma recover_row_moves now attempts id r s d r' : is_running r = true →
  recover_row now attempts id r s = Ok (d, r') → moves r r'.
Proof.
  intros Hr%bool_decide_eq_true. unfold recover_row. cbv zeta.
  intros (record & _ & H)%result_bind_ok. apply result_bind_ok in H as (answer & _ & H).
  assert (Hm : ∀ st reason owner, st ∈ ["done"; "needs_operator"; "pending"] →
    moves r (with_state st reason now (o_started_at r) owner None (o_heartbeat_at r) r)).
  { intros st reason owner Hst. apply with_state_moves. rewrite Hr.
    apply elem_of_cons in Hst as [->|Hst]; [by_decide|].
    apply elem_of_cons in Hst as [->| ->%list_elem_of_singleton]; by_decide. }
  destruct answer as [[status answer]|]; [destruct (status == "done"); [|destruct (_receipt_is_ambiguous_mutating answer)]|];
    try (destruct (or_attempt record <? attempts)); injection H as _ <-; apply Hm; by_decide.
Qed.

Lemma recover_rows_sweeps now attempts rows t s : present is_running s rows →
  sweeps rows.*1 s (recover_rows now attempts rows t s).2.
Proof.
  revert t s. induction rows as [|[id r] rows IH]; intros t s Hp; [apply sweeps_refl|].
  cbn [recover_rows]. unfold mbind at 1, M_bind at 1, query.
  destruct (recover_row now attempts id r s) as [[d r']|e] eqn:E; [|apply sweeps_refl].
  change (sweeps (id :: rows.*1) s
    (recover_rows now attempts rows (add_recovery d t) (set_occurrences <[id := r']> s)).2).
  destruct (proj2 Hp id r) as [Hr Hrun]; [by left|].
  apply (sweeps_cons is_running id r _ _ (set_occurrences <[id := r']> s)); [done| |apply IH].
  apply (sweeps_put id r); [done|]. by eapply recover_row_moves.
Qed.

Lemma resume_rows_sweeps now rows n s : present is_waiting s rows →
  sweeps rows.*1 s (resume_rows now rows n s).2.
Proof.
  revert n s. induction rows as [|[id r] rows IH]; intros n s Hp; [apply sweeps_refl|].
  assert (Hskip : ∀ n, sweeps (id :: rows.*1) s (resume_rows now rows n s).2).
  { intros n'. apply (sweeps_cons is_waiting id r _ _ s); [done|apply sweeps_refl|apply IH]. }
  destruct (proj2 Hp id r) as [Hr Hw%bool_decide_eq_true]; [by left|].
  change ((id, r) :: rows).*1 with (id :: rows.*1).
  cbn [resume_rows]. unfold mbind, M_bind, lift.
  destruct (_occurrence_from_row id r) as [record|e]; [|apply sweeps_refl].
  destruct (wait_for _) as [dependency|e]; [|apply sweeps_refl].
  destruct dependency as [d|]; [|apply Hskip]. unfold gets.
  destruct (dependency_done d s); [|apply Hskip].
  destruct (sqlite_int now) as [now'|e]; [|apply sweeps_refl].
  set (r' := with_state _ _ _ _ _ _ _ _).
  change (sweeps (id :: rows.*1) s (resume_rows now rows (n + 1) (set_occurrences <[id := r']> s)).2).
  apply (sweeps_cons is_waiting id r _ _ (set_occurrences <[id := r']> s)); [done| |apply IH].
  apply (sweeps_put id r); [done|]. apply with_state_moves. rewrite Hw. by_decide.
Qed.

Lemma stale_running now cutoff r : stale now cutoff r = true → is_running r = true.
Proof. unfold stale. by intros [? _]%andb_true_iff. Qed.

Definition swept (s s' : SchedulerStore) : Prop := ∃ ids, sweeps ids s s'.
#[local] Instance swept_refl : Reflexive swept.
Proof. intros s. exists []. apply sweeps_refl. Qed.

Lemma swept_lives s s' : swept s s' → lives s s'.
Proof. intros [ids H]. by eapply sweeps_lives. Qed.

Lemma recover_swept now stale_after attempts :
  relates swept (recover_stale_running now stale_after attempts).
Proof.
  unfold recover_stale_running. cbv zeta. do 3 pass. apply relates_transaction; [apply _|].
  do 2 pass. apply relates_gets_bind. intros s. eexists. apply recover_rows_sweeps.
  split; [apply select_nodup|]. intros id r [Hr Hs]%select_elem. split; [done|].
  by eapply stale_running.
Qed.

Lemma resume_swept now : relates swept (resume_waiting_dependencies now).
Proof.
  unfold resume_waiting_dependencies. pass. apply relates_transaction; [apply _|].
  apply relates_gets_bind. intros s. eexists. apply resume_rows_sweeps.
  apply (present_select is_waiting).
Qed.

Lemma relates_quiet {A} R (m : M SchedulerStore A) : relates R m → relates R (quiet m).
Proof.
  intros Hm s. specialize (Hm s). unfold quiet, mbind, M_bind. by destruct (m s) as [[a|e] s1].
Qed.

Lemma call_lives c s : quiet_call c = false → lives s (after c s).
Proof.
  intros Hc. unfold after. revert s. change (relates lives (call c)).
  destruct c; try discriminate; unfold call; apply relates_quiet.
  - eapply relates_mono; [|apply create_creates]; by intros s s' [].
  - eapply relates_mono; [apply puts_lives|apply claim_puts].
  - eapply relates_mono; [apply puts_lives|apply renew_puts].
  - eapply relates_mono; [apply puts_lives|apply transition_puts].
  - eapply relates_mono; [apply swept_lives|apply recover_swept].
  - eapply relates_mono; [apply swept_lives|apply resume_swept].
Qed.

Lemma after_lifecycle c s id : lifecycle id (occurrences s !! id) (occurrences (after c s) !! id).
Proof.
  destruct (quiet_call c) eqn:E.
  - rewrite quiet_call_occurrences by done. constructor.
  - by apply call_lives.
Qed.

(** *** Runs of calls *)
Lemma terminal_stuck st : st ∈ ["done"; "failed"; "skipped"] → _ALLOWED_TRANSITIONS st = [].
Proof.
  intros H. apply elem_of_cons in H as [->|H]; [done|].
  by apply elem_of_cons in H as [->| ->%list_elem_of_singleton].
Qed.

Lemma active_not_terminal st : st ∈ ["pending"; "running"] → st ∉ ["done"; "failed"; "skipped"].
Proof. intros H. apply elem_of_cons in H as [->| ->%list_elem_of_singleton]; by_decide. Qed.

(** What a run preserves of an occurrence that exists. *)
Record ages (r r' : occurrence_row) : Prop := {
  ag_identity : identity r' = identity r;
  ag_attempt : o_attempt r ≤ o_attempt r';
  ag_terminal : o_state r ∈ ["done"; "failed"; "skipped"] → r' = r
}.

#[local] Instance ages_refl : Reflexive ages.
Proof. intros r. by split. Qed.

Lemma ages_trans r1 r2 r3 : ages r1 r2 → ages r2 r3 → ages r1 r3.
Proof.
  intros [E1 A1 T1] [E2 A2 T2]. split; [congruence|lia|].
  intros H. specialize (T1 H). subst. auto.
Qed.

Lemma lifecycle_ages id r o : lifecycle id (Some r) o → ∃ r', o = Some r' ∧ ages r r'.
Proof.
  intros H. inversion H as [ |? |x r' key Hid Hp Hr Ha Hk Hkey
    |x r' Hid Hp Hr Ha Hk Ho|x r' Hid Hst Ha Hk]; subst; [by exists r|exists r'; split; [done|]..].
  - split; [done|lia|]. rewrite Hp. intros []%active_not_terminal. by_decide.
  - split; [done|lia|]. rewrite Hp. intros []%active_not_terminal. by_decide.
  - split; [done|lia|]. intros Hd%terminal_stuck. rewrite Hd in Hst. inversion Hst.
Qed.

Lemma after_ages c s id r : occurrences s !! id = Some r →
  ∃ r', occurrences (after c s) !! id = Some r' ∧ ages r r'.
Proof. intros Hr. pose proof (after_lifecycle c s id) as H. rewrite Hr in H. by apply lifecycle_ages in H. Qed.

Lemma after_all_ages cs s id r : occurrences s !! id = Some r →
  ∃ r', occurrences (after_all cs s) !! id = Some r' ∧ ages r r'.
Proof.
  revert s r. induction cs as [|c cs IH]; intros s r Hr; [by exists r|]. cbn.
  destruct (after_ages c s id r Hr) as (r1 & Hr1 & H1).
  destruct (IH _ _ Hr1) as (r2 & Hr2 & H2). exists r2. split; [done|]. by eapply ages_trans.
Qed.

(** The occurrence a call claims. *)
Definition claimed (c : store_call) (s : SchedulerStore) : option OccurrenceRecord :=
  match c with
  | ClaimNext now owner lease exclude =>
      match (claim_next_pending now owner lease exclude s).1 with Ok o => o | Raise _ => None end
  | _ => None
  end.

Fixpoint claims (cs : list store_call) (s : SchedulerStore) : list OccurrenceRecord :=
  match cs with
  | [] => []
  | c :: cs =>
      match claimed c s with Some r => [r] | None => [] end ++ claims cs (after c s)
  end.

(** A successful claim: the first pending row that is not excluded. *)
Lemma claim_ok now owner lease exclude s s' rec :
  claim_next_pending now owner lease exclude s = (Ok (Some rec), s') →
  ∃ id row key, occurrences s !! id = Some row ∧ o_state row = "pending" ∧ id ∉ exclude ∧
    attempt_key id (o_attempt row + 1) key ∧
    s' = set_occurrences <[id := claim_row now (o_attempt row + 1) (now + lease) key owner row]> s ∧
    _occurrence_from_row id (claim_row now (o_attempt row + 1) (now + lease) key owner row) = Ok rec.
Proof.
  intros H. unfold claim_next_pending in H. cbv zeta in H.
  apply M_bind_ok in H as ([] & s1 & [_ ->]%lift_ok & H).
  apply M_bind_ok in H as ([] & s2 & [_ ->]%lift_ok & H).
  apply M_bind_ok in H as ([] & s3 & [_ ->]%lift_ok & H).
  apply transaction_ok, M_bind_ok in H as (rows & s4 & [= <- <-] & H).
  destruct (select _ s) as [|[id row] rows] eqn:E; [discriminate|].
  assert (Hin : (id, row) ∈ select (λ id r, (o_state r == "pending") && (id ∉? exclude)) s)
    by (rewrite E; left).
  apply select_elem in Hin as [Hrow [Hp Hex]%andb_true_iff].
  apply bool_decide_eq_true in Hp. apply negb_true_iff, bool_decide_eq_false in Hex.
  apply M_bind_ok in H as (current & s5 & [Hc ->]%lift_ok & H).
  unfold _occurrence_from_row in Hc. apply result_bind_ok in Hc as (proposal & Hj & [= <-]).
  cbn [or_attempt or_occurrence_id] in H.
  apply M_bind_ok in H as (text & s6 & [Ht ->]%lift_ok & H).
  apply M_bind_ok in H as (? & s7 & [[_ ->]%sqlite_int_ok ->]%lift_ok & H).
  apply M_bind_ok in H as (? & s8 & [[_ ->]%sqlite_int_ok ->]%lift_ok & H).
  apply M_bind_ok in H as (? & s9 & [[_ ->]%sqlite_int_ok ->]%lift_ok & H).
  apply M_bind_ok in H as ([] & s10 & [= <-] & H).
  apply M_bind_ok in H as (r & s11 & Hl & [= <- <-]).
  unfold load_occurrence in Hl. apply M_bind_ok in Hl as (o & s12 & [Hq ->]%query_ok & [Ho ->]%lift_ok).
  apply some_or_ok in Ho as ->. unfold _load_occurrence in Hq. cbn in Hq.
  rewrite lookup_insert_eq in Hq. apply result_bind_ok in Hq as (r' & Hr' & [= ->]).
  exists id, row, (id +:+ ":attempt:" +:+ text). split_and!; try done. by exists text.
Qed.

Lemma claimed_row c s rec : claimed c s = Some rec →
  ∃ row row', occurrences s !! or_occurrence_id rec = Some row ∧
    occurrences (after c s) !! or_occurrence_id rec = Some row' ∧
    o_attempt row < or_attempt rec ∧ o_attempt row' = or_attempt rec ∧
    ∃ key, or_idempotency_key rec = Some key ∧ attempt_key (or_occurrence_id rec) (or_attempt rec) key.
Proof.
  destruct c as [| | | |now owner lease exclude| | | | |]; try discriminate. unfold claimed, after, call, quiet.
  destruct (claim_next_pending now owner lease exclude s) as [[o|e] s'] eqn:E; [|discriminate].
  cbn [fst]. intros ->. unfold mbind, M_bind. rewrite E. cbn [snd mret M_ret].
  apply claim_ok in E as (id & row & key & Hrow & _ & _ & Hk & -> & Hrec).
  unfold _occurrence_from_row in Hrec. apply result_bind_ok in Hrec as (proposal & _ & [= <-]).
  cbn [or_occurrence_id or_attempt or_idempotency_key].
  eexists row, _. cbn. rewrite lookup_insert_eq. split_and!; [done..|cbn; lia|done|by exists key].
Qed.

(** Later claims of an occurrence carry later attempts. *)
Lemma claims_later cs s rec : rec ∈ claims cs s →
  (∀ r, occurrences s !! or_occurrence_id rec = Some r → o_attempt r < or_attempt rec) ∧
  ∃ key, or_idempotency_key rec = Some key ∧ attempt_key (or_occurrence_id rec) (or_attempt rec) key.
Proof.
  revert s. induction cs as [|c cs IH]; intros s H; [inversion H|]. cbn [claims] in H.
  apply elem_of_app in H as [H|H].
  - destruct (claimed c s) as [x|] eqn:E; [|inversion H]. apply list_elem_of_singleton in H as <-.
    destruct (claimed_row _ _ _ E) as (row & row' & Hr & _ & Hlt & _ & Hk).
    split; [|done]. intros r Hr'. congruence.
  - destruct (IH _ H) as [Hlater Hk]. split; [|done]. intros r Hr.
    destruct (after_ages c s _ _ Hr) as (r' & Hr' & Ha). specialize (Hlater _ Hr').
    pose proof (ag_attempt _ _ Ha). lia.
Qed.

(** *** Keys *)
Lemma uint_digits_inj d d' : uint_digits d = uint_digits d' → d = d'.
Proof.
  revert d'. induction d as [|d IH|d IH|d IH|d IH|d IH|d IH|d IH|d IH|d IH|d IH]; intros [];
    try discriminate; [done|..]; intros [= E]; f_equal; by apply IH.
Qed.

Lemma uint_chars_inj d d' : uint_chars d = uint_chars d' → d = d'.
Proof.
  intros E. apply uint_digits_inj. pose proof (take_uint_chars d [] eq_refl) as H.
  pose proof (take_uint_chars d' [] eq_refl) as H'. rewrite E in H. congruence.
Qed.

Lemma uint_chars_digits d c : c ∈ uint_chars d → c ∈ chars "0123456789".
Proof.
  induction d; cbn [uint_chars]; intros H; [inversion H|..];
    (apply elem_of_cons in H as [->|H]; [by_decide|auto]).
Qed.

Lemma int_chars_elem z c : c ∈ int_chars z → c ∈ chars "-0123456789".
Proof.
  assert (Hd : ∀ n, c ∈ nat_chars n → c ∈ chars "-0123456789")
    by (intros n H%uint_chars_digits; by right).
  unfold int_chars. destruct (z <? 0); [|apply Hd].
  intros [->|H]%elem_of_cons; [by_decide|by eapply Hd].
Qed.

Lemma nat_chars_inj n m : 0 ≤ n → 0 ≤ m → nat_chars n = nat_chars m → n = m.
Proof.
  intros Hn Hm E%uint_chars_inj. apply (f_equal N.of_uint) in E.
  rewrite !DecimalN.Unsigned.of_to in E. lia.
Qed.

Lemma int_chars_inj x y : int_chars x = int_chars y → x = y.
Proof.
  assert (Hneg : ∀ n l, nat_chars n ≠ "-"%char :: l).
  { intros n l E. assert (Hin : "-"%char ∈ nat_chars n) by (rewrite E; left).
    apply uint_chars_digits in Hin.
    revert Hin. change ("-"%char ∉ chars "0123456789"). by_decide. }
  unfold int_chars. destruct (Z.ltb_spec x 0), (Z.ltb_spec y 0); intros E.
  - injection E as E. apply nat_chars_inj in E; lia.
  - symmetry in E. by apply Hneg in E.
  - by apply Hneg in E.
  - apply nat_chars_inj in E; lia.
Qed.

Lemma split_last_inj {A} (c : A) l1 l2 t1 t2 : c ∉ t1 → c ∉ t2 →
  l1 ++ c :: t1 = l2 ++ c :: t2 → l1 = l2 ∧ t1 = t2.
Proof.
  intros H1 H2. revert l2. induction l1 as [|a l1 IH]; intros [|b l2]; cbn; intros E.
  - by injection E as E.
  - injection E as -> E. destruct H1. rewrite E. apply elem_of_app. right. left.
  - injection E as <- E. destruct H2. rewrite <-E. apply elem_of_app. right. left.
  - injection E as -> E. destruct (IH _ E) as [-> ->]. done.
Qed.

Lemma attempt_key_inj id1 n1 id2 n2 key : attempt_key id1 n1 key → attempt_key id2 n2 key →
  id1 = id2 ∧ n1 = n2.
Proof.
  intros (t1 & H1 & ->) (t2 & H2 & E). unfold int_text in H1, H2.
  apply seq_ok in H1 as [_ [= <-]]. apply seq_ok in H2 as [_ [= <-]].
  apply (f_equal chars) in E. rewrite !chars_append, !chars_unchars in E.
  change (chars ":attempt:") with (chars ":attempt" ++ [":"%char]) in E.
  rewrite <-!app_assoc in E. rewrite !(app_assoc (chars _) (chars ":attempt")) in E.
  assert (Hc : ∀ z, ":"%char ∉ int_chars z).
  { intros z Hin%int_chars_elem. revert Hin. change (":"%char ∉ chars "-0123456789"). by_decide. }
  apply split_last_inj in E as [E Et]; [|apply Hc..].
  apply app_inv_tail in E. apply int_chars_inj in Et as ->. split; [|done].
  by rewrite <-(unchars_chars id1), E, unchars_chars.
Qed.

(** *** Claims hold *)

(** The calls that do not concern a claim: no transition of the occurrence, no
    renewal by its owner, no recovery after its deadline. *)
Definition leaves (id owner : string) (expires : Z) (c : store_call) : Prop :=
  match c with
  | Transition j _ _ _ _ => j ≠ id
  | RenewClaim j w _ _ => j ≠ id ∨ w ≠ owner
  | RecoverStale now _ _ => now < expires
  | _ => True
  end.

Record holds (owner : string) (expires : Z) (r : occurrence_row) : Prop := {
  ho_state : o_state r = "running";
  ho_owner : o_claim_owner r = Some owner;
  ho_expires : o_lease_expires_at r = Some expires
}.

Definition stays (id : string) (r : occurrence_row) (s s' : SchedulerStore) : Prop :=
  occurrences s !! id = Some r → occurrences s' !! id = Some r.
#[local] Instance stays_refl id r : Reflexive (stays id r).
Proof. intros s H. exact H. Qed.

Lemma sweep_stays p rows id r s s' : (∀ j x, (j, x) ∈ rows → p x = true) → present p s rows →
  p r = false → sweeps rows.*1 s s' → stays id r s s'.
Proof.
  intros Hp [_ Hin] Hr Hs Hid. rewrite (sw_others _ _ _ Hs); [done|].
  intros ([j x] & -> & Hx)%list_elem_of_fmap. destruct (Hin _ _ Hx) as [Hx' Hpx].
  cbn in Hid. congruence.
Qed.

Lemma stale_present now cutoff s : let rows := select (λ _ r, stale now cutoff r) s in
  present is_running s rows ∧ present (stale now cutoff) s rows.
Proof.
  intros rows. split; [|apply present_select].
  split; [apply select_nodup|]. intros id r [Hr Hs]%select_elem. split; [done|].
  by eapply stale_running.
Qed.

Lemma recover_stays now after n id r expires owner : now < expires → holds owner expires r →
  relates (stays id r) (recover_stale_running now after n).
Proof.
  intros Hlt [Hst Ho Hx]. unfold recover_stale_running. cbv zeta. do 3 pass.
  apply relates_transaction; [apply _|]. pass. rename select (sqlite_int now = _) into Hn.
  apply sqlite_int_ok in Hn as [_ ->]. apply relates_lift_bind; [apply _|]. intros cutoff _.
  apply relates_gets_bind. intros s.
  destruct (stale_present now cutoff s) as [Hrun Hstale].
  eapply sweep_stays; [|exact Hstale| |by apply recover_rows_sweeps].
  - intros j x Hj. by apply Hstale in Hj as [_ ?].
  - unfold stale. rewrite Hx. destruct (o_started_at r); [|by rewrite andb_false_r].
    rewrite (proj2 (Z.leb_gt _ _) Hlt). apply andb_false_r.
Qed.

Lemma resume_stays now id r : o_state r ≠ "waiting_dependency" →
  relates (stays id r) (resume_waiting_dependencies now).
Proof.
  intros Hst. unfold resume_waiting_dependencies. pass. apply relates_transaction; [apply _|].
  apply relates_gets_bind. intros s.
  eapply sweep_stays; [|apply (present_select is_waiting)| |apply resume_rows_sweeps, (present_select is_waiting)].
  - intros j x Hj. by apply (present_select is_waiting s) in Hj as [_ ?].
  - by apply bool_decide_eq_false.
Qed.

Lemma after_holds c s id owner expires r : leaves id owner expires c → holds owner expires r →
  occurrences s !! id = Some r → occurrences (after c s) !! id = Some r.
Proof.
  intros Hc [Hst Ho Hx] Hr. destruct (quiet_call c) eqn:Hq; [by rewrite quiet_call_occurrences|].
  assert (Hquiet : ∀ A (R : SchedulerStore → SchedulerStore → Prop) (m : M SchedulerStore A),
    relates R m → R s (quiet m s).2) by (intros A R m Hm; by apply relates_quiet).
  unfold after. destruct c as [| | | |now w l ex|j w l now|j expected st reason now|now after n|now|];
    try discriminate; cbn [call]; cbn [leaves] in Hc.
  - exact (proj2 (Hquiet _ creates _ (create_creates _ _ _ _ _ _ _ _ _)) id r Hr).
  - eapply puts_others; [exact (Hquiet _ _ _ (claim_puts now w l ex))|done|]. cbn. congruence.
  - eapply puts_others; [exact (Hquiet _ _ _ (renew_puts j w l now))|done|]. cbn. intros [-> E].
    destruct Hc; congruence.
  - eapply puts_others; [exact (Hquiet _ _ _ (transition_puts j expected st reason now))|done|].
    cbn. congruence.
  - exact (Hquiet _ (stays id r) _
      (recover_stays now after n id r expires owner Hc (Build_holds _ _ _ Hst Ho Hx)) Hr).
  - refine (Hquiet _ (stays id r) _ (resume_stays now id r _) Hr). congruence.
Qed.

Lemma after_all_holds cs s id owner expires r : Forall (leaves id owner expires) cs →
  holds owner expires r → occurrences s !! id = Some r →
  occurrences (after_all cs s) !! id = Some r.
Proof.
  intros Hcs Hh. revert s. induction Hcs as [|c cs Hc _ IH]; intros s Hr; [done|].
  cbn. apply IH. by eapply after_holds.
Qed.

(** A transition asks for no owner: whoever makes it ends the claim. *)
Lemma transition_ends id st reason now s r p : occurrences s !! id = Some r →
  o_state r = "running" → json_loads (o_proposal_json r) = Ok p →
  st ∈ ["pending"; "done"; "waiting_dependency"; "needs_operator"; "failed"] →
  falsy reason = false → longer 128 reason = false → 0 ≤ now < 2 ^ 63 →
  occurrences (after (Transition id ["running"] st reason now) s) !! id =
    Some (with_state st reason now (o_started_at r) None None None r).
Proof.
  intros Hr Hrun Hp Hst Hf Hl Hnow.
  assert (Hno : st ≠ "running") by (intros ->; revert Hst; by_decide).
  assert (H1 : _state st = Ok tt ∧ negb (st ∈? _ALLOWED_TRANSITIONS "running") = false).
  { repeat (apply elem_of_cons in Hst as [->|Hst]; [by vm_compute|]). inversion Hst. }
  destruct H1 as [H1 H2]. unfold after. cbn [call]. unfold quiet, transition_occurrence.
  rewrite H1. unfold _reason, _timestamp. rewrite Hf, Hl, (proj2 (Z.ltb_ge _ _)) by lia.
  cbn [each orb raise_if is_empty]. rewrite H2. change (_state "running") with (@Ok unit tt).
  unfold transaction. m_run. rewrite sqlite_int_in by lia. rewrite Hr, Hrun.
  change (negb ("running" ∈? ["running"])) with false. cbn [raise_if].
  rewrite (bool_decide_eq_false_2 _ Hno). unfold load_occurrence, put_occurrence. m_run.
  unfold _load_occurrence. cbn. rewrite lookup_insert_eq. unfold _occurrence_from_row. cbn.
  rewrite Hp. cbn. by rewrite lookup_insert_eq.
Qed.

(** *** The invariant of the tables *)
Record stored_spec (id : string) (row : version_row) (s : ScheduleSpec) : Prop := {
  ss_ok : spec_ok ZoneInfo s;
  ss_wf : json_wf (payload s);
  ss_id : schedule_id s = id;
  ss_row : row = version_of_spec s (once_at s) (dumps_canonical (payload s)) (v_created_at row)
             (v_spec_hash row);
  ss_hash : deterministic_hash s = Ok (v_spec_hash row)
}.

Record store_ok (s : SchedulerStore) : Prop := {
  sk_versions : ∀ id v row, versions s !! (id, v) = Some row → ∃ spec, stored_spec id row spec;
  sk_heads : ∀ id v, is_Some (versions s !! (id, v)) ↔
    ∃ h, heads s !! id = Some h ∧ 1 ≤ v ≤ h_version h;
  sk_head_version : ∀ id h, heads s !! id = Some h → 1 ≤ h_version h;
  sk_slots : ∀ id id' r r', occurrences s !! id = Some r → occurrences s !! id' = Some r' →
    slot r = slot r' → id = id';
  sk_parents : ∀ id r, occurrences s !! id = Some r →
    is_Some (versions s !! (o_schedule_id r, o_version r));
  sk_rows : ∀ id r, occurrences s !! id = Some r → o_state r ∈ OCCURRENCE_STATES ∧ 0 ≤ o_attempt r
}.

Lemma empty_ok : store_ok empty_store.
Proof.
  split; cbn; try (intros *; rewrite lookup_empty; discriminate).
  intros id v. rewrite lookup_empty. split; [intros [? [=]]|intros (h & E & _)].
  rewrite lookup_empty in E. discriminate.
Qed.

(** Reading a stored payload and a stored version. *)
Lemma payload_read p : payload_ok schedule_limits p → json_wf p →
  json_loads (dumps_canonical p) = Ok p.
Proof.
  intros Hp Hwf. unfold json_loads, dumps_canonical.
  rewrite (frozen_sorted _ _ _ (po_frozen _ _ Hp)), loads_dumps_compact by done.
  cbn [some_or mbind result_bind]. rewrite (po_ints _ _ Hp). cbn [raise_if mbind result_bind].
  by rewrite (to_dicts_id p (frozen_dicts _ _ _ (po_frozen _ _ Hp))).
Qed.

Definition record_of (s : ScheduleSpec) (row : version_row) (h : head_row) : StoredSchedule :=
  {| spec := s; version := h_version h; enabled := h_enabled h; created_at := v_created_at row;
     last_evaluated_at := h_last_evaluated_at h |}.

Lemma load_stored id row s h : stored_spec id row s → load_row ZoneInfo id (h, row) = Ok (record_of s row h).
Proof.
  intros [Hok Hwf Hid Hrow Hh]. unfold load_row, _schedule_from_row. cbn [fst snd].
  rewrite Hrow at 1. cbn [version_of_spec v_payload_json].
  rewrite payload_read by (done || apply Hok). cbn [mbind result_bind].
  assert (E : ∀ j, from_mapping ZoneInfo j = Ok s → from_mapping ZoneInfo j = Ok s) by done.
  pose proof (mapping_id ZoneInfo s Hok) as Hm.
  unfold to_mapping, spec_fields in Hm. rewrite Hid in Hm.
  rewrite Hrow. cbn [version_of_spec v_trigger_kind v_cron_expression v_once_at v_timezone
    v_route_type v_route_id v_approval_policy v_overlap_policy v_misfire_policy v_created_at].
  change "skeleton.schedule.v1" with SCHEDULE_SCHEMA. rewrite Hm. cbn [mbind result_bind].
  unfold record_of. rewrite Hrow. done.
Qed.

(** Calls that keep the versions, and which one each head names. *)
Record same_versions (s s' : SchedulerStore) : Prop := {
  sv_versions : versions s' = versions s;
  sv_occurrences : occurrences s' = occurrences s;
  sv_heads : ∀ id, h_version <$> heads s' !! id = h_version <$> heads s !! id
}.

#[local] Instance same_versions_refl : Reflexive same_versions.
Proof. by split. Qed.
#[local] Instance same_versions_trans : Transitive same_versions.
Proof. intros s1 s2 s3 [] []. split; congruence. Qed.

Lemma heads_same (m m' : gmap string head_row) id :
  h_version <$> m' !! id = h_version <$> m !! id →
  ∀ P : Z → Prop, (∃ h, m' !! id = Some h ∧ P (h_version h)) ↔ (∃ h, m !! id = Some h ∧ P (h_version h)).
Proof.
  intros E P. destruct (m' !! id) as [h'|], (m !! id) as [h|]; cbn in E; try discriminate;
    [injection E as E; split; intros (x & [= <-] & Hx); [exists h|exists h']; by rewrite ?E, <-?E in *
    |split; intros (x & ? & _); discriminate].
Qed.

Lemma same_versions_ok s s' : same_versions s s' → store_ok s → store_ok s'.
Proof.
  intros [Hv Ho Hh] [Kv Kh Khv Ks Kp Kr]. split; rewrite ?Hv, ?Ho; try done.
  - intros id v. rewrite Kh. symmetry.
    apply (heads_same (heads s) (heads s') id (Hh id) (λ n, 1 ≤ v ≤ n)).
  - intros id h E. destruct (proj1 (heads_same (heads s) (heads s') id (Hh id) (λ n, n = h_version h)))
      as (h' & E' & <-); [by exists h|]. by apply (Khv id).
Qed.

Lemma allowed_states st st' : st' ∈ _ALLOWED_TRANSITIONS st → st' ∈ OCCURRENCE_STATES.
Proof.
  assert (H : ∀ l, forallb (λ x, x ∈? OCCURRENCE_STATES) l = true → st' ∈ l → st' ∈ OCCURRENCE_STATES)
    by (intros l Hl; by apply forallb_mem).
  unfold _ALLOWED_TRANSITIONS.
  destruct (st == "pending"); [by apply H|]. destruct (st == "running"); [by apply H|].
  destruct (st == "waiting_dependency"); [by apply H|].
  destruct (st == "needs_operator"); [by apply H|]. intros Hst. inversion Hst.
Qed.

Lemma lives_ok s s' : lives s s' → store_ok s → store_ok s'.
Proof.
  intros [Hv Hh _ Hl Hn] [Kv Kh Khv Ks Kp Kr]. split; rewrite ?Hv, ?Hh; try done.
  - assert (Hold : ∀ id r', occurrences s' !! id = Some r' →
      (∃ r, occurrences s !! id = Some r ∧ slot r' = slot r) ∨ occurrences s !! id = None).
    { intros id r' E. destruct (occurrences s !! id) as [r|] eqn:Er; [left|by right].
      specialize (Hl id). rewrite Er in Hl. apply lifecycle_ages in Hl as (x & Hx & Ha).
      exists r. split; [done|]. replace r' with x by congruence.
      pose proof (ag_identity _ _ Ha) as Hi. unfold identity, slot in *. congruence. }
    intros id id' r r' E E' Hs.
    destruct (Hold _ _ E) as [(x & Ex & Hx)|En], (Hold _ _ E') as [(x' & Ex' & Hx')|En'].
    + apply (Ks _ _ x x'); congruence.
    + destruct (Hn _ _ En' E') as (_ & Hfree & _). destruct (Hfree _ _ Ex). congruence.
    + destruct (Hn _ _ En E) as (_ & Hfree & _). destruct (Hfree _ _ Ex'). congruence.
    + destruct (decide (id = id')) as [|Hne]; [done|].
      destruct (Hn _ _ En E) as (_ & _ & Hsame). rewrite Hsame in E' by done. congruence.
  - intros id r' E. destruct (occurrences s !! id) as [r|] eqn:Er.
    + specialize (Hl id). rewrite Er, E in Hl. apply lifecycle_ages in Hl as (x & [= <-] & Ha).
      pose proof (ag_identity _ _ Ha) as Hi. unfold identity in Hi. injection Hi as -> -> _ _ _ _ _.
      by apply (Kp id).
    + by destruct (Hn _ _ Er E).
  - intros id r' E. specialize (Hl id). destruct (occurrences s !! id) as [r|] eqn:Er; rewrite ?E in Hl.
    + destruct (Kr _ _ Er) as [Hst Hat]. inversion Hl; subst; [done|..].
      * rename select (o_state r' = "running") into Hrun. rewrite Hrun. split; [by_decide|lia].
      * rename select (o_state r' = "running") into Hrun. rewrite Hrun. split; [by_decide|lia].
      * split; [|lia]. rename select (_ ∈ _ALLOWED_TRANSITIONS _) into Hm. by eapply allowed_states.
    + inversion Hl; subst. split; [done|lia].
Qed.

(** *** Registration *)
Definition with_version (spec : ScheduleSpec) (v : Z) (hash : string) (now : Z) (enabled : bool)
    (s : SchedulerStore) : SchedulerStore :=
  set_heads <[schedule_id spec :=
      {| h_version := v; h_enabled := enabled; h_last_evaluated_at := Some (Z.max 0 (now - 60)) |}]>
    (set_versions <[(schedule_id spec, v) :=
      version_of_spec spec (once_at spec) (dumps_canonical (payload spec)) now hash]> s).

(** The number a new version gets. *)
Definition next_version (id : string) (s : SchedulerStore) : Z :=
  match heads s !! id with None => 1 | Some h => h_version h + 1 end.

Lemma current_head id s : store_ok s →
  match heads s !! id with
  | Some h => ∃ row spec, current_row s id = Some (h, row) ∧ stored_spec id row spec
  | None => current_row s id = None
  end.
Proof.
  intros Hs. unfold current_row. destruct (heads s !! id) as [h|] eqn:Eh; [|done].
  destruct (proj2 (sk_heads s Hs id (h_version h))) as [row Hrow].
  { exists h. split; [done|]. pose proof (sk_head_version s Hs _ _ Eh). lia. }
  destruct (sk_versions s Hs _ _ _ Hrow) as [spec Hspec].
  exists row, spec. cbn. rewrite Hrow. done.
Qed.

Lemma next_version_free id s : store_ok s → 1 ≤ next_version id s ∧ versions s !! (id, next_version id s) = None.
Proof.
  intros Hs. unfold next_version. destruct (heads s !! id) as [h|] eqn:Eh.
  - pose proof (sk_head_version s Hs _ _ Eh). split; [lia|]. apply eq_None_not_Some.
    rewrite (sk_heads s Hs). intros (h' & E & Hv). replace h' with h in Hv by congruence. lia.
  - split; [lia|]. apply eq_None_not_Some. rewrite (sk_heads s Hs). intros (h' & E & _). congruence.
Qed.

Lemma with_version_ok spec hash now enabled s : store_ok s → spec_ok ZoneInfo spec →
  json_wf (payload spec) → deterministic_hash spec = Ok hash →
  store_ok (with_version spec (next_version (schedule_id spec) s) hash now enabled s).
Proof.
  intros Hs Hok Hwf Hh. pose proof (next_version_free (schedule_id spec) s Hs) as [Hv1 Hfree].
  set (id := schedule_id spec) in *. set (v := next_version id s) in *.
  split; cbn; fold id; fold v.
  - intros j w row. destruct (decide ((j, w) = (id, v))) as [[= -> ->]|Hne].
    + rewrite lookup_insert_eq. intros [= <-]. exists spec. by split.
    + rewrite lookup_insert_ne by congruence. apply (sk_versions s Hs).
  - intros j w. destruct (decide (j = id)) as [->|Hj].
    + rewrite lookup_insert_eq. destruct (decide (w = v)) as [->|Hw].
      * rewrite lookup_insert_eq. split; [intros _; eexists; (split; [done|]); cbn; lia|by eexists].
      * rewrite lookup_insert_ne by congruence. rewrite (sk_heads s Hs). split.
        -- intros (h & E & Hr). eexists. split; [done|]. cbn. unfold v, next_version. rewrite E. lia.
        -- intros (h & [= <-] & Hr). cbn in Hr. unfold v, next_version in *.
           destruct (heads s !! id) as [h|]; [exists h; split; [done|lia]|lia].
    + rewrite !lookup_insert_ne by congruence. apply (sk_heads s Hs).
  - intros j h. destruct (decide (j = id)) as [->|Hj].
    + rewrite lookup_insert_eq. intros [= <-]. done.
    + rewrite lookup_insert_ne by done. apply (sk_head_version s Hs).
  - apply (sk_slots s Hs).
  - intros j r Hr. destruct (sk_parents s Hs _ _ Hr) as [row Hrow].
    destruct (decide ((o_schedule_id r, o_version r) = (id, v))) as [->|Hne].
    + rewrite lookup_insert_eq. by eexists.
    + rewrite lookup_insert_ne by congruence. by eexists.
  - apply (sk_rows s Hs).
Qed.

(** What a registration does, when it returns. *)
Definition registered (spec : ScheduleSpec) (hash : string) (now : Z) (enabled : bool)
    (s : SchedulerStore) (a : StoredSchedule * bool) (s' : SchedulerStore) : Prop :=
  let id := schedule_id spec in
  match a with
  | (r, true) =>
      (∀ h row, current_row s id = Some (h, row) → v_spec_hash row ≠ hash) ∧
      s' = with_version spec (next_version id s) hash now enabled s ∧
      r = {| Schedule.spec := spec; version := next_version id s; Schedule.enabled := enabled;
             created_at := now; last_evaluated_at := Some (Z.max 0 (now - 60)) |}
  | (r, false) =>
      s' = s ∧ ∃ h row old, current_row s id = Some (h, row) ∧ stored_spec id row old ∧
        v_spec_hash row = hash ∧ r = record_of old row h
  end.

Lemma canonical_payload p : payload_ok schedule_limits p → canonical_json p = Ok (dumps_canonical p).
Proof. intros Hp. unfold canonical_json. by rewrite (po_ints _ _ Hp). Qed.

Lemma load_written_stored id row s h st : current_row st id = Some (h, row) → stored_spec id row s →
  load_written ZoneInfo id st = (Ok (record_of s row h), st).
Proof.
  intros Hc Hs. unfold load_written, _load_current. m_run. rewrite Hc.
  by rewrite (load_stored id row s h Hs).
Qed.

Lemma current_row_with spec v hash now enabled s :
  current_row (with_version spec v hash now enabled s) (schedule_id spec) =
  Some ({| h_version := v; h_enabled := enabled; h_last_evaluated_at := Some (Z.max 0 (now - 60)) |},
        version_of_spec spec (once_at spec) (dumps_canonical (payload spec)) now hash).
Proof. unfold current_row. cbn. rewrite lookup_insert_eq. cbn. by rewrite lookup_insert_eq. Qed.

Lemma sqlite_opt_ok o o' : sqlite_opt o = Ok o' → o' = o.
Proof.
  destruct o as [z|]; cbn; [|congruence]. intros (x & [_ ->]%sqlite_int_ok & [= <-])%result_bind_ok.
  done.
Qed.

Lemma insert_version_ok spec v p now hash s s' u :
  insert_version spec v p now hash s = (Ok u, s') →
  s' = set_versions <[(schedule_id spec, v) := version_of_spec spec (once_at spec) p now hash]> s.
Proof.
  unfold insert_version. intros H.
  apply M_bind_ok in H as (v' & ? & [[_ ->]%sqlite_int_ok ->]%lift_ok & H).
  apply M_bind_ok in H as (o & ? & [->%sqlite_opt_ok ->]%lift_ok & H).
  apply M_bind_ok in H as (n & ? & [[_ ->]%sqlite_int_ok ->]%lift_ok & H).
  apply M_bind_ok in H as ([] & ? & [_ ->]%lift_ok & H).
  apply M_bind_ok in H as (rows & ? & [= <- <-] & H).
  apply M_bind_ok in H as ([] & ? & [_ ->]%lift_ok & H). by injection H as <- <-.
Qed.

Lemma upsert_head_ok id v enabled cursor s s' u : upsert_head id v enabled cursor s = (Ok u, s') →
  s' = set_heads <[id := {| h_version := v; h_enabled := enabled; h_last_evaluated_at := Some cursor |}]> s.
Proof.
  unfold upsert_head. intros H.
  apply M_bind_ok in H as (c & ? & [[_ ->]%sqlite_int_ok ->]%lift_ok & H). by injection H as <- <-.
Qed.

Lemma register_new spec hash now enabled s s' a : store_ok s → spec_ok ZoneInfo spec →
  json_wf (payload spec) → deterministic_hash spec = Ok hash →
  (insert_version spec (next_version (schedule_id spec) s) (dumps_canonical (payload spec)) now hash;;
   upsert_head (schedule_id spec) (next_version (schedule_id spec) s) enabled (Z.max 0 (now - 60));;
   record ← load_written ZoneInfo (schedule_id spec); mret (record, true)) s = (Ok a, s') →
  s' = with_version spec (next_version (schedule_id spec) s) hash now enabled s ∧
  a = ({| Schedule.spec := spec; version := next_version (schedule_id spec) s; Schedule.enabled := enabled;
          created_at := now; last_evaluated_at := Some (Z.max 0 (now - 60)) |}, true).
Proof.
  intros Hs Hok Hwf Hh H. apply M_bind_ok in H as ([] & s1 & H1 & H).
  apply insert_version_ok in H1 as ->. apply M_bind_ok in H as ([] & s2 & H2 & H).
  apply upsert_head_ok in H2 as ->.
  change (set_heads _ _) with (with_version spec (next_version (schedule_id spec) s) hash now enabled s) in H.
  apply M_bind_ok in H as (r & s3 & Hl & [= <- <-]).
  erewrite load_written_stored in Hl; [|apply current_row_with|by split].
  by injection Hl as <- <-.
Qed.

Lemma register_ok spec hash now enabled s s' a : store_ok s → spec_ok ZoneInfo spec →
  json_wf (payload spec) → deterministic_hash spec = Ok hash →
  register ZoneInfo spec now enabled s = (Ok a, s') → registered spec hash now enabled s a s'.
Proof.
  intros Hs Hok Hwf Hh H. unfold register in H.
  rewrite canonical_payload, Hh in H by apply Hok.
  apply M_bind_ok in H as ([] & s1 & [_ ->]%lift_ok & H).
  apply M_bind_ok in H as (? & s2 & [[= <-] ->]%lift_ok & H).
  apply M_bind_ok in H as (? & s3 & [[= <-] ->]%lift_ok & H).
  apply transaction_ok, M_bind_ok in H as (head & s4 & [= <- <-] & H).
  pose proof (current_head (schedule_id spec) s Hs) as Hc.
  destruct (heads s !! schedule_id spec) as [h|] eqn:Eh.
  - destruct Hc as (row & old & Hc & Hold). rewrite Hc in H.
    destruct (v_spec_hash row == hash) eqn:Ehash.
    + apply bool_decide_eq_true in Ehash. apply M_bind_ok in H as (r & s5 & Hl & [= <- <-]).
      erewrite load_written_stored in Hl by done. injection Hl as <- <-.
      split; [done|]. exists h, row, old. done.
    + apply bool_decide_eq_false in Ehash.
      assert (Hv : next_version (schedule_id spec) s = h_version h + 1)
        by (unfold next_version; by rewrite Eh).
      cbv zeta in H. rewrite <-Hv in H. apply register_new with (hash := hash) in H as [-> ->]; [|done..].
      split; [|done]. intros h' row' E. congruence.
  - rewrite Hc in H.
    assert (Hv : next_version (schedule_id spec) s = 1) by (unfold next_version; by rewrite Eh).
    cbv zeta in H. rewrite <-Hv in H. apply register_new with (hash := hash) in H as [-> ->]; [|done..].
    split; [|done]. intros h' row' E. congruence.
Qed.

Lemma current_row_some id s h row : current_row s id = Some (h, row) ↔
  heads s !! id = Some h ∧ versions s !! (id, h_version h) = Some row.
Proof.
  unfold current_row. destruct (heads s !! id) as [h'|]; cbn; [|naive_solver].
  destruct (versions s !! (id, h_version h')) as [row'|] eqn:E; cbn; naive_solver.
Qed.

(** A call that raises changes nothing. *)
Lemma lift_bind_raise {A B} (r : result A) (k : A → M SchedulerStore B) s s' e :
  (∀ a, k a s = (Raise e, s') → s' = s) → (lift r ≫= k) s = (Raise e, s') → s' = s.
Proof. intros Hk. unfold mbind, M_bind, lift. destruct r as [a|e']; [apply Hk|congruence]. Qed.

Lemma register_raise spec now enabled s s' e :
  register ZoneInfo spec now enabled s = (Raise e, s') → s' = s.
Proof.
  unfold register. apply lift_bind_raise. intros _. apply lift_bind_raise. intros p.
  apply lift_bind_raise. intros h. by intros [-> _]%transaction_raise.
Qed.

Definition good_call (c : store_call) : Prop :=
  match c with
  | Register spec _ _ => spec_ok ZoneInfo spec ∧ json_wf (payload spec)
  | _ => True
  end.

(** Replacing a head by one that names the same version. *)
Lemma put_head id h h' s : heads s !! id = Some h → h_version h' = h_version h →
  same_versions s (set_heads <[id := h']> s).
Proof.
  intros Hh Hv. split; try done. intros j. cbn. destruct (decide (j = id)) as [->|Hj].
  - rewrite lookup_insert_eq, Hh. cbn. congruence.
  - by rewrite lookup_insert_ne.
Qed.

Lemma set_enabled_same id enabled : relates same_versions (set_enabled ZoneInfo id enabled).
Proof.
  unfold set_enabled. apply relates_transaction; [apply _|]. apply relates_gets_bind. intros s.
  apply lift_bind_related; [apply _|]. intros h Hh%some_or_ok.
  match goal with |- same_versions _ ((modify ?f;; ?k) _).2 =>
    change (same_versions s (k (f s)).2) end.
  assert (E : ∀ st, (load_written ZoneInfo id st).2 = st) by (intros st; by apply reads_bind).
  rewrite E. by apply (put_head id h).
Qed.

Lemma advance_cursor_same id v t : relates same_versions (advance_cursor id v t).
Proof.
  unfold advance_cursor. pass. apply relates_transaction; [apply _|]. do 2 pass.
  apply relates_gets_bind. intros s. destruct (heads s !! id) as [h|] eqn:Hh; [|reflexivity].
  destruct (h_version h =? _); [|reflexivity].
  match goal with |- same_versions _ ((modify ?f;; ?k) _).2 =>
    change (same_versions s (f s)) end.
  by apply (put_head id h).
Qed.

Lemma record_receipt_same id n key st reason evidence answer now p :
  relates same_versions (record_dispatch_receipt id n key st reason evidence answer now p).
Proof.
  unfold record_dispatch_receipt. repeat relates_step.
Qed.

Lemma after_ok c s : good_call c → store_ok s → store_ok (after c s).
Proof.
  intros Hc Hs. destruct (quiet_call c) eqn:Hq; [|by eapply lives_ok, Hs; apply call_lives].
  assert (Hsame : ∀ A (m : M SchedulerStore A), relates same_versions m → store_ok (quiet m s).2)
    by (intros A m Hm; eapply same_versions_ok, Hs; by apply (relates_quiet same_versions)).
  unfold after. destruct c as [spec now enabled| | | | | | | | |]; try discriminate; cbn [call].
  - destruct Hc as [Hok Hwf]. unfold quiet, mbind, M_bind.
    destruct (register ZoneInfo spec now enabled s) as [[a|e] s'] eqn:E; cbn.
    + destruct (deterministic_hash spec) as [hash|e] eqn:Hh.
      * apply (register_ok spec hash) in E; [|done..]. destruct a as [r []]; cbn in E.
        -- destruct E as (_ & -> & _). by apply with_version_ok.
        -- by destruct E as [-> _].
      * unfold register in E. rewrite canonical_payload, Hh in E by apply Hok. exfalso.
        apply M_bind_ok in E as ([] & s1 & [_ ->]%lift_ok & E). discriminate.
    + apply register_raise in E as ->. done.
  - apply Hsame, set_enabled_same.
  - apply Hsame, advance_cursor_same.
  - apply Hsame, record_receipt_same.
Qed.

Lemma after_all_ok cs s : Forall good_call cs → store_ok s → store_ok (after_all cs s).
Proof.
  intros Hcs. revert s. induction Hcs as [|c cs Hc _ IH]; intros s Hs; [done|]. cbn. by apply IH, after_ok.
Qed.

(** A registration in range returns. *)
Definition int64 (z : Z) : Prop := - 2 ^ 63 ≤ z < 2 ^ 63.

Lemma register_returns spec hash now enabled s : store_ok s → spec_ok ZoneInfo spec →
  json_wf (payload spec) → deterministic_hash spec = Ok hash → 0 ≤ now < 2 ^ 63 →
  (∀ t, once_at spec = Some t → t < 2 ^ 63) → next_version (schedule_id spec) s < 2 ^ 63 →
  ∃ a s', register ZoneInfo spec now enabled s = (Ok a, s').
Proof.
  intros Hs Hok Hwf Hh Hnow Honce Hv.
  pose proof (next_version_free (schedule_id spec) s Hs) as [Hv1 Hfree].
  assert (Hnew : ∃ a s', (insert_version spec (next_version (schedule_id spec) s)
      (dumps_canonical (payload spec)) now hash;;
      upsert_head (schedule_id spec) (next_version (schedule_id spec) s) enabled (Z.max 0 (now - 60));;
      record ← load_written ZoneInfo (schedule_id spec); mret (record, true)) s = (Ok a, s')).
  { unfold insert_version, upsert_head. m_run.
    rewrite !sqlite_int_in by lia.
    assert (Ho : sqlite_opt (once_at spec) = Ok (once_at spec)).
    { pose proof (so_trigger _ _ Hok) as Ht. destruct (once_at spec) as [t|] eqn:E; [|done].
      cbn. inversion Ht; subst. rewrite sqlite_int_in; [done|]. specialize (Honce _ eq_refl). lia. }
    rewrite Ho. m_run. rewrite (proj2 (Z.ltb_ge _ _)) by lia. cbn [raise_if].
    rewrite Hfree. rewrite is_some_None. cbn [raise_if].
    change (set_heads _ _) with (with_version spec (next_version (schedule_id spec) s) hash now enabled s).
    erewrite load_written_stored; [|apply current_row_with|by split]. eauto. }
  unfold register. rewrite canonical_payload, Hh by apply Hok. m_run. unfold _timestamp.
  rewrite (proj2 (Z.ltb_ge _ _)) by lia. cbn [raise_if].
  pose proof (current_head (schedule_id spec) s Hs) as Hc.
  destruct (heads s !! schedule_id spec) as [h|] eqn:Eh.
  - destruct Hc as (row & old & Hc & Hold). rewrite Hc.
    assert (Hn : next_version (schedule_id spec) s = h_version h + 1)
      by (unfold next_version; by rewrite Eh).
    destruct (v_spec_hash row == hash).
    + erewrite load_written_stored by done. eauto.
    + cbv zeta. rewrite <-Hn. destruct Hnew as (a & s' & Hnew). revert Hnew. m_run. intros Hnew.
      rewrite Hnew. eauto.
  - rewrite Hc. assert (Hn : next_version (schedule_id spec) s = 1) by (unfold next_version; by rewrite Eh).
    cbv zeta. rewrite <-Hn. destruct Hnew as (a & s' & Hnew). revert Hnew. m_run. intros Hnew.
    rewrite Hnew. eauto.
Qed.

(** ** Properties *)

(** C10. Every writing call on the store, whether it returns or raises, moves each
    occurrence by at most one step of its life: created with no attempt, claimed
    from pending with the next attempt and its key, renewed while it runs, or moved
    along the table of allowed transitions - also by the statements that bypass
    [transition_occurrence].  So over any run an occurrence is never deleted, its slot and
    proposal never change, its attempts never decrease and a terminal one is
    frozen. *)
Theorem occurrence_lifecycle c cs s id :
  lifecycle id (occurrences s !! id) (occurrences (after c s) !! id) ∧
  ∀ r, occurrences s !! id = Some r →
    ∃ r', occurrences (after_all cs s) !! id = Some r' ∧ ages r r'.
Proof. split; [apply after_lifecycle|]. intros r. apply after_all_ages. Qed.

(** C12. No two claims of any run carry the same idempotency key: a key names an
    occurrence and an attempt, and an occurrence that returns to pending, by retry,
    recovery or an operator, is claimed again only with a later attempt. *)
Theorem dispatch_keys_unique cs s :
  NoDup (map or_idempotency_key (claims cs s)) ∧
  ∀ rec, rec ∈ claims cs s → ∃ key, or_idempotency_key rec = Some key ∧
    attempt_key (or_occurrence_id rec) (or_attempt rec) key.
Proof.
  split; [|intros rec H; by apply claims_later in H as [_ ?]].
  revert s. induction cs as [|c cs IH]; intros s; [constructor|]. cbn [claims].
  destruct (claimed c s) as [rec|] eqn:E; [|apply IH]. cbn [app map].
  apply NoDup_cons. split; [|apply IH].
  intros (rec' & Ek & Hrec')%list_elem_of_fmap. apply claims_later in Hrec' as [Hlater (k' & Hk' & Ha')].
  destruct (claimed_row _ _ _ E) as (row & row' & _ & Hrow' & _ & Hat & k & Hk & Ha).
  assert (k' = k) as -> by congruence. destruct (attempt_key_inj _ _ _ _ _ Ha Ha') as [Eid En].
  rewrite Eid in Hrow'. specialize (Hlater _ Hrow'). lia.
Qed.

(** C23. A claim holds: until its deadline no call of others - claims, renewals by
    other owners, recoveries, resumptions, registrations, new occurrences - touches a
    running occurrence.  Transitions of the occurrence are excluded, and have to be:
    [transition_occurrence] asks for no owner, so that any engine's transition ends
    the claim, before or after its deadline. *)
Theorem running_claim_exclusive cs s id owner expires r :
  occurrences s !! id = Some r → holds owner expires r → Forall (leaves id owner expires) cs →
  occurrences (after_all cs s) !! id = Some r ∧
  ∀ st reason now p, st ∈ ["pending"; "done"; "waiting_dependency"; "needs_operator"; "failed"] →
    falsy reason = false → longer 128 reason = false → 0 ≤ now < 2 ^ 63 →
    json_loads (o_proposal_json r) = Ok p →
    occurrences (after (Transition id ["running"] st reason now) (after_all cs s)) !! id =
      Some (with_state st reason now (o_started_at r) None None None r).
Proof.
  intros Hr Hh Hcs. pose proof (after_all_holds cs s id owner expires r Hcs Hh Hr) as Hr'.
  split; [done|]. intros st reason now p Hst Hf Hl Hnow Hp. exact (transition_ends id st reason now _ r p Hr' (ho_state _ _ _ Hh) Hp Hst Hf Hl Hnow).
Qed.

(** C22. Whatever calls are made of an empty store, the versions of a schedule are
    exactly 1 to its head's, each row a well-formed schedule with its hash; every
    occurrence belongs to a version, is in a known state, and is the only one of
    its version at its time. *)
Theorem store_tables_ok cs : Forall good_call cs → store_ok (after_all cs empty_store).
Proof. intros Hcs. apply after_all_ok; [done|apply empty_ok]. Qed.

(** C24. Registering a well-formed schedule returns the current record, which every
    read gives back until the next registration.  It is new exactly when no version
    is current or the current one has another hash: the next version, with this
    schedule, enabled as asked and evaluated from a minute before.  Otherwise it is
    the current version with the store unchanged - the same schedule, up to SHA-256
    collisions. *)
Theorem register_reads_back spec hash now enabled s :
  store_ok s → spec_ok ZoneInfo spec → json_wf (payload spec) →
  deterministic_hash spec = Ok hash → 0 ≤ now < 2 ^ 63 →
  (∀ t, once_at spec = Some t → t < 2 ^ 63) → next_version (schedule_id spec) s < 2 ^ 63 →
  ∃ r created s', register ZoneInfo spec now enabled s = (Ok (r, created), s') ∧
    get_current ZoneInfo (schedule_id spec) s' = (Ok (Some r), s') ∧
    (created = false ↔ ∃ h row, heads s !! schedule_id spec = Some h ∧
       versions s !! (schedule_id spec, h_version h) = Some row ∧ v_spec_hash row = hash) ∧
    if created : bool then
      r = {| Schedule.spec := spec; version := next_version (schedule_id spec) s;
             Schedule.enabled := enabled; created_at := now;
             last_evaluated_at := Some (Z.max 0 (now - 60)) |} ∧
      occurrences s' = occurrences s ∧ receipts s' = receipts s ∧
      ∀ id, id ≠ schedule_id spec → current_row s' id = current_row s id
    else
      s' = s ∧ (Schedule.spec r = spec ∨
        sha256_collision (dumps_canonical (to_mapping spec))
          (dumps_canonical (to_mapping (Schedule.spec r)))).
Proof.
  intros Hs Hok Hwf Hh Hnow Honce Hv.
  destruct (register_returns spec hash now enabled s Hs Hok Hwf Hh Hnow Honce Hv) as ([r created] & s' & E).
  exists r, created, s'. split; [done|]. apply (register_ok spec hash) in E; [|done..].
  destruct created; cbn in E.
  - destruct E as (Hdiff & -> & ->). split_and!; try done.
    + unfold get_current, query, _load_current. rewrite current_row_with.
      erewrite load_stored by (by split). done.
    + split; [discriminate|]. intros (h & row & Hhd & Hrow & E). exfalso.
      by apply (Hdiff h row); [apply current_row_some|].
    + intros id Hid. unfold current_row. cbn.
      rewrite lookup_insert_ne by done. destruct (heads s !! id) as [h|]; [|done]. cbn.
      rewrite lookup_insert_ne by congruence. done.
  - destruct E as (-> & h & row & old & Hc & Hold & Ehash & ->). split_and!; [|..|done|].
    + unfold get_current, query, _load_current. rewrite Hc.
      by rewrite (load_stored _ _ old h Hold).
    + split; [intros _|done]. exists h, row. by apply current_row_some in Hc as [? ?].
    + cbn. by apply (same_hash ZoneInfo spec old hash); try apply Hold;
        [..|rewrite <-Ehash; apply Hold].
Qed.
End calls.

(** ** Witnesses *)
Definition demo_schedule : StoredSchedule :=
  {| spec := demo_spec; version := 1; enabled := true; created_at := 1000;
     last_evaluated_at := Some 940 |}.

Definition demo_create : store_call :=
  CreateOccurrence "occ_a" demo_schedule 1200 "pending" "DISPATCH_REQUIRED"
    (JObj [("payload", JObj [])]) 1300 None None.

(** Registered, due, claimed, recovered after the lease and claimed again. *)
Definition demo_calls : list store_call :=
  [Register demo_spec 1000 true; demo_create; ClaimNext 1300 "worker-a" 60 [];
   RecoverStale 1400 3600 2; ClaimNext 1400 "worker-b" 60 []].

Definition demo_claimed : SchedulerStore := after_all demo_zones (take 3 demo_calls) empty_store.

Definition demo_row : occurrence_row :=
  {| o_schedule_id := "daily-digest"; o_version := 1; o_scheduled_for := 1200; o_state := "running";
     o_reason := "DISPATCH_CLAIMED"; o_proposal_json := dumps_canonical (JObj [("payload", JObj [])]);
     o_created_at := 1300; o_updated_at := 1300; o_started_at := Some 1300; o_attempt := 1;
     o_idempotency_key := Some "occ_a:attempt:1"; o_parent_occurrence_id := None;
     o_parent_receipt_id := None; o_claim_owner := Some "worker-a";
     o_lease_expires_at := Some 1360; o_heartbeat_at := Some 1300 |}.

Lemma demo_claimed_row : occurrences demo_claimed !! "occ_a" = Some demo_row.
Proof. vm_compute. reflexivity. Qed.

Lemma demo_keys :
  map or_idempotency_key (claims demo_zones demo_calls empty_store) =
  [Some "occ_a:attempt:1"; Some "occ_a:attempt:2"].
Proof. vm_compute. reflexivity. Qed.

Lemma demo_good : spec_ok demo_zones demo_spec ∧ json_wf (payload demo_spec).
Proof.
  split; [|vm_compute; tauto].
  exact (spec_from_mapping_ok demo_zones _ _ demo_spec_dicts demo_from_mapping).
Qed.

Definition demo_hash : string := text_hash (dumps_canonical (to_mapping demo_spec)).

Lemma demo_deterministic_hash : deterministic_hash demo_spec = Ok demo_hash.
Proof.
  unfold deterministic_hash, canonical_json. change (existsb _ _) with false. reflexivity.
Qed.

Lemma occurrence_lifecycle_witness :
  occurrences demo_claimed !! "occ_a" = Some demo_row ∧
  ∃ r', occurrences (after_all demo_zones (drop 3 demo_calls) demo_claimed) !! "occ_a" = Some r' ∧
    ages demo_row r'.
Proof.
  split; [exact demo_claimed_row|].
  exact (proj2 (occurrence_lifecycle demo_zones demo_create (drop 3 demo_calls) demo_claimed "occ_a")
    demo_row demo_claimed_row).
Defined.

Lemma dispatch_keys_unique_witness :
  NoDup (map or_idempotency_key (claims demo_zones demo_calls empty_store)) ∧
  length (claims demo_zones demo_calls empty_store) = 2%nat.
Proof.
  split; [|vm_compute; reflexivity].
  exact (proj1 (dispatch_keys_unique demo_zones demo_calls empty_store)).
Defined.

Lemma running_claim_exclusive_witness :
  occurrences (after_all demo_zones
    [ClaimNext 1350 "worker-b" 60 []; RecoverStale 1359 3600 2; RenewClaim "occ_a" "worker-b" 60 1350;
     ResumeWaiting 1350] demo_claimed) !! "occ_a" = Some demo_row.
Proof.
  refine (proj1 (running_claim_exclusive demo_zones _ _ _ "worker-a" 1360 _ _ _ _)).
  - exact demo_claimed_row.
  - split; reflexivity.
  - repeat (apply Forall_cons; split); [exact I|cbn; lia|right; discriminate|exact I|constructor].
Defined.

Lemma store_tables_ok_witness : store_ok demo_zones (after_all demo_zones demo_calls empty_store).
Proof.
  apply store_tables_ok. apply Forall_cons. split; [exact demo_good|]. by repeat constructor.
Defined.

Lemma register_reads_back_witness : ∃ r created s',
  register demo_zones demo_spec 1000 true empty_store = (Ok (r, created), s') ∧
  get_current demo_zones "daily-digest" s' = (Ok (Some r), s').
Proof.
  destruct (register_reads_back demo_zones demo_spec demo_hash 1000 true empty_store)
    as (r & created & s' & H1 & H2 & _).
  - apply empty_ok.
  - apply demo_good.
  - apply demo_good.
  - exact demo_deterministic_hash.
  - lia.
  - intros t [=].
  - reflexivity.
  - exists r, created, s'. split; [exact H1|exact H2].
Defined.
