(* ===== verification/ControlRecovery.v ===== *)
(** * Recovery of the control plane

    [src/core/control_recovery.py]: classified failures, the registered plans that
    recover from them, and the SQLite store of recovery runs, lessons and metrics.
    An executor of actions or canaries is a computation on the world, in which
    other processes may also use the store; the world keeps, for the theorems,
    the list of the calls made of the executors. *)

From S2P Require Import Prelude.
From S2P Require Import PyStr.
From S2P Require Import Json.
From S2P Require Import Sha256.
From S2P Require Import Frozen.
From S2P Require Import PyRepr.

Definition CONTROL_RECOVERY_SCHEMA : string := "skeleton.control_recovery.v1".
Definition CONTROL_RECOVERY_RECEIPT_SCHEMA : string := "skeleton.control_recovery_receipt.v1".
Definition ROUTE_CONTROL_RECOVERY : string := "control_recovery".
Definition CODEGEN_UNKNOWN_VARIANT_MAX_MESSAGE : string :=
  "failed to decode models response: unknown variant `max`".

(** ** Classes *)
Inductive FailureClass :=
  | CODEGEN_RUNTIME_UNHEALTHY
  | REGISTERED_CHECKOUT_STALE_OR_DIRTY
  | LONG_LIVED_POLLER_STALE
  | EXECUTOR_SERVICE_NOT_RUNNING
  | GITHUB_ACTIONS_LANE_UNAVAILABLE_BUT_ISSUE_RUNNER_HEALTHY
  | QUEUE_LABEL_STATE_STUCK
  | CANARY_FAILED_AFTER_RECOVERY
  | QUEUE_IDLE_WITH_ELIGIBLE_WORK
  | AMBIGUOUS_MUTATING_RESULT.

#[global] Instance FailureClass_eq_dec : EqDecision FailureClass.
Proof. solve_decision. Defined.

Definition failure_value (c : FailureClass) : string :=
  match c with
  | CODEGEN_RUNTIME_UNHEALTHY => "CODEGEN_RUNTIME_UNHEALTHY"
  | REGISTERED_CHECKOUT_STALE_OR_DIRTY => "REGISTERED_CHECKOUT_STALE_OR_DIRTY"
  | LONG_LIVED_POLLER_STALE => "LONG_LIVED_POLLER_STALE"
  | EXECUTOR_SERVICE_NOT_RUNNING => "EXECUTOR_SERVICE_NOT_RUNNING"
  | GITHUB_ACTIONS_LANE_UNAVAILABLE_BUT_ISSUE_RUNNER_HEALTHY =>
      "GITHUB_ACTIONS_LANE_UNAVAILABLE_BUT_ISSUE_RUNNER_HEALTHY"
  | QUEUE_LABEL_STATE_STUCK => "QUEUE_LABEL_STATE_STUCK"
  | CANARY_FAILED_AFTER_RECOVERY => "CANARY_FAILED_AFTER_RECOVERY"
  | QUEUE_IDLE_WITH_ELIGIBLE_WORK => "QUEUE_IDLE_WITH_ELIGIBLE_WORK"
  | AMBIGUOUS_MUTATING_RESULT => "AMBIGUOUS_MUTATING_RESULT"
  end.

Definition failure_classes : list FailureClass :=
  [CODEGEN_RUNTIME_UNHEALTHY; REGISTERED_CHECKOUT_STALE_OR_DIRTY; LONG_LIVED_POLLER_STALE;
   EXECUTOR_SERVICE_NOT_RUNNING; GITHUB_ACTIONS_LANE_UNAVAILABLE_BUT_ISSUE_RUNNER_HEALTHY;
   QUEUE_LABEL_STATE_STUCK; CANARY_FAILED_AFTER_RECOVERY; QUEUE_IDLE_WITH_ELIGIBLE_WORK;
   AMBIGUOUS_MUTATING_RESULT].

(** [FailureClass(value)]; [None] for the [ValueError]. *)
Definition failure_of (value : string) : option FailureClass :=
  List.find (λ c, failure_value c == value) failure_classes.

Inductive RecoveryStatus := WAITING_RECOVERY | RETRYING | RECOVERED | NEEDS_OPERATOR.

#[global] Instance RecoveryStatus_eq_dec : EqDecision RecoveryStatus.
Proof. solve_decision. Defined.

Definition status_value (s : RecoveryStatus) : string :=
  match s with
  | WAITING_RECOVERY => "WAITING_RECOVERY"
  | RETRYING => "RETRYING"
  | RECOVERED => "RECOVERED"
  | NEEDS_OPERATOR => "NEEDS_OPERATOR"
  end.

Definition status_of (value : string) : result RecoveryStatus :=
  some_or (List.find (λ s, status_value s == value) [WAITING_RECOVERY; RETRYING; RECOVERED; NEEDS_OPERATOR])
    (ValueError "is not a valid RecoveryStatus").

Inductive SafeResponseClass :=
  | CONTROL_RECOVERY | QUEUE_REPLENISH | REPAIR_TASK_REQUIRED | OPERATOR_RESPONSE.

#[global] Instance SafeResponseClass_eq_dec : EqDecision SafeResponseClass.
Proof. solve_decision. Defined.

(** [OPERATOR_RESPONSE] is [SafeResponseClass.NEEDS_OPERATOR]. *)
Definition response_value (r : SafeResponseClass) : string :=
  match r with
  | CONTROL_RECOVERY => "CONTROL_RECOVERY"
  | QUEUE_REPLENISH => "QUEUE_REPLENISH"
  | REPAIR_TASK_REQUIRED => "REPAIR_TASK_REQUIRED"
  | OPERATOR_RESPONSE => "NEEDS_OPERATOR"
  end.

Definition response_of (value : string) : option SafeResponseClass :=
  List.find (λ r, response_value r == value)
    [CONTROL_RECOVERY; QUEUE_REPLENISH; REPAIR_TASK_REQUIRED; OPERATOR_RESPONSE].

Definition _SAFE_KEY_RE : string → bool := bounded_token ALNUM (ALNUM +:+ "._:-") 191.
Definition _SAFE_TOKEN_RE : string → bool := bounded_token ALNUM (ALNUM +:+ "._:-") 127.

Definition _SAFE_CONTEXT_FIELDS : list string :=
  ["failure_class"; "reason_class"; "task_kind"; "operation"; "phase"; "route_type"; "route_id";
   "capability"; "repository"].

Definition _KNOWN_ACTIONS : list string :=
  ["registered_checkout_recover"; "registered_checkout_freshness_canary";
   "long_lived_poller_reload"; "executor_service_preflight"; "codegen_runtime_recover";
   "codegen_read_only_canary"; "queue_reactivate"; "issue_runner_continue"].

(** Actions, canaries and the action that reactivates the queue. *)
Definition steps : Type := list string * list string * option string.

Definition _RESPONSE_PLANS (r : SafeResponseClass) : steps :=
  match r with
  | QUEUE_REPLENISH => (["queue_reactivate"], [], None)
  | _ => ([], [], None)
  end.

Definition _SAFE_RESPONSE_REGISTRY (c : FailureClass) : option (list SafeResponseClass) :=
  match c with
  | QUEUE_IDLE_WITH_ELIGIBLE_WORK => Some [QUEUE_REPLENISH]
  | AMBIGUOUS_MUTATING_RESULT => Some [OPERATOR_RESPONSE]
  | _ => None
  end.

Record RecoveryPlan := {
  pl_failure_class : FailureClass;
  pl_failure_key : string;
  pl_actions : list string;
  pl_canaries : list string;
  pl_queue_reactivation_action : option string;
  pl_max_attempts : Z;
  pl_backoff_seconds : Z;
  pl_requires_codegen : bool;
  pl_fingerprint : option string;
  pl_response_class : SafeResponseClass;
  pl_response_classes : list SafeResponseClass
}.

Record RecoveryReceipt := {
  rr_status : RecoveryStatus;
  rr_reason : string;
  rr_failure_class : option FailureClass;
  rr_failure_key : string;
  rr_attempt : Z;
  rr_next_retry_at : option Z;
  rr_actions_executed : list string;
  rr_canaries_executed : list string;
  rr_evidence_ref : string;
  rr_needs_operator_notification : bool;
  rr_response_class : option SafeResponseClass
}.

Definition as_mapping (r : RecoveryReceipt) : json :=
  JObj [("schema", JStr CONTROL_RECOVERY_RECEIPT_SCHEMA);
        ("status", JStr (status_value (rr_status r)));
        ("accepted", JBool (rr_status r == RECOVERED));
        ("reason", JStr (rr_reason r));
        ("failure_class", jopt (failure_value <$> rr_failure_class r));
        ("failure_key", JStr (rr_failure_key r));
        ("attempt", JInt (rr_attempt r));
        ("next_retry_at", match rr_next_retry_at r with None => JNull | Some t => JInt t end);
        ("actions_executed", jstrs (rr_actions_executed r));
        ("canaries_executed", jstrs (rr_canaries_executed r));
        ("evidence_ref", JStr (rr_evidence_ref r));
        ("needs_operator_notification", JBool (rr_needs_operator_notification r));
        ("response_class", jopt (response_value <$> rr_response_class r));
        ("public_safe", JBool true);
        ("external_side_effects_executed", JBool (negb (is_empty (rr_actions_executed r))))].

(** ** Packets *)

(** [bool(value)] *)
Definition truth (value : json) : bool :=
  match or_empty value with JStr s => truthy s | _ => true end.

Definition _packet_has_codegen_unknown_variant_max (packet : list (string * json)) : bool :=
  existsb (λ key, match field packet key with
                  | JStr value => contains CODEGEN_UNKNOWN_VARIANT_MAX_MESSAGE value
                  | _ => false
                  end) ["output"; "stderr"; "status"; "reason"; "message"].

Definition is_codegen_unknown_variant_max_failure (output : string) (exit_code : json) : bool :=
  match exit_code with
  | JInt z => negb (z =? 0) && contains CODEGEN_UNKNOWN_VARIANT_MAX_MESSAGE output
  | _ => false
  end.

Definition classify_failure (packet : list (string * json)) : result (option FailureClass) :=
  match field packet "failure_class" with
  | JStr value => Ok (failure_of value)
  | _ =>
      if _packet_has_codegen_unknown_variant_max packet then Ok (Some CODEGEN_RUNTIME_UNHEALTHY)
      else
        text ← py_str (let status := field packet "status" in
                       if truth status then status else or_empty (field packet "reason"));
        let has word := contains word (lower text) in
        Ok (if has "checkout" && existsb has ["stale"; "dirty"; "behind"; "diverged"]
            then Some REGISTERED_CHECKOUT_STALE_OR_DIRTY
            else if has "poller" && has "stale" then Some LONG_LIVED_POLLER_STALE
            else if has "github actions" && has "issue-runner healthy"
            then Some GITHUB_ACTIONS_LANE_UNAVAILABLE_BUT_ISSUE_RUNNER_HEALTHY
            else if has "queue" && has "idle" then Some QUEUE_IDLE_WITH_ELIGIBLE_WORK
            else if has "ambiguous" && has "mutating" then Some AMBIGUOUS_MUTATING_RESULT
            else None)
  end.

(** A key that is a bounded token, or the key of what cannot be identified. *)
Definition safe_key (value : json) : string :=
  match value with
  | JStr s => if _SAFE_KEY_RE s then s else "control:UNKNOWN"
  | _ => "control:UNKNOWN"
  end.

Definition _packet_failure_key (packet : list (string * json)) : string :=
  safe_key (field packet "failure_key").
Definition _failure_key (value : string) : string := safe_key (JStr value).

Definition forbidden : list string :=
  ["command"; "commands"; "path"; "package"; "packages"; "version"; "model"; "service"; "script";
   "shell"; "protected_merge"; "new_authority"].

(** [any(item not in _KNOWN_ACTIONS for item in value)] *)
Fixpoint any_unknown (items : list json) : result bool :=
  match items with
  | [] => Ok false
  | item :: items =>
      known ← in_set item _KNOWN_ACTIONS;
      if known : bool then any_unknown items else Ok true
  end.

Definition unknown_actions (value : json) : result bool :=
  match value with
  | JNull => Ok false
  | JArr items => any_unknown items
  | _ => Ok true
  end.

Definition _payload_attempts_to_broaden_authority (packet : list (string * json)) : result bool :=
  if existsb (has_key packet) forbidden then Ok true
  else
    actions ← unknown_actions (field packet "actions");
    if actions : bool then Ok true else unknown_actions (field packet "canaries").

Definition derive_failure_fingerprint (packet : list (string * json)) (failure_class : FailureClass)
    : result string :=
  let safe key d :=
    match field packet key with
    | JStr value => if _SAFE_TOKEN_RE value then dict_set d key (JStr value) else d
    | _ => d
    end in
  let bounded := foldl (λ d key, safe key d) [("failure_class", JStr (failure_value failure_class))]
    _SAFE_CONTEXT_FIELDS in
  encoded ← canonical_json (JObj bounded);
  Ok ("failure-fp:" +:+ unchars (take 32 (chars (text_hash encoded)))).

Definition _registered_responses (c : FailureClass) : list SafeResponseClass :=
  default [CONTROL_RECOVERY] (_SAFE_RESPONSE_REGISTRY c).

Definition _bounded_positive_int (value : json) (otherwise maximum : Z) : Z :=
  match value with
  | JInt z => if (z <=? 0) || (maximum <? z) then otherwise else z
  | _ => otherwise
  end.

Definition plans (c : FailureClass) : steps :=
  match c with
  | CODEGEN_RUNTIME_UNHEALTHY =>
      (["codegen_runtime_recover"], ["codegen_read_only_canary"], Some "queue_reactivate")
  | REGISTERED_CHECKOUT_STALE_OR_DIRTY =>
      (["registered_checkout_recover"], ["registered_checkout_freshness_canary"], Some "queue_reactivate")
  | LONG_LIVED_POLLER_STALE =>
      (["long_lived_poller_reload"], ["registered_checkout_freshness_canary"], Some "queue_reactivate")
  | EXECUTOR_SERVICE_NOT_RUNNING =>
      (["executor_service_preflight"], ["codegen_read_only_canary"], Some "queue_reactivate")
  | GITHUB_ACTIONS_LANE_UNAVAILABLE_BUT_ISSUE_RUNNER_HEALTHY =>
      (["issue_runner_continue"], ["codegen_read_only_canary"], Some "queue_reactivate")
  | QUEUE_LABEL_STATE_STUCK => (["queue_reactivate"], ["registered_checkout_freshness_canary"], None)
  | CANARY_FAILED_AFTER_RECOVERY => ([], [], None)
  | QUEUE_IDLE_WITH_ELIGIBLE_WORK => (["queue_reactivate"], [], None)
  | AMBIGUOUS_MUTATING_RESULT => ([], [], None)
  end.

Definition build_recovery_plan (packet : list (string * json)) : result (option RecoveryPlan) :=
  failure_class ← classify_failure packet;
  let given := field packet "failure_key" in
  let raw_key := if truth given then given
    else JStr ("control:" +:+ default "UNKNOWN" (failure_value <$> failure_class)) in
  match failure_class, raw_key with
  | Some c, JStr key =>
      if negb (_SAFE_KEY_RE key) then Ok None
      else
        let max_attempts := _bounded_positive_int (field packet "max_attempts") 3 5 in
        let backoff := _bounded_positive_int (field packet "backoff_seconds") 60 3600 in
        let response_classes := _registered_responses c in
        let registered := _SAFE_RESPONSE_REGISTRY c in
        let response_class := match registered with
          | Some _ => default CONTROL_RECOVERY (head response_classes)
          | None => CONTROL_RECOVERY
          end in
        let '(actions, canaries, queue_action) := match registered with
          | Some _ => _RESPONSE_PLANS response_class
          | None => plans c
          end in
        fingerprint ← (if has_key packet "fingerprint" || bool_decide (is_Some registered)
                       then fp ← derive_failure_fingerprint packet c; Ok (Some fp)
                       else Ok None);
        Ok (Some {| pl_failure_class := c; pl_failure_key := key; pl_actions := actions;
                    pl_canaries := canaries; pl_queue_reactivation_action := queue_action;
                    pl_max_attempts := max_attempts; pl_backoff_seconds := backoff;
                    pl_requires_codegen := false; pl_fingerprint := fingerprint;
                    pl_response_class := response_class; pl_response_classes := response_classes |})
  | _, _ => Ok None
  end.

Definition _plan_for_response (plan : RecoveryPlan) (r : SafeResponseClass) : RecoveryPlan :=
  if r == CONTROL_RECOVERY then plan
  else
    let '(actions, canaries, queue_action) := _RESPONSE_PLANS r in
    {| pl_failure_class := pl_failure_class plan; pl_failure_key := pl_failure_key plan;
       pl_actions := actions; pl_canaries := canaries; pl_queue_reactivation_action := queue_action;
       pl_max_attempts := pl_max_attempts plan; pl_backoff_seconds := pl_backoff_seconds plan;
       pl_requires_codegen := pl_requires_codegen plan; pl_fingerprint := pl_fingerprint plan;
       pl_response_class := r; pl_response_classes := pl_response_classes plan |}.

(** ** Reports *)
Definition _maintenance_report_done (report : string) : bool :=
  startswith "DONE:" (unchars (drop_while isspace (chars report)))
  && negb (contains "success_criteria=not_met" report).

(** [^reason=([A-Z0-9_]{1,127})$] on a line. *)
Definition reason_line (line : string) : option string :=
  if startswith "reason=" line then
    let detail := string_drop 7 line in
    if truthy detail && all_chars (char_in (UPPER +:+ DIGITS +:+ "_")) detail && negb (longer 127 detail)
    then Some detail else None
  else None.

Definition _maintenance_report_reason (report : string) : option string :=
  head (omap reason_line (split_on (ascii_of_N 10) report)).

Definition _registered_action (action : string) : result unit :=
  raise_if ((action ∉? _KNOWN_ACTIONS) || negb (_SAFE_TOKEN_RE action))
    (ValueError "REGISTERED_ACTION_NOT_ALLOWLISTED").

(** [re.sub("[^A-Za-z0-9_]+", "_", s)]; [inside] says that the last characters were replaced. *)
Fixpoint collapse (inside : bool) (l : list ascii) : list ascii :=
  match l with
  | [] => []
  | c :: l =>
      if char_in (ALNUM +:+ "_") c then c :: collapse false l
      else if inside then collapse true l else "_"%char :: collapse true l
  end.

Definition _safe_reason (reason : string) : string :=
  let token := upper (strip_by (λ c, c == "_"%char) (unchars (collapse false (chars reason)))) in
  let token := unchars (take 127 (chars token)) in
  let token := if truthy token then token else "UNKNOWN" in
  if _SAFE_TOKEN_RE token then token else "UNKNOWN".

Definition _timestamp (value : Z) (name : string) : result unit :=
  raise_if (value <? 0) (ValueError (name +:+ " must be a non-negative integer")).

Definition _evidence_ref (payload : list (string * json)) : result string :=
  encoded ← canonical_json (JObj payload);
  Ok ("control-recovery:" +:+ text_hash encoded).

(** ** The store *)
Record run_row := {
  rn_failure_class : string;
  rn_status : string;
  rn_attempt : Z;
  rn_next_retry_at : option Z;
  rn_needs_operator_emitted : bool;
  rn_evidence_json : string;
  rn_updated_at : Z
}.

Record lesson_row := {
  ln_failure_class : string;
  ln_status : string;
  ln_preferred_response_class : option string;
  ln_next_response_index : Z;
  ln_attempts_json : string;
  ln_verification_json : string;
  ln_needs_operator_emitted : bool;
  ln_created_at : Z;
  ln_updated_at : Z
}.

Record RecoveryStore := {
  recovery_runs : gmap string run_row;
  failure_lessons : gmap string lesson_row;
  failure_learning_metrics : gmap string Z
}.

Definition empty_store : RecoveryStore :=
  {| recovery_runs := ∅; failure_lessons := ∅; failure_learning_metrics := ∅ |}.

Definition set_runs (f : gmap string run_row → gmap string run_row) (s : RecoveryStore) : RecoveryStore :=
  {| recovery_runs := f (recovery_runs s); failure_lessons := failure_lessons s;
     failure_learning_metrics := failure_learning_metrics s |}.
Definition set_lessons (f : gmap string lesson_row → gmap string lesson_row) (s : RecoveryStore)
    : RecoveryStore :=
  {| recovery_runs := recovery_runs s; failure_lessons := f (failure_lessons s);
     failure_learning_metrics := failure_learning_metrics s |}.
Definition set_metrics (f : gmap string Z → gmap string Z) (s : RecoveryStore) : RecoveryStore :=
  {| recovery_runs := recovery_runs s; failure_lessons := failure_lessons s;
     failure_learning_metrics := f (failure_learning_metrics s) |}.

Definition sqlite_time (o : option Z) : result (option Z) :=
  match o with
  | None => Ok None
  | Some t => t ← sqlite_int t; Ok (Some t)
  end.

(** [tuple(str(x) for x in value)] *)
Definition str_items (value : json) : result (list string) :=
  match value with
  | JArr items => collect py_str items
  | JObj d => Ok (map fst d)
  | JStr s => Ok (map (λ c, unchars [c]) (chars s))
  | _ => Raise (TypeError "object is not iterable")
  end.

(** [value.get(key, ())] of the details, iterated. *)
Definition detail_items (details : list (string * json)) (key : string) : result (list string) :=
  match dict_get details key with
  | None => Ok []
  | Some value => str_items value
  end.

Definition _receipt_from_row (key : string) (row : run_row) (reason : string) : result RecoveryReceipt :=
  evidence ← json_loads (rn_evidence_json row);
  match evidence with
  | JObj d =>
      let details := match field d "evidence" with JObj details => details | _ => [] end in
      status ← status_of (rn_status row);
      actions ← detail_items details "actions";
      canaries ← detail_items details "canaries";
      ref ← (let given := field d "evidence_ref" in
             if truth given then py_str given else _evidence_ref d);
      Ok {| rr_status := status; rr_reason := reason;
            rr_failure_class := failure_of (rn_failure_class row); rr_failure_key := key;
            rr_attempt := rn_attempt row; rr_next_retry_at := rn_next_retry_at row;
            rr_actions_executed := actions; rr_canaries_executed := canaries;
            rr_evidence_ref := ref; rr_needs_operator_notification := false;
            rr_response_class := match field d "response_class" with
                                 | JStr value => response_of value
                                 | _ => None
                                 end |}
  | _ => Raise (AttributeError "object has no attribute 'get'")
  end.

(** The receipt of a run that is finished or waits, or [None] when it may be attempted. *)
Definition settled_receipt (key : string) (row : run_row) (now : Z) : result (option RecoveryReceipt) :=
  status ← status_of (rn_status row);
  let answer reason := receipt ← _receipt_from_row key row reason; Ok (Some receipt) in
  match status with
  | RECOVERED => answer "RECOVERY_ALREADY_DONE"
  | NEEDS_OPERATOR => answer "RECOVERY_NEEDS_OPERATOR_DURABLE"
  | _ =>
      match rn_next_retry_at row with
      | Some t => if now <? t then answer "RECOVERY_BACKOFF_ACTIVE" else Ok None
      | None => Ok None
      end
  end.

Definition _existing_recovery_receipt (key : string) (now : Z)
    : M RecoveryStore (option RecoveryReceipt) :=
  query (λ s, match recovery_runs s !! key with
              | None => Ok None
              | Some row => settled_receipt key row now
              end).

Definition _increment_metric (metric : string) : M RecoveryStore unit :=
  modify (set_metrics (λ m, <[metric := default 0 (m !! metric) + 1]> m)).

Definition new_lesson (c : FailureClass) (now : Z) : lesson_row :=
  {| ln_failure_class := failure_value c; ln_status := "OPEN"; ln_preferred_response_class := None;
     ln_next_response_index := 0; ln_attempts_json := "[]"; ln_verification_json := "{}";
     ln_needs_operator_emitted := false; ln_created_at := now; ln_updated_at := now |}.

Definition _ensure_lesson (fingerprint : string) (c : FailureClass) (now : Z) : M RecoveryStore unit :=
  now ← lift (sqlite_int now);
  row ← gets (λ s, failure_lessons s !! fingerprint);
  match row with
  | Some _ => mret tt
  | None =>
      modify (set_lessons <[fingerprint := new_lesson c now]>);;
      _increment_metric "incident_classes_seen"
  end.

(** [UPDATE failure_lessons SET ... WHERE fingerprint = ?] *)
Definition update_lesson (fingerprint : string) (f : lesson_row → lesson_row) : M RecoveryStore unit :=
  modify (set_lessons (alter f fingerprint)).

Definition is_dict (value : json) : bool := match value with JObj _ => true | _ => false end.

Definition _safe_json_list (raw : string) : result (list json) :=
  match json_loads raw with
  | Ok (JArr items) => Ok (List.filter is_dict items)
  | Ok _ => Ok []
  | Raise (JSONDecodeError _) => Ok []
  | Raise e => Raise e
  end.

(** [{str(item.get("response_class")) for item in items if item.get("outcome") == "failed"}] *)
Definition failed_responses (items : list json) : result (list string) :=
  let get item key := match item with JObj d => field d key | _ => JNull end in
  classes ← collect (λ item, py_str (get item "response_class"))
    (List.filter (λ item, py_eq_str (Some (get item "outcome")) "failed") items);
  Ok (remove_dups classes).

Definition _select_response (plan : RecoveryPlan) (fingerprint : string) (now : Z)
    : M RecoveryStore SafeResponseClass :=
  let responses := if is_empty (pl_response_classes plan)
    then _registered_responses (pl_failure_class plan) else pl_response_classes plan in
  transaction (
    _ensure_lesson fingerprint (pl_failure_class plan) now;;
    row ← gets (λ s, failure_lessons s !! fingerprint);
    row ← lift (some_or row (RuntimeError "AssertionError"));
    let verified := ln_status row == "VERIFIED" in
    match responses, verified with
    | [only], false => mret only
    | _, _ =>
        let preferred := if verified : bool
          then (λ value, default OPERATOR_RESPONSE (response_of value)) <$> ln_preferred_response_class row
          else None in
        let later :=
          items ← lift (_safe_json_list (ln_attempts_json row));
          failed ← lift (failed_responses items);
          match List.find (λ r, response_value r ∉? failed) responses with
          | Some r => mret r
          | None =>
              now ← lift (sqlite_int now);
              update_lesson fingerprint (λ l,
                {| ln_failure_class := ln_failure_class l; ln_status := "FAILED";
                   ln_preferred_response_class := Some (response_value OPERATOR_RESPONSE);
                   ln_next_response_index := Z.of_nat (length responses);
                   ln_attempts_json := ln_attempts_json l; ln_verification_json := ln_verification_json l;
                   ln_needs_operator_emitted := ln_needs_operator_emitted l;
                   ln_created_at := ln_created_at l; ln_updated_at := now |});;
              mret OPERATOR_RESPONSE
          end in
        match preferred with
        | Some r => if r ∈? responses then _increment_metric "repeats_prevented";; mret r else later
        | None => later
        end
    end).

Definition jtime (o : option Z) : json := match o with None => JNull | Some t => JInt t end.

Definition lesson_attempt (r : SafeResponseClass) (outcome reason : string) (evidence_ref : option string)
    (now : Z) : json :=
  JObj [("response_class", JStr (response_value r)); ("outcome", JStr outcome);
        ("reason_class", JStr (_safe_reason reason)); ("evidence_ref", jopt evidence_ref);
        ("recorded_at", JInt now)].

(** [attempts[-10:]] *)
Definition last_ten {A} (l : list A) : list A := drop (length l - 10) l.

Definition _record_lesson_attempt (c : FailureClass) (fingerprint : string) (r : SafeResponseClass)
    (outcome reason : string) (evidence_ref : option string) (now : Z) : M RecoveryStore unit :=
  _ensure_lesson fingerprint c now;;
  raw ← gets (λ s, default "[]" (ln_attempts_json <$> failure_lessons s !! fingerprint));
  items ← lift (_safe_json_list raw);
  let attempts := items ++ [lesson_attempt r outcome reason evidence_ref now] in
  attempts_json ← lift (canonical_json (JArr (last_ten attempts)));
  if outcome == "verified" then
    verification_json ← lift (canonical_json (JObj
      [("response_class", JStr (response_value r)); ("reason_class", JStr (_safe_reason reason));
       ("evidence_ref", jopt evidence_ref)]));
    now ← lift (sqlite_int now);
    update_lesson fingerprint (λ l,
      {| ln_failure_class := ln_failure_class l; ln_status := "VERIFIED";
         ln_preferred_response_class := Some (response_value r);
         ln_next_response_index := ln_next_response_index l; ln_attempts_json := attempts_json;
         ln_verification_json := verification_json;
         ln_needs_operator_emitted := ln_needs_operator_emitted l;
         ln_created_at := ln_created_at l; ln_updated_at := now |})
  else
    failed ← lift (failed_responses attempts);
    now ← lift (sqlite_int now);
    update_lesson fingerprint (λ l,
      {| ln_failure_class := ln_failure_class l; ln_status := "FAILED";
         ln_preferred_response_class := ln_preferred_response_class l;
         ln_next_response_index := Z.of_nat (length failed); ln_attempts_json := attempts_json;
         ln_verification_json := ln_verification_json l;
         ln_needs_operator_emitted := ln_needs_operator_emitted l;
         ln_created_at := ln_created_at l; ln_updated_at := now |}).

Record evidence := {
  ev_actions : list string;
  ev_canaries : list string;
  ev_reason : option string
}.

Definition evidence_json (e : evidence) : json :=
  JObj ([("actions", jstrs (ev_actions e)); ("canaries", jstrs (ev_canaries e))]
        ++ match ev_reason e with None => [] | Some r => [("reason", JStr r)] end).

Definition no_evidence : evidence := {| ev_actions := []; ev_canaries := []; ev_reason := None |}.

(** [UPDATE recovery_runs SET ... WHERE failure_key = ?] *)
Definition update_run (key : string) (f : run_row → run_row) : M RecoveryStore unit :=
  modify (set_runs (alter f key)).

(** [emitted] is [needs_operator_emitted], where it is set. *)
Definition _update (plan : RecoveryPlan) (status : RecoveryStatus) (attempt : Z) (next_retry_at : option Z)
    (reason : string) (now : Z) (e : evidence) (emitted : option bool)
    : M RecoveryStore RecoveryReceipt :=
  let payload :=
    [("failure_class", JStr (failure_value (pl_failure_class plan)));
     ("failure_key", JStr (pl_failure_key plan)); ("status", JStr (status_value status));
     ("attempt", JInt attempt); ("reason", JStr reason);
     ("response_class", JStr (response_value (pl_response_class plan)));
     ("evidence", evidence_json e)] in
  evidence_ref ← lift (_evidence_ref payload);
  text ← lift (canonical_json (JObj (payload ++ [("evidence_ref", JStr evidence_ref)])));
  attempt ← lift (sqlite_int attempt);
  next_retry_at ← lift (sqlite_time next_retry_at);
  now ← lift (sqlite_int now);
  update_run (pl_failure_key plan) (λ row,
    {| rn_failure_class := failure_value (pl_failure_class plan); rn_status := status_value status;
       rn_attempt := attempt; rn_next_retry_at := next_retry_at;
       rn_needs_operator_emitted := default (rn_needs_operator_emitted row) emitted;
       rn_evidence_json := text; rn_updated_at := now |});;
  mret {| rr_status := status; rr_reason := reason; rr_failure_class := Some (pl_failure_class plan);
          rr_failure_key := pl_failure_key plan; rr_attempt := attempt;
          rr_next_retry_at := next_retry_at; rr_actions_executed := ev_actions e;
          rr_canaries_executed := ev_canaries e; rr_evidence_ref := evidence_ref;
          rr_needs_operator_notification := false;
          rr_response_class := Some (pl_response_class plan) |}.

Definition _mark_needs_operator (plan : RecoveryPlan) (now attempt : Z) (reason : string) (notify : bool)
    (e : evidence) : M RecoveryStore RecoveryReceipt :=
  r ← _update plan NEEDS_OPERATOR attempt None reason now e (Some true);
  mret {| rr_status := rr_status r; rr_reason := rr_reason r; rr_failure_class := rr_failure_class r;
          rr_failure_key := rr_failure_key r; rr_attempt := rr_attempt r;
          rr_next_retry_at := rr_next_retry_at r; rr_actions_executed := rr_actions_executed r;
          rr_canaries_executed := rr_canaries_executed r; rr_evidence_ref := rr_evidence_ref r;
          rr_needs_operator_notification := notify; rr_response_class := rr_response_class r |}.

Definition new_run (c : FailureClass) (now : Z) : run_row :=
  {| rn_failure_class := failure_value c; rn_status := "RETRYING"; rn_attempt := 1;
     rn_next_retry_at := None; rn_needs_operator_emitted := false; rn_evidence_json := "{}";
     rn_updated_at := now |}.

(** The transaction that takes the next attempt: its number, or the receipt that
    stands in its place. *)
Definition begin_attempt (plan : RecoveryPlan) (now : Z) : M RecoveryStore (RecoveryReceipt + Z) :=
  let key := pl_failure_key plan in
  transaction (
    row ← gets (λ s, recovery_runs s !! key);
    match row with
    | Some row =>
        settled ← lift (settled_receipt key row now);
        match settled with
        | Some receipt => mret (inl receipt)
        | None =>
            let attempt := rn_attempt row + 1 in
            if pl_max_attempts plan <? attempt then
              receipt ← _mark_needs_operator plan now (rn_attempt row) "RECOVERY_ATTEMPTS_EXHAUSTED"
                (negb (rn_needs_operator_emitted row)) no_evidence;
              mret (inl receipt)
            else
              attempt ← lift (sqlite_int attempt);
              now ← lift (sqlite_int now);
              update_run key (λ row,
                {| rn_failure_class := rn_failure_class row; rn_status := "RETRYING";
                   rn_attempt := attempt; rn_next_retry_at := None;
                   rn_needs_operator_emitted := rn_needs_operator_emitted row;
                   rn_evidence_json := rn_evidence_json row; rn_updated_at := now |});;
              mret (inr attempt)
        end
    | None =>
        now ← lift (sqlite_int now);
        modify (set_runs <[key := new_run (pl_failure_class plan) now]>);;
        mret (inr 1)
    end).

(** The transaction of the [except] clause. *)
Definition record_failure (plan : RecoveryPlan) (r : SafeResponseClass) (attempt now : Z)
    (actions canaries : list string) (reason : string) : M RecoveryStore RecoveryReceipt :=
  transaction (
    match pl_fingerprint plan with
    | Some fp => _record_lesson_attempt (pl_failure_class plan) fp r "failed" reason None now
    | None => mret tt
    end;;
    row ← gets (λ s, recovery_runs s !! pl_failure_key plan);
    let notify := match row with Some row => negb (rn_needs_operator_emitted row) | None => true end in
    let e := {| ev_actions := actions; ev_canaries := canaries; ev_reason := Some reason |} in
    if pl_max_attempts plan <=? attempt then _mark_needs_operator plan now attempt reason notify e
    else _update plan WAITING_RECOVERY attempt (Some (now + pl_backoff_seconds plan * attempt))
           reason now e None).

Definition record_recovered (plan : RecoveryPlan) (r : SafeResponseClass) (attempt now : Z)
    (actions canaries : list string) : M RecoveryStore RecoveryReceipt :=
  transaction (
    receipt ← _update plan RECOVERED attempt None "RECOVERY_VERIFIED" now
      {| ev_actions := actions; ev_canaries := canaries; ev_reason := None |} None;
    match pl_fingerprint plan with
    | Some fp => _record_lesson_attempt (pl_failure_class plan) fp r "verified" "RECOVERY_VERIFIED"
                   (Some (rr_evidence_ref receipt)) now
    | None => mret tt
    end;;
    mret receipt).

(** The lesson of an operator's case: whether its operator is still to be notified. *)
Definition lesson_needs_operator (fingerprint : string) (c : FailureClass) (now : Z) : M RecoveryStore bool :=
  _ensure_lesson fingerprint c now;;
  row ← gets (λ s, failure_lessons s !! fingerprint);
  now ← lift (sqlite_int now);
  update_lesson fingerprint (λ l,
    {| ln_failure_class := ln_failure_class l; ln_status := "NEEDS_OPERATOR";
       ln_preferred_response_class := Some (response_value OPERATOR_RESPONSE);
       ln_next_response_index := ln_next_response_index l; ln_attempts_json := ln_attempts_json l;
       ln_verification_json := ln_verification_json l; ln_needs_operator_emitted := true;
       ln_created_at := ln_created_at l; ln_updated_at := now |});;
  _increment_metric "needs_operator_count";;
  mret (match row with Some l => negb (ln_needs_operator_emitted l) | None => true end).

Definition operator_row (evidence_json : string) (now : Z) (row : option run_row) : run_row :=
  match row with
  | None =>
      {| rn_failure_class := "UNKNOWN_UNSAFE_RECOVERY"; rn_status := "NEEDS_OPERATOR"; rn_attempt := 0;
         rn_next_retry_at := None; rn_needs_operator_emitted := true;
         rn_evidence_json := evidence_json; rn_updated_at := now |}
  | Some row =>
      {| rn_failure_class := rn_failure_class row; rn_status := "NEEDS_OPERATOR";
         rn_attempt := rn_attempt row; rn_next_retry_at := rn_next_retry_at row;
         rn_needs_operator_emitted := true; rn_evidence_json := evidence_json; rn_updated_at := now |}
  end.

Definition record_needs_operator (failure_key reason : string) (now : Z) (fingerprint : option string)
    (failure_class : option FailureClass) : M RecoveryStore RecoveryReceipt :=
  let safe_key := _failure_key failure_key in
  lift (_timestamp now "now");;
  transaction (
    lesson_notify ← match fingerprint, failure_class with
                    | Some fp, Some c => lesson_needs_operator fp c now
                    | _, _ => mret true
                    end;
    row ← gets (λ s, recovery_runs s !! safe_key);
    let notify := match row with Some row => negb (rn_needs_operator_emitted row) | None => true end in
    let payload := [("failure_key", JStr safe_key); ("status", JStr "NEEDS_OPERATOR");
                    ("reason", JStr reason); ("evidence", evidence_json no_evidence)] in
    evidence_ref ← lift (_evidence_ref payload);
    text ← lift (canonical_json (JObj (payload ++ [("evidence_ref", JStr evidence_ref)])));
    now ← lift (sqlite_int now);
    modify (set_runs <[safe_key := operator_row text now row]>);;
    mret {| rr_status := NEEDS_OPERATOR; rr_reason := reason; rr_failure_class := None;
            rr_failure_key := safe_key; rr_attempt := 0; rr_next_retry_at := None;
            rr_actions_executed := []; rr_canaries_executed := []; rr_evidence_ref := evidence_ref;
            rr_needs_operator_notification := notify && lesson_notify; rr_response_class := None |}).

Record metrics := {
  mt_incident_classes_seen : Z;
  mt_lessons_verified : Z;
  mt_lessons_failed : Z;
  mt_repeats_prevented : Z;
  mt_needs_operator_count : Z
}.

Definition learning_metrics : M RecoveryStore metrics :=
  gets (λ s,
    let lessons := map snd (map_to_list (failure_lessons s)) in
    let count status := Z.of_nat (length (List.filter (λ l, ln_status l == status) lessons)) in
    let metric name otherwise := default otherwise (failure_learning_metrics s !! name) in
    {| mt_incident_classes_seen := Z.of_nat (length lessons); mt_lessons_verified := count "VERIFIED";
       mt_lessons_failed := count "FAILED"; mt_repeats_prevented := metric "repeats_prevented" 0;
       mt_needs_operator_count := metric "needs_operator_count" (count "NEEDS_OPERATOR") |}).

(** ** Running a recovery *)
Section recovery.
Context {D : Type}.

(** [w_calls] lists the calls of the executors: failure key and action or canary. *)
Record world := { w_store : RecoveryStore; w_env : D; w_calls : list (string * string) }.

Definition on_store {A} (m : M RecoveryStore A) : M world A :=
  zoom w_store (λ s w, {| w_store := s; w_env := w_env w; w_calls := w_calls w |}) m.

Context (action_executor : string → M world string) (canary_executor : option (string → M world bool)).

Definition called (key action : string) : M world unit :=
  modify (λ w, {| w_store := w_store w; w_env := w_env w; w_calls := w_calls w ++ [(key, action)] |}).

(** An action of a plan: its report, or nothing when it is not registered or the
    executor raises. *)
Definition try_action (key action : string) : M world (option string) :=
  catch (lift (_registered_action action);;
         called key action;;
         report ← action_executor action;
         mret (Some report))
    (λ _, mret None).

Definition failed_with (prefix report : string) : string :=
  match _maintenance_report_reason report with
  | Some detail => prefix +:+ "_" +:+ detail
  | None => prefix
  end.

(** The executed actions, and the reason of a failure. *)
Fixpoint run_actions (key prefix : string) (actions : list string) : M world (list string * option string) :=
  match actions with
  | [] => mret ([], None)
  | action :: actions =>
      report ← try_action key action;
      match report with
      | None => mret ([], Some "RECOVERY_VERIFIED")
      | Some report =>
          if _maintenance_report_done report then
            '(executed, failure) ← run_actions key prefix actions;
            mret (action :: executed, failure)
          else mret ([action], Some (failed_with prefix report))
      end
  end.

Definition try_canary (key canary : string) (f : string → M world bool) : M world (option bool) :=
  catch (lift (_registered_action canary);;
         called key canary;;
         passed ← f canary;
         mret (Some passed))
    (λ _, mret None).

Fixpoint run_canaries (key : string) (f : string → M world bool) (canaries : list string)
    : M world (list string * option string) :=
  match canaries with
  | [] => mret ([], None)
  | canary :: canaries =>
      passed ← try_canary key canary f;
      match passed with
      | None => mret ([], Some "RECOVERY_VERIFIED")
      | Some false => mret ([], Some "CANARY_FAILED_AFTER_RECOVERY")
      | Some true =>
          '(executed, failure) ← run_canaries key f canaries;
          mret (canary :: executed, failure)
      end
  end.

(** The [try] block: actions, canaries and the reason of the failure.  The reason is
    what the variable [reason] holds when the exception is raised. *)
Definition perform (plan : RecoveryPlan) : M world (list string * list string * option string) :=
  let key := pl_failure_key plan in
  '(actions, failure) ← run_actions key "RECOVERY_ACTION_FAILED" (pl_actions plan);
  match failure with
  | Some reason => mret (actions, [], Some reason)
  | None =>
      '(canaries, failure) ← match canary_executor with
        | None => mret ([], if is_empty (pl_canaries plan) then None else Some "CANARY_EXECUTOR_REQUIRED")
        | Some f => run_canaries key f (pl_canaries plan)
        end;
      match failure with
      | Some reason => mret (actions, canaries, Some reason)
      | None =>
          '(reactivated, failure) ← run_actions key "QUEUE_REACTIVATION_FAILED"
            (option_list (pl_queue_reactivation_action plan));
          mret (actions ++ reactivated, canaries, failure)
      end
  end.

(** The attempt of a plan whose response is chosen. *)
Definition attempt_plan (plan : RecoveryPlan) (r : SafeResponseClass) (now : Z) : M world RecoveryReceipt :=
  begun ← on_store (begin_attempt plan now);
  match begun with
  | inl receipt => mret receipt
  | inr attempt =>
      '(actions, canaries, failure) ← perform plan;
      match failure with
      | Some reason => on_store (record_failure plan r attempt now actions canaries reason)
      | None => on_store (record_recovered plan r attempt now actions canaries)
      end
  end.

Definition run_recovery (plan : RecoveryPlan) (now : Z) : M world RecoveryReceipt :=
  lift (_timestamp now "now");;
  existing ← on_store (_existing_recovery_receipt (pl_failure_key plan) now);
  match existing, pl_fingerprint plan with
  | Some receipt, _ => mret receipt
  | None, None => attempt_plan plan (pl_response_class plan) now
  | None, Some fp =>
      r ← on_store (_select_response plan fp now);
      let plan := _plan_for_response plan r in
      match r with
      | OPERATOR_RESPONSE =>
          on_store (record_needs_operator (pl_failure_key plan) "SAFE_ADAPTATIONS_EXHAUSTED" now
            (pl_fingerprint plan) (Some (pl_failure_class plan)))
      | REPAIR_TASK_REQUIRED =>
          on_store (record_needs_operator (pl_failure_key plan) "REPAIR_TASK_REQUIRED" now
            (pl_fingerprint plan) (Some (pl_failure_class plan)))
      | _ => attempt_plan plan r now
      end
  end.

Definition execute_recovery (packet : json) (now : Z) : M world RecoveryReceipt :=
  match packet with
  | JObj d =>
      known ← lift (match field d "schema" with
                    | JNull => Ok true
                    | schema => in_set schema [CONTROL_RECOVERY_SCHEMA]
                    end);
      let refuse reason fp c := on_store (record_needs_operator (_packet_failure_key d) reason now fp c) in
      if negb known then refuse "SCHEMA_MISMATCH" None None
      else
        broadens ← lift (_payload_attempts_to_broaden_authority d);
        if broadens : bool then
          failure_class ← lift (classify_failure d);
          fp ← lift (match failure_class with
                     | Some c => fp ← derive_failure_fingerprint d c; Ok (Some fp)
                     | None => Ok None
                     end);
          refuse "UNREGISTERED_RECOVERY_AUTHORITY" fp failure_class
        else
          plan ← lift (build_recovery_plan d);
          match plan with
          | None => refuse "UNKNOWN_UNSAFE_RECOVERY" None None
          | Some plan => run_recovery plan now
          end
  | _ => raise (AttributeError "object has no attribute 'get'")
  end.

Definition execute_recovery_packet (packet : json) (now : Z) : M world json :=
  receipt ← execute_recovery packet now; mret (as_mapping receipt).
End recovery.

(** ** What a call leaves of the runs *)

(** Computations on lessons and metrics leave the runs alone. *)
Definition same_runs (s s' : RecoveryStore) : Prop := recovery_runs s' = recovery_runs s.

#[local] Instance same_runs_refl : Reflexive same_runs.
Proof. by intros s. Qed.
#[local] Instance same_runs_trans : Transitive same_runs.
Proof. intros s1 s2 s3 H1 H2. unfold same_runs in *. congruence. Qed.

Ltac on_lessons :=
  repeat first [apply relates_modify; intros ?; exact eq_refl | relates_step | progress cbv zeta].

Lemma ensure_lesson_runs fp c now : relates same_runs (_ensure_lesson fp c now).
Proof. unfold _ensure_lesson, _increment_metric. on_lessons. Qed.

Lemma select_runs plan fp now : relates same_runs (_select_response plan fp now).
Proof.
  unfold _select_response, update_lesson, _increment_metric. cbv zeta. apply relates_transaction; [apply _|].
  apply relates_bind; [apply _|apply ensure_lesson_runs|]. intros _. on_lessons.
Qed.

Lemma lesson_attempt_runs c fp r outcome reason ref now :
  relates same_runs (_record_lesson_attempt c fp r outcome reason ref now).
Proof.
  unfold _record_lesson_attempt, update_lesson. apply relates_bind; [apply _|apply ensure_lesson_runs|].
  intros _. on_lessons.
Qed.

Lemma lesson_operator_runs fp c now : relates same_runs (lesson_needs_operator fp c now).
Proof.
  unfold lesson_needs_operator, update_lesson, _increment_metric.
  apply relates_bind; [apply _|apply ensure_lesson_runs|]. intros _. on_lessons.
Qed.

(** The optional lesson of a recorded attempt. *)
Lemma opt_lesson_runs plan r outcome reason ref now : relates same_runs
  (match pl_fingerprint plan with
   | Some fp => _record_lesson_attempt (pl_failure_class plan) fp r outcome reason ref now
   | None => mret tt
   end).
Proof. destruct (pl_fingerprint plan); [apply lesson_attempt_runs|relates_step]. Qed.

Lemma opt_operator_runs (fp : option string) (c : option FailureClass) now : relates same_runs
  (match fp, c with Some fp, Some c => lesson_needs_operator fp c now | _, _ => mret true end).
Proof. destruct fp, c; [apply lesson_operator_runs|relates_step..]. Qed.


(** An update of the run of a plan. *)
Lemma update_ok plan st a t reason now e b s r s' : _update plan st a t reason now e b s = (Ok r, s') →
  (∃ text ref, s' = set_runs (alter (λ row,
    {| rn_failure_class := failure_value (pl_failure_class plan); rn_status := status_value st;
       rn_attempt := a; rn_next_retry_at := t;
       rn_needs_operator_emitted := default (rn_needs_operator_emitted row) b;
       rn_evidence_json := text; rn_updated_at := now |}) (pl_failure_key plan)) s ∧
    r = {| rr_status := st; rr_reason := reason; rr_failure_class := Some (pl_failure_class plan);
           rr_failure_key := pl_failure_key plan; rr_attempt := a; rr_next_retry_at := t;
           rr_actions_executed := ev_actions e; rr_canaries_executed := ev_canaries e;
           rr_evidence_ref := ref; rr_needs_operator_notification := false;
           rr_response_class := Some (pl_response_class plan) |}).
Proof.
  unfold _update. cbv zeta. intros H.
  apply M_bind_ok in H as (ref & ? & [_ ->]%lift_ok & H).
  apply M_bind_ok in H as (text & ? & [_ ->]%lift_ok & H).
  apply M_bind_ok in H as (? & ? & [[_ ->]%sqlite_int_ok ->]%lift_ok & H).
  apply M_bind_ok in H as (t' & ? & [Ht ->]%lift_ok & H).
  assert (t' = t) as ->.
  { destruct t as [t|]; cbn in Ht; [|by injection Ht].
    apply result_bind_ok in Ht as (? & [_ ->]%sqlite_int_ok & [= ->]). done. }
  apply M_bind_ok in H as (? & ? & [[_ ->]%sqlite_int_ok ->]%lift_ok & H).
  apply M_bind_ok in H as ([] & ? & [= <-] & H). injection H as <- <-. by exists text, ref.
Qed.

Definition emitted (s : RecoveryStore) (key : string) : bool :=
  match recovery_runs s !! key with Some row => rn_needs_operator_emitted row | None => false end.











(** ** Interleavings of processes

    Every transaction of the store is one step; the receipts it answers are issued.
    A failure or a success is only recorded of a run that was begun. *)
Inductive store_call :=
  | SelectResponse (plan : RecoveryPlan) (fingerprint : string) (now : Z)
  | BeginAttempt (plan : RecoveryPlan) (now : Z)
  | RecordFailure (plan : RecoveryPlan) (r : SafeResponseClass) (attempt now : Z)
      (actions canaries : list string) (reason : string)
  | RecordRecovered (plan : RecoveryPlan) (r : SafeResponseClass) (attempt now : Z)
      (actions canaries : list string)
  | RecordNeedsOperator (failure_key reason : string) (now : Z) (fingerprint : option string)
      (failure_class : option FailureClass).

Definition issue (c : store_call) : M RecoveryStore (list RecoveryReceipt) :=
  match c with
  | SelectResponse plan fp now => _select_response plan fp now;; mret []
  | BeginAttempt plan now =>
      begun ← begin_attempt plan now; mret (match begun with inl r => [r] | inr _ => [] end)
  | RecordFailure plan r attempt now actions canaries reason =>
      r ← record_failure plan r attempt now actions canaries reason; mret [r]
  | RecordRecovered plan r attempt now actions canaries =>
      r ← record_recovered plan r attempt now actions canaries; mret [r]
  | RecordNeedsOperator key reason now fp c => r ← record_needs_operator key reason now fp c; mret [r]
  end.

Definition call_ok (c : store_call) (s : RecoveryStore) : Prop :=
  match c with
  | RecordFailure plan _ _ _ _ _ _ | RecordRecovered plan _ _ _ _ _ =>
      is_Some (recovery_runs s !! pl_failure_key plan)
  | _ => True
  end.

Definition issued (r : result (list RecoveryReceipt)) : list RecoveryReceipt :=
  match r with Ok rs => rs | Raise _ => [] end.

Inductive history : RecoveryStore → list RecoveryReceipt → RecoveryStore → Prop :=
  | h_done s : history s [] s
  | h_call c s r s' rs s'' : call_ok c s → issue c s = (r, s') → history s' rs s'' →
      history s (issued r ++ rs) s''.

(** An attempt that is begun is the next one of its run. *)
Lemma begin_started plan now s a s' : begin_attempt plan now s = (Ok (inr a), s') →
  ∃ row, recovery_runs s' !! pl_failure_key plan = Some row ∧ rn_attempt row = a ∧
    rn_status row = "RETRYING" ∧
    match recovery_runs s !! pl_failure_key plan with
    | Some old => a = rn_attempt old + 1 ∧ a ≤ pl_max_attempts plan
    | None => a = 1
    end ∧
    ∀ key, key ≠ pl_failure_key plan → recovery_runs s' !! key = recovery_runs s !! key.
Proof.
  unfold begin_attempt. cbv zeta. intros H.
  apply transaction_ok, M_bind_ok in H as (row & ? & [= <- <-] & H).
  destruct (recovery_runs s !! pl_failure_key plan) as [row|] eqn:Erow.
  - apply M_bind_ok in H as ([r|] & ? & [_ ->]%lift_ok & H); [done|].
    destruct (pl_max_attempts plan <? rn_attempt row + 1) eqn:Emax.
    { by apply M_bind_ok in H as (? & ? & _ & [=]). }
    apply M_bind_ok in H as (? & ? & [[_ ->]%sqlite_int_ok ->]%lift_ok & H).
    apply M_bind_ok in H as (t & ? & [_ ->]%lift_ok & H).
    apply M_bind_ok in H as ([] & ? & [= <-] & H). injection H as <- <-. cbn.
    rewrite lookup_alter_eq, Erow. eexists. split; [done|]. apply Z.ltb_ge in Emax.
    split_and!; [done..|]. intros key Hk. by rewrite lookup_alter_ne.
  - apply M_bind_ok in H as (t & ? & [_ ->]%lift_ok & H).
    apply M_bind_ok in H as ([] & ? & [= <-] & H). injection H as <- <-. cbn.
    rewrite lookup_insert_eq. eexists. split; [done|]. split_and!; [done..|].
    intros key Hk. by rewrite lookup_insert_ne.
Qed.









Lemma history_app s1 rs1 s2 rs2 s3 : history s1 rs1 s2 → history s2 rs2 s3 → history s1 (rs1 ++ rs2) s3.
Proof.
  induction 1 as [s|c s r s' rs s'' Hok Hc _ IH]; [done|]. intros H. rewrite <-app_assoc.
  econstructor; [done..|by apply IH].
Qed.


(** ** Packets, with other processes on the store *)


(** A process serves packets one after the other: the receipts it answers. *)
Fixpoint serve {D} (ax : string → M (world (D:=D)) string) (cx : option (string → M world bool))
    (packets : list (json * Z)) : M world (list RecoveryReceipt) :=
  match packets with
  | [] => mret []
  | (packet, now) :: packets =>
      r ← catch (r ← execute_recovery ax cx packet now; mret [r]) (λ _, mret []);
      rs ← serve ax cx packets;
      mret (r ++ rs)
  end.

Section interleaved.
Context {D : Type} (ax : string → M (world (D:=D)) string) (cx : option (string → M (world (D:=D)) bool)).

(** The store changes by the calls of a history. *)
Definition traces (w w' : world (D:=D)) : Prop := ∃ rs, history (w_store w) rs (w_store w').

(** While an executor runs, other processes recover as well. *)
Hypothesis actions_trace : ∀ action, relates traces (ax action).
Hypothesis canaries_trace : ∀ f canary, cx = Some f → relates traces (f canary).

#[local] Instance traces_refl : Reflexive traces.
Proof. intros w. exists []. constructor. Qed.
#[local] Instance traces_trans : Transitive traces.
Proof. intros w1 w2 w3 [rs1 H1] [rs2 H2]. exists (rs1 ++ rs2). by eapply history_app. Qed.




















End interleaved.

(** ** The effort of one process

    Alone on the store, the executors touch neither the store nor the record of
    their calls. *)
Definition calls_of {D} (key : string) (w : world (D:=D)) : Z :=
  Z.of_nat (length (List.filter (λ c, c.1 == key) (w_calls w))).

Definition attempts (s : RecoveryStore) (key : string) : Z :=
  match recovery_runs s !! key with Some row => rn_attempt row | None => 0 end.

(** No key has more than five attempts and more than three calls in each. *)
Record thrifty {D} (w : world (D:=D)) : Prop := {
  th_attempts : ∀ key, 0 ≤ attempts (w_store w) key ≤ 5;
  th_calls : ∀ key, calls_of key w ≤ 3 * attempts (w_store w) key;
  th_known : ∀ c, c ∈ w_calls w → c.2 ∈ _KNOWN_ACTIONS
}.

(** The steps of a plan. *)
Definition plan_steps (plan : RecoveryPlan) : list string :=
  pl_actions plan ++ pl_canaries plan ++ option_list (pl_queue_reactivation_action plan).

Record plan_ok (plan : RecoveryPlan) : Prop := {
  po_attempts : 1 ≤ pl_max_attempts plan ≤ 5;
  po_steps : (length (plan_steps plan) ≤ 3)%nat
}.

Lemma build_plan_ok d plan : build_recovery_plan d = Ok (Some plan) → plan_ok plan.
Proof.
  unfold build_recovery_plan. intros (c & _ & H)%result_bind_ok. cbv zeta in H.
  destruct c as [c|]; [|done]. destruct (if truth _ then _ else _) as [| | | |key| |]; try done.
  destruct (negb _); [done|].
  assert (Hb : ∀ v o m, 1 ≤ o ≤ m → 1 ≤ _bounded_positive_int v o m ≤ m).
  { intros v o m Ho. unfold _bounded_positive_int. destruct v as [| |z| | | |]; try done.
    destruct ((z <=? 0) || (m <? z)) eqn:E; [done|]. apply orb_false_iff in E as [E1%Z.leb_gt E2%Z.ltb_ge].
    lia. }
  pose proof (Hb (field d "max_attempts") 3 5 ltac:(lia)) as Hmax.
  destruct c; cbn in H; apply result_bind_ok in H as (fp & _ & [= <-]); (split; [exact Hmax|cbn; lia]).
Qed.

Lemma response_plan_ok plan r : plan_ok plan → plan_ok (_plan_for_response plan r).
Proof.
  intros [H1 H2]. unfold _plan_for_response. destruct (r == CONTROL_RECOVERY); [done|].
  destruct r; split; cbn; try done; lia.
Qed.

Lemma response_plan_key plan r : pl_failure_key (_plan_for_response plan r) = pl_failure_key plan.
Proof. unfold _plan_for_response. destruct (r == CONTROL_RECOVERY); [done|]. by destruct r. Qed.

(** Recording an outcome keeps the attempt. *)
Lemma update_attempts plan st a t reason now e b s r s' : attempts s (pl_failure_key plan) = a →
  _update plan st a t reason now e b s = (Ok r, s') → ∀ key, attempts s' key = attempts s key.
Proof.
  intros Ha H key. apply update_ok in H as (text & ref & -> & _). unfold attempts in *. cbn.
  destruct (decide (key = pl_failure_key plan)) as [->|Hk].
  - rewrite lookup_alter_eq. by destruct (recovery_runs s !! _).
  - by rewrite lookup_alter_ne.
Qed.

Lemma mark_attempts plan now a reason notify e s r s' : attempts s (pl_failure_key plan) = a →
  _mark_needs_operator plan now a reason notify e s = (Ok r, s') → ∀ key, attempts s' key = attempts s key.
Proof.
  intros Ha H. unfold _mark_needs_operator in H. apply M_bind_ok in H as (r0 & s0 & H & [= <- <-]).
  by eapply update_attempts.
Qed.

Lemma same_attempts s s' : same_runs s s' → ∀ key, attempts s' key = attempts s key.
Proof. intros E key. unfold attempts. by rewrite E. Qed.

Lemma begin_idle plan now s r s' : begin_attempt plan now s = (r, s') → (∀ a, r ≠ Ok (inr a)) →
  ∀ key, attempts s' key = attempts s key.
Proof.
  unfold begin_attempt. cbv zeta. intros H Hr. destruct r as [b|e].
  2: { by apply transaction_raise in H as [-> _]. }
  apply transaction_ok, M_bind_ok in H as (row & ? & [= <- <-] & H).
  destruct (recovery_runs s !! pl_failure_key plan) as [row|] eqn:Erow.
  - apply M_bind_ok in H as ([x|] & ? & [_ ->]%lift_ok & H); [by injection H as _ <-|].
    destruct (pl_max_attempts plan <? _).
    + apply M_bind_ok in H as (x & ? & H & [= _ <-]). eapply mark_attempts; [|exact H].
      unfold attempts. by rewrite Erow.
    + apply M_bind_ok in H as (? & ? & _ & H). apply M_bind_ok in H as (? & ? & _ & H).
      apply M_bind_ok in H as (? & ? & _ & [= <- _]). by edestruct Hr.
  - apply M_bind_ok in H as (? & ? & _ & H). apply M_bind_ok in H as (? & ? & _ & [= <- _]).
    by edestruct Hr.
Qed.

Lemma failure_attempts plan r a now actions canaries reason s x s' : attempts s (pl_failure_key plan) = a →
  record_failure plan r a now actions canaries reason s = (x, s') → ∀ key, attempts s' key = attempts s key.
Proof.
  unfold record_failure. intros Ha H. destruct x as [x|e].
  2: { by apply transaction_raise in H as [-> _]. }
  apply transaction_ok, M_bind_ok in H as ([] & s1 & Hl & H).
  pose proof (opt_lesson_runs plan r "failed" reason None now s) as Hsame. rewrite Hl in Hsame; cbn [snd] in Hsame.
  pose proof (same_attempts _ _ Hsame) as E. rewrite <-E in Ha.
  apply M_bind_ok in H as (row & ? & [= <- <-] & H). cbv zeta in H.
  intros key. rewrite <-E. revert key. destruct (_ <=? a); [by eapply mark_attempts|by eapply update_attempts].
Qed.

Lemma recovered_attempts plan r a now actions canaries s x s' : attempts s (pl_failure_key plan) = a →
  record_recovered plan r a now actions canaries s = (x, s') → ∀ key, attempts s' key = attempts s key.
Proof.
  unfold record_recovered. intros Ha H. destruct x as [x|e].
  2: { by apply transaction_raise in H as [-> _]. }
  apply transaction_ok, M_bind_ok in H as (rc & s1 & Hu & H).
  apply M_bind_ok in H as ([] & s2 & Hl & [= <- <-]).
  pose proof (opt_lesson_runs plan r "verified" "RECOVERY_VERIFIED" (Some (rr_evidence_ref rc)) now s1) as Hsame.
  rewrite Hl in Hsame; cbn [snd] in Hsame. intros key. rewrite (same_attempts _ _ Hsame). by eapply update_attempts.
Qed.

Lemma operator_attempts key0 reason now fp c s x s' :
  record_needs_operator key0 reason now fp c s = (x, s') → ∀ key, attempts s' key = attempts s key.
Proof.
  unfold record_needs_operator. cbv zeta. intros H. destruct x as [x|e].
  2: { apply M_bind_raise in H as [H|([] & s1 & [_ ->]%lift_ok & H)]; [by injection H as _ <-|].
       by apply transaction_raise in H as [-> _]. }
  apply M_bind_ok in H as ([] & ? & [_ ->]%lift_ok & H).
  apply transaction_ok, M_bind_ok in H as (told' & s1 & Hl & H).
  pose proof (opt_operator_runs fp c now s) as Hsame. rewrite Hl in Hsame; cbn [snd] in Hsame.
  intros key. rewrite <-(same_attempts _ _ Hsame).
  generalize dependent (_failure_key key0). intros k H.
  apply M_bind_ok in H as (row & ? & [= <- <-] & H).
  apply M_bind_ok in H as (ref & ? & [_ ->]%lift_ok & H).
  apply M_bind_ok in H as (text & ? & [_ ->]%lift_ok & H).
  apply M_bind_ok in H as (t & ? & [_ ->]%lift_ok & H).
  apply M_bind_ok in H as ([] & ? & [= <-] & H). injection H as _ <-. unfold attempts. cbn.
  destruct (decide (key = k)) as [->|Hk]; [rewrite lookup_insert_eq|by rewrite lookup_insert_ne].
  by destruct (recovery_runs s1 !! k).
Qed.

Section alone.
Context {D : Type} (ax : string → M (world (D:=D)) string) (cx : option (string → M (world (D:=D)) bool)).

(** The executors change the environment only. *)
Definition only_env {A} (m : M (world (D:=D)) A) : Prop := ∀ w r w', m w = (r, w') →
  w_store w' = w_store w ∧ w_calls w' = w_calls w.
Hypothesis actions_env : ∀ action, only_env (ax action).
Hypothesis canaries_env : ∀ f canary, cx = Some f → only_env (f canary).

(** The world once a call is recorded. *)
Definition calling (key action : string) (w : world (D:=D)) : world :=
  {| w_store := w_store w; w_env := w_env w; w_calls := w_calls w ++ [(key, action)] |}.

(** Actions that the executor reports done, and canaries that pass, in this order. *)
Definition says_done (report : string) : Prop :=
  startswith "DONE:" (unchars (drop_while isspace (chars report))) = true ∧
  contains "success_criteria=not_met" report = false.

Inductive done_actions (key : string) : list string → world → world → Prop :=
  | da_nil w : done_actions key [] w w
  | da_cons action actions report w w1 w2 : action ∈ _KNOWN_ACTIONS →
      ax action (calling key action w) = (Ok report, w1) → says_done report →
      done_actions key actions w1 w2 → done_actions key (action :: actions) w w2.

Inductive passed_canaries (key : string) (f : string → M world bool) : list string → world → world → Prop :=
  | pc_nil w : passed_canaries key f [] w w
  | pc_cons canary canaries w w1 w2 : canary ∈ _KNOWN_ACTIONS →
      f canary (calling key canary w) = (Ok true, w1) →
      passed_canaries key f canaries w1 w2 → passed_canaries key f (canary :: canaries) w w2.

(** The calls made of the executors. *)
Record spends (key : string) (steps : list string) (w w' : world (D:=D)) : Prop := {
  sp_store : w_store w' = w_store w;
  sp_calls : ∃ cs, w_calls w' = w_calls w ++ map (pair key) cs ∧
    (length cs ≤ length steps)%nat ∧ ∀ c, c ∈ cs → c ∈ _KNOWN_ACTIONS
}.

Lemma spends_none key w : spends key [] w w.
Proof. split; [done|]. exists []. cbn. rewrite app_nil_r. split_and!; [done|done|]. by intros c ?%elem_of_nil. Qed.

Lemma spends_app key steps1 steps2 w1 w2 w3 : spends key steps1 w1 w2 → spends key steps2 w2 w3 →
  spends key (steps1 ++ steps2) w1 w3.
Proof.
  intros [S1 (cs1 & C1 & L1 & K1)] [S2 (cs2 & C2 & L2 & K2)]. split; [congruence|].
  exists (cs1 ++ cs2). rewrite map_app, app_assoc, <-C1. split; [done|]. rewrite !length_app.
  split; [lia|]. intros c [?|?]%elem_of_app; auto.
Qed.

Lemma spends_more key steps more w w' : spends key steps w w' → spends key (steps ++ more) w w'.
Proof.
  intros [S (cs & C & L & K)]. split; [done|]. exists cs. rewrite length_app. split_and!; [done|lia|done].
Qed.

Lemma known_action action u : _registered_action action = Ok u → action ∈ _KNOWN_ACTIONS.
Proof.
  unfold _registered_action. rewrite raise_if_ok. intros [H _]%orb_false_iff.
  by apply negb_false_iff, bool_decide_eq_true in H.
Qed.

(** An attempt at an executor: nothing, or one registered call. *)
Lemma catch_spends {A} key name (m : M (world (D:=D)) A) r w w' : only_env m →
  catch (lift (_registered_action name);; called key name;; x ← m; mret (Some x)) (λ _, mret None) w
    = (r, w') →
  spends key [name] w w' ∧ match r with
    | Ok None => True
    | Ok (Some x) => name ∈ _KNOWN_ACTIONS ∧ m (calling key name w) = (Ok x, w')
    | Raise _ => False
    end.
Proof.
  intros Hm H. unfold catch, mbind, M_bind, lift, called, modify in H.
  destruct (_registered_action name) as [u|e] eqn:Ek.
  2: { injection H as <- <-. split; [|done]. apply (spends_more _ []), spends_none. }
  apply known_action in Ek. fold (calling key name w) in H.
  destruct (m (calling key name w)) as [x w1] eqn:Em. destruct (Hm _ _ _ Em) as [Hs Hc].
  assert (Hsp : spends key [name] w w1).
  { split; [exact Hs|]. exists [name]. rewrite Hc. split_and!; [done|done|].
    by intros c ->%list_elem_of_singleton. }
  destruct x as [x|e]; injection H as <- <-; by split.
Qed.

Lemma run_actions_spends key prefix actions w r w' : run_actions ax key prefix actions w = (r, w') →
  spends key actions w w' ∧ ∃ executed failure, r = Ok (executed, failure) ∧
    (failure = None → executed = actions ∧ done_actions key actions w w').
Proof.
  revert w r w'. induction actions as [|action actions IH]; intros w r w' H; cbn [run_actions] in H.
  { injection H as <- <-. split; [apply spends_none|]. exists [], None. split; [done|]. split; [done|constructor]. }
  unfold mbind at 1, M_bind at 1 in H. destruct (try_action ax key action w) as [x w1] eqn:Ea.
  unfold try_action in Ea. apply catch_spends in Ea as [Hs Hx]; [|apply actions_env].
  destruct x as [[report|]|e]; [|injection H as <- <-|done].
  2: { split; [by apply (spends_more _ [action])|]. by exists [], (Some "RECOVERY_VERIFIED"). }
  destruct Hx as [Hk Hx]. destruct (_maintenance_report_done report) eqn:Ed.
  - unfold mbind, M_bind in H. destruct (run_actions ax key prefix actions w1) as [y w2] eqn:Er.
    apply IH in Er as (Hs2 & executed & failure & -> & Hdone). injection H as <- <-.
    split; [by apply (spends_app _ [action] _ _ w1)|]. exists (action :: executed), failure.
    split; [done|]. intros Hf. destruct (Hdone Hf) as [-> Hd]. split; [done|].
    apply andb_true_iff in Ed as [E1 E2%negb_true_iff]. by econstructor.
  - injection H as <- <-. split; [by apply (spends_more _ [action])|]. by eexists _, (Some _).
Qed.

Lemma run_canaries_spends key f canaries w r w' : cx = Some f → run_canaries key f canaries w = (r, w') →
  spends key canaries w w' ∧ ∃ executed failure, r = Ok (executed, failure) ∧
    (failure = None → executed = canaries ∧ passed_canaries key f canaries w w').
Proof.
  intros Hf. revert w r w'. induction canaries as [|canary canaries IH]; intros w r w' H; cbn [run_canaries] in H.
  { injection H as <- <-. split; [apply spends_none|]. exists [], None. split; [done|]. split; [done|constructor]. }
  unfold mbind at 1, M_bind at 1 in H. destruct (try_canary key canary f w) as [x w1] eqn:Ea.
  unfold try_canary in Ea. apply catch_spends in Ea as [Hs Hx]; [|by apply canaries_env].
  destruct x as [[[]|]|e]; [| | |done].
  - destruct Hx as [Hk Hx]. unfold mbind, M_bind in H.
    destruct (run_canaries key f canaries w1) as [y w2] eqn:Er.
    apply IH in Er as (Hs2 & executed & failure & -> & Hdone). injection H as <- <-.
    split; [by apply (spends_app _ [canary] _ _ w1)|]. exists (canary :: executed), failure.
    split; [done|]. intros Hn. destruct (Hdone Hn) as [-> Hd]. split; [done|]. by econstructor.
  - injection H as <- <-. split; [by apply (spends_more _ [canary])|]. by eexists _, (Some _).
  - injection H as <- <-. split; [by apply (spends_more _ [canary])|]. by eexists _, (Some _).
Qed.

(** All steps of the plan succeeded, in its order. *)
Definition performed (plan : RecoveryPlan) (w w' : world (D:=D)) : Prop :=
  ∃ w1 w2, done_actions (pl_failure_key plan) (pl_actions plan) w w1 ∧
    match cx with
    | Some f => passed_canaries (pl_failure_key plan) f (pl_canaries plan) w1 w2
    | None => pl_canaries plan = [] ∧ w2 = w1
    end ∧
    done_actions (pl_failure_key plan) (option_list (pl_queue_reactivation_action plan)) w2 w'.

Lemma canary_step_spends plan w r w' :
  (match cx with
   | None => mret ([], if is_empty (pl_canaries plan) then None else Some "CANARY_EXECUTOR_REQUIRED")
   | Some f => run_canaries (pl_failure_key plan) f (pl_canaries plan)
   end) w = (r, w') →
  spends (pl_failure_key plan) (pl_canaries plan) w w' ∧ ∃ executed failure, r = Ok (executed, failure) ∧
    (failure = None → executed = pl_canaries plan ∧
      match cx with
      | Some f => passed_canaries (pl_failure_key plan) f (pl_canaries plan) w w'
      | None => pl_canaries plan = [] ∧ w' = w
      end).
Proof.
  generalize (λ f, run_canaries_spends (pl_failure_key plan) f (pl_canaries plan)).
  destruct cx as [f|]; intros Hc H; [by apply Hc|]. injection H as <- <-.
  split; [apply (spends_more _ []), spends_none|]. eexists _, _. split; [done|].
  destruct (is_empty (pl_canaries plan)) eqn:E; [|done]. by apply is_empty_true in E as ->.
Qed.

Lemma perform_spends plan w r w' : perform ax cx plan w = (r, w') →
  spends (pl_failure_key plan) (plan_steps plan) w w' ∧
  ∃ actions canaries failure, r = Ok (actions, canaries, failure) ∧
    (failure = None → performed plan w w' ∧ canaries = pl_canaries plan ∧
      actions = pl_actions plan ++ option_list (pl_queue_reactivation_action plan)).
Proof.
  unfold perform, plan_steps. cbv zeta. intros H. unfold mbind at 1, M_bind at 1 in H.
  destruct (run_actions ax _ _ (pl_actions plan) w) as [x w1] eqn:E1.
  apply run_actions_spends in E1 as (Hs1 & executed & failure & -> & Hd1).
  destruct failure as [reason|].
  { injection H as <- <-. split; [by apply spends_more|]. by eexists _, _, (Some _). }
  destruct (Hd1 eq_refl) as [-> Hdone]. unfold mbind at 1, M_bind at 1 in H.
  match type of H with match ?m w1 with _ => _ end = _ => destruct (m w1) as [y w2] eqn:E2 end.
  apply canary_step_spends in E2 as (Hs2 & passed & failure & -> & Hd2).
  destruct failure as [reason|].
  { injection H as <- <-. rewrite app_assoc.
    split; [by eapply spends_more, spends_app|]. by eexists _, _, (Some _). }
  destruct (Hd2 eq_refl) as [-> Hpassed]. unfold mbind, M_bind in H.
  destruct (run_actions ax _ _ (option_list _) w2) as [z w3] eqn:E3.
  apply run_actions_spends in E3 as (Hs3 & again & failure & -> & Hd3). injection H as <- <-.
  split; [by eapply spends_app, spends_app|]. eexists _, _, _. split; [done|]. intros ->.
  destruct (Hd3 eq_refl) as [-> Hq]. split_and!; [|done..]. by exists w1, w2.
Qed.

(** What a computation on the world does: it begins no attempt and makes no call, or it
    begins one attempt of the key and makes at most three calls. *)
Definition effort (key : string) (w w' : world (D:=D)) : Prop :=
  (w_calls w' = w_calls w ∧ ∀ k, attempts (w_store w') k = attempts (w_store w) k) ∨
  (∃ cs, w_calls w' = w_calls w ++ map (pair key) cs ∧ (length cs ≤ 3)%nat ∧
     (∀ c, c ∈ cs → c ∈ _KNOWN_ACTIONS) ∧
     attempts (w_store w') key = attempts (w_store w) key + 1 ∧ attempts (w_store w') key ≤ 5 ∧
     ∀ k, k ≠ key → attempts (w_store w') k = attempts (w_store w) k).

Lemma call_effort {A} (m : M RecoveryStore A) key (w : world (D:=D)) r w' :
  (∀ s x s', m s = (x, s') → ∀ k, attempts s' k = attempts s k) →
  on_store m w = (r, w') → effort key w w'.
Proof. intros Hm H. apply zoom_ok in H as (s' & H & ->). left. cbn. split; [done|]. by apply (Hm _ _ _ H). Qed.

Lemma attempt_effort plan r now w x w' : plan_ok plan → attempt_plan ax cx plan r now w = (x, w') →
  effort (pl_failure_key plan) w w'.
Proof.
  intros [[Hmin Hmax] Hsteps] H. unfold attempt_plan in H. unfold mbind at 1, M_bind at 1 in H.
  destruct (on_store (begin_attempt plan now) w) as [b w1] eqn:Eb.
  destruct b as [[receipt|a]|e].
  1, 3: injection H as <- <-; apply zoom_ok in Eb as (s1 & Eb & ->); left; split; [done|];
    eapply begin_idle; [exact Eb|congruence].
  apply zoom_ok in Eb as (s1 & Eb & ->).
  apply begin_started in Eb as (row & Hrow & Ha & _ & Hnext & Hothers).
  unfold mbind, M_bind in H.
  match type of H with match perform ax cx plan ?w1 with _ => _ end = _ =>
    destruct (perform ax cx plan w1) as [y w2] eqn:Ep end.
  apply perform_spends in Ep as ([Hs (cs & Hcs & Hlen & Hknown)] & actions & canaries & failure & -> & _).
  cbn in Hs, Hcs.
  assert (Hat : attempts s1 (pl_failure_key plan) = a) by (unfold attempts; by rewrite Hrow).
  assert (Hrec : w_calls w' = w_calls w2 ∧ ∀ k, attempts (w_store w') k = attempts (w_store w2) k).
  { rewrite <-Hs in Hat. destruct failure as [reason|]; apply zoom_ok in H as (s' & H & ->); (split; [done|]);
      [by eapply failure_attempts|by eapply recovered_attempts]. }
  destruct Hrec as [Hcalls Hatt]. right. exists cs. rewrite !Hatt, Hcalls, Hs, Hcs, Hat.
  split_and!; [done|lia|done| | |].
  - unfold attempts. destruct (recovery_runs (w_store w) !! pl_failure_key plan); lia.
  - destruct (recovery_runs (w_store w) !! pl_failure_key plan); lia.
  - intros k Hk. rewrite Hatt, Hs. unfold attempts. by rewrite Hothers.
Qed.

(** Nothing happens before a store call. *)
Lemma effort_after key s1 (w : world (D:=D)) w' : same_runs (w_store w) s1 →
  effort key {| w_store := s1; w_env := w_env w; w_calls := w_calls w |} w' → effort key w w'.
Proof.
  intros Hs H. unfold effort in *. cbn in H. pose proof (same_attempts _ _ Hs) as E.
  destruct H as [[Hc Ha]|(cs & H1 & H2 & H3 & H4 & H5 & H6)].
  - left. split; [done|]. intros k. by rewrite Ha, E.
  - right. exists cs. rewrite <-E. split_and!; try done. intros k Hk. by rewrite H6, E.
Qed.

Lemma effort_none key (w : world (D:=D)) : effort key w w.
Proof. by left. Qed.

Lemma run_effort plan now w x w' : plan_ok plan → run_recovery ax cx plan now w = (x, w') →
  effort (pl_failure_key plan) w w'.
Proof.
  intros Hok H. unfold run_recovery in H. unfold mbind at 1, M_bind at 1, lift in H.
  destruct (_timestamp now "now"); [|injection H as _ <-; apply effort_none].
  unfold mbind at 1, M_bind at 1 in H.
  destruct (on_store (_existing_recovery_receipt _ now) w) as [e w1] eqn:Ee.
  apply zoom_ok in Ee as (s1 & Ee & ->). injection Ee as _ <-.
  apply (effort_after _ (w_store w)); [done|].
  destruct e as [[receipt|]|e]; [injection H as _ <-; apply effort_none| |injection H as _ <-; apply effort_none].
  destruct (pl_fingerprint plan) as [fp|] eqn:Efp; [|by apply attempt_effort in H].
  unfold mbind, M_bind in H.
  match type of H with match on_store ?m ?w0 with _ => _ end = _ =>
    destruct (on_store m w0) as [r w1] eqn:Es end.
  apply zoom_ok in Es as (s1 & Es & ->). cbn in Es, H.
  pose proof (select_runs plan fp now (w_store w)) as Hs. rewrite Es in Hs.
  eapply (effort_after _ s1); [exact Hs|]. cbn.
  destruct r as [r|e]; [|injection H as _ <-; apply effort_none].
  rewrite <-(response_plan_key plan r). apply (response_plan_ok plan r) in Hok.
  destruct r; [by apply attempt_effort in H..| |];
    (eapply call_effort; [|exact H]; intros; by eapply operator_attempts).
Qed.

Definition efforts (m : M (world (D:=D)) RecoveryReceipt) : Prop := ∀ w r w', m w = (r, w') →
  ∃ key, effort key w w'.

Lemma efforts_lift {A} (r : result A) (k : A → M world RecoveryReceipt) : (∀ a, r = Ok a → efforts (k a)) →
  efforts (lift r ≫= k).
Proof.
  intros Hk. destruct r as [a|e]; [by apply Hk|]. intros w r w' [= _ <-]. exists "". apply effort_none.
Qed.

Lemma efforts_operator key reason now fp c : efforts (on_store (record_needs_operator key reason now fp c)).
Proof. intros w r w' H. exists "". eapply call_effort; [|exact H]. intros. by eapply operator_attempts. Qed.

Lemma efforts_raise e : efforts (raise e).
Proof. intros w r w' [= _ <-]. exists "". apply effort_none. Qed.

Lemma execute_effort packet now : efforts (execute_recovery ax cx packet now).
Proof.
  unfold execute_recovery. destruct packet as [| | | | | |d]; [apply efforts_raise..|].
  apply efforts_lift. intros known _. cbv zeta. destruct known; [|apply efforts_operator].
  apply efforts_lift. intros [] _.
  - apply efforts_lift. intros c _. apply efforts_lift. intros fp _. apply efforts_operator.
  - apply efforts_lift. intros [plan|] Hplan; [|apply efforts_operator].
    intros w r w' H. exists (pl_failure_key plan). eapply run_effort; [by eapply build_plan_ok|exact H].
Qed.

Lemma calls_of_app key (w w' : world (D:=D)) cs : w_calls w' = w_calls w ++ map (pair key) cs →
  ∀ k, calls_of k w' = calls_of k w + (if k == key then Z.of_nat (length cs) else 0).
Proof.
  intros E k. unfold calls_of. rewrite E, List.filter_app, length_app. clear E.
  assert (length (List.filter (λ c, c.1 == k) (map (pair key) cs)) = if k == key then length cs else 0%nat) as ->.
  { induction cs as [|c cs IH]; [by destruct (k == key)|]. cbn. destruct (decide (k = key)) as [->|Hk].
    - rewrite !bool_decide_eq_true_2 in IH |- * by done. cbn [length]. by rewrite IH.
    - rewrite (bool_decide_eq_false_2 (key = k)) by done. by rewrite IH, bool_decide_eq_false_2. }
  destruct (k == key); lia.
Qed.

Lemma effort_thrifty key w w' : effort key w w' → thrifty w → thrifty w'.
Proof.
  intros [[Hc Ha]|(cs & Hcs & Hlen & Hknown & Hat & Hmax & Ho)] [H1 H2 H3].
  - split; [intros k; rewrite Ha; apply H1| |by rewrite Hc].
    intros k. rewrite Ha. unfold calls_of. rewrite Hc. apply H2.
  - split.
    + intros k. specialize (H1 k). destruct (decide (k = key)) as [->|Hk]; [lia|by rewrite Ho].
    + intros k. rewrite (calls_of_app _ _ _ _ Hcs). specialize (H2 k).
      destruct (decide (k = key)) as [->|Hk].
      * rewrite bool_decide_eq_true_2 by done. lia.
      * rewrite bool_decide_eq_false_2, Ho by done. lia.
    + intros c. rewrite Hcs. intros [Hin|Hin]%elem_of_app; [by apply H3|].
      apply list_elem_of_fmap in Hin as (a & -> & Ha). by apply Hknown.
Qed.

Lemma serve_thrifty packets w : thrifty w → thrifty (serve ax cx packets w).2.
Proof.
  revert w. induction packets as [|[packet now] packets IH]; intros w Hw; [done|].
  cbn [serve]. unfold mbind, M_bind, catch.
  destruct (execute_recovery ax cx packet now w) as [r w1] eqn:E.
  destruct (execute_effort _ _ _ _ _ E) as [key He]. apply effort_thrifty in He; [|done].
  specialize (IH w1 He). destruct r; cbn; destruct (serve ax cx packets w1) as [[rs|?] w2]; done.
Qed.

(** ** What recovered means *)
Definition run_status (s : RecoveryStore) (key : string) : option string := rn_status <$> recovery_runs s !! key.


















(** The effort at a failure is bounded.  However many packets a process serves from
    an empty store, each failure key is attempted at most five times and the
    executors are called for it at most fifteen times, with registered names only. *)
Theorem recovery_effort_bounded packets w : w_store w = empty_store → w_calls w = [] →
  let w' := (serve ax cx packets w).2 in
  (∀ key, attempts (w_store w') key ≤ 5 ∧ calls_of key w' ≤ 15) ∧
  ∀ c, c ∈ w_calls w' → c.2 ∈ _KNOWN_ACTIONS.
Proof.
  intros Hs Hc. cbv zeta. assert (Hw : thrifty w).
  { assert (Ha : ∀ key, attempts (w_store w) key = 0) by (intros key; unfold attempts; by rewrite Hs).
    split; [intros key; rewrite Ha; lia| |rewrite Hc; by intros c ?%elem_of_nil].
    intros key. rewrite Ha. unfold calls_of. by rewrite Hc. }
  apply (serve_thrifty packets) in Hw as [H1 H2 H3]. split; [|done].
  intros key. specialize (H1 key). specialize (H2 key). lia.
Qed.
End alone.

(** ** Witnesses *)

(** An executor that answers from the environment: what it says to each action. *)
Definition demo_action (action : string) : M (world (D:=string → string)) string := gets (λ w, w_env w action).
Definition demo_canary (canary : string) : M (world (D:=string → string)) bool := mret true.

Definition demo_packet : json :=
  JObj [("schema", JStr CONTROL_RECOVERY_SCHEMA); ("failure_class", JStr "LONG_LIVED_POLLER_STALE");
        ("failure_key", JStr "control:poller"); ("max_attempts", JInt 2)].

Definition demo_world : world (D:=string → string) :=
  {| w_store := empty_store; w_env := λ _, "DONE: reloaded"; w_calls := [] |}.

Definition demo_failing : world (D:=string → string) :=
  {| w_store := empty_store; w_env := λ _, "FAILED"; w_calls := [] |}.

Lemma demo_action_env action : only_env (demo_action action).
Proof. by intros w r w' [= _ <-]. Qed.
Lemma demo_canary_env f canary : Some demo_canary = Some f → only_env (f canary).
Proof. by intros [= <-] w r w' [= _ <-]. Qed.

(** Two failed attempts, and the same packet again: one notification. *)
Definition demo_served : result (list RecoveryReceipt) :=
  (serve demo_action (Some demo_canary) [(demo_packet, 10); (demo_packet, 100); (demo_packet, 300)] demo_failing).1.

Lemma demo_served_once : (λ rs, map rr_needs_operator_notification rs) <$> match demo_served with Ok rs => Some rs | _ => None end
  = Some [false; true; false].
Proof. vm_compute. reflexivity. Qed.


Lemma recovery_effort_bounded_witness :
  calls_of "control:poller"
    (serve demo_action (Some demo_canary) (repeat (demo_packet, 10) 3) demo_failing).2 ≤ 15.
Proof.
  exact (proj2 (proj1 (recovery_effort_bounded demo_action (Some demo_canary) demo_action_env demo_canary_env
    (repeat (demo_packet, 10) 3) demo_failing eq_refl eq_refl) "control:poller")).
Defined.

Definition demo_recovery : result RecoveryReceipt * world :=
  execute_recovery demo_action (Some demo_canary) demo_packet 10 demo_world.



(** ** Defects *)

(** A failed canary is a class of its own, whose plan has no step: its packet is
    answered recovered and verified although nothing was called. *)
Definition canary_failed_packet : json :=
  JObj [("schema", JStr CONTROL_RECOVERY_SCHEMA); ("failure_class", JStr "CANARY_FAILED_AFTER_RECOVERY");
        ("failure_key", JStr "control:canary")].

Example nothing_done_recovers :
  (λ x, (rr_status x, rr_reason x)) <$>
    match (execute_recovery demo_action (Some demo_canary) canary_failed_packet 10 demo_failing).1 with
    | Ok x => Some x | Raise _ => None end
  = Some (RECOVERED, "RECOVERY_VERIFIED") ∧
  w_calls (execute_recovery demo_action (Some demo_canary) canary_failed_packet 10 demo_failing).2 = [].
Proof. split; vm_compute; reflexivity. Qed.

(** The variable [reason] still says verified when an executor raises: the receipt of
    the failed attempt reads RECOVERY_VERIFIED, and the action that was called is not
    reported. *)
Definition raising_action (action : string) : M (world (D:=string → string)) string :=
  raise (CallbackError "service unreachable").

Example raising_reads_verified :
  (λ x, (rr_status x, rr_reason x, rr_actions_executed x)) <$>
    match (execute_recovery raising_action (Some demo_canary) demo_packet 10 demo_world).1 with
    | Ok x => Some x | Raise _ => None end
  = Some (WAITING_RECOVERY, "RECOVERY_VERIFIED", []) ∧
  w_calls (execute_recovery raising_action (Some demo_canary) demo_packet 10 demo_world).2
  = [("control:poller", "long_lived_poller_reload")].
Proof. split; vm_compute; reflexivity. Qed.

(** Nothing excludes a second process from a run in progress: it begins the next
    attempt at once, and when the first one fails after the second one recovered, the run
    waits again. *)
Definition demo_plan : RecoveryPlan :=
  {| pl_failure_class := LONG_LIVED_POLLER_STALE; pl_failure_key := "control:poller";
     pl_actions := ["long_lived_poller_reload"]; pl_canaries := ["registered_checkout_freshness_canary"];
     pl_queue_reactivation_action := Some "queue_reactivate"; pl_max_attempts := 2;
     pl_backoff_seconds := 60; pl_requires_codegen := false; pl_fingerprint := None;
     pl_response_class := CONTROL_RECOVERY; pl_response_classes := [CONTROL_RECOVERY] |}.

Definition race :=
  let '(first, s1) := begin_attempt demo_plan 10 empty_store in
  let '(second, s2) := begin_attempt demo_plan 11 s1 in
  let s3 := (record_recovered demo_plan CONTROL_RECOVERY 2 11 [] [] s2).2 in
  let s4 := (record_failure demo_plan CONTROL_RECOVERY 1 10 [] [] "RECOVERY_ACTION_FAILED" s3).2 in
  (first, second, run_status s3 "control:poller", run_status s4 "control:poller",
   attempts s4 "control:poller").

Example attempt_race :
  build_recovery_plan (match demo_packet with JObj d => d | _ => [] end) = Ok (Some demo_plan) ∧
  race = (Ok (inr 1), Ok (inr 2), Some "RECOVERED", Some "WAITING_RECOVERY", 1).
Proof. split; vm_compute; reflexivity. Qed.

(** A packet of another schema with the key of a recovered run marks it as the
    operator's case. *)
Example recovered_overwritten :
  run_status (w_store demo_recovery.2) "control:poller" = Some "RECOVERED" ∧
  run_status (w_store (execute_recovery demo_action (Some demo_canary)
    (JObj [("schema", JStr "unknown"); ("failure_key", JStr "control:poller")]) 20 demo_recovery.2).2)
    "control:poller" = Some "NEEDS_OPERATOR".
Proof. split; vm_compute; reflexivity. Qed.
