(* ===== verification/SharedDispatch.v ===== *)
(** * Shared dispatch

    [src/core/shared_dispatch.py]: the typed boundary between the scheduler and the
    routes it may start.  A handler is a computation on a state of its own; the
    route to the loop engine composes with [LoopAdapter], the route to the recovery
    of the control plane with [ControlRecovery], whose executors the caller gives. *)

From S2P Require Import Prelude.
From S2P Require Import PyStr.
From S2P Require Import Json.
From S2P Require Import Sha256.
From S2P Require Import Frozen.
From S2P Require Import PyRepr.
From S2P Require Loop LoopStore LoopEngine LoopAdapter.
From S2P Require ControlRecovery.

Definition DISPATCH_RECEIPT_SCHEMA : string := "skeleton.scheduler_dispatch_receipt.v1".
Definition ROUTE_LOOP_ENGINE_PACKET : string := "loop_engine_packet".
Definition ROUTE_CONTROL_RECOVERY_PACKET : string := ControlRecovery.ROUTE_CONTROL_RECOVERY.
Definition PRIVACY_PUBLIC_SAFE : string := "PUBLIC_SAFE_CODE_AND_SYNTHETIC_TESTS_ONLY".

Record SharedDispatchRequest := {
  rq_occurrence_id : string;
  rq_route_type : string;
  rq_route_id : string;
  rq_payload : json;
  rq_attempt : Z;
  rq_idempotency_key : string;
  rq_parent_receipt_id : option string
}.

Record SharedDispatchResult := {
  rs_status : string;
  rs_reason : string;
  rs_receipt : json;
  rs_evidence_ref : string;
  rs_retryable : bool;
  rs_waiting_dependency : option string;
  rs_next_step : option json
}.

Definition derr (reason_code : string) : exn := SharedDispatchError reason_code.

(** ** Envelopes *)

(** A list of texts, or [e]. *)
Definition text_list (value : json) (e : exn) : result (list string) :=
  match value with
  | JArr l => collect (λ x, match x with JStr s => Ok s | _ => Raise e end) l
  | _ => Raise e
  end.

Definition _validate_policy_envelope (payload : json) (required_capabilities : list string)
    (packet_key : string) : result unit :=
  match payload with
  | JObj d =>
      raise_if (negb (py_eq_str (dict_get d "privacy_boundary") PRIVACY_PUBLIC_SAFE))
        (derr "PRIVACY_BOUNDARY_MISMATCH");;
      raise_if (negb (is_true (dict_get d "bounded"))) (derr "UNBOUNDED_DISPATCH_PAYLOAD");;
      approved ← text_list (field d "approved_capabilities") (derr "INVALID_APPROVED_CAPABILITIES");
      raise_if (negb (forallb (λ c, c ∈? approved) required_capabilities))
        (derr "CAPABILITY_NOT_APPROVED");;
      requested ← text_list (default (JArr []) (dict_get d "requested_capabilities"))
        (derr "INVALID_REQUESTED_CAPABILITIES");
      raise_if (negb (forallb (λ c, c ∈? approved) requested)) (derr "CAPABILITY_NOT_APPROVED");;
      raise_if (negb (has_key d packet_key)) (derr "MISSING_TYPED_TASK_PACKET")
  | _ => Raise (derr "INVALID_DISPATCH_PAYLOAD")
  end.

(** ** Receipts *)
Definition _wrap_receipt (request : SharedDispatchRequest) (route_receipt : list (string * json))
    : list (string * json) :=
  [("schema", JStr DISPATCH_RECEIPT_SCHEMA); ("occurrence_id", JStr (rq_occurrence_id request));
   ("route_type", JStr (rq_route_type request)); ("route_id", JStr (rq_route_id request));
   ("attempt", JInt (rq_attempt request)); ("idempotency_key", JStr (rq_idempotency_key request));
   ("parent_receipt_id", jopt (rq_parent_receipt_id request)); ("route_receipt", JObj route_receipt);
   ("public_safe", JBool true); ("external_side_effects_executed", JBool false)].

Definition _evidence_ref (request : SharedDispatchRequest) (receipt : list (string * json))
    : result string :=
  encoded ← canonical_json (JObj [("idempotency_key", JStr (rq_idempotency_key request));
                                  ("receipt", JObj receipt)]);
  Ok ("dispatch:" +:+ text_hash encoded).

Definition blocked_fields (reason : string) : list (string * json) :=
  [("status", JStr "BLOCKED"); ("accepted", JBool false); ("decision", JStr "REJECT");
   ("reason", JStr reason); ("public_safe", JBool true);
   ("external_side_effects_executed", JBool false)].

(** A result without a dependency. *)
Definition dispatch_result (status reason : string) (receipt : list (string * json))
    (evidence_ref : string) (retryable : bool) (next_step : option json) : SharedDispatchResult :=
  {| rs_status := status; rs_reason := reason; rs_receipt := JObj receipt;
     rs_evidence_ref := evidence_ref; rs_retryable := retryable; rs_waiting_dependency := None;
     rs_next_step := next_step |}.

Definition _blocked_result (request : SharedDispatchRequest) (reason : string) (retryable : bool)
    : result SharedDispatchResult :=
  let receipt := _wrap_receipt request (blocked_fields reason) in
  evidence ← _evidence_ref request receipt;
  Ok (dispatch_result "failed" reason receipt evidence retryable None).

Definition _safe_reason (value : json) (default : string) : string :=
  match value with
  | JStr s => if truthy s && negb (longer 128 s) then s else default
  | _ => default
  end.

(** The payload of the next step of a deterministic workflow, if there is one. *)
Definition _next_step (payload : list (string * json)) : option json :=
  match field payload "deterministic_workflow" with
  | JObj workflow =>
      match field workflow "steps", field workflow "index" with
      | JArr steps, JInt index =>
          if (index <? 0) || (Z.of_nat (length steps) <=? index + 1) then None
          else match steps !! Z.to_nat (index + 1) with
               | Some (JObj candidate) =>
                   Some (JObj (List.filter
                     (λ f, f.1 ∉? ["task_packet"; "deterministic_workflow"; "wait_for"]) payload
                     ++ [("task_packet", JObj candidate);
                         ("deterministic_workflow",
                          JObj [("steps", JArr steps); ("index", JInt (index + 1))])]))
               | _ => None
               end
      | _, _ => None
      end
  | _ => None
  end.

Definition RETRYABLE_REASONS : list string :=
  ["LOOP_STATE_CONFLICT"; "LOOP_STATE_STORE_BLOCKED"; "DISPATCH_HANDLER_RAISED"].

Definition _result_from_receipt (request : SharedDispatchRequest) (receipt : json)
    : result SharedDispatchResult :=
  match receipt with
  | JObj d =>
      let reason := _safe_reason (field d "reason") "DISPATCH_RESULT" in
      evidence_ref ← _evidence_ref request d;
      status ← py_str (or_empty (field d "status"));
      let accepted := is_true (dict_get d "accepted") in
      let decision := field d "decision" in
      let wrapped := _wrap_receipt request d in
      if status == "WAITING_RECOVERY" then Ok (dispatch_result "failed" reason wrapped evidence_ref true None)
      else if negb accepted || (status ∈? ["BLOCKED"; "failed"; "FAILED"])
              || py_eq_str (Some decision) "REJECT"
      then Ok (dispatch_result "failed" reason wrapped evidence_ref (reason ∈? RETRYABLE_REASONS) None)
      else
        operator ← in_set decision ["ESCALATE"; "REVIEW"];
        if operator || (status ∈? ["NEEDS_OPERATOR"; "HUMAN_REVIEW"])
        then Ok (dispatch_result "needs_operator" reason wrapped evidence_ref false None)
        else Ok (dispatch_result "done" reason wrapped evidence_ref false
                   (match rq_payload request with JObj p => _next_step p | _ => None end))
  | _ => _blocked_result request "DISPATCH_RECEIPT_SCHEMA_MISMATCH" false
  end.

(** ** The dispatcher *)
Section dispatcher.
Context {D : Type}.

Record DispatchRoute := {
  required_capabilities : list string;
  handler : SharedDispatchRequest → M D json;
  packet_key : string
}.

(** [self._routes], from a route's type and id. *)
Definition routes : Type := list (string * string * DispatchRoute).

Definition find_route (rs : routes) (type id : string) : option DispatchRoute :=
  snd <$> List.find (λ r, r.1 == (type, id)) rs.

Definition _validate_request (rs : routes) (request : SharedDispatchRequest)
    : result DispatchRoute :=
  raise_if (rq_attempt request <=? 0) (derr "INVALID_ATTEMPT");;
  route ← some_or (find_route rs (rq_route_type request) (rq_route_id request))
    (derr "ROUTE_NOT_ALLOWLISTED");
  _validate_policy_envelope (rq_payload request) (required_capabilities route) (packet_key route);;
  Ok route.

Definition dispatch (rs : routes) (request : SharedDispatchRequest) : M D SharedDispatchResult :=
  catch
    (route ← lift (_validate_request rs request);
     receipt ← handler route request;
     lift (_result_from_receipt request receipt))
    (λ e, match e with
          | SharedDispatchError reason_code => lift (_blocked_result request reason_code false)
          | _ => lift (_blocked_result request "DISPATCH_HANDLER_RAISED" true)
          end).
End dispatcher.
Arguments DispatchRoute : clear implicits.
Arguments routes : clear implicits.

(** ** The route to the loop engine *)
Definition loop_receipt_fields (r : LoopAdapter.receipt) : list (string * json) :=
  [("schema", JStr LoopAdapter.LOOP_RUNNER_RESULT_SCHEMA); ("status", JStr (LoopAdapter.rc_status r));
   ("action", jopt (LoopAdapter.rc_action r)); ("task_id", jopt (LoopAdapter.rc_task_id r));
   ("run_id", jopt (LoopAdapter.rc_run_id r));
   ("version", match LoopAdapter.rc_version r with None => JNull | Some z => JInt z end);
   ("loop_state", JStr (LoopAdapter.rc_loop_state r)); ("event", jopt (LoopAdapter.rc_event r));
   ("accepted", JBool (LoopAdapter.rc_accepted r)); ("decision", JStr (LoopAdapter.rc_decision r));
   ("reason", JStr (LoopAdapter.rc_reason r));
   ("context_hash", jopt (LoopAdapter.rc_context_hash r)); ("public_safe", JBool true);
   ("external_side_effects_executed", JBool false)].

(** [LoopEngine(store, LoopPolicy())]: the default policy, no event graph. *)
Definition default_engine : LoopEngine.LoopEngine unit :=
  {| LoopEngine.le_policy := Loop.default_bounded; LoopEngine.le_domain_event_graph := None |}.

Definition loop_handler (request : SharedDispatchRequest) : M (LoopEngine.world unit) json :=
  let task_packet := match rq_payload request with JObj p => field p "task_packet" | _ => JNull end in
  receipt ← LoopAdapter.run_loop_task_packet default_engine task_packet;
  mret (JObj (loop_receipt_fields receipt)).

Definition for_loop_engine : routes (LoopEngine.world unit) :=
  [(("loop", ROUTE_LOOP_ENGINE_PACKET),
    {| required_capabilities := ["loop:state_write"]; handler := loop_handler;
       packet_key := "task_packet" |})].

(** ** The route to the recovery of the control plane *)
Section control_recovery.
Context {D : Type} (action_executor : string → M (ControlRecovery.world (D:=D)) string)
  (canary_executor : option (string → M (ControlRecovery.world (D:=D)) bool)) (now : option Z).

Definition recovery_packet (request : SharedDispatchRequest) : json :=
  match rq_payload request with
  | JObj p => default (JObj []) (dict_get p "recovery_packet")
  | _ => JObj []
  end.

(** Without a clock the time of a recovery is the number of the attempt. *)
Definition recovery_handler (request : SharedDispatchRequest) : M (ControlRecovery.world (D:=D)) json :=
  ControlRecovery.execute_recovery_packet action_executor canary_executor (recovery_packet request)
    (default (rq_attempt request) now).

Definition for_control_recovery : routes (ControlRecovery.world (D:=D)) :=
  [(("workflow", ROUTE_CONTROL_RECOVERY_PACKET),
    {| required_capabilities := ["control:recovery"]; handler := recovery_handler;
       packet_key := "recovery_packet" |})].
End control_recovery.

(** ** What a result means *)
Section results.
Context {D : Type} (rs : routes D).

Lemma wrap_ints request d :
  json_ints (JObj (_wrap_receipt request d)) = rq_attempt request :: json_ints (JObj d).
Proof.
  unfold _wrap_receipt. cbn [json_ints map concat snd app].
  destruct (rq_parent_receipt_id request); cbn [jopt json_ints app]; by rewrite !app_nil_r.
Qed.

Lemma evidence_ok request d : existsb too_long (json_ints (JObj d)) = false →
  ∃ e, _evidence_ref request d = Ok e.
Proof.
  intros H. unfold _evidence_ref, canonical_json. cbn [json_ints map concat snd app] in *.
  rewrite app_nil_r. rewrite H. by eexists.
Qed.

Definition short_attempt (request : SharedDispatchRequest) : Prop := too_long (rq_attempt request) = false.

(** A blocked result always comes out. *)
Lemma blocked_result_ok request reason retryable : short_attempt request →
  ∃ e, _blocked_result request reason retryable =
    Ok (dispatch_result "failed" reason (_wrap_receipt request (blocked_fields reason)) e retryable None).
Proof.
  intros Hs. unfold _blocked_result.
  destruct (evidence_ok request (_wrap_receipt request (blocked_fields reason))) as [e ->].
  - rewrite wrap_ints. cbn. by rewrite Hs.
  - by exists e.
Qed.

(** The receipts of handlers that complete a request. *)
Definition completes (d : list (string * json)) : Prop :=
  is_true (dict_get d "accepted") = true ∧
  (∀ s, field d "status" = JStr s →
     s ∉ ["WAITING_RECOVERY"; "BLOCKED"; "failed"; "FAILED"; "NEEDS_OPERATOR"; "HUMAN_REVIEW"]) ∧
  ∀ s, field d "decision" = JStr s → s ∉ ["REJECT"; "ESCALATE"; "REVIEW"].

Inductive answers (request : SharedDispatchRequest) (d : list (string * json)) : SharedDispatchResult → Prop :=
  | an_failed reason e retryable :
      answers request d (dispatch_result "failed" reason (_wrap_receipt request d) e retryable None)
  | an_operator reason e :
      answers request d (dispatch_result "needs_operator" reason (_wrap_receipt request d) e false None)
  | an_done reason e next :
      completes d →
      answers request d (dispatch_result "done" reason (_wrap_receipt request d) e false next).

Lemma status_text d s : field d "status" = JStr s → py_str (or_empty (field d "status")) = Ok s.
Proof. intros ->. done. Qed.

Lemma result_answers request d r :
  _result_from_receipt request (JObj d) = Ok r → answers request d r.
Proof.
  unfold _result_from_receipt. cbv zeta. intros (e & _ & H)%result_bind_ok.
  apply result_bind_ok in H as (status & Hst & H).
  destruct (status == "WAITING_RECOVERY") eqn:E1; [injection H as <-; constructor|].
  destruct (negb (is_true (dict_get d "accepted"))) eqn:E2; [injection H as <-; constructor|].
  destruct (status ∈? _) eqn:E3; [injection H as <-; constructor|].
  destruct (py_eq_str (Some (field d "decision")) "REJECT") eqn:E4; [injection H as <-; constructor|].
  cbn [orb] in H. apply result_bind_ok in H as (operator & Hop & H).
  destruct operator; [injection H as <-; constructor|]. cbn [orb] in H.
  destruct (status ∈? ["NEEDS_OPERATOR"; "HUMAN_REVIEW"]) eqn:E5; [injection H as <-; constructor|].
  injection H as <-. apply bool_decide_eq_false in E1, E3, E5. apply negb_false_iff in E2.
  constructor. split_and!; [done| |].
  - intros s Hs. rewrite (status_text _ _ Hs) in Hst. injection Hst as <-.
    rewrite !elem_of_cons in *. tauto.
  - intros s Hs. rewrite Hs in E4, Hop. cbn in E4, Hop. injection Hop as Hop.
    apply bool_decide_eq_false in E4, Hop. rewrite !elem_of_cons in *. tauto.
Qed.

Inductive outcome_of (request : SharedDispatchRequest) (w : D) : SharedDispatchResult → D → Prop :=
  | oc_refused reason_code e :
      _validate_request rs request = Raise (derr reason_code) →
      outcome_of request w (dispatch_result "failed" reason_code
        (_wrap_receipt request (blocked_fields reason_code)) e false None) w
  | oc_raised route reason e retryable w' :
      _validate_request rs request = Ok route →
      (∀ d, (handler route request w).1 = Ok (JObj d) → is_ok (_result_from_receipt request (JObj d)) = false) →
      (handler route request w).2 = w' →
      outcome_of request w (dispatch_result "failed" reason
        (_wrap_receipt request (blocked_fields reason)) e retryable None) w'
  | oc_answer route d r w' :
      _validate_request rs request = Ok route → handler route request w = (Ok (JObj d), w') →
      answers request d r → outcome_of request w r w'.

Lemma text_list_raises v e e' : (∃ c, e = derr c) → text_list v e = Raise e' → ∃ c, e' = derr c.
Proof.
  intros [c ->]. unfold text_list. destruct v as [| | | | |l|]; try (intros [= <-]; by exists c).
  induction l as [|x l IH]; [discriminate|]. cbn.
  destruct x; try (intros [= <-]; by exists c). cbn. destruct (collect _ l); [discriminate|]. apply IH.
Qed.

Lemma validate_raises_derr request e : _validate_request rs request = Raise e → ∃ c, e = derr c.
Proof.
  assert (Hif : ∀ b c e', raise_if b (derr c) = Raise e' → ∃ c, e' = derr c)
    by (intros b c e' [_ ->]%raise_if_raise; by exists c).
  assert (Hbind : ∀ {A B} (m : result A) (k : A → result B) e', (m ≫= k) = Raise e' →
    m = Raise e' ∨ ∃ a, k a = Raise e') by (intros A B [a|x] k e'; cbn; [eauto|intros [= ->]; by left]).
  unfold _validate_request, _validate_policy_envelope.
  intros [?%Hif|[_ H]]%Hbind; [done|]. apply Hbind in H as [H|[route H]].
  { destruct (find_route _ _ _); [discriminate|]. injection H as <-. by eexists. }
  apply Hbind in H as [H|[_ H]]; [|discriminate].
  destruct (rq_payload request) as [| | | | | |d]; try (injection H as <-; by eexists).
  apply Hbind in H as [?%Hif|[_ H]]; [done|]. apply Hbind in H as [?%Hif|[_ H]]; [done|].
  apply Hbind in H as [H|[l H]]; [eapply text_list_raises, H; by eexists|].
  apply Hbind in H as [?%Hif|[_ H]]; [done|].
  apply Hbind in H as [H|[l' H]]; [eapply text_list_raises, H; by eexists|].
  apply Hbind in H as [?%Hif|[_ H]]; [done|]. by apply Hif in H.
Qed.

(** Every request gets a result, and what it says is what happened. *)
Lemma dispatch_outcome request w : short_attempt request →
  ∃ r w', dispatch rs request w = (Ok r, w') ∧ outcome_of request w r w'.
Proof.
  intros Hs. unfold dispatch, catch, lift, mbind, M_bind.
  destruct (_validate_request rs request) as [route|e] eqn:Hv.
  2: { destruct (validate_raises_derr _ _ Hv) as [c ->]. cbn [derr].
       destruct (blocked_result_ok request c false Hs) as [e E]. rewrite E.
       do 2 eexists. split; [done|]. by apply oc_refused. }
  assert (Hraised : ∀ e w1, (handler route request w).2 = w1 →
    (∀ d, (handler route request w).1 = Ok (JObj d) → is_ok (_result_from_receipt request (JObj d)) = false) →
    ∃ r w', match e with
            | SharedDispatchError c => (_blocked_result request c false, w1)
            | _ => (_blocked_result request "DISPATCH_HANDLER_RAISED" true, w1)
            end = (Ok r, w') ∧ outcome_of request w r w').
  { intros e w1 Hw Hno.
    destruct e; (edestruct (blocked_result_ok request) as [x E]; [exact Hs|rewrite E]);
      (do 2 eexists; split; [done|]; by eapply oc_raised). }
  destruct (handler route request w) as [[receipt|e] w1] eqn:Hh; cbn [fst snd] in Hraised.
  2: { destruct (Hraised e w1) as (r & w' & E & Ho); [done|discriminate|].
       exists r, w'. split; [|done]. rewrite <-E. by destruct e. }
  destruct (_result_from_receipt request receipt) as [r|e] eqn:Hr.
  - exists r, w1. split; [done|]. destruct receipt as [| | | | | |d];
      try (destruct (blocked_result_ok request "DISPATCH_RECEIPT_SCHEMA_MISMATCH" false Hs) as [x E];
           cbn [_result_from_receipt] in Hr; rewrite E in Hr; injection Hr as <-;
           eapply oc_raised; [done|by rewrite Hh|by rewrite Hh]).
    eapply oc_answer; [done..|]. by apply result_answers.
  - destruct (Hraised e w1) as (r & w' & E & Ho); [done| |].
    + intros d [= ->]. by rewrite Hr.
    + exists r, w'. split; [|done]. rewrite <-E. by destruct e.
Qed.
End results.

(** ** Properties *)

(** What the policy envelope of a payload promises. *)
Record envelope_ok (required : list string) (packet_key : string) (p : list (string * json)) : Prop := {
  ev_privacy : dict_get p "privacy_boundary" = Some (JStr PRIVACY_PUBLIC_SAFE);
  ev_bounded : dict_get p "bounded" = Some (JBool true);
  ev_approved : ∃ approved, field p "approved_capabilities" = JArr (map JStr approved) ∧
    (∀ c, c ∈ required → c ∈ approved) ∧
    ∃ requested, default (JArr []) (dict_get p "requested_capabilities") = JArr (map JStr requested) ∧
      ∀ c, c ∈ requested → c ∈ approved;
  ev_packet : packet_key ∈ p.*1
}.

Lemma text_list_ok v e l : text_list v e = Ok l → v = JArr (map JStr l).
Proof.
  unfold text_list. destruct v as [| | | | |items|]; try discriminate. intros H. f_equal.
  revert l H. induction items as [|x items IH]; intros l; cbn; [by intros [= <-]|].
  intros (s & Hs & H)%result_bind_ok. apply result_bind_ok in H as (ys & Hys & [= <-]).
  destruct x; try discriminate. injection Hs as <-. cbn. f_equal. by apply IH.
Qed.

Lemma envelope_valid payload required key u :
  _validate_policy_envelope payload required key = Ok u →
  ∃ p, payload = JObj p ∧ envelope_ok required key p.
Proof.
  unfold _validate_policy_envelope. destruct payload as [| | | | | |p]; try discriminate.
  rewrite !seq_ok, !raise_if_ok. intros (Hp & Hb & H).
  apply result_bind_ok in H as (approved & Ha%text_list_ok & H). rewrite seq_ok, raise_if_ok in H.
  destruct H as (Hreq & H). apply result_bind_ok in H as (requested & Hr%text_list_ok & H).
  rewrite seq_ok, !raise_if_ok in H. destruct H as (Hsub & Hk).
  apply negb_false_iff in Hp, Hb, Hreq, Hsub, Hk. exists p. split; [done|]. split.
  - unfold py_eq_str in Hp. destruct (dict_get p "privacy_boundary") as [[]|]; try discriminate.
    apply bool_decide_eq_true in Hp as ->. done.
  - unfold is_true in Hb. by destruct (dict_get p "bounded") as [[|[]| | | | |]|].
  - exists approved. split; [done|]. split; [by apply forallb_mem|]. exists requested. split; [done|].
    by apply forallb_mem.
  - by apply bool_decide_eq_true in Hk.
Qed.

Lemma validated {D} (rs : routes D) request route : _validate_request rs request = Ok route →
  0 < rq_attempt request ∧ find_route rs (rq_route_type request) (rq_route_id request) = Some route ∧
  ∃ p, rq_payload request = JObj p ∧ envelope_ok (required_capabilities route) (packet_key route) p.
Proof.
  unfold _validate_request. rewrite seq_ok, raise_if_ok, Z.leb_gt. intros [Ha H].
  apply result_bind_ok in H as (x & Hf%some_or_ok & H). rewrite seq_ok in H.
  destruct H as [Hv [= ->]]. by apply envelope_valid in Hv.
Qed.

(** C19. The boundary is total and fails closed: every request gets a result and no
    exception; a request the envelope does not authorize never reaches a handler
    and is not retried; a handler that raises or answers with something else than
    a receipt makes a failure; and done is only said of a public-safe, bounded
    payload whose capabilities are approved, sent to an allowlisted route whose
    handler accepted it in a receipt without a blocking status or decision. *)
Theorem shared_dispatch_sound {D} (rs : routes D) request w : short_attempt request →
  ∃ r w', dispatch rs request w = (Ok r, w') ∧ outcome_of rs request w r w' ∧
    (rs_status r = "done" → ∃ route p d,
       find_route rs (rq_route_type request) (rq_route_id request) = Some route ∧
       rq_payload request = JObj p ∧ envelope_ok (required_capabilities route) (packet_key route) p ∧
       handler route request w = (Ok (JObj d), w') ∧ completes d ∧
       rs_receipt r = JObj (_wrap_receipt request d)).
Proof.
  intros Hs. destruct (dispatch_outcome rs request w Hs) as (r & w' & E & Ho). exists r, w'.
  split; [done|]. split; [done|]. intros Hd. destruct Ho as [| |route d r w' Hv Hh Ha]; try discriminate.
  destruct (validated _ _ _ Hv) as (_ & Hf & p & Hp & He). exists route, p, d.
  destruct Ha; try discriminate. by split_and!.
Qed.

Lemma loop_handler_performed σ (w : LoopEngine.world unit) request d w' :
  LoopStore.represents σ w.1 → loop_handler request w = (Ok (JObj d), w') →
  is_true (dict_get d "accepted") = true →
  ∃ k σ' rc, match rq_payload request with JObj p => field p "task_packet" | _ => JNull end = JObj k ∧
    LoopStore.represents σ' w'.1 ∧ LoopAdapter.performed default_engine k σ σ' rc ∧
    LoopAdapter.rc_accepted rc = true ∧ d = loop_receipt_fields rc.
Proof.
  intros Hrep H Ha. unfold loop_handler in H. cbv zeta in H.
  apply M_bind_ok in H as (rc & w1 & Hrun & [= <- <-]).
  apply (LoopAdapter.adapter_outcome default_engine eq_refl σ) in Hrun; [|done].
  assert (Hacc : dict_get (loop_receipt_fields rc) "accepted" = Some (JBool (LoopAdapter.rc_accepted rc))).
  { apply dict_get_nodup; [by_decide|]. unfold loop_receipt_fields. repeat first [left | right]. }
  rewrite Hacc in Ha. destruct (LoopAdapter.rc_accepted rc) eqn:E; [|discriminate].
  destruct Hrun as [[[Hb _] _]|(k & σ' & Hk & Hrep' & Ht)]; [congruence|]. by exists k, σ', rc.
Qed.

(** C20. Composed with the loop engine, done means the work of this request: its
    packet asked to create a run that was not there, and the tables now hold it; or
    it asked for a step of a run at the version that run had, and the tables now hold
    the controller's accepted answer to its event, time and budget at the end of
    the run's log.  Nothing else changed, and the receipt reports that run - its
    version, its state and its context hash - as it is stored. *)
Theorem loop_dispatch_truthful σ (w : LoopEngine.world unit) request :
  LoopStore.represents σ w.1 → short_attempt request →
  ∃ r w', dispatch for_loop_engine request w = (Ok r, w') ∧
    (rs_status r = "done" → ∃ p k σ' rc,
       rq_payload request = JObj p ∧ field p "task_packet" = JObj k ∧
       LoopStore.represents σ' w'.1 ∧ LoopAdapter.performed default_engine k σ σ' rc ∧
       LoopAdapter.rc_accepted rc = true ∧
       rs_receipt r = JObj (_wrap_receipt request (loop_receipt_fields rc))).
Proof.
  intros Hrep Hs. destruct (dispatch_outcome for_loop_engine request w Hs) as (r & w' & E & Ho).
  exists r, w'. split; [done|]. intros Hd.
  destruct Ho as [| |route d r w' Hv Hh Ha]; try discriminate.
  destruct (validated _ _ _ Hv) as (_ & Hf & p & Hp & _).
  assert (Hroute : handler route = loop_handler).
  { unfold find_route in Hf. cbn [for_loop_engine List.find] in Hf.
    destruct (_ == _); [by injection Hf as <-|discriminate]. }
  rewrite Hroute in Hh. destruct Ha as [| |reason e next [Hacc _]]; try discriminate.
  destruct (loop_handler_performed σ w request d w' Hrep Hh Hacc) as (k & σ' & rc & Hk & ? & ? & ? & ->).
  rewrite Hp in Hk. by exists p, k, σ', rc.
Qed.

(** Composed with the recovery of the control plane, done means recovered: the
    receipt is that of a recovery of the packet, whose run was recovered before or is
    verified now. *)
Theorem recovery_dispatch_recovered {D} ax cx now (w : ControlRecovery.world (D:=D)) request :
  short_attempt request →
  ∃ r w', dispatch (for_control_recovery ax cx now) request w = (Ok r, w') ∧
    (rs_status r = "done" → ∃ x d,
       ControlRecovery.execute_recovery ax cx (recovery_packet request)
         (default (rq_attempt request) now) w = (Ok x, w') ∧
       ControlRecovery.rr_status x = ControlRecovery.RECOVERED ∧
       ControlRecovery.as_mapping x = JObj d ∧ rs_receipt r = JObj (_wrap_receipt request d)).
Proof.
  intros Hs. destruct (dispatch_outcome (for_control_recovery ax cx now) request w Hs) as (r & w' & E & Ho).
  exists r, w'. split; [done|]. intros Hd.
  destruct Ho as [| |route d r w' Hv Hh Ha]; try discriminate.
  destruct (validated _ _ _ Hv) as (_ & Hf & _).
  assert (Hroute : handler route = recovery_handler ax cx now).
  { unfold find_route in Hf. cbn [for_control_recovery List.find] in Hf.
    destruct (_ == _); [by injection Hf as <-|discriminate]. }
  rewrite Hroute in Hh. destruct Ha as [| |reason e next [Hacc _]]; try discriminate.
  unfold recovery_handler, ControlRecovery.execute_recovery_packet in Hh.
  apply M_bind_ok in Hh as (x & w1 & Hx & [= Hmap <-]). exists x, d. split_and!; [done| |by rewrite <-Hmap|done].
  assert (Ha : dict_get d "accepted" = Some (JBool (bool_decide (ControlRecovery.rr_status x = ControlRecovery.RECOVERED)))).
  { subst d. apply dict_get_nodup; [by_decide|]. repeat first [left | right]. }
  rewrite Ha in Hacc. cbn in Hacc. by destruct (bool_decide_reflect (ControlRecovery.rr_status x = ControlRecovery.RECOVERED)).
Qed.

(** ** Witnesses *)
Definition demo_request : SharedDispatchRequest :=
  {| rq_occurrence_id := "occ_a"; rq_route_type := "loop"; rq_route_id := ROUTE_LOOP_ENGINE_PACKET;
     rq_payload := JObj [("privacy_boundary", JStr PRIVACY_PUBLIC_SAFE); ("bounded", JBool true);
       ("approved_capabilities", JArr [JStr "loop:state_write"]);
       ("task_packet", LoopAdapter.demo_packet 5)];
     rq_attempt := 1; rq_idempotency_key := "occ_a:attempt:1"; rq_parent_receipt_id := None |}.

Definition demo_loops : LoopEngine.world unit := (LoopStore.empty_store, tt).

Definition result_status (r : result SharedDispatchResult) : string :=
  match r with Ok r => rs_status r | Raise _ => "" end.

Lemma demo_done : result_status (dispatch for_loop_engine demo_request demo_loops).1 = "done".
Proof. vm_compute. reflexivity. Qed.

Lemma shared_dispatch_sound_witness :
  ∃ r w', dispatch for_loop_engine demo_request demo_loops = (Ok r, w') ∧
    outcome_of for_loop_engine demo_request demo_loops r w'.
Proof.
  destruct (shared_dispatch_sound for_loop_engine demo_request demo_loops eq_refl)
    as (r & w' & E & Ho & _).
  exists r, w'. split; [exact E|exact Ho].
Defined.

Lemma loop_dispatch_truthful_witness :
  ∃ r w' k σ' rc, dispatch for_loop_engine demo_request demo_loops = (Ok r, w') ∧
    LoopStore.represents σ' w'.1 ∧ LoopAdapter.performed default_engine k ∅ σ' rc.
Proof.
  destruct (loop_dispatch_truthful ∅ demo_loops demo_request LoopStore.represents_empty eq_refl)
    as (r & w' & E & H).
  pose proof demo_done as Hd. rewrite E in Hd.
  destruct (H Hd) as (p & k & σ' & rc & _ & _ & Hr & Ht & _). exists r, w', k, σ', rc.
  split; [exact E|]. split; [exact Hr|exact Ht].
Defined.

Definition recovery_request (attempt : Z) : SharedDispatchRequest :=
  {| rq_occurrence_id := "occ_a"; rq_route_type := "workflow"; rq_route_id := ROUTE_CONTROL_RECOVERY_PACKET;
     rq_payload := JObj [("privacy_boundary", JStr PRIVACY_PUBLIC_SAFE); ("bounded", JBool true);
       ("approved_capabilities", JArr [JStr "control:recovery"]);
       ("recovery_packet", ControlRecovery.demo_packet)];
     rq_attempt := attempt; rq_idempotency_key := "occ_a:attempt"; rq_parent_receipt_id := None |}.

Definition demo_recovery (attempt : Z) :=
  dispatch (for_control_recovery ControlRecovery.demo_action (Some ControlRecovery.demo_canary) None)
    (recovery_request attempt).

Lemma recovery_dispatch_recovered_witness : ∃ r w',
  demo_recovery 1 ControlRecovery.demo_world = (Ok r, w') ∧
  (rs_status r = "done" → ∃ x, ControlRecovery.rr_status x = ControlRecovery.RECOVERED).
Proof.
  destruct (recovery_dispatch_recovered ControlRecovery.demo_action (Some ControlRecovery.demo_canary) None
    ControlRecovery.demo_world (recovery_request 1) eq_refl) as (r & w' & E & H).
  exists r, w'. split; [exact E|]. intros Hd. destruct (H Hd) as (x & d & _ & Hx & _). exists x. exact Hx.
Defined.

Example recovery_route_done : result_status (demo_recovery 1 ControlRecovery.demo_world).1 = "done".
Proof. vm_compute. reflexivity. Qed.

(** Without a clock an attempt after a failure is always inside the backoff, since the
    attempts of a dispatch are few: the executors are called once, in the first. *)
Example attempt_is_no_clock :
  let w1 := (demo_recovery 1 ControlRecovery.demo_failing).2 in
  let w2 := (demo_recovery 2 w1).2 in
  let w60 := (demo_recovery 60 w2).2 in
  ControlRecovery.calls_of "control:poller" w1 = 1 ∧ ControlRecovery.calls_of "control:poller" w60 = 1 ∧
  ControlRecovery.calls_of "control:poller" (demo_recovery 61 w60).2 = 2.
Proof. cbv zeta. split_and!; vm_compute; reflexivity. Qed.
