(* ===== verification/ScheduleEngine.v ===== *)
(** * The scheduler engine

    [src/core/scheduler_engine.py]: a tick recovers stale claims, resumes what waited,
    turns the due times of every enabled schedule into occurrences and dispatches
    pending ones.  The dispatcher is a computation on a state of its own; the
    domain event graph (core/domain_event_graph.py) is an injected collaborator.
    While a dispatch runs, the heartbeat thread renews the claim and other processes
    use the store: [during] lists, for each request, the heartbeats (the reading of
    the clock at each) and the calls of others, in the order they commit. *)

From S2P Require Import Prelude.
From S2P Require Import PyStr.
From S2P Require Import Json.
From S2P Require Import Frozen.
From S2P Require Import PyRepr.
From S2P Require Import Schedule.
From S2P Require Import ScheduleStore.
From S2P Require Import SharedDispatch.

Record SchedulerEngineConfig := {
  max_lookback_seconds : Z;
  max_occurrences_per_schedule : Z;
  misfire_grace_seconds : Z;
  stale_running_after_seconds : Z;
  max_dispatches_per_tick : Z;
  max_attempts : Z;
  initial_lease_seconds : Z;
  heartbeat_interval_seconds : Z
}.

Definition default_config : SchedulerEngineConfig :=
  {| max_lookback_seconds := 24 * 60 * 60; max_occurrences_per_schedule := 256;
     misfire_grace_seconds := 120; stale_running_after_seconds := 60 * 60;
     max_dispatches_per_tick := 16; max_attempts := 2; initial_lease_seconds := 60 * 60;
     heartbeat_interval_seconds := 60 |}.

(** [SchedulerEngineConfig.__post_init__] *)
Definition new_config (c : SchedulerEngineConfig) : result SchedulerEngineConfig :=
  each (λ value, raise_if (value <=? 0) (ValueError "must be a positive integer"))
    [max_lookback_seconds c; max_occurrences_per_schedule c; misfire_grace_seconds c;
     stale_running_after_seconds c; max_dispatches_per_tick c; max_attempts c;
     initial_lease_seconds c; heartbeat_interval_seconds c];;
  raise_if (initial_lease_seconds c <=? heartbeat_interval_seconds c)
    (ValueError "heartbeat_interval_seconds must be less than initial_lease_seconds");;
  Ok c.

(** What commits in the store while a dispatch runs. *)
Inductive during := Beat (now : Z) | Other (c : store_call).

(** [Counter]: the keys as they were counted. *)
Definition count (key : string) (counted : list string) : Z :=
  Z.of_nat (length (List.filter (λ k, k == key) counted)).

Record DispatchCounts := {
  dc_claimed : Z;
  dc_done : Z;
  dc_retried : Z;
  dc_waiting_dependency : Z;
  dc_needs_operator : Z;
  dc_failed : Z;
  dc_continued : Z
}.

Definition dispatch_counts (counted : list string) : DispatchCounts :=
  {| dc_claimed := count "claimed" counted; dc_done := count "done" counted;
     dc_retried := count "retried" counted;
     dc_waiting_dependency := count "waiting_dependency" counted;
     dc_needs_operator := count "needs_operator" counted; dc_failed := count "failed" counted;
     dc_continued := count "continued" counted |}.

(** The tick receipt; its schema, status and privacy fields are constants. *)
Record TickReceipt := {
  tr_evaluated_schedules : Z;
  tr_created_occurrences : Z;
  tr_replayed_occurrences : Z;
  tr_retried_stale_running : Z;
  tr_stale_running_needs_operator : Z;
  tr_finalized_stale_running : Z;
  tr_resumed_waiting_dependencies : Z;
  tr_dispatch : DispatchCounts;
  tr_states : list (string * Z)
}.

Definition _dispatch_is_ambiguous_mutating (value : json) : bool := _receipt_is_ambiguous_mutating value.

(** [value.get(key, default)] of an object, [AttributeError] of anything else. *)
Definition get_or (value : json) (key : string) (absent : json) : result json :=
  match value with
  | JObj d => Ok (default absent (dict_get d key))
  | _ => Raise (AttributeError "get")
  end.

(** [proposal.get("payload", {}).get("wait_for")], if it is a text. *)
Definition dispatch_dependency (proposal : json) : result (option string) :=
  payload ← get_or proposal "payload" (JObj []);
  dependency ← get_or payload "wait_for" JNull;
  Ok (match dependency with JStr s => Some s | _ => None end).

Section engine.
Context (ZoneInfo : string → result (Z → Z)) {G D : Type}.

Record SchedulerEngine := {
  en_config : SchedulerEngineConfig;
  en_owner : string;
  (** [record_scheduler_dependency(occurrence_ref, dependency_ref, observed_at,
      idempotency_key)] *)
  en_domain_event_graph : option (string → string → Z → string → M G unit)
}.

Record world := { w_store : SchedulerStore; w_graph : G; w_dispatch : D }.

Definition on_store {A} (m : M SchedulerStore A) : M world A :=
  zoom w_store (λ s w, {| w_store := s; w_graph := w_graph w; w_dispatch := w_dispatch w |}) m.
Definition on_graph {A} (m : M G A) : M world A :=
  zoom w_graph (λ g w, {| w_store := w_store w; w_graph := g; w_dispatch := w_dispatch w |}) m.
Definition on_dispatch {A} (m : M D A) : M world A :=
  zoom w_dispatch (λ d w, {| w_store := w_store w; w_graph := w_graph w; w_dispatch := d |}) m.

Context (self : SchedulerEngine) (dispatcher : SharedDispatchRequest → M D SharedDispatchResult)
  (during_dispatch : SharedDispatchRequest → list during).

(** ** Occurrences of a tick *)
Definition _apply_misfire_policy (schedule : StoredSchedule) (due : list Z) (now : Z)
    : list (Z * option (string * string)) :=
  let late t := misfire_grace_seconds (en_config self) <? now - t in
  let delayed := List.filter late due in
  let on_time := List.filter (λ t, negb (late t)) due in
  let policy := misfire_policy (spec schedule) in
  (if policy == "skip" then map (λ t, (t, Some ("skipped", "MISFIRE_SKIP"))) delayed
   else if policy == "needs_operator"
   then map (λ t, (t, Some ("needs_operator", "MISFIRE_NEEDS_OPERATOR"))) delayed
   else match last delayed with
        | None => []
        | Some t => map (λ t, (t, Some ("skipped", "MISFIRE_COALESCED"))) (removelast delayed)
                      ++ [(t, None)]
        end)
  ++ map (λ t, (t, None)) on_time.

Definition _initial_state (schedule : StoredSchedule) : M SchedulerStore (string * string) :=
  '(pending, running) ← active_counts (schedule_id (spec schedule));
  let overlap := overlap_policy (spec schedule) in
  let busy := negb (pending =? 0) || negb (running =? 0) in
  mret (
    if busy && (overlap == "skip") then ("skipped", "OVERLAP_SKIP")
    else if busy && (overlap == "needs_operator") then ("needs_operator", "OVERLAP_NEEDS_OPERATOR")
    else if busy && ((0 <? pending) || (running =? 0)) then ("skipped", "OVERLAP_QUEUE_FULL")
    else if approval_policy (spec schedule) == "notify_only" then ("done", "NOTIFY_ONLY_PROPOSAL")
    else if approval_policy (spec schedule) == "require_operator_each_occurrence"
    then ("needs_operator", "OPERATOR_REQUIRED")
    else ("pending", "DISPATCH_REQUIRED")).

(** One due time of a schedule: the state it was created in, or a replay. *)
Definition materialize (schedule : StoredSchedule) (now : Z) (item : Z * option (string * string))
    : M SchedulerStore (option string) :=
  let '(scheduled_for, forced) := item in
  occurrence_id ← lift (stable_occurrence_id (schedule_id (spec schedule)) (version schedule) scheduled_for);
  proposal ← lift (build_execution_proposal schedule occurrence_id scheduled_for);
  '(state, reason) ← match forced with Some x => mret x | None => _initial_state schedule end;
  '(record, created) ← create_occurrence occurrence_id schedule scheduled_for state reason proposal
    now None None;
  mret (if created : bool then Some (or_state record) else None).

(** The states of the created occurrences and the number of replays. *)
Fixpoint materialize_all (schedule : StoredSchedule) (now : Z)
    (items : list (Z * option (string * string))) (states : list string) (replayed : Z)
    : M SchedulerStore (list string * Z) :=
  match items with
  | [] => mret (states, replayed)
  | item :: items =>
      o ← materialize schedule now item;
      match o with
      | Some state => materialize_all schedule now items (states ++ [state]) replayed
      | None => materialize_all schedule now items states (replayed + 1)
      end
  end.

(** The start of the interval a tick looks at. *)
Definition lower_bound (schedule : StoredSchedule) (now : Z) : Z :=
  Z.max (default (Z.max 0 (now - 60)) (last_evaluated_at schedule))
    (Z.max 0 (now - max_lookback_seconds (en_config self))).

Definition due_times (schedule : StoredSchedule) (now : Z) : result (list Z) :=
  iter_due_times ZoneInfo (spec schedule) (lower_bound schedule now) now
    (max_occurrences_per_schedule (en_config self)).

Fixpoint evaluate_all (now : Z) (schedules : list StoredSchedule) (states : list string)
    (replayed : Z) : M SchedulerStore (list string * Z) :=
  match schedules with
  | [] => mret (states, replayed)
  | schedule :: schedules =>
      due ← lift (due_times schedule now);
      '(states, replayed) ← materialize_all schedule now (_apply_misfire_policy schedule due now)
        states replayed;
      advance_cursor (schedule_id (spec schedule)) (version schedule) now;;
      evaluate_all now schedules states replayed
  end.

(** ** Dispatching *)

(** The heartbeat thread ends when a renewal fails or raises; the dispatch goes on. *)
Fixpoint _start_dispatch_heartbeat (occurrence_id : string) (alive : bool) (events : list during)
    : M SchedulerStore unit :=
  match events with
  | [] => mret tt
  | Beat now :: events =>
      renewed ← (if alive
                 then catch (renew_running_claim occurrence_id (en_owner self)
                               (initial_lease_seconds (en_config self)) now) (λ _, mret false)
                 else mret false);
      _start_dispatch_heartbeat occurrence_id renewed events
  | Other c :: events =>
      catch (call ZoneInfo c) (λ _, mret tt);;
      _start_dispatch_heartbeat occurrence_id alive events
  end.

Definition _record_dependency_wait (occurrence_id dependency_id : string) (now : Z) : M world unit :=
  match en_domain_event_graph self with
  | None => mret tt
  | Some record_scheduler_dependency =>
      catch (on_graph (record_scheduler_dependency occurrence_id dependency_id now
               ("scheduler-dependency-" +:+ occurrence_id +:+ "-" +:+ dependency_id)))
        (λ e, match e with DomainEventGraphError _ => mret tt | e => raise e end)
  end.

(** The transition of a claimed occurrence. *)
Definition settle (occurrence : OccurrenceRecord) (new_state reason : string) (now : Z)
    : M SchedulerStore unit :=
  transition_occurrence (or_occurrence_id occurrence) ["running"] new_state reason now;; mret tt.

Definition _complete_dispatch (occurrence : OccurrenceRecord) (dispatch : SharedDispatchResult)
    (now : Z) : M SchedulerStore string :=
  if rs_status dispatch == "done" then
    settle occurrence "done" "DISPATCH_DONE" now;; mret "done"
  else if rs_status dispatch == "waiting_dependency" then
    settle occurrence "waiting_dependency" "WAITING_DEPENDENCY" now;; mret "waiting_dependency"
  else if rs_status dispatch == "needs_operator" then
    settle occurrence "needs_operator" "DISPATCH_NEEDS_OPERATOR" now;; mret "needs_operator"
  else if _dispatch_is_ambiguous_mutating (rs_receipt dispatch) then
    settle occurrence "needs_operator" "AMBIGUOUS_MUTATING_RECEIPT" now;; mret "needs_operator"
  else if rs_retryable dispatch && (or_attempt occurrence <? max_attempts (en_config self)) then
    settle occurrence "pending" "DISPATCH_RETRY" now;; mret "retried"
  else
    settle occurrence "needs_operator" "DISPATCH_AUTOMATIC_PATHS_EXHAUSTED" now;;
    mret "needs_operator".

Definition followup_proposal (occurrence : OccurrenceRecord) (schedule : StoredSchedule)
    (occurrence_id : string) (scheduled_for : Z) (next_payload : json) (parent_receipt_id : string)
    : json :=
  JObj [("schema", JStr "skeleton.scheduler_execution_proposal.v1");
        ("occurrence_id", JStr occurrence_id); ("schedule_id", JStr (or_schedule_id occurrence));
        ("schedule_version", JInt (or_schedule_version occurrence));
        ("scheduled_for", JInt scheduled_for); ("route_type", JStr (route_type (spec schedule)));
        ("route_id", JStr (route_id (spec schedule)));
        ("approval_policy", JStr (approval_policy (spec schedule))); ("payload", next_payload);
        ("authority", authority); ("parent_occurrence_id", JStr (or_occurrence_id occurrence));
        ("parent_receipt_id", JStr parent_receipt_id)].

Definition _create_followup (occurrence : OccurrenceRecord) (next_payload : json)
    (parent_receipt_id : string) (now : Z) : M SchedulerStore bool :=
  schedule ← get_current ZoneInfo (or_schedule_id occurrence);
  match schedule with
  | None => mret false
  | Some schedule =>
      if version schedule =? or_schedule_version occurrence then
        workflow ← lift (get_or next_payload "deterministic_workflow" (JObj []));
        let index := match workflow with JObj w => field w "index" | _ => JNull end in
        step_id ← lift (match index with
                        | JInt z => text ← int_text z; Ok ("step:" +:+ text)
                        | JBool b => Ok ("step:" +:+ py_repr (JBool b))
                        | _ => Ok "step:next"
                        end);
        occurrence_id ← lift (stable_followup_occurrence_id (or_occurrence_id occurrence) step_id);
        let later := match index with JInt z => if 0 <? z then z else 1 | _ => 1 end in
        let scheduled_for := Z.max now (or_scheduled_for occurrence) + later in
        '(_, created) ← create_occurrence occurrence_id schedule scheduled_for "pending"
          "CONTINUATION_DISPATCH_REQUIRED"
          (followup_proposal occurrence schedule occurrence_id scheduled_for next_payload
            parent_receipt_id)
          now (Some (or_occurrence_id occurrence)) (Some parent_receipt_id);
        mret created
      else mret false
  end.

(** A claimed occurrence whose dependency is not done waits for it. *)
Definition wait_for_dependency (occurrence : OccurrenceRecord) (dependency : string) (now : Z)
    : M world unit :=
  let key := default "" (or_idempotency_key occurrence) in
  _record_dependency_wait (or_occurrence_id occurrence) dependency now;;
  on_store (record_dispatch_receipt (or_occurrence_id occurrence) (or_attempt occurrence) key
    "waiting_dependency" "WAITING_DEPENDENCY" ("dependency:" +:+ dependency)
    (JObj [("schema", JStr "skeleton.scheduler_dispatch_receipt.v1");
           ("occurrence_id", JStr (or_occurrence_id occurrence));
           ("attempt", JInt (or_attempt occurrence));
           ("idempotency_key", jopt (or_idempotency_key occurrence));
           ("reason", JStr "WAITING_DEPENDENCY"); ("public_safe", JBool true);
           ("external_side_effects_executed", JBool false)])
    now (or_parent_receipt_id occurrence));;
  on_store (settle occurrence "waiting_dependency" "WAITING_DEPENDENCY" now).

Definition build_request (occurrence : OccurrenceRecord) : result SharedDispatchRequest :=
  route_type ← get_or (or_proposal occurrence) "route_type" (JStr "");
  route_type ← py_str route_type;
  route_id ← get_or (or_proposal occurrence) "route_id" (JStr "");
  route_id ← py_str route_id;
  payload ← get_or (or_proposal occurrence) "payload" (JObj []);
  Ok {| rq_occurrence_id := or_occurrence_id occurrence; rq_route_type := route_type;
        rq_route_id := route_id; rq_payload := payload; rq_attempt := or_attempt occurrence;
        rq_idempotency_key := default "" (or_idempotency_key occurrence);
        rq_parent_receipt_id := or_parent_receipt_id occurrence |}.

(** The dispatch itself, with what happens in the store meanwhile. *)
Definition run_dispatch (request : SharedDispatchRequest) : M world SharedDispatchResult :=
  on_store (_start_dispatch_heartbeat (rq_occurrence_id request) true (during_dispatch request));;
  on_dispatch (dispatcher request).

(** The receipt, the transition and the next step of a dispatch: what was counted. *)
Definition conclude_dispatch (occurrence : OccurrenceRecord) (answer : SharedDispatchResult)
    (now : Z) : M SchedulerStore (list string) :=
  receipt_id ← record_dispatch_receipt (or_occurrence_id occurrence) (or_attempt occurrence)
    (default "" (or_idempotency_key occurrence)) (rs_status answer) (rs_reason answer)
    (rs_evidence_ref answer) (rs_receipt answer) now (or_parent_receipt_id occurrence);
  final_status ← _complete_dispatch occurrence answer now;
  match rs_next_step answer with
  | None => mret [final_status]
  | Some next_step =>
      continued ← _create_followup occurrence next_step receipt_id now;
      mret (final_status :: if continued : bool then ["continued"] else [])
  end.

(** One turn of the loop, for a claimed occurrence. *)
Definition dispatch_claimed (occurrence : OccurrenceRecord) (now : Z) : M world (list string) :=
  dependency ← lift (dispatch_dependency (or_proposal occurrence));
  waiting ← match dependency with
            | None => mret None
            | Some id =>
                record ← on_store (get_occurrence id);
                mret (match record with
                      | Some r => if or_state r == "done" then None else Some id
                      | None => Some id
                      end)
            end;
  match waiting with
  | Some id => wait_for_dependency occurrence id now;; mret ["waiting_dependency"]
  | None =>
      request ← lift (build_request occurrence);
      answer ← run_dispatch request;
      on_store (conclude_dispatch occurrence answer now)
  end.

(** [for _ in range(max_dispatches_per_tick)] *)
Fixpoint dispatch_loop (now : Z) (turns : nat) (claimed : list string) (counted : list string)
    : M world (list string) :=
  match turns with
  | O => mret counted
  | S turns =>
      occurrence ← on_store (claim_next_pending now (en_owner self)
        (initial_lease_seconds (en_config self)) claimed);
      match occurrence with
      | None => mret counted
      | Some o =>
          events ← dispatch_claimed o now;
          dispatch_loop now turns (or_occurrence_id o :: claimed) (counted ++ "claimed" :: events)
      end
  end.

Definition check_now (now : Z) : result unit :=
  raise_if (now <? 0) (ValueError "now must be a non-negative integer").

Definition dispatch_pending (now : Z) : M world DispatchCounts :=
  lift (check_now now);;
  counted ← dispatch_loop now (Z.to_nat (max_dispatches_per_tick (en_config self))) [] [];
  mret (dispatch_counts counted).

(** ** Ticks *)
Definition TICK_STATES : list string :=
  ["pending"; "running"; "done"; "failed"; "needs_operator"; "skipped"].

(** The part of a tick that writes the store before any dispatch. *)
Definition prepare_tick (now : Z) : M SchedulerStore (tally * Z * Z * list string * Z) :=
  recovered ← recover_stale_running now (stale_running_after_seconds (en_config self))
    (max_attempts (en_config self));
  resumed ← resume_waiting_dependencies now;
  schedules ← list_enabled ZoneInfo;
  '(states, replayed) ← evaluate_all now schedules [] 0;
  mret (recovered, resumed, Z.of_nat (length schedules), states, replayed).

(** [tick(now, dispatcher)]; the flag says whether a dispatcher was given. *)
Definition tick (now : Z) (with_dispatcher : bool) : M world TickReceipt :=
  lift (check_now now);;
  '(recovered, resumed, evaluated, states, replayed) ← on_store (prepare_tick now);
  counts ← (if with_dispatcher then dispatch_pending now else mret (dispatch_counts []));
  let '(retried, needs_operator, finalized) := recovered in
  mret {| tr_evaluated_schedules := evaluated; tr_created_occurrences := Z.of_nat (length states);
          tr_replayed_occurrences := replayed; tr_retried_stale_running := retried;
          tr_stale_running_needs_operator := needs_operator; tr_finalized_stale_running := finalized;
          tr_resumed_waiting_dependencies := resumed; tr_dispatch := counts;
          tr_states := map (λ state, (state, count state states)) TICK_STATES |}.

(** ** What an engine does to the store

    Whatever its dispatcher does and whoever else uses the store meanwhile, an
    engine changes the store only through the writing calls: after a tick or a
    dispatch the store is the one a sequence of calls makes. *)
Section calls.
(** The calls that are made, by the engine and by others. *)
Context (P : store_call → Prop).

Definition others_satisfy (events : list during) : Prop := ∀ c, Other c ∈ events → P c.

Definition by_calls (s s' : SchedulerStore) : Prop :=
  ∃ cs, Forall P cs ∧ s' = after_all ZoneInfo cs s.

#[local] Instance by_calls_refl : Reflexive by_calls.
Proof. intros s. exists []. by split. Qed.
#[local] Instance by_calls_trans : Transitive by_calls.
Proof.
  intros s1 s2 s3 (cs1 & H1 & ->) (cs2 & H2 & ->). exists (cs1 ++ cs2).
  split; [by apply Forall_app|]. unfold after_all. by rewrite foldl_app.
Qed.

(** A call whose answer is used. *)
Lemma by_call {A} c (m : M SchedulerStore A) : P c →
  call ZoneInfo c = quiet m → relates by_calls m.
Proof.
  intros Hg Hc s. exists [c]. split; [by constructor|]. cbn. unfold after. rewrite Hc.
  unfold quiet, mbind, M_bind. by destruct (m s) as [[a|e] s'].
Qed.

(** The calls of a dispatch. *)
Record dispatch_calls : Prop := {
  dp_create : ∀ id schedule t st reason proposal now p r,
    P (CreateOccurrence id schedule t st reason proposal now p r);
  dp_claim : ∀ now owner lease ids, P (ClaimNext now owner lease ids);
  dp_renew : ∀ id owner lease now, P (RenewClaim id owner lease now);
  dp_transition : ∀ id expected st reason now, P (Transition id expected st reason now);
  dp_receipt : ∀ id n key st reason evidence answer now p,
    P (RecordReceipt id n key st reason evidence answer now p)
}.
Context (HP : dispatch_calls).

Lemma by_create id schedule t st reason proposal now p r :
  relates by_calls (create_occurrence id schedule t st reason proposal now p r).
Proof. apply (by_call (CreateOccurrence id schedule t st reason proposal now p r)); [apply HP|done]. Qed.

Lemma by_claim now owner lease ids : relates by_calls (claim_next_pending now owner lease ids).
Proof. apply (by_call (ClaimNext now owner lease ids)); [apply HP|done]. Qed.

Lemma by_renew id owner lease now : relates by_calls (renew_running_claim id owner lease now).
Proof. apply (by_call (RenewClaim id owner lease now)); [apply HP|done]. Qed.

Lemma by_transition id expected st reason now :
  relates by_calls (transition_occurrence id expected st reason now).
Proof. apply (by_call (Transition id expected st reason now)); [apply HP|done]. Qed.

Lemma by_receipt id n key st reason evidence answer now p :
  relates by_calls (record_dispatch_receipt id n key st reason evidence answer now p).
Proof. apply (by_call (RecordReceipt id n key st reason evidence answer now p)); [apply HP|done]. Qed.

(** Walk through a body, with the calls as leaves. *)
Ltac calls_step :=
  match goal with
  | |- relates _ (create_occurrence _ _ _ _ _ _ _ _ _) => apply by_create
  | |- relates _ (transition_occurrence _ _ _ _ _) => apply by_transition
  | |- relates _ (record_dispatch_receipt _ _ _ _ _ _ _ _ _) => apply by_receipt
  | _ => relates_step
  end.

Lemma materialize_calls schedule now item : relates by_calls (materialize schedule now item).
Proof. unfold materialize, _initial_state, active_counts. repeat calls_step. Qed.

Lemma materialize_all_calls schedule now items states n :
  relates by_calls (materialize_all schedule now items states n).
Proof.
  revert states n. induction items as [|item items IH]; intros states n; [apply relates_ret; apply _|].
  cbn [materialize_all]. apply relates_bind; [apply _|apply materialize_calls|].
  intros [state|]; apply IH.
Qed.

Lemma heartbeat_calls id alive events : others_satisfy events →
  relates by_calls (_start_dispatch_heartbeat id alive events).
Proof.
  revert alive. induction events as [|[now|c] events IH]; intros alive Hg; [apply relates_ret; apply _|..];
    cbn [_start_dispatch_heartbeat]; (apply relates_bind; [apply _| |intros x; apply IH; intros c' Hc; apply Hg; by right]).
  - destruct alive; [|repeat calls_step].
    apply relates_catch; [apply _|apply by_renew|]. intros e. repeat calls_step.
  - apply relates_catch; [apply _| |intros e; repeat calls_step].
    intros s. exists [c]. split; [|done]. apply Forall_singleton, Hg. left.
Qed.

Lemma settle_calls o st reason now : relates by_calls (settle o st reason now).
Proof. unfold settle. repeat calls_step. Qed.

Lemma complete_calls o answer now : relates by_calls (_complete_dispatch o answer now).
Proof.
  unfold _complete_dispatch.
  repeat match goal with |- relates _ (if ?b then _ else _) => destruct b end;
    (apply relates_bind; [apply _|apply settle_calls|intros _; repeat calls_step]).
Qed.

Lemma followup_calls o next receipt_id now : relates by_calls (_create_followup o next receipt_id now).
Proof. unfold _create_followup, get_current. repeat calls_step. Qed.

Lemma conclude_calls o answer now : relates by_calls (conclude_dispatch o answer now).
Proof.
  unfold conclude_dispatch. apply relates_bind; [apply _|apply by_receipt|]. intros receipt_id.
  apply relates_bind; [apply _|apply complete_calls|]. intros final.
  destruct (rs_next_step answer); [|repeat calls_step].
  apply relates_bind; [apply _|apply followup_calls|]. intros b. repeat calls_step.
Qed.

(** The same of the whole world. *)
Definition world_by_calls (w w' : world) : Prop := by_calls (w_store w) (w_store w').

#[local] Instance world_by_calls_refl : Reflexive world_by_calls.
Proof. intros w. unfold world_by_calls. reflexivity. Qed.
#[local] Instance world_by_calls_trans : Transitive world_by_calls.
Proof. intros w1 w2 w3. unfold world_by_calls. by etransitivity. Qed.

Lemma on_store_calls {A} (m : M SchedulerStore A) :
  relates by_calls m → relates world_by_calls (on_store m).
Proof. apply relates_zoom. by intros. Qed.

Lemma on_graph_calls {A} (m : M G A) : relates world_by_calls (on_graph m).
Proof. intros w. unfold on_graph, zoom. destruct (m (w_graph w)). apply by_calls_refl. Qed.

Lemma on_dispatch_calls {A} (m : M D A) : relates world_by_calls (on_dispatch m).
Proof. intros w. unfold on_dispatch, zoom. destruct (m (w_dispatch w)). apply by_calls_refl. Qed.

Lemma wait_calls o id now : relates world_by_calls (wait_for_dependency o id now).
Proof.
  unfold wait_for_dependency. apply relates_bind; [apply _| |intros _].
  - unfold _record_dependency_wait. destruct (en_domain_event_graph self) as [f|]; [|repeat relates_step].
    apply relates_catch; [apply _|apply on_graph_calls|]. intros e. repeat relates_step.
  - apply relates_bind; [apply _|apply on_store_calls, by_receipt|]. intros _.
    apply on_store_calls, settle_calls.
Qed.

Hypothesis others_P : ∀ request, others_satisfy (during_dispatch request).

Lemma claimed_calls o now : relates world_by_calls (dispatch_claimed o now).
Proof.
  unfold dispatch_claimed. pass. apply relates_bind; [apply _| |intros waiting].
  - destruct a; [|repeat relates_step]. apply relates_bind; [apply _|apply on_store_calls|intros r].
    + unfold get_occurrence. repeat relates_step.
    + destruct r as [r|]; [destruct (_ == _)|]; repeat relates_step.
  - destruct waiting as [id|].
    + apply relates_bind; [apply _|apply wait_calls|intros _; repeat relates_step].
    + pass. apply relates_bind; [apply _| |intros answer; apply on_store_calls, conclude_calls].
      unfold run_dispatch. apply relates_bind; [apply _| |intros _; apply on_dispatch_calls].
      apply on_store_calls, heartbeat_calls, others_P.
Qed.

Lemma loop_calls now turns claimed counted :
  relates world_by_calls (dispatch_loop now turns claimed counted).
Proof.
  revert claimed counted. induction turns as [|turns IH]; intros claimed counted; [apply relates_ret; apply _|].
  cbn [dispatch_loop]. apply relates_bind; [apply _|apply on_store_calls, by_claim|].
  intros [o|]; [|repeat relates_step]. apply relates_bind; [apply _|apply claimed_calls|].
  intros events. apply IH.
Qed.

Lemma dispatch_pending_calls now : relates world_by_calls (dispatch_pending now).
Proof.
  unfold dispatch_pending. pass. apply relates_bind; [apply _|apply loop_calls|].
  intros counted. repeat relates_step.
Qed.
End calls.

(** *** The calls of a tick *)
Notation good := (good_call ZoneInfo).

Lemma good_dispatch_calls : dispatch_calls good.
Proof. by split. Qed.

#[local] Existing Instance by_calls_refl.
#[local] Existing Instance by_calls_trans.
#[local] Existing Instance world_by_calls_refl.
#[local] Existing Instance world_by_calls_trans.

Lemma evaluate_all_calls now schedules states n :
  relates (by_calls good) (evaluate_all now schedules states n).
Proof.
  revert states n. induction schedules as [|schedule schedules IH]; intros states n; [apply relates_ret; apply _|].
  cbn [evaluate_all]. pass.
  apply relates_bind; [apply _|apply materialize_all_calls, good_dispatch_calls|].
  intros [states' n']. apply relates_bind; [apply _| |intros _; apply IH].
  by apply (by_call good (AdvanceCursor (schedule_id (spec schedule)) (version schedule) now)).
Qed.

Lemma prepare_calls now : relates (by_calls good) (prepare_tick now).
Proof.
  unfold prepare_tick. apply relates_bind; [apply _| |intros recovered].
  { by apply (by_call good (RecoverStale now (stale_running_after_seconds (en_config self))
      (max_attempts (en_config self)))). }
  apply relates_bind; [apply _|by apply (by_call good (ResumeWaiting now))|]. intros resumed.
  unfold list_enabled. apply relates_bind; [apply _|repeat relates_step|]. intros schedules.
  apply relates_bind; [apply _|apply evaluate_all_calls|]. intros [states n]. repeat relates_step.
Qed.

Lemma tick_calls now b : (∀ request, others_satisfy good (during_dispatch request)) →
  relates (world_by_calls good) (tick now b).
Proof.
  intros Hothers. unfold tick. pass.
  apply relates_bind; [apply _|apply on_store_calls, prepare_calls|].
  intros [[[[recovered resumed] n] states] replayed].
  apply relates_bind; [apply _| |].
  - destruct b; [by apply dispatch_pending_calls; [apply good_dispatch_calls|]|repeat relates_step].
  - intros counts. repeat relates_step.
Qed.
End engine.

(** *** The calls of a dispatch leave the schedules alone *)
Definition dispatch_call (c : store_call) : Prop :=
  match c with Register _ _ _ | SetEnabled _ _ | AdvanceCursor _ _ _ => False | _ => True end.

Lemma dispatch_call_schedules ZoneInfo c s : dispatch_call c →
  versions (after ZoneInfo c s) = versions s ∧ heads (after ZoneInfo c s) = heads s.
Proof.
  intros Hc. destruct (quiet_call c) eqn:Hq.
  - destruct c as [| | | | | | | | |id n key st reason evidence answer now p]; try done.
    set (R := λ s s' : SchedulerStore, versions s' = versions s ∧ heads s' = heads s).
    assert (HR : Reflexive R) by done.
    assert (HT : Transitive R) by (intros s1 s2 s3 [] []; split; congruence).
    change (R s (quiet (record_dispatch_receipt id n key st reason evidence answer now p) s).2).
    apply relates_quiet. unfold record_dispatch_receipt. repeat relates_step.
  - pose proof (call_lives ZoneInfo c s Hq) as H. split; apply H.
Qed.

Lemma by_dispatch_schedules ZoneInfo s s' : by_calls ZoneInfo dispatch_call s s' →
  versions s' = versions s ∧ heads s' = heads s.
Proof.
  intros (cs & Hcs & ->). revert s. induction Hcs as [|c cs Hc _ IH]; intros s; [done|].
  destruct (IH (after ZoneInfo c s)) as [E1 E2], (dispatch_call_schedules ZoneInfo c s Hc) as [E3 E4].
  cbn. unfold after_all in *. split; congruence.
Qed.

(** ** Creating occurrences *)

(** Nothing is lost, and whatever is new satisfies [P]. *)
Record adds (P : string → occurrence_row → Prop) (s s' : SchedulerStore) : Prop := {
  ad_versions : versions s' = versions s;
  ad_receipts : receipts s' = receipts s;
  ad_old : ∀ id r, occurrences s !! id = Some r → occurrences s' !! id = Some r;
  ad_new : ∀ id r, occurrences s !! id = None → occurrences s' !! id = Some r → P id r
}.

Lemma adds_refl P s : adds P s s.
Proof. split; try done. congruence. Qed.

Lemma adds_trans P s1 s2 s3 : adds P s1 s2 → adds P s2 s3 → adds P s1 s3.
Proof.
  intros [V1 R1 O1 N1] [V2 R2 O2 N2]. split; try congruence; [auto|].
  intros id r H1 H3. destruct (occurrences s2 !! id) as [x|] eqn:E; [|eauto].
  assert (x = r) as -> by (apply O2 in E; congruence). eauto.
Qed.

Lemma adds_mono (P P' : string → occurrence_row → Prop) s s' :
  (∀ id r, P id r → P' id r) → adds P s s' → adds P' s s'.
Proof. intros H [V R O N]. split; eauto. Qed.

(** A slot is filled: by an occurrence at that time, or by the id that belongs to it. *)
Definition filled (s : SchedulerStore) (sid : string) (v t : Z) : Prop :=
  ∃ id r, occurrences s !! id = Some r ∧ (slot r = (sid, v, t) ∨ stable_occurrence_id sid v t = Ok id).

Lemma filled_adds P s s' sid v t : adds P s s' → filled s sid v t → filled s' sid v t.
Proof. intros Ha (id & r & Hr & H). exists id, r. split; [by apply (ad_old _ _ _ Ha)|done]. Qed.

(** The new occurrence of a due time. *)
Definition due_occurrence (sid : string) (v now t : Z) (id : string) (r : occurrence_row) : Prop :=
  stable_occurrence_id sid v t = Ok id ∧ slot r = (sid, v, t) ∧ o_created_at r = now ∧
  o_parent_occurrence_id r = None.

Lemma insert_ok id row s b s' : insert_occurrence id row s = (Ok b, s') →
  if b then occurrences s !! id = None ∧ s' = set_occurrences <[id := row]> s else s' = s.
Proof.
  unfold insert_occurrence. intros H. apply M_bind_ok in H as (rows & s1 & [= <- <-] & H).
  destruct (bool_decide (is_Some (occurrences s !! id))) eqn:E; [by injection H as <- <-|].
  destruct (_ || _); [by injection H as <- <-|].
  apply M_bind_ok in H as (parents & s2 & [= <- <-] & H).
  apply M_bind_ok in H as ([] & s3 & [_ ->]%lift_ok & H). injection H as <- <-.
  by apply bool_decide_eq_false, eq_None_not_Some in E.
Qed.

Lemma find_slot_some sid v t rows id r : find_slot sid v t rows = Some (id, r) →
  rows !! id = Some r ∧ slot r = (sid, v, t).
Proof.
  intros H. apply find_some in H as [Hin H]. split; [by apply elem_of_map_to_list, list_elem_of_In|].
  cbn in H. unfold same_slot in H. rewrite !andb_true_iff, !Z.eqb_eq, bool_decide_eq_true in H.
  unfold slot. destruct H as [[-> ->] ->]. done.
Qed.

Lemma create_ok id schedule t st reason proposal now p q s rec created s'
    (sid := schedule_id (spec schedule)) (v := version schedule) :
  create_occurrence id schedule t st reason proposal now p q s = (Ok (rec, created), s') →
  (∃ j r, occurrences s' !! j = Some r ∧ (j = id ∨ slot r = (sid, v, t))) ∧
  if created : bool then
    ∃ row, occurrences s !! id = None ∧ s' = set_occurrences <[id := row]> s ∧
      slot row = (sid, v, t) ∧ o_created_at row = now ∧ o_parent_occurrence_id row = p ∧
      o_state row = st ∧ o_attempt row = 0
  else s' = s.
Proof.
  intros H. unfold create_occurrence in H.
  do 4 (apply M_bind_ok in H as ([] & ? & [_ ->]%lift_ok & H)).
  apply M_bind_ok in H as (text & ? & [_ ->]%lift_ok & H).
  apply transaction_ok, M_bind_ok in H as (? & ? & [[_ ->]%sqlite_int_ok ->]%lift_ok & H).
  do 2 (apply M_bind_ok in H as (? & ? & [[_ ->]%sqlite_int_ok ->]%lift_ok & H)).
  apply M_bind_ok in H as (b & s1 & Hi & H). apply insert_ok in Hi.
  apply M_bind_ok in H as (rows & ? & [= <- <-] & H). cbv zeta in H.
  apply M_bind_ok in H as ([j row] & ? & [Hf%some_or_ok ->]%lift_ok & H).
  apply M_bind_ok in H as (r & ? & [Hr ->]%lift_ok & [= <- <- <-]).
  destruct (occurrences s1 !! id) as [x|] eqn:Ex.
  - injection Hf as <- <-. split; [exists id, x; auto|]. destruct b; [|done].
    destruct Hi as [Hn ->]. cbn in Ex. rewrite lookup_insert_eq in Ex. injection Ex as <-.
    by eexists.
  - apply find_slot_some in Hf as [Hj Hs]. split; [exists j, row; auto|]. destruct b; [|done].
    destruct Hi as [_ ->]. cbn in Ex. rewrite lookup_insert_eq in Ex. discriminate.
Qed.

Lemma adds_put P id r s : occurrences s !! id = None → P id r →
  adds P s (set_occurrences <[id := r]> s).
Proof.
  intros Hn Hp. split; try done; cbn; intros j x.
  - intros Hx. rewrite lookup_insert_ne; [done|congruence].
  - intros Hj Hx. destruct (decide (j = id)) as [->|Hne].
    + rewrite lookup_insert_eq in Hx. by injection Hx as <-.
    + rewrite lookup_insert_ne in Hx by done. congruence.
Qed.

Section creation.
Context (ZoneInfo : string → result (Z → Z)) {G : Type} (self : SchedulerEngine (G:=G)).

Lemma materialize_ok schedule now item s o s'
    (sid := schedule_id (spec schedule)) (v := version schedule) :
  materialize schedule now item s = (Ok o, s') →
  filled s' sid v item.1 ∧ heads s' = heads s ∧ adds (due_occurrence sid v now item.1) s s' ∧
  size (occurrences s') = (size (occurrences s) + match o with Some _ => 1 | None => 0 end)%nat.
Proof.
  destruct item as [t forced]. unfold materialize. intros H.
  apply M_bind_ok in H as (id & ? & [Hid ->]%lift_ok & H).
  apply M_bind_ok in H as (proposal & ? & [_ ->]%lift_ok & H).
  apply M_bind_ok in H as ([st reason] & s1 & Hst & H).
  assert (s1 = s) as -> by (destruct forced; injection Hst; congruence).
  apply M_bind_ok in H as ([rec created] & s2 & Hc & [= <- <-]).
  apply create_ok in Hc as [(j & r & Hj & Hslot) Hc]. split.
  - exists j, r. split; [done|]. destruct Hslot as [->|Hslot]; [by right|by left].
  - destruct created; [|rewrite Hc; split_and!; [done|apply adds_refl|lia]].
    destruct Hc as (row & Hn & -> & Hs & Ha & Hp & _). split; [done|]. split; [by apply adds_put|].
    cbn. rewrite map_size_insert_None by done. lia.
Qed.

Definition due_among (schedule : StoredSchedule) (now : Z) (ts : list Z) (id : string)
    (r : occurrence_row) : Prop :=
  ∃ t, t ∈ ts ∧ due_occurrence (schedule_id (spec schedule)) (version schedule) now t id r.

Lemma materialize_all_ok schedule now items states n s states' n' s' :
  materialize_all schedule now items states n s = (Ok (states', n'), s') →
  (∀ t, t ∈ items.*1 → filled s' (schedule_id (spec schedule)) (version schedule) t) ∧
  heads s' = heads s ∧ adds (due_among schedule now items.*1) s s' ∧
  (size (occurrences s') + length states = size (occurrences s) + length states')%nat ∧
  Z.of_nat (length states') + n' = Z.of_nat (length states) + n + Z.of_nat (length items).
Proof.
  revert states n s. induction items as [|item items IH]; intros states n s H.
  { injection H as <- <- <-. split_and!; [intros t Ht; inversion Ht|done|apply adds_refl|lia|cbn; lia]. }
  cbn [materialize_all] in H. apply M_bind_ok in H as (o & s1 & Hm & H).
  apply materialize_ok in Hm as (Hf & Hh & Ha & Hsize).
  assert (Hgo : ∀ states1 n1, length states1 = (length states + match o with Some _ => 1 | None => 0 end)%nat →
    n1 = n + match o with Some _ => 0 | None => 1 end →
    materialize_all schedule now items states1 n1 s1 = (Ok (states', n'), s') → _)
    by (intros states1 n1 Hl Hn Hrun; pose proof (IH _ _ _ Hrun) as X; exact (conj Hl (conj Hn X))).
  destruct o as [st|]; (apply Hgo in H as (Hl & Hn & Hfs & Hhs & Has & Hsz & Hcount);
    [|rewrite ?length_app; cbn; lia|lia]).
  all: split_and!; [| congruence | | lia | cbn [length]; lia].
  all: try (intros t [->|Ht]%elem_of_cons; [by eapply filled_adds|by apply Hfs]).
  all: eapply adds_trans; (eapply adds_mono; [|done]); intros id r; [intros Hd; exists item.1; split; [left|done]|].
  all: intros (t & Ht & Hd); exists t; split; [by right|done].
Qed.

(** The misfire policy decides about every due time once. *)
Lemma misfire_covers schedule due now : (_apply_misfire_policy self schedule due now).*1 ≡ₚ due.
Proof.
  unfold _apply_misfire_policy. cbv zeta.
  set (late := λ t, misfire_grace_seconds (en_config self) <? now - t).
  assert (Hsplit : ∀ l : list Z, List.filter late l ++ List.filter (λ t, negb (late t)) l ≡ₚ l).
  { induction l as [|t l IH]; [done|]. cbn. destruct (late t); cbn; [by rewrite IH|].
    rewrite <-Permutation_middle. by rewrite IH. }
  assert (Hfst : ∀ (x : option (string * string)) (l : list Z), (map (λ t, (t, x)) l).*1 = l).
  { intros x l. induction l as [|t l IH]; [done|]. cbn. by rewrite IH. }
  rewrite fmap_app, Hfst. etransitivity; [|apply Hsplit]. apply Permutation_app_tail.
  destruct (_ == "skip"); [by rewrite Hfst|]. destruct (_ == "needs_operator"); [by rewrite Hfst|].
  destruct (last (List.filter late due)) as [t|] eqn:E.
  - rewrite fmap_app, Hfst. cbn. apply last_Some in E as [l' El]. rewrite El.
    by rewrite removelast_last.
  - by apply last_None in E as ->.
Qed.
End creation.

(** ** Cursors *)
Definition cursor_at (h : head_row) (t : Z) : Prop :=
  ∃ c, h_last_evaluated_at h = Some c ∧ t ≤ c.

(** Heads keep their version and only look forward. *)
Record passes (s s' : SchedulerStore) : Prop := {
  ps_some : ∀ j h, heads s !! j = Some h → ∃ h', heads s' !! j = Some h' ∧
    h_version h' = h_version h ∧ h_enabled h' = h_enabled h ∧ ∀ t, cursor_at h t → cursor_at h' t;
  ps_none : ∀ j, heads s !! j = None → heads s' !! j = None
}.

Lemma passes_refl s : passes s s.
Proof. split; [|done]. intros j h Hh. by exists h. Qed.

Lemma passes_same s s' : heads s' = heads s → passes s s'.
Proof. intros E. split; rewrite E; [|done]. intros j h Hh. by exists h. Qed.

Lemma passes_trans s1 s2 s3 : passes s1 s2 → passes s2 s3 → passes s1 s3.
Proof.
  intros [H1 N1] [H2 N2]. split; [|auto]. intros j h Hh.
  destruct (H1 _ _ Hh) as (h1 & Hh1 & V1 & E1 & C1).
  destruct (H2 _ _ Hh1) as (h2 & Hh2 & V2 & E2 & C2). exists h2. split_and!; try congruence. auto.
Qed.

Lemma cursor_passes s s' id h t : passes s s' → heads s !! id = Some h → cursor_at h t →
  ∃ h', heads s' !! id = Some h' ∧ h_version h' = h_version h ∧ cursor_at h' t.
Proof. intros Hp Hh Hc. destruct (ps_some _ _ Hp _ _ Hh) as (h' & ? & ? & _ & Ht). exists h'. auto. Qed.

Lemma advance_ok id v t s b s' : advance_cursor id v t s = (Ok b, s') →
  passes s s' ∧ (∀ P, adds P s s') ∧ occurrences s' = occurrences s ∧
  ∀ h, heads s !! id = Some h → h_version h = v → ∃ h', heads s' !! id = Some h' ∧
    h_version h' = v ∧ cursor_at h' t.
Proof.
  unfold advance_cursor. intros H. apply M_bind_ok in H as ([] & ? & [_ ->]%lift_ok & H).
  apply transaction_ok, M_bind_ok in H as (? & ? & [[_ ->]%sqlite_int_ok ->]%lift_ok & H).
  apply M_bind_ok in H as (? & ? & [[_ ->]%sqlite_int_ok ->]%lift_ok & H).
  apply M_bind_ok in H as (head & ? & [= <- <-] & H).
  destruct (heads s !! id) as [h|] eqn:Eh.
  2: { injection H as <- <-. split_and!; [apply passes_refl|intros P; apply adds_refl|done|done]. }
  destruct (Z.eqb_spec (h_version h) v) as [Ev|Ev].
  2: { injection H as <- <-. split_and!; [apply passes_refl|intros P; apply adds_refl|done|].
       intros h' [= <-]. done. }
  apply M_bind_ok in H as ([] & ? & [= <-] & [= <- <-]). split_and!; [|by intros P; split; try done; cbn; congruence|done|].
  - split; cbn.
    + intros j x Hx. destruct (decide (j = id)) as [->|Hj].
      * rewrite lookup_insert_eq. replace x with h in * by congruence. eexists.
        split_and!; [done..|]. intros t' (c & Ec & Hc). rewrite Ec. eexists. split; [done|].
        destruct (Z.ltb_spec c t); lia.
      * rewrite lookup_insert_ne by done. by exists x.
    + intros j Hj. rewrite lookup_insert_ne; [done|congruence].
  - intros x [= <-] _. cbn. rewrite lookup_insert_eq. eexists. split_and!; [done..|].
    eexists. split; [done|]. destruct (h_last_evaluated_at h) as [c|]; [|lia].
    destruct (Z.ltb_spec c t); lia.
Qed.

Section ticks.
Context (ZoneInfo : string → result (Z → Z)) {G D : Type} (self : SchedulerEngine (G:=G)).

Definition due_new (schedules : list StoredSchedule) (now : Z) (id : string) (r : occurrence_row) : Prop :=
  ∃ schedule due, schedule ∈ schedules ∧ due_times ZoneInfo self schedule now = Ok due ∧
    due_among schedule now due id r.

(** What the evaluation of some schedules leaves. *)
Record evaluated (now : Z) (schedules : list StoredSchedule) (s s' : SchedulerStore) : Prop := {
  el_filled : ∀ schedule, schedule ∈ schedules → ∃ due,
    due_times ZoneInfo self schedule now = Ok due ∧
    ∀ t, t ∈ due → filled s' (schedule_id (spec schedule)) (version schedule) t;
  el_cursors : ∀ schedule h, schedule ∈ schedules →
    heads s !! schedule_id (spec schedule) = Some h → h_version h = version schedule →
    ∃ h', heads s' !! schedule_id (spec schedule) = Some h' ∧ h_version h' = version schedule ∧
      cursor_at h' now;
  el_passes : passes s s';
  el_adds : adds (due_new schedules now) s s'
}.

Lemma evaluate_all_ok now schedules states n s states' n' s' :
  evaluate_all ZoneInfo self now schedules states n s = (Ok (states', n'), s') →
  evaluated now schedules s s' ∧
  (size (occurrences s') + length states = size (occurrences s) + length states')%nat ∧
  ((∀ schedule, schedule ∈ schedules → due_times ZoneInfo self schedule now = Ok []) →
   states' = states ∧ n' = n).
Proof.
  revert states n s. induction schedules as [|schedule schedules IH]; intros states n s H.
  { injection H as <- <- <-. split; [|done]. split; [intros ? Hin; inversion Hin|intros ?? Hin; inversion Hin
      |apply passes_refl|apply adds_refl]. }
  cbn [evaluate_all] in H. apply M_bind_ok in H as (due & ? & [Hdue ->]%lift_ok & H).
  apply M_bind_ok in H as ([st1 n1] & s1 & Hm & H).
  apply M_bind_ok in H as (b & s2 & Ha & H).
  assert (Hempty : due = [] → st1 = states ∧ n1 = n).
  { intros ->. pose proof (misfire_covers self schedule [] now) as E.
    apply Permutation_nil_r, fmap_nil_inv in E. rewrite E in Hm. by injection Hm as <- <- _. }
  apply materialize_all_ok in Hm as (Hfill & Hheads & Hadds & Hsize & _).
  apply advance_ok in Ha as (Hpass & Hadds2 & Hocc & Hcur).
  destruct (IH _ _ _ H) as ([Hf Hc Hp Ha] & Hsz & Hnone).
  pose proof (misfire_covers self schedule due now) as Hcov.
  assert (Hpass' : passes s s2) by (eapply passes_trans; [by apply passes_same|done]).
  split; [split|split].
  - intros x [->|Hx]%elem_of_cons; [|by apply Hf]. exists due. split; [done|]. intros t Ht.
    eapply filled_adds; [exact Ha|]. eapply filled_adds; [apply (Hadds2 (λ _ _, True))|].
    apply Hfill. by rewrite Hcov.
  - intros x h [->|Hx]%elem_of_cons Hh Hv.
    + destruct (Hcur h) as (h' & Hh' & Hv' & Hc'); [by rewrite Hheads|done|].
      destruct (cursor_passes _ _ _ _ _ Hp Hh' Hc') as (h'' & ? & ? & ?). exists h''. split_and!; congruence.
    + destruct (ps_some _ _ Hpass' _ _ Hh) as (h' & Hh' & Hv' & _).
      destruct (Hc x h' Hx Hh') as (h'' & ? & ? & ?); [congruence|]. by exists h''.
  - by eapply passes_trans.
  - eapply adds_trans; [eapply adds_mono, Hadds|eapply adds_trans; [apply Hadds2|eapply adds_mono, Ha]].
    + intros id r (t & Ht & Hd). exists schedule, due. split; [left|]. split; [done|].
      exists t. split; [by rewrite <-Hcov|done].
    + intros id r (x & d & Hx & Hd & Hr). exists x, d. split; [by right|done].
  - rewrite Hocc in Hsz. lia.
  - intros Hall. destruct Hempty as [-> ->].
    { rewrite (Hall schedule) in Hdue by left. by injection Hdue as <-. }
    apply Hnone. intros x Hx. apply Hall. by right.
Qed.

(** *** The schedules of a tick *)
Definition enabled_schedule (s : SchedulerStore) (schedule : StoredSchedule) : Prop :=
  ∃ id h row sp, heads s !! id = Some h ∧ h_enabled h = true ∧
    versions s !! (id, h_version h) = Some row ∧ stored_spec ZoneInfo id row sp ∧
    schedule = record_of sp row h.

Lemma enabled_rows_elem s id h row : (id, (h, row)) ∈ enabled_rows s ↔
  heads s !! id = Some h ∧ h_enabled h = true ∧ versions s !! (id, h_version h) = Some row.
Proof.
  unfold enabled_rows. rewrite list_elem_of_omap. split.
  - intros (j & Hj & H). unfold current_row in H.
    destruct (heads s !! j) as [hj|] eqn:Eh; [|discriminate]. cbn in H.
    destruct (versions s !! (j, h_version hj)) as [rj|] eqn:Er; [|discriminate]. cbn in H.
    destruct (h_enabled hj) eqn:Ee; [|discriminate]. by injection H as -> -> ->.
  - intros (Hh & He & Hr). exists id. split.
    + rewrite sort_strs_perm. apply list_elem_of_fmap. exists (id, h). split; [done|]. by apply elem_of_map_to_list.
    + unfold current_row. rewrite Hh. cbn. rewrite Hr. cbn. by rewrite He.
Qed.

Lemma enabled_row_spec s schedule : store_ok ZoneInfo s → enabled_schedule s schedule ↔
  ∃ x, x ∈ enabled_rows s ∧ load_row ZoneInfo x.1 x.2 = Ok schedule.
Proof.
  intros Hs. split.
  - intros (id & h & row & sp & Hh & He & Hr & Hsp & ->). exists (id, (h, row)).
    split; [by apply enabled_rows_elem|]. by apply load_stored.
  - intros ([id [h row]] & Hx & Hl). apply enabled_rows_elem in Hx as (Hh & He & Hr).
    destruct (sk_versions _ _ Hs _ _ _ Hr) as [sp Hsp].
    cbn [fst snd] in Hl. rewrite (load_stored ZoneInfo id row sp h Hsp) in Hl. injection Hl as <-.
    exists id, h, row, sp. done.
Qed.

Lemma list_enabled_ok s l s' : store_ok ZoneInfo s → list_enabled ZoneInfo s = (Ok l, s') →
  s' = s ∧ ∀ schedule, schedule ∈ l ↔ enabled_schedule s schedule.
Proof.
  intros Hs [Hl ->]%query_ok. split; [done|]. intros schedule. rewrite enabled_row_spec by done.
  apply collect_ok in Hl. clear Hs. induction Hl as [|x y xs ys Hxy _ IH].
  - split; [intros H; inversion H|intros (x & H & _); inversion H].
  - rewrite elem_of_cons, IH. split.
    + intros [->|(z & Hz & Hzl)]; [exists x; split; [left|done]|exists z; split; [by right|done]].
    + intros (z & [->|Hz]%elem_of_cons & Hzl); [left; congruence|right; by exists z].
Qed.

(** The schedule of an enabled record, its head and its version. *)
Lemma enabled_head s schedule : enabled_schedule s schedule →
  ∃ h, heads s !! schedule_id (spec schedule) = Some h ∧ h_version h = version schedule ∧
    h_last_evaluated_at h = last_evaluated_at schedule.
Proof.
  intros (id & h & row & sp & Hh & _ & _ & Hsp & ->). exists h. cbn.
  by rewrite (ss_id _ _ _ _ Hsp).
Qed.

Lemma enabled_same s s' : versions s' = versions s → heads s' = heads s →
  ∀ schedule, enabled_schedule s' schedule ↔ enabled_schedule s schedule.
Proof. intros Hv Hh schedule. unfold enabled_schedule. by rewrite Hv, Hh. Qed.

(** A schedule evaluated up to [now] is due no more until then. *)
Lemma nothing_due now schedule : 0 ≤ now → 0 < max_occurrences_per_schedule (en_config self) →
  (∃ c, last_evaluated_at schedule = Some c ∧ now ≤ c) →
  due_times ZoneInfo self schedule now = Ok [].
Proof.
  intros Hnow Hmax (c & Ec & Hc). unfold due_times, lower_bound. rewrite Ec. cbn [default from_option id].
  unfold id. set (lower := Z.max c _). assert (now ≤ lower) by lia. assert (0 ≤ lower) by lia.
  unfold iter_due_times, _positive_int, _non_negative_int.
  rewrite !(proj2 (Z.ltb_ge _ _)) by lia. cbn [raise_if mbind result_bind].
  rewrite (proj2 (Z.eqb_neq _ _)) by lia. cbn [raise_if mbind result_bind].
  by rewrite (proj2 (Z.leb_le _ _)).
Qed.

Lemma swept_size s s' : swept s s' → size (occurrences s') = size (occurrences s).
Proof.
  intros [ids Hs]. rewrite <-!size_dom. f_equal. apply set_eq. intros id.
  rewrite !elem_of_dom. destruct (occurrences s !! id) as [r|] eqn:E.
  - destruct (sw_rows _ _ _ Hs _ _ E) as (r' & -> & _). split; intros _; by eexists.
  - rewrite (sw_none _ _ _ Hs _ E). done.
Qed.

(** Same schedules, same occurrences, perhaps in other states. *)
Record settles (s s' : SchedulerStore) : Prop := {
  st_versions : versions s' = versions s;
  st_heads : heads s' = heads s;
  st_size : size (occurrences s') = size (occurrences s);
  st_none : ∀ id, occurrences s !! id = None → occurrences s' !! id = None
}.

#[local] Instance settles_refl : Reflexive settles.
Proof. by split. Qed.

Lemma swept_settles s s' : swept s s' → settles s s'.
Proof. intros H. split; [..|by apply swept_size|]; destruct H as [ids []]; done. Qed.

Lemma settles_trans s1 s2 s3 : settles s1 s2 → settles s2 s3 → settles s1 s3.
Proof. intros [] []. split; try congruence. auto. Qed.

(** What a tick without dispatches does to the store. *)
Lemma prepare_ok now s recovered resumed n states replayed s' : store_ok ZoneInfo s →
  prepare_tick ZoneInfo self now s = (Ok (recovered, resumed, n, states, replayed), s') →
  ∃ schedules s2, settles s s2 ∧ (∀ x, x ∈ schedules ↔ enabled_schedule s x) ∧
    evaluated now schedules s2 s' ∧
    size (occurrences s') = (size (occurrences s) + length states)%nat ∧
    ((∀ x, x ∈ schedules → due_times ZoneInfo self x now = Ok []) → states = [] ∧ replayed = 0).
Proof.
  intros Hs H. unfold prepare_tick in H.
  apply M_bind_ok in H as (r & s1 & H1 & H). apply M_bind_ok in H as (m & s2 & H2 & H).
  assert (Hw1 : swept s s1).
  { pose proof (recover_swept ZoneInfo now (stale_running_after_seconds (en_config self))
      (max_attempts (en_config self)) s) as X. by rewrite H1 in X. }
  assert (Hw2 : swept s1 s2) by (pose proof (resume_swept ZoneInfo now s1) as X; by rewrite H2 in X).
  assert (Hs2 : store_ok ZoneInfo s2) by (by do 2 (eapply lives_ok; [by apply swept_lives|])).
  assert (Hset : settles s s2) by (eapply settles_trans; by apply swept_settles).
  apply M_bind_ok in H as (schedules & s3 & Hl & H).
  apply list_enabled_ok in Hl as [-> Hmem]; [|done].
  apply M_bind_ok in H as ([states1 replayed1] & s4 & He & H). injection H as <- <- <- <- <- <-.
  apply evaluate_all_ok in He as (He & Hsize & Hnone). exists schedules, s2.
  split_and!; [done| |done| |].
  - intros x. rewrite Hmem. apply enabled_same; apply Hset.
  - cbn [length] in Hsize. rewrite <-(st_size _ _ Hset). lia.
  - intros Hall. by apply Hnone.
Qed.

Lemma prepare_good now s r s' : prepare_tick ZoneInfo self now s = (r, s') → store_ok ZoneInfo s →
  store_ok ZoneInfo s'.
Proof.
  intros E Hs. pose proof (prepare_calls ZoneInfo self now s) as H. rewrite E in H.
  destruct H as (cs & Hcs & E'). cbn in E'. rewrite E'. by apply after_all_ok.
Qed.

(** After the tick every enabled schedule has been evaluated up to [now]. *)
Lemma enabled_cursor s s2 s' schedules now : settles s s2 → evaluated now schedules s2 s' →
  (∀ x, x ∈ schedules ↔ enabled_schedule s x) →
  ∀ schedule, enabled_schedule s' schedule → ∃ c, last_evaluated_at schedule = Some c ∧ now ≤ c.
Proof.
  intros Hset He Hmem schedule (id & h' & row & sp & Hh' & Hen & Hrow & Hsp & ->). cbn.
  destruct (heads s2 !! id) as [h|] eqn:Eh.
  2: { apply (ps_none _ _ (el_passes _ _ _ _ He)) in Eh. congruence. }
  destruct (ps_some _ _ (el_passes _ _ _ _ He) _ _ Eh) as (h2 & Hh2 & Hv & Hb & _).
  assert (h2 = h') as -> by congruence.
  rewrite (ad_versions _ _ _ (el_adds _ _ _ _ He)) in Hrow.
  assert (Hin : enabled_schedule s (record_of sp row h)).
  { exists id, h, row, sp. rewrite <-(st_heads _ _ Hset), <-(st_versions _ _ Hset).
    split_and!; congruence. }
  apply Hmem in Hin. pose proof (ss_id _ _ _ _ Hsp) as Hid.
  destruct (el_cursors _ _ _ _ He _ h Hin) as (h3 & Hh3 & _ & Hc); cbn; [by rewrite Hid|done|].
  cbn in Hh3. rewrite Hid in Hh3. assert (h3 = h') as -> by congruence. exact Hc.
Qed.

End ticks.

(** ** Dispatching a claim *)

(** A receipt with this key is there; receipts are never removed. *)
Definition receipted (s : SchedulerStore) (key : string) : Prop :=
  ∃ id r, receipts s !! id = Some r ∧ (id = receipt_id_of key ∨ r_idempotency_key r = key).

(** Another key has the receipt id of this one. *)
Definition receipt_collision (key : string) : Prop :=
  ∃ key', key' ≠ key ∧ receipt_id_of key' = receipt_id_of key.

Definition receipts_grow (s s' : SchedulerStore) : Prop :=
  ∀ id r, receipts s !! id = Some r → receipts s' !! id = Some r.

Lemma receipted_grow s s' key : receipts_grow s s' → receipted s key → receipted s' key.
Proof. intros Hg (id & r & Hr & H). exists id, r. auto. Qed.

Lemma receipts_same s s' : receipts s' = receipts s → receipts_grow s s'.
Proof. intros E id r. by rewrite E. Qed.

Lemma receipts_grow_trans s1 s2 s3 : receipts_grow s1 s2 → receipts_grow s2 s3 → receipts_grow s1 s3.
Proof. unfold receipts_grow. auto. Qed.

(** The receipt of an attempt, unless there was one with its key before. *)
Definition said (s s' : SchedulerStore) (id : string) (n : Z) (key status reason : string) : Prop :=
  receipted s key ∨ receipt_collision key ∨
  ∃ r, receipts s' !! receipt_id_of key = Some r ∧ r_occurrence_id r = id ∧ r_attempt r = n ∧
    r_idempotency_key r = key ∧ r_status r = status ∧ r_reason r = reason.

Lemma said_grow s s1 s2 id n key status reason : receipts_grow s1 s2 →
  said s s1 id n key status reason → said s s2 id n key status reason.
Proof. intros Hg [H|[H|(r & Hr & H)]]; [by left|by right; left|]. right. right. exists r. auto. Qed.

(** The receipts are those before, and one of this attempt. *)
Definition receipt_of (id : string) (n : Z) (rid : string) (r : receipt_row) : Prop :=
  ∃ key, attempt_key id n key ∧ rid = receipt_id_of key ∧ r_idempotency_key r = key.

Definition only_receipts (id : string) (n : Z) (s s' : SchedulerStore) : Prop :=
  ∀ rid r, receipts s' !! rid = Some r → receipts s !! rid = Some r ∨ receipt_of id n rid r.

Lemma record_receipt_ok id n key st reason evidence answer now p s rid s' : attempt_key id n key →
  record_dispatch_receipt id n key st reason evidence answer now p s = (Ok rid, s') →
  occurrences s' = occurrences s ∧ receipts_grow s s' ∧ receipted s' key ∧
  said s s' id n key st reason ∧ only_receipts id n s s'.
Proof.
  intros Hkey. unfold record_dispatch_receipt. cbv zeta. intros H.
  do 3 (apply M_bind_ok in H as ([] & ? & [_ ->]%lift_ok & H)).
  apply M_bind_ok in H as (text & ? & [_ ->]%lift_ok & H).
  apply M_bind_ok in H as ([] & s1 & Ht & [= <- <-]).
  apply transaction_ok, M_bind_ok in Ht as (? & ? & [[_ ->]%sqlite_int_ok ->]%lift_ok & H).
  apply M_bind_ok in H as (? & ? & [[_ ->]%sqlite_int_ok ->]%lift_ok & H).
  apply M_bind_ok in H as (rows & ? & [= <- <-] & H).
  assert (Hold : ∀ x : SchedulerStore, x = s → receipted s key →
    occurrences x = occurrences s ∧ receipts_grow s x ∧ receipted x key ∧
    said s x id n key st reason ∧ only_receipts id n s x).
  { intros x -> Hr. split_and!; [done|by apply receipts_same|done|by left|by left]. }
  destruct (bool_decide (is_Some (receipts s !! receipt_id_of key))) eqn:E1.
  - injection H as <-. apply Hold; [done|].
    apply bool_decide_eq_true in E1 as [r Hr]. by exists (receipt_id_of key), r; auto.
  - cbn [orb] in H. destruct (existsb _ _) eqn:E2.
    + injection H as <-. apply Hold; [done|].
      apply existsb_elem in E2 as ([j r] & Hj%elem_of_map_to_list & Hk).
      apply bool_decide_eq_true in Hk. by exists j, r; auto.
    + apply M_bind_ok in H as (parents & ? & [= <- <-] & H).
      apply M_bind_ok in H as ([] & ? & [_ ->]%lift_ok & H). injection H as <-.
      apply bool_decide_eq_false, eq_None_not_Some in E1. split_and!; [done| | | |].
      * intros j r Hr. cbn. rewrite lookup_insert_ne; [done|congruence].
      * eexists _, _. cbn. rewrite lookup_insert_eq. split; [done|by left].
      * right. right. eexists. cbn. rewrite lookup_insert_eq. done.
      * intros j r. cbn. rewrite lookup_insert_Some. intros [[<- <-]|[_ Hj]]; [right|by left].
        by exists key.
Qed.

(** ** What a dispatch concludes

    The state an answer leads to at the [n]th of [limit] attempts. *)
Inductive concludes (limit n : Z) (a : SharedDispatchResult) : string → string → Prop :=
  | co_done : rs_status a = "done" → concludes limit n a "done" "DISPATCH_DONE"
  | co_waiting : rs_status a = "waiting_dependency" →
      concludes limit n a "waiting_dependency" "WAITING_DEPENDENCY"
  | co_operator : rs_status a = "needs_operator" →
      concludes limit n a "needs_operator" "DISPATCH_NEEDS_OPERATOR"
  | co_ambiguous : rs_status a ∉ ["done"; "waiting_dependency"; "needs_operator"] →
      _receipt_is_ambiguous_mutating (rs_receipt a) = true →
      concludes limit n a "needs_operator" "AMBIGUOUS_MUTATING_RECEIPT"
  | co_retry : rs_status a ∉ ["done"; "waiting_dependency"; "needs_operator"] →
      _receipt_is_ambiguous_mutating (rs_receipt a) = false → rs_retryable a = true → n < limit →
      concludes limit n a "pending" "DISPATCH_RETRY"
  | co_exhausted : rs_status a ∉ ["done"; "waiting_dependency"; "needs_operator"] →
      _receipt_is_ambiguous_mutating (rs_receipt a) = false → (rs_retryable a = true → limit ≤ n) →
      concludes limit n a "needs_operator" "DISPATCH_AUTOMATIC_PATHS_EXHAUSTED".

(** The proposal of an occurrence, and the dependency it names. *)
Definition proposes (r : occurrence_row) (p : list (string * json)) : Prop :=
  json_loads (o_proposal_json r) = Ok (JObj p).

Definition waits_for (r : occurrence_row) (dependency : string) : Prop :=
  ∃ p q, proposes r p ∧ dict_get p "payload" = Some (JObj q) ∧
    dict_get q "wait_for" = Some (JStr dependency).

Definition done_in (s : SchedulerStore) (id : string) : Prop :=
  ∃ r, occurrences s !! id = Some r ∧ o_state r = "done".

(** The claim is over. *)
Record quits (id : string) (n : Z) (r : occurrence_row) : Prop := {
  qu_attempt : o_attempt r = n;
  qu_key : ∃ key, o_idempotency_key r = Some key ∧ attempt_key id n key;
  qu_owner : o_claim_owner r = None;
  qu_lease : o_lease_expires_at r = None
}.

(** The claim of [id] ended in a row [R], other occurrences did not change, and [k]
    follow-ups were created. *)
Record turn (id : string) (n : Z) (k : nat) (R : occurrence_row → Prop) (s s' : SchedulerStore) : Prop := {
  tu_self : ∃ row r, occurrences s !! id = Some row ∧ occurrences s' !! id = Some r ∧
    identity r = identity row ∧ quits id n r ∧ R r;
  tu_old : ∀ j r, j ≠ id → occurrences s !! j = Some r → occurrences s' !! j = Some r;
  tu_new : ∀ j r, j ≠ id → occurrences s !! j = None → occurrences s' !! j = Some r →
    o_state r = "pending" ∧ o_attempt r = 0 ∧ o_parent_occurrence_id r = Some id;
  tu_size : size (occurrences s') = (size (occurrences s) + k)%nat;
  tu_receipts : receipts_grow s s';
  tu_only : only_receipts id n s s'
}.

Lemma turn_mono id n k (R R' : occurrence_row → Prop) s s' : (∀ r, R r → R' r) →
  turn id n k R s s' → turn id n k R' s s'.
Proof. intros HR [(row & r & ? & ? & ? & ? & ?) ? ? ? ? ?]. split; try done. exists row, r. split_and!; auto. Qed.

(** Something that only adds receipts of the attempt, then the turn. *)
Lemma then_turn id n k R s s1 s2 : occurrences s1 = occurrences s → receipts_grow s s1 →
  only_receipts id n s s1 → turn id n k R s1 s2 → turn id n k R s s2.
Proof.
  intros Ho Hg Honly [Hs Hold Hnew Hsize Hg2 Honly2]. rewrite Ho in Hs, Hold, Hnew, Hsize. split; try done.
  - by eapply receipts_grow_trans.
  - intros rid r Hr. destruct (Honly2 _ _ Hr) as [H|H]; [by apply Honly|by right].
Qed.

(** A follow-up of the occurrence. *)
Definition follows (id : string) (_ : string) (r : occurrence_row) : Prop :=
  o_state r = "pending" ∧ o_attempt r = 0 ∧ o_parent_occurrence_id r = Some id.

Lemma turn_then id n R s s1 s2 k : turn id n 0 R s s1 → adds (follows id) s1 s2 →
  size (occurrences s2) = (size (occurrences s1) + k)%nat → turn id n k R s s2.
Proof.
  intros [(row & r & Hrow & Hr & Hi & Hq & HR) Ho Hn Hsize Hg Honly] Ha Hk.
  pose proof (ad_receipts _ _ _ Ha) as Hrec. split.
  - exists row, r. split_and!; try done. by apply (ad_old _ _ _ Ha).
  - intros j x Hj Hx. apply (ad_old _ _ _ Ha). by apply Ho.
  - intros j x Hj Hnone Hx. destruct (occurrences s1 !! j) as [y|] eqn:E.
    + assert (y = x) as -> by (apply (ad_old _ _ _ Ha) in E; congruence). by apply (Hn j).
    + by apply (ad_new _ _ _ Ha j).
  - lia.
  - eapply receipts_grow_trans; [done|]. by apply receipts_same.
  - intros rid x. rewrite Hrec. apply Honly.
Qed.

Section dispatches.
Context (ZoneInfo : string → result (Z → Z)) {G D : Type} (self : SchedulerEngine (G:=G))
  (dispatcher : SharedDispatchRequest → M D SharedDispatchResult)
  (during_dispatch : SharedDispatchRequest → list during).

(** Nobody else writes the store during the dispatches. *)
Hypothesis only_beats : ∀ request e, e ∈ during_dispatch request → ∃ t, e = Beat t.

Lemma settle_ok o st reason now s s' u : st ≠ "running" → settle o st reason now s = (Ok u, s') →
  ∃ r, occurrences s !! or_occurrence_id o = Some r ∧ o_state r = "running" ∧
    s' = set_occurrences <[or_occurrence_id o :=
      with_state st reason now (o_started_at r) None None None r]> s.
Proof.
  intros Hst H. unfold settle in H. apply M_bind_ok in H as (rec & s1 & H & [= <- <-]).
  unfold transition_occurrence in H.
  do 5 (apply M_bind_ok in H as ([] & ? & [_ ->]%lift_ok & H)).
  apply transaction_ok, M_bind_ok in H as (? & ? & [[_ ->]%sqlite_int_ok ->]%lift_ok & H).
  apply M_bind_ok in H as (row & ? & [= <- <-] & H).
  destruct (occurrences s !! or_occurrence_id o) as [r|] eqn:Er; [|discriminate].
  apply M_bind_ok in H as ([] & ? & [Hs ->]%lift_ok & H).
  apply raise_if_ok, negb_false_iff, bool_decide_eq_true, list_elem_of_singleton in Hs.
  rewrite (bool_decide_eq_false_2 _ Hst) in H. cbv zeta in H. cbn [andb] in H.
  apply M_bind_ok in H as ([] & s2 & [= <-] & H).
  pose proof (load_occurrence_reads (or_occurrence_id o)) as Hl.
  match type of H with load_occurrence _ ?x = _ => specialize (Hl x); rewrite H in Hl end.
  cbn in Hl. subst. by exists r.
Qed.

(** The row of a claim while its dispatch runs. *)
Record claimed_row_ok (n : Z) (key : string) (r : occurrence_row) : Prop := {
  cr_state : o_state r = "running";
  cr_attempt : o_attempt r = n;
  cr_key : o_idempotency_key r = Some key
}.

(** A heartbeat writes this row only, and keeps the claim. *)
Record beats (id : string) (n : Z) (key : string) (row : occurrence_row) (s s' : SchedulerStore) : Prop := {
  be_receipts : receipts s' = receipts s;
  be_size : size (occurrences s') = size (occurrences s);
  be_others : ∀ j, j ≠ id → occurrences s' !! j = occurrences s !! j;
  be_self : ∃ row', occurrences s' !! id = Some row' ∧ identity row' = identity row ∧
    claimed_row_ok n key row'
}.

Lemma beats_refl id n key row s : occurrences s !! id = Some row → claimed_row_ok n key row →
  beats id n key row s s.
Proof. intros Hr Hc. split; try done. by exists row. Qed.

Lemma renew_ok id owner lease now s r s' n key row : claimed_row_ok n key row →
  occurrences s !! id = Some row → renew_running_claim id owner lease now s = (r, s') →
  beats id n key row s s'.
Proof.
  intros Hc Hrow H. unfold renew_running_claim, transaction in H. revert H. m_run. rewrite Hrow.
  assert (Hdone : ∀ x : SchedulerStore, x = s → beats id n key row s x)
    by (intros x ->; by apply beats_refl).
  destruct (_timestamp _ _); [|intros [= _ <-]; by apply Hdone].
  destruct (_owner _); [|intros [= _ <-]; by apply Hdone].
  destruct (check_lease _); [|intros [= _ <-]; by apply Hdone].
  destruct (sqlite_int now); [|intros [= _ <-]; by apply Hdone].
  destruct (sqlite_int _); [|intros [= _ <-]; by apply Hdone].
  destruct (_ && _); [|intros [= _ <-]; by apply Hdone].
  intros [= _ <-]. split; cbn; [done| | |].
  - apply map_size_insert_Some. by exists row.
  - intros j Hj. by rewrite lookup_insert_ne.
  - rewrite lookup_insert_eq. eexists. split; [done|]. split; [done|]. destruct Hc. by split.
Qed.

Lemma heartbeat_ok id alive events s s' u n key row : (∀ e, e ∈ events → ∃ t, e = Beat t) →
  claimed_row_ok n key row → occurrences s !! id = Some row →
  _start_dispatch_heartbeat ZoneInfo self id alive events s = (Ok u, s') → beats id n key row s s'.
Proof.
  intros Hb. revert alive s row. induction events as [|e events IH]; intros alive s row Hc Hrow H.
  { injection H as <- <-. by apply beats_refl. }
  destruct (Hb e) as [t ->]; [by left|]. cbn [_start_dispatch_heartbeat] in H.
  assert (Hb' : ∀ e, e ∈ events → ∃ t, e = Beat t) by (intros; apply Hb; by right).
  apply M_bind_ok in H as (renewed & s1 & H1 & H).
  destruct alive; [|injection H1 as <- <-; by apply (IH Hb' false s row)].
  assert (Hstep : ∃ r, renew_running_claim id (en_owner self) (initial_lease_seconds (en_config self)) t s
    = (r, s1)).
  { unfold catch in H1. destruct (renew_running_claim _ _ _ _ s) as [[b|e] s2];
      [injection H1 as _ <-; by exists (Ok b)|injection H1 as _ <-; by exists (Raise e)]. }
  destruct Hstep as [r Hr].
  destruct (renew_ok _ _ _ _ _ _ _ _ _ _ Hc Hrow Hr) as [Hrec Hsz Ho (row1 & Hrow1 & Hi & Hc1)].
  destruct (IH Hb' renewed s1 row1 Hc1 Hrow1 H) as [Hrec' Hsz' Ho' (row2 & Hrow2 & Hi2 & Hc2)].
  split; [congruence|congruence| |exists row2; split_and!; [done|congruence|done]].
  intros j Hj. rewrite Ho' by done. by apply Ho.
Qed.

Lemma settle_turn o st reason now s s' u n key row : st ≠ "running" →
  settle o st reason now s = (Ok u, s') →
  occurrences s !! or_occurrence_id o = Some row → claimed_row_ok n key row →
  attempt_key (or_occurrence_id o) n key →
  turn (or_occurrence_id o) n 0 (λ r, o_state r = st ∧ o_reason r = reason) s s'.
Proof.
  intros Hst H Hrow [Hs Ha Hk] Hkey. apply settle_ok in H as (r & Hr & _ & ->); [|done].
  assert (r = row) as -> by congruence. split; cbn.
  - exists row. rewrite lookup_insert_eq. eexists. split_and!; [done..|split; cbn; try done; by exists key|done|done].
  - intros j x Hj Hx. by rewrite lookup_insert_ne.
  - intros j x Hj Hn Hx. rewrite lookup_insert_ne in Hx by done. congruence.
  - rewrite map_size_insert_Some by (by exists row). lia.
  - by apply receipts_same.
  - by left.
Qed.

Lemma complete_turn o answer now s final s' key row :
  _complete_dispatch self o answer now s = (Ok final, s') →
  occurrences s !! or_occurrence_id o = Some row → claimed_row_ok (or_attempt o) key row →
  attempt_key (or_occurrence_id o) (or_attempt o) key →
  turn (or_occurrence_id o) (or_attempt o) 0
    (λ r, concludes (max_attempts (en_config self)) (or_attempt o) answer (o_state r) (o_reason r)) s s' ∧
  final ≠ "continued".
Proof.
  intros H Hrow Hc Hkey. unfold _complete_dispatch, _dispatch_is_ambiguous_mutating in H.
  assert (Hgo : ∀ st reason code, st ≠ "running" → code ≠ "continued" →
    concludes (max_attempts (en_config self)) (or_attempt o) answer st reason →
    (settle o st reason now;; mret code) s = (Ok final, s') →
    turn (or_occurrence_id o) (or_attempt o) 0
      (λ r, concludes (max_attempts (en_config self)) (or_attempt o) answer (o_state r) (o_reason r)) s s' ∧
    final ≠ "continued").
  { intros st reason code Hst Hcode Hco Hrun.
    apply M_bind_ok in Hrun as ([] & s1 & Hrun & [= <- <-]). split; [|done].
    eapply turn_mono; [|by eapply settle_turn]. by intros r [-> ->]. }
  destruct (rs_status answer == "done") eqn:E1.
  { apply bool_decide_eq_true in E1. eapply Hgo, H; [done|done|by constructor]. }
  destruct (rs_status answer == "waiting_dependency") eqn:E2.
  { apply bool_decide_eq_true in E2. eapply Hgo, H; [done|done|by constructor]. }
  destruct (rs_status answer == "needs_operator") eqn:E3.
  { apply bool_decide_eq_true in E3. eapply Hgo, H; [done|done|by constructor]. }
  apply bool_decide_eq_false in E1, E2, E3.
  assert (Hn : rs_status answer ∉ ["done"; "waiting_dependency"; "needs_operator"]).
  { intros Hin. repeat (apply elem_of_cons in Hin as [?|Hin]; [done|]). inversion Hin. }
  destruct (_receipt_is_ambiguous_mutating _) eqn:Ea; [eapply Hgo, H; [done|done|by constructor]|].
  destruct (rs_retryable answer && (or_attempt o <? max_attempts (en_config self))) eqn:E.
  - apply andb_true_iff in E as [Hr E%Z.ltb_lt]. eapply Hgo, H; [done|done|by constructor].
  - eapply Hgo, H; [done|done|]. constructor; [done..|]. intros Hr. rewrite Hr in E. by apply Z.ltb_ge in E.
Qed.

Lemma followup_adds o next rid now s b s' : _create_followup ZoneInfo o next rid now s = (Ok b, s') →
  adds (follows (or_occurrence_id o)) s s' ∧
  size (occurrences s') = (size (occurrences s) + if b then 1 else 0)%nat.
Proof.
  assert (Hno : adds (follows (or_occurrence_id o)) s s ∧
    size (occurrences s) = (size (occurrences s) + 0)%nat) by (split; [apply adds_refl|lia]).
  unfold _create_followup. intros H. apply M_bind_ok in H as (schedule & ? & [_ ->]%query_ok & H).
  destruct schedule as [schedule|]; [|by injection H as <- <-].
  destruct (_ =? _); [|by injection H as <- <-]. cbv zeta in H.
  apply M_bind_ok in H as (workflow & ? & [_ ->]%lift_ok & H).
  apply M_bind_ok in H as (step & ? & [_ ->]%lift_ok & H).
  apply M_bind_ok in H as (id & ? & [_ ->]%lift_ok & H).
  apply M_bind_ok in H as ([rec created] & s1 & Hc & [= <- <-]).
  apply create_ok in Hc as [_ Hc]. destruct created; [|by rewrite Hc].
  destruct Hc as (row & Hn & -> & _ & _ & Hp & Hst & Hat). split; [by apply adds_put|].
  cbn. rewrite map_size_insert_None by done. lia.
Qed.

Lemma conclude_turn o answer now s events s' key row :
  conclude_dispatch ZoneInfo self o answer now s = (Ok events, s') →
  occurrences s !! or_occurrence_id o = Some row → claimed_row_ok (or_attempt o) key row →
  or_idempotency_key o = Some key → attempt_key (or_occurrence_id o) (or_attempt o) key →
  ∃ k, turn (or_occurrence_id o) (or_attempt o) k
    (λ r, concludes (max_attempts (en_config self)) (or_attempt o) answer (o_state r) (o_reason r)) s s' ∧
  said s s' (or_occurrence_id o) (or_attempt o) key (rs_status answer) (rs_reason answer) ∧
  count "continued" events = Z.of_nat k ∧ receipted s' key.
Proof.
  intros H Hrow Hc Hk Hkey. unfold conclude_dispatch in H.
  apply M_bind_ok in H as (rid & s1 & Hr & H). rewrite Hk in Hr. cbn [default from_option id] in Hr.
  apply record_receipt_ok in Hr as (Ho & Hg & Hrec & Hsaid & Honly); [|done].
  apply M_bind_ok in H as (final & s2 & Hd & H). apply (complete_turn _ _ _ _ _ _ key row) in Hd as [Ht Hf];
    [|by rewrite Ho|done..].
  assert (Hcount : ∀ l, count "continued" (final :: l) = count "continued" l).
  { intros l. unfold count. cbn. by rewrite (bool_decide_eq_false_2 _ Hf). }
  assert (Hend : ∀ k s3, turn (or_occurrence_id o) (or_attempt o) k
      (λ r, concludes (max_attempts (en_config self)) (or_attempt o) answer (o_state r) (o_reason r)) s1 s3 →
    ∀ events, count "continued" events = Z.of_nat k → ∃ k, turn (or_occurrence_id o) (or_attempt o) k
      (λ r, concludes (max_attempts (en_config self)) (or_attempt o) answer (o_state r) (o_reason r)) s s3 ∧
    said s s3 (or_occurrence_id o) (or_attempt o) key (rs_status answer) (rs_reason answer) ∧
    count "continued" events = Z.of_nat k ∧ receipted s3 key).
  { intros k s3 Ht3 l Hl. pose proof (tu_receipts _ _ _ _ _ _ Ht3) as Hg3. exists k.
    split_and!; [by apply (then_turn _ _ _ _ _ s1)|by eapply said_grow|done|by eapply receipted_grow]. }
  destruct (rs_next_step answer) as [next|].
  - apply M_bind_ok in H as (b & s3 & Hfo & [= <- <-]). apply followup_adds in Hfo as [Hadds Hsize].
    apply (Hend (if b then 1 else 0)%nat); [by eapply turn_then|]. rewrite Hcount. by destruct b.
  - injection H as <- <-. apply (Hend 0%nat); [done|]. by rewrite Hcount.
Qed.

Lemma record_wait_store o dep now (w w' : world (G:=G) (D:=D)) u :
  _record_dependency_wait self o dep now w = (Ok u, w') → w_store w' = w_store w.
Proof.
  unfold _record_dependency_wait. destruct (en_domain_event_graph self) as [f|]; [|by intros [= _ <-]].
  unfold catch, on_graph, zoom. destruct (f _ _ _ _ (w_graph w)) as [[v|e] g]; [by intros [= _ <-]|].
  destruct e; (discriminate || by intros [= _ <-]).
Qed.

(** The request that a claim becomes. *)
Record asks (id : string) (n : Z) (key : string) (r : occurrence_row)
    (request : SharedDispatchRequest) : Prop := {
  as_id : rq_occurrence_id request = id;
  as_attempt : rq_attempt request = n;
  as_key : rq_idempotency_key request = key;
  as_parent : rq_parent_receipt_id request = o_parent_receipt_id r;
  as_proposal : ∀ p, proposes r p →
    rq_payload request = default (JObj []) (dict_get p "payload") ∧
    (∀ s, dict_get p "route_type" = Some (JStr s) → rq_route_type request = s) ∧
    ∀ s, dict_get p "route_id" = Some (JStr s) → rq_route_id request = s
}.

(** How a claimed occurrence was settled, between the stores [s] and [s']: it names a
    dependency that was not done, and waits; or the dispatcher was asked, and the
    occurrence is where its answer leads. *)
Inductive answered (s s' : SchedulerStore) (id : string) (n : Z) (key : string) (r : occurrence_row) : Prop :=
  | an_waits dependency :
      waits_for r dependency → ¬ done_in s dependency →
      o_state r = "waiting_dependency" → o_reason r = "WAITING_DEPENDENCY" →
      said s s' id n key "waiting_dependency" "WAITING_DEPENDENCY" → answered s s' id n key r
  | an_answer request a d d' :
      asks id n key r request → dispatcher request d = (Ok a, d') →
      (∀ dependency, waits_for r dependency → done_in s' dependency) →
      concludes (max_attempts (en_config self)) n a (o_state r) (o_reason r) →
      said s s' id n key (rs_status a) (rs_reason a) → answered s s' id n key r.

(** The occurrence holds no claim; the attempt has a receipt and an answer. *)
Record settled (s s' : SchedulerStore) (id : string) (n : Z) (r : occurrence_row) : Prop := {
  se_quits : quits id n r;
  se_answer : ∃ key, o_idempotency_key r = Some key ∧ attempt_key id n key ∧ receipted s' key ∧
    answered s s' id n key r
}.

Lemma identity_same r r' : identity r' = identity r →
  o_proposal_json r' = o_proposal_json r ∧ o_parent_receipt_id r' = o_parent_receipt_id r ∧
  o_parent_occurrence_id r' = o_parent_occurrence_id r ∧ slot r' = slot r ∧ o_created_at r' = o_created_at r.
Proof. unfold identity, slot. intros [= -> -> -> -> -> -> ->]. done. Qed.

Lemma same_waits r r' dependency : o_proposal_json r' = o_proposal_json r →
  waits_for r dependency → waits_for r' dependency.
Proof. unfold waits_for, proposes. by intros ->. Qed.

Lemma proposal_of id row o : _occurrence_from_row id row = Ok o →
  or_occurrence_id o = id ∧ json_loads (o_proposal_json row) = Ok (or_proposal o) ∧
  or_attempt o = o_attempt row ∧ or_idempotency_key o = o_idempotency_key row ∧
  or_parent_receipt_id o = o_parent_receipt_id row.
Proof.
  unfold _occurrence_from_row. intros (p & Hp & [= <-])%result_bind_ok. done.
Qed.

Lemma dependency_ok id row o dependency : _occurrence_from_row id row = Ok o →
  dispatch_dependency (or_proposal o) = Ok dependency →
  ∀ x, dependency = Some x ↔ waits_for row x.
Proof.
  intros (_ & Hp & _)%proposal_of H x. unfold dispatch_dependency, get_or in H.
  destruct (or_proposal o) as [| | | | | |p]; try discriminate. cbn [mbind result_bind] in H.
  unfold waits_for, proposes. rewrite Hp.
  split.
  - intros ->. destruct (dict_get p "payload") as [v|] eqn:Eq;
      cbn [default from_option Datatypes.id mbind result_bind] in H;
      [destruct v as [| | | | | |q]; try discriminate H|].
    + destruct (dict_get q "wait_for") as [[]|] eqn:Ew; try discriminate. injection H as <-.
      by exists p, q.
    + injection H as H. discriminate H.
  - intros (p' & q & [= <-] & Hq & Hw). rewrite Hq in H. cbn [default from_option Datatypes.id mbind result_bind] in H.
    rewrite Hw in H. by injection H as <-.
Qed.

Lemma request_ok id row o key request : _occurrence_from_row id row = Ok o →
  o_idempotency_key row = Some key → build_request o = Ok request →
  ∀ r, identity r = identity row → asks id (o_attempt row) key r request.
Proof.
  intros (Hid & Hp & Hat & Hk & Hpar)%proposal_of Hkey H r Hi.
  destruct (identity_same _ _ Hi) as (Ej & Epar & _). unfold build_request in H.
  apply result_bind_ok in H as (v1 & H1 & H). apply result_bind_ok in H as (t1 & T1 & H).
  apply result_bind_ok in H as (v2 & H2 & H). apply result_bind_ok in H as (t2 & T2 & H).
  apply result_bind_ok in H as (v3 & H3 & H). injection H as <-.
  split; cbn; [done|done| |congruence|].
  - by rewrite Hk, Hkey.
  - intros p Hr. unfold proposes in Hr. rewrite Ej, Hp in Hr. injection Hr as Hr. rewrite Hr in H1, H2, H3.
    unfold get_or in H1, H2, H3. injection H1 as <-. injection H2 as <-. injection H3 as <-.
    split_and!; [done| |]; intros s Es; rewrite Es in *; cbn in *; congruence.
Qed.

Lemma done_running s dep : done_in s dep →
  ∀ id r, occurrences s !! id = Some r → o_state r ≠ "done" → dep ≠ id.
Proof. intros (x & Hx & Hd) id r Hr Hn ->. congruence. Qed.

(** The row of a turn is judged by what became of the claim. *)
Lemma turn_answer id n k (R R' : occurrence_row → Prop) s s' row : turn id n k R s s' →
  occurrences s !! id = Some row → (∀ r, identity r = identity row → R r → R' r) → turn id n k R' s s'.
Proof.
  intros [(x & r & Hx & Hr & Hi & Hq & HR) ? ? ? ? ?] Hrow H. assert (x = row) as -> by congruence.
  split; try done. exists row, r. split_and!; auto.
Qed.

(** The turn of a claimed occurrence. *)
Lemma claimed_turn o now (w w' : world (G:=G) (D:=D)) events key row :
  dispatch_claimed ZoneInfo self dispatcher during_dispatch o now w = (Ok events, w') →
  occurrences (w_store w) !! or_occurrence_id o = Some row → claimed_row_ok (or_attempt o) key row →
  _occurrence_from_row (or_occurrence_id o) row = Ok o → attempt_key (or_occurrence_id o) (or_attempt o) key →
  ∃ k, turn (or_occurrence_id o) (or_attempt o) k
    (answered (w_store w) (w_store w') (or_occurrence_id o) (or_attempt o) key) (w_store w) (w_store w') ∧
  count "continued" events = Z.of_nat k ∧ receipted (w_store w') key.
Proof.
  intros H Hrow Hc Ho Hkey. destruct (proposal_of _ _ _ Ho) as (_ & _ & Hat & Hok & _).
  assert (Hk : or_idempotency_key o = Some key) by (rewrite Hok; apply Hc).
  unfold dispatch_claimed in H.
  apply M_bind_ok in H as (dependency & ? & [Hdep ->]%lift_ok & H).
  pose proof (dependency_ok _ _ _ _ Ho Hdep) as Hwaits.
  apply M_bind_ok in H as (waiting & w1 & Hw & H).
  assert (w1 = w ∧ match waiting with
    | Some x => dependency = Some x ∧ ¬ done_in (w_store w) x
    | None => ∀ x, dependency = Some x → done_in (w_store w) x
    end) as [-> Hwaiting].
  { destruct dependency as [x|]; [|by injection Hw as <- <-].
    apply M_bind_ok in Hw as (r & w2 & Hq & Hw).
    apply zoom_ok in Hq as (s' & [Hq ->]%query_ok & ->).
    assert (Ew : w1 = w) by (injection Hw as _ <-; by destruct w). split; [done|].
    unfold _load_occurrence in Hq. destruct (occurrences (w_store w) !! x) as [rx|] eqn:Ex.
    - apply result_bind_ok in Hq as (rec & Hrec & [= <-]). injection Hw as <- _.
      assert (Est : or_state rec = o_state rx)
        by (unfold _occurrence_from_row in Hrec; by apply result_bind_ok in Hrec as (? & _ & [= <-])).
      rewrite Est. destruct (bool_decide_reflect (o_state rx = "done")) as [E|E].
      + intros y [= <-]. by exists rx.
      + split; [done|]. intros (z & Hz & Hd). congruence.
    - injection Hq as <-. injection Hw as <- _. split; [done|]. intros (z & Hz & _). congruence. }
  destruct waiting as [dep|].
  - destruct Hwaiting as [-> Hnot]. apply M_bind_ok in H as ([] & w2 & Hwait & [= <- <-]).
    unfold wait_for_dependency in Hwait. cbv zeta in Hwait.
    apply M_bind_ok in Hwait as ([] & w3 & Hg & Hwait).
    assert (Hst : w_store w3 = w_store w) by (by eapply record_wait_store).
    apply M_bind_ok in Hwait as (rid & w4 & Hr & Hwait).
    apply zoom_ok in Hr as (s4 & Hr & ->). apply zoom_ok in Hwait as (s5 & Hs & ->). cbn [w_store] in *.
    rewrite Hst, Hk in Hr. cbn [default from_option id] in Hr.
    apply record_receipt_ok in Hr as (Hocc & Hgrow & Hrec & Hsaid & Honly); [|done].
    assert (Ht : turn (or_occurrence_id o) (or_attempt o) 0
      (λ r, o_state r = "waiting_dependency" ∧ o_reason r = "WAITING_DEPENDENCY") s4 s5)
      by (eapply settle_turn; [|exact Hs|by rewrite Hocc|done|done]; done).
    pose proof (tu_receipts _ _ _ _ _ _ Ht) as Hg5.
    exists 0%nat. split; [|split; [done|by eapply receipted_grow]].
    eapply turn_answer; [by eapply (then_turn _ _ _ _ _ s4)|exact Hrow|].
    intros r Hi [Hst' Hreason]. eapply an_waits; try done.
    + eapply same_waits; [by apply identity_same|]. by apply Hwaits.
    + by eapply said_grow.
  - apply M_bind_ok in H as (request & ? & [Hreq ->]%lift_ok & H).
    apply M_bind_ok in H as (answer & w2 & Hrun & H). unfold run_dispatch in Hrun.
    apply M_bind_ok in Hrun as ([] & w3 & Hb & Hrun). apply zoom_ok in Hb as (s3 & Hb & ->).
    apply zoom_ok in Hrun as (d & Hans & ->). apply zoom_ok in H as (s4 & Hcon & ->). cbn [w_store w_dispatch] in *.
    pose proof (request_ok _ _ _ _ _ Ho (cr_key _ _ _ Hc) Hreq) as Hasks.
    rewrite (as_id _ _ _ _ _ (Hasks row eq_refl)) in Hb.
    eapply heartbeat_ok in Hb as [Hrec Hsize Hothers (row' & Hrow' & Hi' & Hc')];
      [|apply only_beats|done|done].
    eapply conclude_turn in Hcon as (k & Ht & Hsaid & Hcount & Hre); [|done..].
    exists k. split; [|done]. pose proof Ht as [(x & r & Hx & Hr & Hi & Hq & HR) Hold Hnew Hsz Hgrow Honly].
    assert (x = row') as -> by congruence. split.
    + exists row, r. split_and!; [done|done|congruence|done|].
      eapply (an_answer _ _ _ _ _ _ request answer); [|exact Hans| |exact HR|].
      * rewrite Hat. apply Hasks. congruence.
      * intros y Hy. destruct (Hwaiting y) as (ry & Hry & Hdone).
        { apply Hwaits. eapply same_waits; [|exact Hy]. symmetry. apply identity_same. congruence. }
        exists ry. split; [|done]. assert (Hne : y ≠ or_occurrence_id o).
        { intros ->. pose proof (cr_state _ _ _ Hc). congruence. }
        apply Hold; [done|]. by rewrite Hothers.
      * destruct Hsaid as [(a & b & Ha & Hb')|Hsaid]; [left|by right]. exists a, b. by rewrite <-Hrec.
    + intros j y Hj Hy. apply Hold; [done|]. by rewrite Hothers.
    + intros j y Hj Hn Hy. apply (Hnew j); [done| |done]. by rewrite Hothers.
    + lia.
    + intros j y Hy. apply Hgrow. by rewrite Hrec.
    + intros j y Hy. rewrite <-Hrec. by apply Honly.
Qed.

(** ** What a round of dispatches leaves *)

(** Every occurrence is as before, a follow-up still to be dispatched, or was
    claimed once in this round and is settled. *)
Inductive fate (claimed : list string) (s s' : SchedulerStore) (id : string) : Prop :=
  | fa_same : occurrences s' !! id = occurrences s !! id → fate claimed s s' id
  | fa_new r parent : occurrences s !! id = None → occurrences s' !! id = Some r →
      o_state r = "pending" → o_attempt r = 0 →
      o_parent_occurrence_id r = Some parent → is_Some (occurrences s' !! parent) → fate claimed s s' id
  | fa_settled n r :
      id ∉ claimed →
      match occurrences s !! id with
      | Some old => o_state old = "pending" ∧ n = o_attempt old + 1 ∧ identity r = identity old
      | None => n = 1 ∧ ∃ parent, o_parent_occurrence_id r = Some parent ∧ is_Some (occurrences s' !! parent)
      end →
      occurrences s' !! id = Some r → settled s s' id n r → fate claimed s s' id.

Lemma fate_some claimed s s' id r : fate claimed s s' id → occurrences s !! id = Some r →
  ∃ r', occurrences s' !! id = Some r' ∧ (o_state r ≠ "pending" → r' = r).
Proof.
  intros [Hsame|x p Hn|n x _ Hb Hx _] Hr; [|congruence|].
  - exists r. by rewrite Hsame.
  - rewrite Hr in Hb. destruct Hb as [Hp _]. exists x. by split.
Qed.

Lemma fate_done claimed s s' dep : (∀ id, fate claimed s s' id) → done_in s dep → done_in s' dep.
Proof.
  intros Hf (r & Hr & Hd). destruct (fate_some _ _ _ _ _ (Hf dep) Hr) as (r' & Hr' & E).
  exists r'. rewrite E in Hr' |- * by (rewrite Hd; done). done.
Qed.

(** The store before a turn, and the store after: what was not done or had no receipt
    then, was not and had none before. *)
Lemma settled_back s s2 s' j m r : (∀ dep, done_in s dep → done_in s2 dep) →
  (∀ key, attempt_key j m key → receipted s2 key → receipted s key ∨ receipt_collision key) →
  settled s2 s' j m r → settled s s' j m r.
Proof.
  intros Hd Hr [Hq (key & Hk & Hak & Hre & Ha)]. split; [done|]. exists key. split_and!; try done.
  assert (Hs : ∀ status reason, said s2 s' j m key status reason → said s s' j m key status reason).
  { intros st reason [H|H]; [|by right]. destruct (Hr key Hak H); [by left|by right; left]. }
  destruct Ha as [dep Hw Hn|request a d d' Hask Hans Hdep]; [eapply an_waits|eapply an_answer]; eauto.
Qed.

Lemma settled_forth s s2 s' id n r : (∀ dep, done_in s2 dep → done_in s' dep) → receipts_grow s2 s' →
  settled s s2 id n r → settled s s' id n r.
Proof.
  intros Hd Hg [Hq (key & Hk & Hak & Hre & Ha)]. split; [done|]. exists key.
  split_and!; [done|done|by eapply receipted_grow|].
  destruct Ha as [dep Hw Hn|request a d d' Hask Hans Hdep]; [eapply an_waits|eapply an_answer]; eauto using said_grow.
Qed.

(** The keys of other occurrences got no receipt in a turn, but for a collision. *)
Lemma turn_receipted id n s s' j m key : only_receipts id n s s' → j ≠ id → attempt_key j m key →
  receipted s' key → receipted s key ∨ receipt_collision key.
Proof.
  intros Ho Hj Hk (rid & r & Hr & H). destruct (Ho _ _ Hr) as [Hold|(key0 & Hk0 & -> & Er)].
  - left. by exists rid, r.
  - assert (Hne : key0 ≠ key) by (intros ->; by destruct (attempt_key_inj _ _ _ _ _ Hk Hk0)).
    destruct H as [H|H]; [right; by exists key0|congruence].
Qed.

Lemma claim_none now owner lease ids s s' :
  claim_next_pending now owner lease ids s = (Ok None, s') → s' = s.
Proof.
  unfold claim_next_pending. cbv zeta. intros H.
  do 3 (apply M_bind_ok in H as ([] & ? & [_ ->]%lift_ok & H)).
  apply transaction_ok, M_bind_ok in H as (rows & ? & [= <- <-] & H).
  destruct (select _ s) as [|[id row] rows]; [by injection H as <-|].
  do 5 (apply M_bind_ok in H as (? & ? & [_ ->]%lift_ok & H)).
  apply M_bind_ok in H as ([] & ? & _ & H). by apply M_bind_ok in H as (r & ? & _ & [=]).
Qed.

(** A claim and its turn, then the rest of the round. *)
Section round.
Context (claimed : list string) (s s1 s2 s' : SchedulerStore) (id key owner : string)
  (row : occurrence_row) (now lease : Z) (k : nat).
Notation n := (o_attempt row + 1).
Context (Hrow : occurrences s !! id = Some row) (Hpend : o_state row = "pending") (Hnot : id ∉ claimed)
  (Hkey : attempt_key id n key)
  (Hs1 : s1 = set_occurrences <[id := claim_row now n lease key owner row]> s)
  (Ht : turn id n k (answered s1 s2 id n key) s1 s2) (Hre : receipted s2 key)
  (Hgrow : receipts_grow s2 s') (Hfate : ∀ j, fate (id :: claimed) s2 s' j).

Lemma round_others j : j ≠ id → occurrences s1 !! j = occurrences s !! j.
Proof. intros Hj. rewrite Hs1. cbn. by rewrite lookup_insert_ne. Qed.

Lemma round_done dep : done_in s dep → done_in s1 dep ∧ done_in s2 dep.
Proof.
  intros (r & Hr & Hd). assert (Hj : dep ≠ id) by (intros ->; congruence).
  assert (Hr1 : occurrences s1 !! dep = Some r) by (by rewrite round_others).
  split; exists r; [done|]. split; [|done]. by apply (tu_old _ _ _ _ _ _ Ht).
Qed.

Lemma round_fate j : fate claimed s s' j.
Proof.
  destruct Ht as [(row1 & r & Hrow1 & Hr & Hi & Hq & Hans) Hold Hnew _ Hg Honly].
  pose proof (λ dep, fate_done _ _ _ dep Hfate) as Hdone.
  destruct (decide (j = id)) as [->|Hj].
  - destruct (Hfate id) as [Hsame|x p Hn|m x Hnin]; [|congruence|exfalso; apply Hnin; left].
    apply (fa_settled _ _ _ _ n r); [done| |congruence|].
    + rewrite Hrow. split_and!; [done|done|]. rewrite Hi. rewrite Hs1 in Hrow1. cbn in Hrow1.
      rewrite lookup_insert_eq in Hrow1. by injection Hrow1 as <-.
    + apply (settled_back s s1).
      * intros dep Hdep. by apply round_done.
      * intros key' _ H. left. by rewrite Hs1 in H.
      * apply (settled_forth _ s2); [done|done|]. split; [done|]. exists key. split_and!; try done.
        destruct Hq as [_ (key' & Hk' & Hak') _ _]. destruct Hkey as (t1 & E1 & ->), Hak' as (t2 & E2 & ->).
        congruence.
  - assert (Hset : ∀ m y, settled s2 s' j m y → settled s s' j m y).
    { intros m y. apply settled_back; [intros dep Hdep; by apply round_done|].
      intros key' Hk' H. apply (turn_receipted id n s1 s2 j m) in H; [|done..].
      destruct H as [H|H]; [left; by rewrite Hs1 in H|by right]. }
    destruct (occurrences s !! j) as [x|] eqn:Ex.
    + assert (Hx2 : occurrences s2 !! j = Some x) by (apply Hold; [done|by rewrite round_others]).
      destruct (Hfate j) as [Hsame|y p Hn|m y Hnin Hbefore Hy Hs].
      * apply fa_same. congruence.
      * congruence.
      * rewrite Hx2 in Hbefore. apply (fa_settled _ _ _ _ m y); [|by rewrite Ex|done|by apply Hset].
        intros Hin. apply Hnin. by right.
    + destruct (occurrences s2 !! j) as [x|] eqn:Ex2.
      * destruct (Hnew j x Hj) as (Hp & Ha & Hpar); [by rewrite round_others|done|].
        destruct (fate_some _ _ _ _ _ (Hfate id) Hr) as (r' & Hr' & _).
        destruct (Hfate j) as [Hsame|y p Hn|m y Hnin Hbefore Hy Hs].
        -- apply (fa_new _ _ _ _ x id); try done; by rewrite Hsame.
        -- congruence.
        -- rewrite Ex2 in Hbefore. destruct Hbefore as (_ & -> & Hiy). rewrite Ha in Hs.
           apply (fa_settled _ _ _ _ 1 y); [|rewrite Ex; split; [done|]|done|by apply Hset].
           ++ intros Hin. apply Hnin. by right.
           ++ exists id. split; [|by exists r']. destruct (identity_same _ _ Hiy) as (_ & _ & -> & _). done.
      * destruct (Hfate j) as [Hsame|y p Hn Hy|m y Hnin Hbefore Hy Hs].
        -- apply fa_same. congruence.
        -- by apply (fa_new _ _ _ _ y p).
        -- rewrite Ex2 in Hbefore. apply (fa_settled _ _ _ _ m y); [|by rewrite Ex|done|by apply Hset].
           intros Hin. apply Hnin. by right.
Qed.
End round.

Lemma count_app key l1 l2 : count key (l1 ++ l2) = count key l1 + count key l2.
Proof. unfold count. rewrite List.filter_app, length_app. lia. Qed.

Lemma dispatch_loop_fate now turns claimed counted (w w' : world (G:=G) (D:=D)) counted' :
  dispatch_loop ZoneInfo self dispatcher during_dispatch now turns claimed counted w = (Ok counted', w') →
  receipts_grow (w_store w) (w_store w') ∧ (∀ id, fate claimed (w_store w) (w_store w') id) ∧
  Z.of_nat (size (occurrences (w_store w'))) + count "continued" counted =
    Z.of_nat (size (occurrences (w_store w))) + count "continued" counted'.
Proof.
  revert claimed counted w. induction turns as [|turns IH]; intros claimed counted w H.
  { injection H as <- <-. split_and!; [by intros j x| |lia]. intros id. by apply fa_same. }
  cbn [dispatch_loop] in H. apply M_bind_ok in H as (claim & w1 & Hc & H).
  apply zoom_ok in Hc as (s1 & Hc & ->). destruct claim as [o|].
  2: { injection H as <- <-. cbn [w_store]. assert (s1 = w_store w) as -> by (by eapply claim_none).
       split_and!; [by intros j x| |lia]. intros id. by apply fa_same. }
  apply M_bind_ok in H as (events & w2 & Ht & H).
  apply claim_ok in Hc as (id & row & key & Hrow & Hpend & Hnot & Hkey & Hs1 & Hrec).
  destruct (proposal_of _ _ _ Hrec) as (Hid & _ & Hat & Hk & _). cbn in Hat, Hk.
  eapply (claimed_turn _ _ _ _ _ key) in Ht;
    [|cbn [w_store]; rewrite Hid, Hs1; cbn; by rewrite lookup_insert_eq
     |rewrite Hat; by split|by rewrite Hid|by rewrite Hid, Hat].
  rewrite Hid, Hat in Ht. cbn [w_store] in Ht. destruct Ht as (k & Ht & Hcount & Hre).
  rewrite Hid in H. destruct (IH _ _ _ H) as (Hgrow' & Hfate & Hsize).
  pose proof (tu_size _ _ _ _ _ _ Ht) as Hsz. rewrite Hs1 in Hsz. cbn in Hsz.
  rewrite map_size_insert_Some in Hsz by (by exists row).
  split_and!.
  - eapply receipts_grow_trans; [|exact Hgrow']. pose proof (tu_receipts _ _ _ _ _ _ Ht) as Hg.
    intros j x Hx. apply Hg. by rewrite Hs1.
  - intros j. by eapply (round_fate claimed (w_store w) s1 (w_store w2) (w_store w') id key).
  - rewrite count_app in Hsize. assert (E : count "continued" ("claimed" :: events) = count "continued" events)
      by (unfold count; done). lia.
Qed.

(** C11. A round of dispatches settles what it claims, as the dispatcher answered.
    Provided that nobody but its heartbeats writes the store meanwhile and the round
    returns: every occurrence is as before, or a follow-up still to be dispatched,
    or was claimed exactly once and now holds no claim.  A claimed one either
    named a dependency that was not done when the round began, and waits, or the
    dispatcher was asked with the proposal, the attempt and the key, and its answer
    decides the state: done, waiting and needs_operator are taken over, an
    ambiguous mutation goes to the operator, a retryable failure back to pending
    while attempts are left, anything else to the operator.  The attempt's receipt
    records that answer, unless its key had one before or collides. *)
Theorem dispatch_settles now (w w' : world (G:=G) (D:=D)) counts :
  dispatch_pending ZoneInfo self dispatcher during_dispatch now w = (Ok counts, w') →
  receipts_grow (w_store w) (w_store w') ∧ ∀ id, fate [] (w_store w) (w_store w') id.
Proof.
  unfold dispatch_pending. intros H. apply M_bind_ok in H as ([] & ? & [_ ->]%lift_ok & H).
  apply M_bind_ok in H as (counted & w1 & H & [= _ <-]). apply dispatch_loop_fate in H. tauto.
Qed.
End dispatches.

(** ** Ticks

    A tick prepares, then dispatches if it was given a dispatcher. *)
Section whole_ticks.
Context (ZoneInfo : string → result (Z → Z)) {G D : Type} (self : SchedulerEngine (G:=G))
  (dispatcher : SharedDispatchRequest → M D SharedDispatchResult)
  (during_dispatch : SharedDispatchRequest → list during).

Lemma tick_prepared now b (w w' : world (G:=G) (D:=D)) receipt :
  tick ZoneInfo self dispatcher during_dispatch now b w = (Ok receipt, w') →
  0 ≤ now ∧ ∃ r m n states replayed s1 w1,
    prepare_tick ZoneInfo self now (w_store w) = (Ok (r, m, n, states, replayed), s1) ∧
    w_store w1 = s1 ∧ tr_created_occurrences receipt = Z.of_nat (length states) ∧
    tr_replayed_occurrences receipt = replayed ∧
    if b then dispatch_pending ZoneInfo self dispatcher during_dispatch now w1 =
                (Ok (tr_dispatch receipt), w')
    else w' = w1 ∧ tr_dispatch receipt = dispatch_counts [].
Proof.
  unfold tick. intros H. apply M_bind_ok in H as ([] & ? & [Hnow ->]%lift_ok & H).
  apply raise_if_ok, Z.ltb_ge in Hnow. split; [done|].
  apply M_bind_ok in H as ([[[[r m] n] states] replayed] & w1 & Hp & H).
  apply zoom_ok in Hp as (s1 & Hp & ->). apply M_bind_ok in H as (counts & w2 & Hd & H).
  destruct r as [[retried needs] finalized]. injection H as <- <-.
  exists (retried, needs, finalized), m, n, states, replayed, s1,
    {| w_store := s1; w_graph := w_graph w; w_dispatch := w_dispatch w |}. split; [exact Hp|].
  split_and!; [done|done|done|]. destruct b; [exact Hd|]. injection Hd as <- <-. done.
Qed.

(** A new occurrence of a tick: a due time of an enabled schedule, or a follow-up. *)
Inductive tick_new (s s' : SchedulerStore) (now : Z) (id : string) (r : occurrence_row) : Prop :=
  | tn_due schedule due : enabled_schedule ZoneInfo s schedule →
      due_times ZoneInfo self schedule now = Ok due → due_among schedule now due id r →
      tick_new s s' now id r
  | tn_followup parent : o_parent_occurrence_id r = Some parent → is_Some (occurrences s' !! parent) →
      tick_new s s' now id r.

(** What a round of dispatches leaves to the schedules. *)
Record dispatched (counts : DispatchCounts) (s s' : SchedulerStore) : Prop := {
  di_schedules : versions s' = versions s ∧ heads s' = heads s;
  di_fate : ∀ id, fate self dispatcher [] s s' id;
  di_size : Z.of_nat (size (occurrences s')) = Z.of_nat (size (occurrences s)) + dc_continued counts
}.

Lemma dispatch_all_ok now (w w' : world (G:=G) (D:=D)) counts :
  (∀ request e, e ∈ during_dispatch request → ∃ t, e = Beat t) →
  dispatch_pending ZoneInfo self dispatcher during_dispatch now w = (Ok counts, w') →
  dispatched counts (w_store w) (w_store w').
Proof.
  intros Hb H. pose proof (dispatch_pending_calls ZoneInfo self dispatcher during_dispatch dispatch_call
    ltac:(by split) ltac:(intros q c Hc; destruct (Hb q _ Hc); discriminate) now w) as Hcalls.
  rewrite H in Hcalls. apply by_dispatch_schedules in Hcalls. revert H. unfold dispatch_pending. intros H.
  apply M_bind_ok in H as ([] & ? & [_ ->]%lift_ok & H).
  apply M_bind_ok in H as (counted & w1 & H & [= <- <-]).
  apply dispatch_loop_fate in H as (_ & Hf & Hsize); [|done]. split; [done|done|].
  change (count "continued" []) with 0 in Hsize. cbn [dc_continued dispatch_counts]. lia.
Qed.

Lemma dispatched_filled counts s s' sid v t : dispatched counts s s' → filled s sid v t → filled s' sid v t.
Proof.
  intros Hd (id & r & Hr & H). destruct (di_fate _ _ _ Hd id) as [Hsame|x p Hn|n x _ Hb Hx _].
  - exists id, r. by rewrite Hsame.
  - congruence.
  - rewrite Hr in Hb. destruct Hb as (_ & _ & Hi). destruct (identity_same _ _ Hi) as (_ & _ & _ & Es & _).
    exists id, x. split; [done|]. by rewrite Es.
Qed.

Lemma dispatched_new counts s s1 s' now id r : dispatched counts s1 s' → occurrences s1 !! id = None ∨
    (∃ r1 schedule due, occurrences s1 !! id = Some r1 ∧ enabled_schedule ZoneInfo s schedule ∧
      due_times ZoneInfo self schedule now = Ok due ∧ due_among schedule now due id r1) →
  occurrences s' !! id = Some r → tick_new s s' now id r.
Proof.
  intros Hd [Hn|(r1 & schedule & due & Hr1 & Hen & Hdue & Ham)] Hr;
    destruct (di_fate _ _ _ Hd id) as [Hsame|x p Hn' Hx _ _ Hp Hpar|n x _ Hb Hx _]; try congruence.
  - eapply tn_followup; [|exact Hpar]. congruence.
  - rewrite Hn in Hb. destruct Hb as (_ & p & Hp & Hpar). eapply tn_followup; [|exact Hpar]. congruence.
  - eapply tn_due; [done|done|]. congruence.
  - rewrite Hr1 in Hb. destruct Hb as (_ & _ & Hi). assert (x = r) as -> by congruence.
    destruct (identity_same _ _ Hi) as (_ & _ & Ep & Es & Ec). eapply tn_due; [done|done|].
    destruct Ham as (t & Ht & Hid & Hs & Ha & Hpa). exists t. split; [done|]. split_and!; congruence.
Qed.

(** C9. Each due time becomes an occurrence exactly once.  After a tick at [now], with
    or without a dispatcher - provided that, while it dispatches, only its heartbeats
    write the store - for every enabled schedule the slots of its due times since
    the last evaluation are filled and its cursor stands at [now]; every new
    occurrence is one of these due times under its stable id, or a follow-up of an
    occurrence that is there; the receipt counts both; and a further tick at the same
    time, of either kind, creates and replays no due time. *)
Theorem tick_exactly_once now b (w w' : world (G:=G) (D:=D)) receipt :
  (b = true → ∀ request e, e ∈ during_dispatch request → ∃ t, e = Beat t) →
  store_ok ZoneInfo (w_store w) → 0 < max_occurrences_per_schedule (en_config self) →
  tick ZoneInfo self dispatcher during_dispatch now b w = (Ok receipt, w') →
  (∀ schedule, enabled_schedule ZoneInfo (w_store w) schedule → ∃ due,
     due_times ZoneInfo self schedule now = Ok due ∧
     (∀ t, t ∈ due → filled (w_store w') (schedule_id (spec schedule)) (version schedule) t) ∧
     ∃ h, heads (w_store w') !! schedule_id (spec schedule) = Some h ∧
       h_version h = version schedule ∧ cursor_at h now) ∧
  (∀ id r, occurrences (w_store w) !! id = None → occurrences (w_store w') !! id = Some r →
     tick_new (w_store w) (w_store w') now id r) ∧
  Z.of_nat (size (occurrences (w_store w'))) = Z.of_nat (size (occurrences (w_store w))) +
    tr_created_occurrences receipt + dc_continued (tr_dispatch receipt) ∧
  ∀ b2 receipt2 w2, tick ZoneInfo self dispatcher during_dispatch now b2 w' = (Ok receipt2, w2) →
    tr_created_occurrences receipt2 = 0 ∧ tr_replayed_occurrences receipt2 = 0.
Proof.
  intros Hbeats Hs Hmax H.
  destruct (tick_prepared _ _ _ _ _ H) as (Hnow & r & m & n & states & replayed & s1 & w1 & Hp & Es1 & Ec & _ & Hd).
  assert (Hdone : dispatched (tr_dispatch receipt) s1 (w_store w') ∧ store_ok ZoneInfo (w_store w')).
  { pose proof (prepare_good _ _ _ _ _ _ Hp Hs) as Hs1. rewrite <-Es1 in *. destruct b.
    - pose proof (dispatch_all_ok _ _ _ _ (Hbeats eq_refl) Hd) as Hx. split; [exact Hx|].
      pose proof (dispatch_pending_calls ZoneInfo self dispatcher during_dispatch (good_call ZoneInfo)
        (good_dispatch_calls ZoneInfo) ltac:(intros q c Hc; destruct (Hbeats eq_refl q _ Hc); discriminate)
        now w1) as Hcalls.
      rewrite Hd in Hcalls. destruct Hcalls as (cs & Hcs & E). cbn [snd] in E. rewrite E. by apply after_all_ok.
    - destruct Hd as [-> ->]. split; [|done]. split; [done|intros id; by apply fa_same|change (dc_continued (dispatch_counts [])) with 0; lia]. }
  destruct Hdone as [Hdisp Hs'].
  destruct (prepare_ok _ _ _ _ _ _ _ _ _ _ Hs Hp) as (schedules & s2 & Hset & Hmem & He & Hsize & _).
  destruct (di_schedules _ _ _ Hdisp) as [Hversions Hheads].
  assert (Hcursor : ∀ schedule, enabled_schedule ZoneInfo (w_store w) schedule →
    ∃ h, heads s1 !! schedule_id (spec schedule) = Some h ∧ h_version h = version schedule ∧ cursor_at h now).
  { intros schedule Hen. destruct (enabled_head _ _ _ Hen) as (h & Hh & Hv & _).
    apply (el_cursors _ _ _ _ _ _ He schedule h); [by apply Hmem|by rewrite (st_heads _ _ Hset)|done]. }
  split; [|split; [|split]].
  - intros schedule Hen. destruct (el_filled _ _ _ _ _ _ He schedule) as (due & Hdue & Hf); [by apply Hmem|].
    exists due. split; [done|]. split; [|by rewrite Hheads; apply Hcursor].
    intros t Ht. by eapply dispatched_filled, Hf.
  - intros id x Hn Hx. apply (st_none _ _ Hset) in Hn. eapply dispatched_new; [done| |done].
    destruct (occurrences s1 !! id) as [r1|] eqn:E1; [right|by left].
    destruct (ad_new _ _ _ (el_adds _ _ _ _ _ _ He) _ _ Hn E1) as (schedule & due & Hin & Hdue & Ha).
    exists r1, schedule, due. split; [done|]. split; [by apply Hmem|done].
  - rewrite (di_size _ _ _ Hdisp), Hsize, Ec. lia.
  - intros b2 receipt2 w2 H2.
    destruct (tick_prepared _ _ _ _ _ H2) as (_ & r2 & m2 & n2 & states2 & replayed2 & s3 & w3 & Hp2 & _ & -> & -> & _).
    destruct (prepare_ok _ _ _ _ _ _ _ _ _ _ Hs' Hp2) as (schedules2 & s4 & Hset2 & Hmem2 & _ & _ & Hnone).
    destruct Hnone as [-> ->]; [|done]. intros schedule2 Hin2. apply nothing_due; [done..|].
    apply Hmem2, (enabled_same _ s1) in Hin2; [|done..].
    by apply (enabled_cursor _ _ _ _ _ _ _ Hset He Hmem).
Qed.
End whole_ticks.

(** ** What a tick keeps *)

(** Whatever a tick does - with or without a dispatcher, returning or raising,
    with other processes working on the store during its dispatches - the tables
    stay consistent and every occurrence only goes forward in its life: it is not
    lost, its slot and proposal stay, its attempts do not decrease and a terminal
    one is frozen. *)
Theorem tick_keeps_promises (ZoneInfo : string → result (Z → Z)) {G D : Type} (self : SchedulerEngine (G:=G))
    (dispatcher : SharedDispatchRequest → M D SharedDispatchResult) during_dispatch now b
    (w : world (G:=G) (D:=D)) :
  (∀ request, others_satisfy (good_call ZoneInfo) (during_dispatch request)) → store_ok ZoneInfo (w_store w) →
  let s' := w_store (tick ZoneInfo self dispatcher during_dispatch now b w).2 in
  store_ok ZoneInfo s' ∧
  ∀ id r, occurrences (w_store w) !! id = Some r → ∃ r', occurrences s' !! id = Some r' ∧ ages r r'.
Proof.
  intros Hgood Hs. cbv zeta.
  pose proof (tick_calls ZoneInfo self dispatcher during_dispatch now b Hgood w) as H.
  destruct H as (cs & Hcs & ->). split; [by apply after_all_ok|]. intros id r. apply after_all_ages.
Qed.

(** ** Witnesses *)
Definition demo_engine : SchedulerEngine (G:=unit) :=
  {| en_config := default_config; en_owner := "worker-a"; en_domain_event_graph := None |}.

Definition demo_dispatcher (request : SharedDispatchRequest) : M unit SharedDispatchResult :=
  mret {| rs_status := "done"; rs_reason := "DISPATCHED"; rs_evidence_ref := "dispatch:demo";
          rs_receipt := JObj [("public_safe", JBool true)]; rs_retryable := false;
          rs_waiting_dependency := None; rs_next_step := None |}.

(** The demo schedule is registered; during a dispatch the lease is renewed. *)
Definition demo_world : world (G:=unit) (D:=unit) :=
  {| w_store := after_all demo_zones (take 1 demo_calls) empty_store; w_graph := tt; w_dispatch := tt |}.

Definition demo_during (request : SharedDispatchRequest) : list during := [Beat 31020].

Lemma demo_world_ok : store_ok demo_zones (w_store demo_world).
Proof.
  apply after_all_ok; [|apply empty_ok]. apply Forall_cons. split; [exact demo_good|constructor].
Qed.

Definition demo_tick (b : bool) : result TickReceipt * world :=
  tick demo_zones demo_engine demo_dispatcher demo_during 31000 b demo_world.

Definition demo_due : world (G:=unit) (D:=unit) := (demo_tick false).2.

Definition demo_dispatch : result DispatchCounts * world :=
  dispatch_pending demo_zones demo_engine demo_dispatcher demo_during 31000 demo_due.

Lemma demo_ticked : ∃ receipt, demo_tick false = (Ok receipt, demo_due) ∧ tr_created_occurrences receipt = 1.
Proof. eexists. unfold demo_due. rewrite (surjective_pairing (demo_tick false)). vm_compute. by split. Qed.

Lemma demo_dispatched : ∃ counts, demo_dispatch = (Ok counts, demo_dispatch.2) ∧ dc_done counts = 1.
Proof. eexists. rewrite (surjective_pairing demo_dispatch) at 1. vm_compute. by split. Qed.

Lemma demo_beats request e : e ∈ demo_during request → ∃ t, e = Beat t.
Proof. intros He%list_elem_of_singleton. by exists 31020. Qed.

Lemma demo_ticked_dispatched : ∃ receipt, demo_tick true = (Ok receipt, (demo_tick true).2) ∧
  tr_created_occurrences receipt = 1 ∧ dc_continued (tr_dispatch receipt) = 0.
Proof. eexists. rewrite (surjective_pairing (demo_tick true)) at 1. vm_compute. by split_and!. Qed.

Lemma tick_exactly_once_witness : ∃ w', w' = (demo_tick true).2 ∧
  Z.of_nat (size (occurrences (w_store w'))) = 1 ∧
  ∀ b receipt w2, tick demo_zones demo_engine demo_dispatcher demo_during 31000 b w' = (Ok receipt, w2) →
    tr_created_occurrences receipt = 0 ∧ tr_replayed_occurrences receipt = 0.
Proof.
  destruct demo_ticked_dispatched as (receipt & H & Hone & Hzero). exists (demo_tick true).2.
  split; [reflexivity|].
  destruct (tick_exactly_once demo_zones demo_engine demo_dispatcher demo_during 31000 true demo_world
    (demo_tick true).2 receipt (λ _, demo_beats) demo_world_ok eq_refl H) as (_ & _ & Hsize & Hagain).
  split; [|exact Hagain]. rewrite Hsize, Hone, Hzero. reflexivity.
Defined.

Lemma dispatch_settles_witness : ∃ counts w', demo_dispatch = (Ok counts, w') ∧ dc_done counts = 1 ∧
  ∀ id, fate demo_engine demo_dispatcher [] (w_store demo_due) (w_store w') id.
Proof.
  destruct demo_dispatched as (counts & H & Hone). exists counts, demo_dispatch.2.
  split; [exact H|]. split; [exact Hone|].
  exact (proj2 (dispatch_settles demo_zones demo_engine demo_dispatcher demo_during demo_beats 31000
    demo_due demo_dispatch.2 counts H)).
Defined.

(** Ten minutes after its registration a schedule is due ten times, but an engine
    that takes two times per evaluation creates two occurrences; its cursor then stands
    at the time of the tick, and a second tick finds nothing. *)
Definition minutely_spec : ScheduleSpec := {|
  schedule_id := "minutely"; trigger_kind := "cron"; cron_expression := Some "* * * * *";
  once_at := None; timezone := "Europe/Rome"; route_type := "loop"; route_id := "loop_engine_packet";
  approval_policy := "auto_run_low_risk"; overlap_policy := "queue_one"; misfire_policy := "run_once";
  payload := JObj [] |}.

Definition narrow_engine : SchedulerEngine (G:=unit) :=
  {| en_config := {| stale_running_after_seconds := 3600; max_attempts := 2; misfire_grace_seconds := 900;
       max_occurrences_per_schedule := 2; max_lookback_seconds := 86400; initial_lease_seconds := 300;
       heartbeat_interval_seconds := 60; max_dispatches_per_tick := 10 |};
     en_owner := "worker-a"; en_domain_event_graph := None |}.

Definition narrow_ticks : list Z :=
  let w0 : world (G:=unit) (D:=unit) :=
    {| w_store := after demo_zones (Register minutely_spec 1200 true) empty_store; w_graph := tt; w_dispatch := tt |} in
  let run := tick demo_zones narrow_engine demo_dispatcher demo_during 1800 false in
  let '(r1, w1) := run w0 in let '(r2, _) := run w1 in
  match r1, r2 with Ok a, Ok b => [tr_created_occurrences a; tr_created_occurrences b] | _, _ => [] end.

Example surplus_times_lost :
  new_config (en_config narrow_engine) = Ok (en_config narrow_engine) ∧
  iter_due_times demo_zones minutely_spec 1140 1800 256 =
    Ok [1200; 1260; 1320; 1380; 1440; 1500; 1560; 1620; 1680; 1740; 1800] ∧
  narrow_ticks = [2; 0].
Proof. split_and!; vm_compute; reflexivity. Qed.
